(* ===== verification/_CoqProject ===== *)
-Q . S2P
Prelude.v
State.v
Text.v
Registry.v
ToyCrypto.v
Wrappers.v
Context.v
Consts.v
Inner.v
Fragmentation.v
Payload.v
Packets.v
Filtering.v
Size.v
Sha256.v
Fipr.v
FiprSession.v
NetAddr.v
GoStrings.v
Shard.v
ShardSystem.v
FiprRouting.v
Routing.v
Listener.v
Assembler.v
Processor.v
Output.v
Mpmc.v
MpmcRing.v
MpmcSystem.v
Scaling.v
Metrics.v
Sender.v
IoModules.v
Journal.v
FileInput.v
Base64.v
Network.v
Config.v
Keys.v
Lifecycle.v
Logger.v
Watch.v
MetricsServer.v
FileOps.v
Template.v
Installer.v
InstallerLaws.v
InstallerSteps.v
Drain.v
OutputStage.v
Runtime.v
RuntimeLaws.v
Collect.v
