(* ===== verification/Prelude.v ===== *)
(** * SDSyslog: the protocols and the pipelines of both daemons, verified

    SDSyslog ships log messages over UDP. A sending daemon cuts each message
    into fragments, serializes and encrypts every fragment into one packet and
    sends the packets; a receiving daemon validates and decrypts packets, puts
    the fragments of a message back together and hands the message to its
    outputs. While a receiver replaces its own process, the old and the new
    process hand fragments to each other over a Unix socket with an
    authenticated protocol of its own, FIPR.

    ** The parts of the program and the files that model them

    The message protocol, [src/pkg/protocol]; [Create] is what the sender's
    assembler calls, the three [Deconstruct] functions are what the receiver's
    processor calls, [Defragment] is what the receiver's assembler calls and
    [Extract] is all of them in one:
<<
      Create  = CreateSignature, CalculateProtocolOverhead, Fragment, and for
                each fragment ConstructPayload, ConstructInnerPayload,
                ConstructOuterPayload
      Extract = for each packet DeconstructOuterPayload,
                DeconstructInnerPayload, DeconstructPayload; then Defragment
>>
    - [Text]: [text.go], and the string functions of Go it uses.
    - [Context]: [context.go], typed custom-field values on the wire.
    - [Consts]: [consts.go] and the records of [types.go].
    - [Inner]: [inner.go], serializer and parser of the inner wire format;
      [layout] and [inner_ok] are their specification.
    - [Fragmentation]: [fragmentation.go]; [slots] specifies reassembly.
    - [Payload]: [payload.go], validation in both directions and the sender's
      trust ([checkSender] is the part of [DeconstructPayload] that looks up
      the pinned key).
    - [Packets]: [outer.go] and [wrapper.go].
    - [Size]: [size.go]. [Filtering]: [pkg/protocol/filtering.go] and
      [internal/filtering].

    Cryptography: [Registry] ([pkg/crypto/registry] with
    [internal/crypto/{aead,ecdh,hash,hkdf,random}]) and [Wrappers]
    ([internal/crypto/wrappers]). The algorithms of Go's packages are the
    fields of the class [Prims], and [PrimLaws] states what the protocol
    relies on: agreement of key exchange, opening inverts sealing, signing
    verifies, lengths. [ToyCrypto] is a lawful instance, for the examples.
    SHA-256 and HMAC are defined outright in [Sha256], with published test
    vectors.

    The routing protocol, [src/pkg/fipr]: [Fipr] is the session record, frames
    ([encoding.go], [validation.go]) and the transport ([framing.go]);
    [FiprSession] the acknowledged exchanges ([handlers.go]) and the calls of
    both ends ([public.go]).

    The receiver, [src/internal/receiver], in the order of its pipeline: the
    listener takes packets from the socket and refuses replays, the processor
    decrypts them and routes each fragment to a shard, the shard collects the
    fragments of a message until they are complete or their time is over, the
    assembler puts them together and the output worker hands the message to
    the outputs. The stages are connected by queues.
<<
      socket -> Listener.listen -> queue -> Processor.processEntry
             -> Routing.RouteFragment -> Shard.push   (or FIPR to a peer)
             -> Shard.DrainBucket, Assembler -> queue -> Output.round
>>
    - [NetAddr]: Go's [netip] addresses, parsed and printed; [GoStrings]: what
      the program uses of [strings] and [strconv].
    - [Listener]: [listener/{worker,replayprotection,manager}.go].
    - [Processor]: [processor/worker.go]; its theorem runs a message through
      all the stages up to the assembler.
    - [Routing]: [shard/routing.go] and [shard/fiprsend/discovery.go], against
      any view of the shards; [Assembler]: the view that the manager of
      [assembler/*.go] gives, its instances coming and going.
    - [FiprRouting]: both ends of a hand-over, [shard/fiprsend/send.go] and
      [shard/fiprrecv/receive.go].
    - [Shard]: [shard/{queue,runtime}.go] as functions; [ShardSystem]: the same
      operations of concurrent goroutines as steps, with the mutex and the
      channel of keys.
    - [Mpmc]: the queue of [internal/queue/mpmc/entry.go], one step for each
      atomic access; [MpmcRing] is one ring, [MpmcSystem] the queue that moves
      from one ring to another when it is resized.
    - [Scaling]: [receiver/scaling], the trends of [queue/mpmc/scaling.go],
      [shard/scaling.go], [listener/scaling.go] and [internal/calc].
    - [Output]: [output/worker.go] with the file output
      ([iomodules/file/write.go]) and the sending loop of the beats output.

    The sender, [src/internal/sender]: sources make messages, the assembler
    makes packets of them, the output sends the packets.
<<
      FileInput.reader, Journal.readRound, IoModules.rawRound -> queue
             -> Sender.Packing.assemble (Create) -> queue
             -> Sender.Sending.send -> socket
>>
    - [Sender]: the managers, workers and counters of
      [sender/{assembler,output}], their scaling, the table of file sources and
      the packet size of [internal/network/mtu.go].
    - [IoModules]: what the modules of [internal/iomodules] share, the syslog
      tables and the small modules; [Journal]: [iomodules/journald] in both
      directions; [FileInput]: [iomodules/file/{read,rotation,state,parsing}.go].
    - [Metrics]: the registry of [internal/metrics] that both daemons fill and
      search.

    What both daemons are made of besides their pipelines:
    - [Network]: addresses and source selection,
      [internal/network/{parsing,local}.go].
    - [Config]: options, defaults and included inputs
      ([{sender,receiver}/{types,config}.go]) and the managers that [Start]
      makes of them ([{sender,receiver}/runtime.go]), up to its sources or
      listeners.
    - [Keys]: [Init] and [ReloadSigningKeys] of both daemons
      ([{sender,receiver}/{new,config}.go]), the commands that edit key files
      ([receiver/signingkeys.go], [sender/signingkey.go]) and the signal that
      announces an edit ([lifecycle/pinnedkeys.go]); [Base64] is
      [encoding/base64] as they use it.
    - [Lifecycle]: [internal/lifecycle], signals and the update that replaces a
      running process, against the class [DaemonLike], of which both daemons
      are instances.
    - [Logger]: [internal/logctx], the log that every part writes to.
    - [Watch]: [iomodules/file/inotify], which wakes the reader of [FileInput];
      [Sys] is the watcher together with the kernel's queue and the reader,
      from the opening of the file on, and [exec] their steps, failures
      included, which the reader's select and the kernel order in any way;
      [missed] is a field of the specification that marks what the program
      cannot notice.
    - [Collect]: what the gatherers of both daemons ([metrics/entry.go]) read
      at every tick ([CollectMetrics] of the components), with the name
      spaces of the components, and the counters of a queue over its events;
      the loop around a tick, with its retention check, is [collect] of
      [Metrics].
    - [MetricsServer]: [metrics/server], the HTTP requests about metrics,
      against the class [MetricSource] of what it may ask for, of which the
      registry of [Metrics] is the instance ([registrySource]).
    - [FileOps]: [internal/fsops], on a [World] of files in which any operation
      may meet a [fault]; [State] is the monad of methods that change their
      receiver and may fail.
    - [Template]: the configurations that [internal/setup/config.go] writes;
      [Installer]: the six steps of [internal/setup], the runs over them
      ([entry.go]) and the command ([cli/setup.go]). [StepLaws] of
      [InstallerLaws] is what a step promises; that file proves from it what
      becomes of a run, [InstallerSteps] that the six steps keep it.
    - [Drain]: the end of a stage, [Shutdown] of both daemons with
      [atomics/watchers.go], as steps of the workers and of the daemon that
      waits for the counter; [OutputStage]: that of the receiver's output,
      which is two goroutines. [Runtime]: what a daemon has running, [Start]
      and [Shutdown] of [sender/runtime.go] and [receiver/runtime.go] as the
      goroutines they start, end and let go; its laws are in [RuntimeLaws].

    ** Conventions

    Go's integers are [Z] with [wrapU]/[wrapS] where the code converts; bytes
    are [Byte.byte], strings and byte slices are [list byte]; maps are [gmap].
    A Go function with an error result returns [res]: [Ok], [Err] with the
    chain of wrapped sentinel errors ([errors.Is] is [errIs], [==] is
    [errEq]), or [Panic] for a run-time panic. What a function mutates is part
    of its result; a FIPR session method is a computation in the state monad
    [SM]. Iteration over a Go map is modelled by [map_to_list] where the
    order cannot matter (and the theorems show it does not) and by an
    argument that is any permutation where it can. Randomness, the padding and
    encryption entropy of each fragment, is an argument ([Randomness]). The
    connection of a session is a script of answers to [Read], [Write] and the
    deadline calls.

    Loops run on fuel only where the recursion is not structural:
    [fragmentLoop] on the length of the message (every round takes a byte,
    [Fragment_succeeds] shows it never runs out), [readContextFields] on the
    length of its section ([DeconstructInnerPayload_total]), [readLoop] on
    the script of reads. The bounds of [awaitLoop] and [awaitAckLoop] are
    those of the code.

    ** The theorems

    - End to end: [Extract] inverts [Create] for packets in any order, no
      packet exceeds the requested size (with at most three empty texts),
      no packet makes the receiver panic, a fragment is recorded under a
      pinned host's name only with that host's signature.
    - The wire format: serializer and parser are exact inverses on well-formed
      records, on every branch; custom values survive up to their wire form
      and decode canonically.
    - Fragmentation: numbering, sizes, termination, and reassembly of any
      subset in any order with placeholders for what is missing.
    - FIPR: only the exact frames of a holder of the secret are accepted at
      their sequence number; the transport does not depend on how the stream
      is cut; a client and a server reading each other's streams complete the
      exchange; closed sessions do nothing.
    - The receiver: a message's packets in any order come out of the assembler
      as the message ([message_delivered]); its fragments, routed one after
      the other, go to one shard while the set of shards does not change
      ([message_on_one_shard]); the replay
      cache answers as a full record would ([replay_verdicts]) and no packet
      passes twice while the windows fit ([packet_routed_once]); in every
      interleaving a filled bucket is announced once ([announced_exactly_once])
      and drained ([shard_drains]); every element of a queue comes out at most
      once and in the order of its ring ([queue_exactly_once]); a fragment
      handed to a peer arrives as the protocol carries it, but without its
      address ([routed_fragment_arrives]); the file
      output writes every line ([file_output_complete]).
    - The sender: every packet is queued or counted as dropped
      ([packet_accounting]) and what is on the wire decodes and is extracted to
      what was handed in ([wire_carries_messages]); a log file's lines are all
      read through growth and rotation ([file_followed]) and over a restart
      ([restart_resumes]), but for pushes that a stop cuts short, and the
      watcher misses no change but those that the field [missed] of its system
      stands for ([changes_noticed], [batch_processed]); lines become well-formed messages
      ([parseLine_typed], [parseLine_syslog]); journal entries are read in
      order ([journal_read_in_order]), and what is written to a journal can be
      read back ([journal_write_read]) and shown ([journal_notified]).
    - Metrics: everything that the components report at a tick is found again
      until a retention check removes it
      ([sender_readings_found], [receiver_readings_found]), and a queue
      reports what happened in it ([queue_counts_told]); a search finds
      exactly the last values written and kept ([Search_collected]), also over
      HTTP ([metrics_served]), aggregates are
      what their names say ([Aggregate_spec]), and a bulk request is answered
      filter by filter ([bulk_answers]).
    - Configuration: a complete configuration starts on every machine but
      those with one processor ([starts_iff_two_cpus]); included inputs are
      merged once and for all ([inputs_settle]); addresses resolve within
      their ranges ([parsed_address], [source_selected]).
    - Keys: a reload puts the keys of the file to use ([receiver_reload]), or
      leaves everything in use when it fails ([failed_reload_keeps_keys]);
      keys survive their files ([signing_key_roundtrip],
      [trust_then_distrust]); a sender can be initialised again
      ([sender_reinit]), and a reload without a change changes nothing
      ([reload_settled]).
    - Life cycle: no receiver stops before its child is ready
      ([update_hands_over]), and the child is stopped afterwards
      ([child_is_stopped]).
    - Start and shutdown: a shutdown leaves nothing running that was not told to
      end and ends the writers of a queue before its readers, but for those it
      does not wait for, which the theorems name; and a failed start leaves
      nothing but in one place ([sender_ends_clean], [receiver_ends_clean],
      [failed_sender_start_leaves_outputs]); a drained stage has handled every
      element but those that its counter misses ([drained_stage]), in a
      bounded number of steps unless the handling of an element never ends
      ([drain_ends]); the receiver's output loses at most its last three
      messages, if its queue is seen empty in time ([output_end_loses_three]).
    - Installing: an installation whose changes fail leaves the files as they
      were ([failed_install_undone]), a file is replaced whole or not at all
      ([AtomicFileReplace_all_or_nothing]), a dry run changes nothing
      ([dry_run_changes_nothing]).
    - The log: the writer prints its queue in order ([writer_prints_queue]),
      and the buffered lines are chronological ([lines_chronological]).
    - Filters compute the Boolean expression they describe; size estimates
      are additive.
    - What the code does although it should not: [overhead_nil_panics],
      [short_field_refused], [Defragment_bytes_panics], [send_without_ack],
      [deadlock_reachable], [counters_drift], [routed_fragment_not_reassembled],
      [scale_up_splits_message], [resize_of_empty_queue_blocks],
      [healthy_file_output_stops_program], [autoscaling_never_acts],
      [sender_scaling_blind], [truncated_start_lost], [first_restart_rereads],
      [journal_cursor_discarded], [journal_injection],
      [own_events_not_notified], [embedded_port_ignored], [reload_finds_itself],
      [empty_signing_key], [failed_update_ends_daemon], [half_second_lost],
      [namespace_needed], [rotation_error_forgotten], [rotation_given_up],
      [rotated_in_start], [stays_behind], [stop_loses_lines],
      [template_silences_the_journal], [apparmor_required],
      [second_daemon_refused].

    ** Not modelled

    Wiping of keys and nonces in memory (including that decryption wipes the
    nonce inside the packet's buffer) and key generation. The passing of time:
    deadlines and retry delays are the order of steps, the clocks of the busy-time metrics are
    left out. Sockets, eBPF, inotify, errors
    of the file system, D-Bus and HTTP: system calls whose results are
    arguments of the model where the code decides on them; only the installer
    has a file system of its own, without permissions. The text of JSON
    files, of times and of certificates is what Go's packages make of it, an
    argument. While a daemon shuts down its autoscaler takes no step. The other
    commands and the menus ([internal/cli], [cmd/sdsyslog]), the loading of
    kernel programs ([internal/ebpf]) and the build tool ([cmd/builder]) are sequences of such calls and are not modelled; nor are
    the loop that waits for the kernel's events ([run] of [file/inotify]) and
    the listening of the metrics' server. *)
From Stdlib Require Export ZArith Lia.
From stdpp Require Export sorting numbers gmap.
From stdpp Require Export base tactics list_relations list.
From Stdlib Require Import Init.Byte Strings.Byte.
From Stdlib Require Strings.String.
Export (notations) String.
Export String (string(..)).

#[global] Open Scope Z_scope.

(* ------------------------------------------------------------------ *)
(** * Bytes and byte strings                                            *)
(* ------------------------------------------------------------------ *)

(** A Go [byte]; a Go [string] and a [[]byte] are both lists of bytes. *)
Abbreviation byte := Byte.byte.
Abbreviation bytes := (list Byte.byte).
Abbreviation gostring := (list Byte.byte) (only parsing).

#[export] Instance byte_eq_dec : EqDecision byte := Byte.byte_eq_dec.

(** The value of a byte, and the conversion [byte(z)] that keeps the low
    eight bits. *)
Definition b2z (b : byte) : Z := Z.of_N (Byte.to_N b).
Definition z2b (z : Z) : byte :=
  default Byte.x00 (Byte.of_N (Z.to_N (z mod 256))).

Lemma b2z_range b : 0 <= b2z b < 256.
Proof. unfold b2z. pose proof (Byte.to_N_bounded b). lia. Qed.

Lemma z2b_b2z b : z2b (b2z b) = b.
Proof.
  unfold z2b. rewrite Z.mod_small by apply b2z_range.
  unfold b2z. rewrite N2Z.id, Byte.of_to_N. done.
Qed.

Lemma b2z_z2b z : b2z (z2b z) = z mod 256.
Proof.
  unfold z2b. pose proof (Z.mod_pos_bound z 256 ltac:(lia)) as Hz.
  destruct (Byte.of_N _) as [b|] eqn:E; simpl.
  - apply Byte.to_of_N in E. unfold b2z. rewrite E. lia.
  - apply Byte.of_N_None_iff in E. lia.
Qed.

Lemma b2z_inj a b : b2z a = b2z b -> a = b.
Proof. intros H. rewrite <- (z2b_b2z a), <- (z2b_b2z b). by rewrite H. Qed.

Lemma z2b_small z b : 0 <= z < 256 -> z2b z = b <-> z = b2z b.
Proof.
  intros Hz. split.
  - intros <-. rewrite b2z_z2b, Z.mod_small; done.
  - intros ->. apply z2b_b2z.
Qed.

#[export] Program Instance byte_countable : Countable byte :=
  inj_countable' Byte.to_N (fun n => default Byte.x00 (Byte.of_N n)) _.
Next Obligation. intros b. simpl. by rewrite Byte.of_to_N. Qed.

(** String literals of the source. *)
Definition str (s : string) : gostring := String.list_byte_of_string s.

(** Go's [len]: a non-negative [int]. *)
Definition len {A} (l : list A) : Z := Z.of_nat (length l).

Lemma len_nonneg {A} (l : list A) : 0 <= len l.
Proof. unfold len. lia. Qed.

Lemma len_nil {A} : len (@nil A) = 0.
Proof. done. Qed.

Lemma len_cons {A} (x : A) l : len (x :: l) = 1 + len l.
Proof. unfold len. simpl. lia. Qed.

Lemma len_app {A} (l k : list A) : len (l ++ k) = len l + len k.
Proof. unfold len. rewrite length_app. lia. Qed.

(* ------------------------------------------------------------------ *)
(** * Machine-width integers                                            *)
(* ------------------------------------------------------------------ *)

(** [uint16(z)], [uint32(z)], [uint64(z)] and the signed conversions. *)
Definition wrapU (w : Z) (z : Z) : Z := z mod 2 ^ w.
Definition wrapS (w : Z) (z : Z) : Z :=
  let m := z mod 2 ^ w in if m <? 2 ^ (w - 1) then m else m - 2 ^ w.

Lemma wrapU_small w z : 0 <= z < 2 ^ w -> wrapU w z = z.
Proof. intros. unfold wrapU. by apply Z.mod_small. Qed.

Lemma wrapU_range w z : 0 <= w -> 0 <= wrapU w z < 2 ^ w.
Proof. intros. unfold wrapU. apply Z.mod_pos_bound. lia. Qed.

Lemma wrapS_wrapU w z : 0 < w -> - 2 ^ (w - 1) <= z < 2 ^ (w - 1) ->
  wrapS w (z mod 2 ^ w) = z.
Proof.
  intros Hw Hz. unfold wrapS. rewrite Z.mod_mod by lia.
  assert (2 ^ w = 2 * 2 ^ (w - 1)) as E.
  { replace w with (Z.succ (w - 1)) at 1 by lia. rewrite Z.pow_succ_r; lia. }
  destruct (Z.ltb_spec z 0).
  - replace (z mod 2 ^ w) with (z + 2 ^ w).
    + destruct (Z.ltb_spec (z + 2 ^ w) (2 ^ (w - 1))); lia.
    + apply Z.mod_unique_pos with (-1); lia.
  - rewrite Z.mod_small by lia.
    destruct (Z.ltb_spec z (2 ^ (w - 1))); lia.
Qed.

Lemma wrapS_small w z : 0 < w -> - 2 ^ (w - 1) <= z < 2 ^ (w - 1) -> wrapS w z = z.
Proof.
  intros Hw Hz. rewrite <- (wrapS_wrapU w z Hw Hz) at 2.
  unfold wrapS. by rewrite Z.mod_mod by lia.
Qed.

(* ------------------------------------------------------------------ *)
(** * Big-endian encoding                                               *)
(* ------------------------------------------------------------------ *)

(** [binary.BigEndian.PutUint*] / [binary.Write]: [n] bytes, high first. *)
Fixpoint be_encode (n : nat) (v : Z) : bytes :=
  match n with
  | O => []
  | S n' => z2b (v / 256 ^ Z.of_nat n') :: be_encode n' v
  end.

(** [binary.BigEndian.Uint*] / [binary.Read]. *)
Fixpoint be_decode (l : bytes) : Z :=
  match l with
  | [] => 0
  | b :: l' => b2z b * 256 ^ len l' + be_decode l'
  end.

Lemma length_be_encode n v : length (be_encode n v) = n.
Proof. induction n; simpl; congruence. Qed.

Lemma len_be_encode n v : len (be_encode n v) = Z.of_nat n.
Proof. unfold len. by rewrite length_be_encode. Qed.

Lemma pow256_S n : 256 ^ Z.of_nat (S n) = 256 * 256 ^ Z.of_nat n.
Proof. rewrite Nat2Z.inj_succ, Z.pow_succ_r; lia. Qed.

Lemma pow256_pos n : 0 < 256 ^ Z.of_nat n.
Proof. apply Z.pow_pos_nonneg; lia. Qed.

Lemma be_decode_1 b : be_decode [b] = b2z b.
Proof. cbn [be_decode]. change (256 ^ len (@nil byte)) with 1. lia. Qed.

Lemma be_decode_range l : 0 <= be_decode l < 256 ^ len l.
Proof.
  induction l as [|b l IH]; simpl; [done|].
  unfold len in *. simpl length. rewrite pow256_S.
  pose proof (b2z_range b). nia.
Qed.

Lemma be_decode_encode n v : be_decode (be_encode n v) = v mod 256 ^ Z.of_nat n.
Proof.
  induction n as [|n IH]; simpl be_encode; cbn [be_decode].
  - by rewrite Z.mod_1_r.
  - rewrite IH, len_be_encode, b2z_z2b, pow256_S.
    pose proof (pow256_pos n).
    rewrite (Z.mul_comm 256), Z.rem_mul_r by lia. lia.
Qed.

Lemma be_encode_ext n v w :
  v mod 256 ^ Z.of_nat n = w mod 256 ^ Z.of_nat n -> be_encode n v = be_encode n w.
Proof.
  revert v w. induction n as [|n IH]; intros v w H; [done|].
  pose proof (pow256_pos n).
  simpl. rewrite pow256_S, (Z.mul_comm 256) in H.
  rewrite !Z.rem_mul_r in H by lia.
  pose proof (Z.mod_pos_bound v (256 ^ Z.of_nat n) ltac:(lia)).
  pose proof (Z.mod_pos_bound w (256 ^ Z.of_nat n) ltac:(lia)).
  set (P := 256 ^ Z.of_nat n) in *.
  destruct (Z.eq_dec ((v / P) mod 256) ((w / P) mod 256)) as [Hq|]; [|exfalso; nia].
  f_equal; [|apply IH; rewrite Hq in H; lia].
  apply b2z_inj. by rewrite !b2z_z2b.
Qed.

Lemma be_encode_decode l : be_encode (length l) (be_decode l) = l.
Proof.
  induction l as [|b l IH]; simpl; [done|].
  pose proof (be_decode_range l) as Hr. unfold len in *.
  pose proof (pow256_pos (length l)).
  f_equal.
  - rewrite Z.div_add_l, Z.div_small by lia. rewrite Z.add_0_r. apply z2b_b2z.
  - transitivity (be_encode (length l) (be_decode l)); [|done].
    apply be_encode_ext. rewrite Z.add_comm, Z.mod_add by lia. done.
Qed.

Lemma be_decode_encode_small n v :
  0 <= v < 256 ^ Z.of_nat n -> be_decode (be_encode n v) = v.
Proof. intros H. rewrite be_decode_encode. by apply Z.mod_small. Qed.

(* ------------------------------------------------------------------ *)
(** * Errors, panics and the two monads of the development              *)
(* ------------------------------------------------------------------ *)

(** Every sentinel error value ([errors.New]) the modelled packages
    declare or test with [errors.Is]. *)
Inductive sentinel :=
  (* io, net *)
  | ErrEOF | ErrUnexpectedEOF | ErrClosedPipe | ErrNetClosed
  (* pkg/protocol/consts.go *)
  | ErrInvalidPayload | ErrProtocolViolation | ErrSerialization
  | ErrFragmentation | ErrUnknownSuite | ErrUnknownSignatureSuite
  | ErrInvalidContextField | ErrCryptoFailure
  (* pkg/fipr/consts.go *)
  | ErrTransportFailure | ErrTransportWasClosed | ErrFrameHasPayload
  | ErrFrameHasNoPayload | ErrInvalidFrameLen | ErrPayloadWrongLength
  | ErrFrameTooShort | ErrFrameTooLarge | ErrOutOfOrderStart | ErrLateStart
  | ErrUnexpectedResponse | ErrBadSequence | ErrWrappedSequence
  | ErrInvalidResend | ErrResendWithoutSeq | ErrTooManyResends
  | ErrInvalidHMAC | ErrInvalidOpcode | ErrReceivedNoAck | ErrRemoteRejected
  | ErrShardShutdown | ErrSessionClosed | ErrSessionShutdown.

#[export] Instance sentinel_eq_dec : EqDecision sentinel.
Proof. solve_decision. Defined.

(** A Go error: a sentinel itself, or a [fmt.Errorf] value that wraps no,
    one or two errors through [%w]. *)
Inductive err :=
  | ESent (s : sentinel)
  | EMsg
  | EWrap (e : err)
  | EWrap2 (e1 e2 : err).

(** [errors.Is(e, s)] *)
Fixpoint errIs (s : sentinel) (e : err) : bool :=
  match e with
  | ESent s' => bool_decide (s = s')
  | EMsg => false
  | EWrap e => errIs s e
  | EWrap2 e1 e2 => errIs s e1 || errIs s e2
  end.

(** [err == s]: identity, not the wrapped chain. *)
Definition errEq (s : sentinel) (e : err) : bool :=
  match e with ESent s' => bool_decide (s = s') | _ => false end.

(** The outcome of a Go call: its results, its error, or a runtime panic. *)
Inductive res (A : Type) :=
  | Ok (a : A)
  | Err (e : err)
  | Panic.
Arguments Ok {A} a.
Arguments Err {A} e.
Arguments Panic {A}.

#[export] Instance res_ret : MRet res := @Ok.
#[export] Instance res_bind : MBind res := fun A B f m =>
  match m with Ok a => f a | Err e => Err e | Panic => Panic end.

(** [err = fmt.Errorf("%w: ...: %w", s, err)] and [fmt.Errorf("...: %w", err)] *)
Definition wrapAs {A} (s : sentinel) (m : res A) : res A :=
  match m with Err e => Err (EWrap2 (ESent s) e) | _ => m end.
Definition wrap {A} (m : res A) : res A :=
  match m with Err e => Err (EWrap e) | _ => m end.

(** [err = fmt.Errorf("%w: ...", s)] and its two-sentinel form. *)
Definition fail {A} (s : sentinel) : res A := Err (EWrap (ESent s)).
Definition fail2 {A} (s t : sentinel) : res A := Err (EWrap2 (ESent s) (ESent t)).

Definition isOk {A} (m : res A) : bool := match m with Ok _ => true | _ => false end.
Definition isErr {A} (s : sentinel) (m : res A) : bool :=
  match m with Err e => errIs s e | _ => false end.

Lemma bind_Ok {A B} (m : res A) (f : A -> res B) b :
  m ≫= f = Ok b <-> exists a, m = Ok a /\ f a = Ok b.
Proof.
  destruct m as [x| |]; simpl; split.
  - eauto.
  - by intros (? & [= ->] & ?).
  - done.
  - by intros (? & ? & ?).
  - done.
  - by intros (? & ? & ?).
Qed.

Lemma bind_not_Panic {A B} (m : res A) (f : A -> res B) :
  m <> Panic -> (forall a, m = Ok a -> f a <> Panic) -> m ≫= f <> Panic.
Proof. destruct m; simpl; eauto; done. Qed.

Lemma wrapAs_Ok {A} s (m : res A) a : wrapAs s m = Ok a <-> m = Ok a.
Proof. destruct m; simpl; split; congruence. Qed.

Lemma wrap_Ok {A} (m : res A) a : wrap m = Ok a <-> m = Ok a.
Proof. destruct m; simpl; split; congruence. Qed.

Lemma wrapAs_inv {A} s (m : res A) a : wrapAs s m = Ok a -> m = Ok a.
Proof. by destruct m. Qed.

Lemma wrap_inv {A} (m : res A) a : wrap m = Ok a -> m = Ok a.
Proof. by destruct m. Qed.

Lemma bind_inv {A B} (m : res A) (f : A -> res B) b :
  m ≫= f = Ok b -> exists a, m = Ok a /\ f a = Ok b.
Proof. apply bind_Ok. Qed.

(* ------------------------------------------------------------------ *)
(** * bytes.Reader                                                      *)
(* ------------------------------------------------------------------ *)

(** A reader action consumes a prefix of the unread bytes. *)
Definition rd (A : Type) : Type := bytes -> res (A * bytes).

#[export] Instance rd_ret : MRet rd := fun A a l => Ok (a, l).
#[export] Instance rd_bind : MBind rd := fun A B f m l =>
  match m l with
  | Ok (a, l') => f a l'
  | Err e => Err e
  | Panic => Panic
  end.

Definition rdGuard (b : bool) (e : err) : rd unit := fun l =>
  if b then Err e else Ok (tt, l).
Definition rdWrapAs {A} (s : sentinel) (m : rd A) : rd A := fun l => wrapAs s (m l).
Definition rdWrap {A} (m : rd A) : rd A := fun l => wrap (m l).

(** [buf.Len()] *)
Definition rdLen : rd Z := fun l => Ok (len l, l).

(** [buf.ReadByte()] *)
Definition readByte : rd byte := fun l =>
  match l with
  | [] => Err (ESent ErrEOF)
  | b :: l' => Ok (b, l')
  end.

(** [io.ReadFull(buf, p)] with [len(p) = n]: nothing to do for an empty
    [p], [io.EOF] when no byte was read, [io.ErrUnexpectedEOF] when some. *)
Definition readFull (n : nat) : rd bytes := fun l =>
  if decide (n <= length l)%nat then Ok (take n l, drop n l)
  else match l with
       | [] => Err (ESent ErrEOF)
       | _ => Err (ESent ErrUnexpectedEOF)
       end.

(** [binary.Read(buf, binary.BigEndian, &x)] for an [n]-byte unsigned [x]. *)
Definition readUint (n : nat) : rd Z := b ← readFull n; mret (be_decode b).

Lemma rd_bind_eq {A B} (m : rd A) (f : A -> rd B) l :
  (m ≫= f) l = match m l with
               | Ok (a, l') => f a l' | Err e => Err e | Panic => Panic end.
Proof. done. Qed.

Lemma readFull_app n (p l : bytes) : length p = n -> readFull n (p ++ l) = Ok (p, l).
Proof.
  intros <-. unfold readFull. rewrite length_app, decide_True by lia.
  by rewrite take_app_length, drop_app_length.
Qed.

Lemma readFull_Ok n l p l' :
  readFull n l = Ok (p, l') <-> l = p ++ l' /\ length p = n.
Proof.
  split.
  - unfold readFull. case_decide; [|by destruct l].
    intros [= <- <-]. rewrite take_drop, length_take. split; [done|lia].
  - intros [-> Hn]. by apply readFull_app.
Qed.

Lemma readUint_app n v l :
  0 <= v < 256 ^ Z.of_nat n -> readUint n (be_encode n v ++ l) = Ok (v, l).
Proof.
  intros Hv. unfold readUint. rewrite rd_bind_eq, readFull_app by apply length_be_encode.
  by rewrite be_decode_encode_small.
Qed.

Lemma readUint_Ok n l v l' :
  readUint n l = Ok (v, l') <->
  l = be_encode n v ++ l' /\ 0 <= v < 256 ^ Z.of_nat n.
Proof.
  split.
  - unfold readUint. rewrite rd_bind_eq.
    destruct (readFull n l) as [[p r]| |] eqn:E; [|done..].
    apply readFull_Ok in E as [-> <-]. intros [= <- <-].
    rewrite be_encode_decode. split; [done|]. apply be_decode_range.
  - intros [-> ?]. by apply readUint_app.
Qed.

Lemma readByte_Ok l b l' : readByte l = Ok (b, l') <-> l = b :: l'.
Proof. destruct l; simpl; split; congruence. Qed.

Lemma readFull_not_Panic n l : readFull n l <> Panic.
Proof. unfold readFull. case_decide; [done|]. by destruct l. Qed.

Lemma readUint_not_Panic n l : readUint n l <> Panic.
Proof.
  unfold readUint. rewrite rd_bind_eq.
  pose proof (readFull_not_Panic n l). by destruct (readFull n l) as [[]| |].
Qed.

Lemma readByte_not_Panic l : readByte l <> Panic.
Proof. by destruct l. Qed.

(** Inversion of a reader bind. *)
Lemma rd_bind_Ok {A B} (m : rd A) (f : A -> rd B) l b l2 :
  (m ≫= f) l = Ok (b, l2) <-> exists a l1, m l = Ok (a, l1) /\ f a l1 = Ok (b, l2).
Proof.
  rewrite rd_bind_eq. destruct (m l) as [[a l1]| |]; split.
  - eauto.
  - by intros (?&?&[= <- <-]&?).
  - done.
  - by intros (?&?&?&?).
  - done.
  - by intros (?&?&?&?).
Qed.

Lemma rd_bind_not_Panic {A B} (m : rd A) (f : A -> rd B) l :
  m l <> Panic -> (forall a l1, m l = Ok (a, l1) -> f a l1 <> Panic) ->
  (m ≫= f) l <> Panic.
Proof. rewrite rd_bind_eq. destruct (m l) as [[]| |]; eauto. Qed.

Lemma rd_bind_inv {A B} (m : rd A) (f : A -> rd B) l b l2 :
  (m ≫= f) l = Ok (b, l2) -> exists a l1, m l = Ok (a, l1) /\ f a l1 = Ok (b, l2).
Proof. apply rd_bind_Ok. Qed.

Lemma rdWrapAs_Ok {A} s (m : rd A) l r : rdWrapAs s m l = Ok r <-> m l = Ok r.
Proof. apply wrapAs_Ok. Qed.

Lemma rdWrapAs_not_Panic {A} s (m : rd A) l : m l <> Panic -> rdWrapAs s m l <> Panic.
Proof. unfold rdWrapAs, wrapAs. by destruct (m l). Qed.

Lemma rdGuard_Ok b e (u : unit) l l' :
  rdGuard b e l = Ok (u, l') <-> b = false /\ l = l'.
Proof.
  unfold rdGuard. destruct u, b; split.
  - done.
  - by intros [? _].
  - by intros [= ->].
  - by intros [_ ->].
Qed.

Lemma rdGuard_not_Panic b e l : rdGuard b e l <> Panic.
Proof. by destruct b. Qed.

Lemma rdWrap_not_Panic {A} (m : rd A) l : m l <> Panic -> rdWrap m l <> Panic.
Proof. unfold rdWrap, wrap. by destruct (m l). Qed.

Lemma rdLen_Ok l n l' : rdLen l = Ok (n, l') <-> n = len l /\ l = l'.
Proof. unfold rdLen. split; [by intros [= <- <-]|by intros [-> ->]]. Qed.

Lemma len_0 {A} (l : list A) : len l = 0 -> l = [].
Proof. destruct l; [done|]. rewrite len_cons. pose proof (len_nonneg l). lia. Qed.

(** Right-nested appends with conses pushed out. *)
Ltac app_norm := repeat (progress (rewrite <- ?app_assoc; cbn [app])).

Lemma rdWrapAs_inv {A} s (m : rd A) l r : rdWrapAs s m l = Ok r -> m l = Ok r.
Proof. apply wrapAs_inv. Qed.
Lemma rdWrap_inv {A} (m : rd A) l r : rdWrap m l = Ok r -> m l = Ok r.
Proof. apply wrap_inv. Qed.
Lemma rdGuard_inv b e u l l' : rdGuard b e l = Ok (u, l') -> b = false /\ l = l'.
Proof. apply rdGuard_Ok. Qed.
Lemma readUint_inv n l v l' : readUint n l = Ok (v, l') ->
  l = be_encode n v ++ l' /\ 0 <= v < 256 ^ Z.of_nat n.
Proof. apply readUint_Ok. Qed.
Lemma readFull_inv n l p l' : readFull n l = Ok (p, l') -> l = p ++ l' /\ length p = n.
Proof. apply readFull_Ok. Qed.
Lemma readByte_inv l b l' : readByte l = Ok (b, l') -> l = b :: l'.
Proof. apply readByte_Ok. Qed.
Lemma rdLen_inv l n l' : rdLen l = Ok (n, l') -> n = len l /\ l = l'.
Proof. apply rdLen_Ok. Qed.

(** Inverts a successful run of a reader, one primitive at a time; the
    equations on the input accumulate by substitution. *)
Ltac rd_prim H :=
  first
    [ apply rdWrapAs_inv in H; rd_prim H
    | apply rdWrap_inv in H; rd_prim H
    | apply rdGuard_inv in H as [H <-]
    | apply readUint_inv in H as [-> H]
    | apply readFull_inv in H as [-> H]
    | apply readByte_inv in H as ->
    | apply rdLen_inv in H as [-> <-]
    | idtac ].
Ltac rd_inv H :=
  lazymatch type of H with
  | mbind _ _ _ = Ok _ =>
      let a := fresh "x" in let l1 := fresh "l" in let H1 := fresh "Hx" in
      apply rd_bind_inv in H as (a & l1 & H1 & H); cbn beta in H; rd_prim H1; rd_inv H
  | mret _ _ = Ok _ => injection H as <- <-
  | _ => idtac
  end.

(** Runs the readers whose input starts with what they expect. *)
Lemma readByteUint n l : 0 <= n < 256 -> readUint 1 (z2b n :: l) = Ok (n, l).
Proof.
  intros Hn. replace (z2b n :: l) with (be_encode 1 n ++ l)
    by (simpl; by rewrite Z.div_1_r).
  by apply readUint_app.
Qed.

Lemma readFull_len (d l : bytes) : readFull (Z.to_nat (len d)) (d ++ l) = Ok (d, l).
Proof. apply readFull_app. unfold len. by rewrite Nat2Z.id. Qed.

Ltac rd_step :=
  first
    [ rewrite rd_bind_eq
    | progress unfold rdWrapAs, rdWrap
    | rewrite readUint_app by lia
    | rewrite readByteUint by lia
    | rewrite readFull_len
    | progress cbn [wrapAs wrap rdGuard mret rd_ret fst snd readByte] ].
Ltac rd_run := repeat rd_step.

Create HintDb total.
#[export] Hint Resolve readUint_not_Panic readFull_not_Panic readByte_not_Panic
  rdGuard_not_Panic rdWrapAs_not_Panic rdWrap_not_Panic : total.

(** Closes [m l <> Panic] for readers composed of total primitives. *)
Ltac rd_total :=
  repeat first
    [ progress auto 4 with total
    | apply rd_bind_not_Panic; [|intros ? ? ?]
    | apply rdWrapAs_not_Panic
    | apply rdWrap_not_Panic
    | discriminate ].

(* ------------------------------------------------------------------ *)
(** * Sums                                                              *)
(* ------------------------------------------------------------------ *)

Definition sumZ {A} (f : A -> Z) (l : list A) : Z := foldr (fun x a => f x + a) 0 l.
#[global] Arguments sumZ : simpl never.

Lemma sumZ_nil {A} (f : A -> Z) : sumZ f [] = 0.
Proof. done. Qed.
Lemma sumZ_cons {A} (f : A -> Z) x l : sumZ f (x :: l) = f x + sumZ f l.
Proof. done. Qed.
Lemma sumZ_app {A} (f : A -> Z) l k : sumZ f (l ++ k) = sumZ f l + sumZ f k.
Proof. induction l; simpl; [done|]. rewrite !sumZ_cons. lia. Qed.
Lemma sumZ_plus {A} (f g : A -> Z) l : sumZ (fun x => f x + g x) l = sumZ f l + sumZ g l.
Proof. induction l; [done|]. rewrite !sumZ_cons. lia. Qed.
Lemma sumZ_map {A B} (f : B -> Z) (g : A -> B) l : sumZ f (map g l) = sumZ (fun x => f (g x)) l.
Proof. induction l; [done|]. simpl. rewrite !sumZ_cons. lia. Qed.
Lemma sumZ_perm {A} (f : A -> Z) l k : l ≡ₚ k -> sumZ f l = sumZ f k.
Proof. induction 1; rewrite ?sumZ_cons; [done|..]; rewrite ?sumZ_cons; lia. Qed.
Lemma sumZ_ext {A} (f g : A -> Z) l : (forall x, x ∈ l -> f x = g x) -> sumZ f l = sumZ g l.
Proof.
  induction l as [|x l IH]; intros H; [done|]. rewrite !sumZ_cons, H by (by left).
  rewrite IH; [done|]. intros. apply H. by right.
Qed.

(* ------------------------------------------------------------------ *)
(** * Pointwise relations of lists                                      *)
(* ------------------------------------------------------------------ *)

Lemma Forall2_impl_lookup {A B} (P Q : A -> B -> Prop) l k :
  Forall2 P l k -> (forall i x y, l !! i = Some x -> P x y -> Q x y) -> Forall2 Q l k.
Proof.
  induction 1 as [|x y l k Hp _ IH]; intros H; constructor.
  - by apply (H 0%nat).
  - apply IH. intros i. apply (H (S i)).
Qed.

Lemma Forall2_exists_mid {A B C} (P : B -> C -> Prop) (Q : A -> C -> Prop) l k :
  Forall2 (fun x y => exists z, P y z /\ Q x z) l k ->
  exists m, Forall2 P k m /\ Forall2 Q l m.
Proof.
  induction 1 as [|x y l k (z & Hp & Hq) _ (m & IH1 & IH2)].
  - by exists [].
  - exists (z :: m). by split; constructor.
Qed.

Lemma len_pos {A} (l : list A) : l <> [] -> 1 <= len l.
Proof. destruct l; [done|]. intros _. rewrite len_cons. pose proof (len_nonneg l). lia. Qed.

Lemma len_ltb_1 {A} `{EqDecision A} (l : list A) : (len l <? 1) = bool_decide (l = []).
Proof.
  destruct l as [|x l]; [done|]. rewrite bool_decide_eq_false_2, len_cons by done.
  pose proof (len_nonneg l). lia.
Qed.

Lemma len_eqb_0 {A} `{EqDecision A} (l : list A) : (len l =? 0) = bool_decide (l = []).
Proof.
  destruct l as [|x l]; [done|]. rewrite bool_decide_eq_false_2, len_cons by done.
  pose proof (len_nonneg l). lia.
Qed.

(** [l[lo:hi]] *)
Definition slice (l : bytes) (lo hi : Z) : bytes :=
  take (Z.to_nat (hi - lo)) (drop (Z.to_nat lo) l).

Lemma slice_app (a b c : bytes) lo hi :
  len a = lo -> len a + len b = hi -> slice (a ++ b ++ c) lo hi = b.
Proof.
  intros <- <-. unfold slice, len.
  replace (Z.of_nat (length a) + Z.of_nat (length b) - Z.of_nat (length a))
    with (Z.of_nat (length b)) by lia.
  by rewrite !Nat2Z.id, drop_app_length, take_app_length.
Qed.

Lemma slice_0 (b c : bytes) hi : len b = hi -> slice (b ++ c) 0 hi = b.
Proof. intros H. by apply (slice_app []). Qed.

Lemma slice_end (a b : bytes) lo hi :
  len a = lo -> len a + len b = hi -> slice (a ++ b) lo hi = b.
Proof. intros. rewrite <- (app_nil_r b) at 1. by apply slice_app. Qed.

(** The same with Go's bounds check, and [l[i]]. (The upper bound of a Go
    slice expression is the capacity; a slice is taken to be no larger than its
    length, so a [Panic] here is a bound the code does not guarantee.) *)
Definition goSlice (l : bytes) (lo hi : Z) : res bytes :=
  if (0 <=? lo) && (lo <=? hi) && (hi <=? len l) then Ok (slice l lo hi) else Panic.
Definition goIndex (l : bytes) (i : Z) : res byte :=
  if i <? 0 then Panic
  else match l !! Z.to_nat i with Some b => Ok b | None => Panic end.

Lemma goSlice_ok l lo hi : 0 <= lo <= hi -> hi <= len l -> goSlice l lo hi = Ok (slice l lo hi).
Proof.
  intros [H1 H2] H3. unfold goSlice.
  by rewrite (proj2 (Z.leb_le _ _) H1), (proj2 (Z.leb_le _ _) H2), (proj2 (Z.leb_le _ _) H3).
Qed.

Lemma len_slice (l : bytes) lo hi : 0 <= lo <= hi -> hi <= len l -> len (slice l lo hi) = hi - lo.
Proof. intros. unfold slice, len in *. rewrite length_take, length_drop. lia. Qed.

Lemma goIndex_0 b l : goIndex (b :: l) 0 = Ok b.
Proof. done. Qed.

(** Cutting a list at a position. *)
Lemma split_at {A} (l : list A) (n : Z) :
  0 <= n <= len l -> exists a b, l = a ++ b /\ len a = n.
Proof.
  intros Hn. exists (take (Z.to_nat n) l), (drop (Z.to_nat n) l).
  rewrite take_drop. split; [done|]. unfold len in *. rewrite length_take. lia.
Qed.

Lemma StronglySorted_lookup {A} (R : A -> A -> Prop) l i j x y :
  StronglySorted R l -> (i < j)%nat -> l !! i = Some x -> l !! j = Some y -> R x y.
Proof.
  intros Hs Hij Hi Hj. rewrite <- (take_drop_middle l i x Hi) in Hs, Hj.
  apply StronglySorted_app in Hs as (_ & _ & Hs). apply StronglySorted_cons in Hs as [Hs _].
  rewrite lookup_app_r in Hj by (rewrite length_take; lia).
  apply lookup_lt_Some in Hi. rewrite length_take_le in Hj by lia.
  rewrite lookup_cons_ne_0 in Hj by lia. apply list_elem_of_lookup_2 in Hj.
  by apply (proj1 (Forall_forall _ _) Hs).
Qed.
