(* ===== verification/State.v ===== *)
(** Methods that change their receiver and may fail, as the key handling of the
    daemons and the installer have them. *)
From S2P Require Import Prelude.

(** A method that changes its receiver: the state it leaves behind, with its
    result or its error. *)
Definition st (S A : Type) : Type := S -> S * res A.
#[export] Instance st_ret {S} : MRet (st S) := fun A a s => (s, Ok a).
#[export] Instance st_bind {S} : MBind (st S) := fun A B f m s =>
  match m s with
  | (s, Ok a) => f a s
  | (s, Err e) => (s, Err e)
  | (s, Panic) => (s, Panic)
  end.
Definition get {S} : st S S := fun s => (s, Ok s).
Definition modify {S} (f : S -> S) : st S unit := fun s => (f s, Ok tt).
Definition lift {S A} (m : res A) : st S A := fun s => (s, m).

Lemma st_bind_Ok {S A B} (m : st S A) (f : A -> st S B) s s' a :
  m s = (s', Ok a) -> (m ≫= f) s = f a s'.
Proof. intros E. unfold mbind, st_bind. by rewrite E. Qed.
Lemma st_bind_Err {S A B} (m : st S A) (f : A -> st S B) s s' e :
  m s = (s', Err e) -> (m ≫= f) s = (s', Err e).
Proof. intros E. unfold mbind, st_bind. by rewrite E. Qed.
Lemma st_bind_eq {S A B} (m : st S A) (f : A -> st S B) s :
  (m ≫= f) s = match m s with (s, Ok a) => f a s | (s, Err e) => (s, Err e) | (s, Panic) => (s, Panic) end.
Proof. done. Qed.
Lemma st_bind_inv {S A B} (m : st S A) (f : A -> st S B) s s' b :
  (m ≫= f) s = (s', Ok b) <-> exists t a, m s = (t, Ok a) /\ f a t = (s', Ok b).
Proof.
  rewrite st_bind_eq. destruct (m s) as [t [a| |]]; split.
  - eauto.
  - by intros (? & ? & [= <- <-] & ?).
  - done.
  - by intros (? & ? & ? & ?).
  - done.
  - by intros (? & ? & ? & ?).
Qed.
