(* ===== verification/Text.v ===== *)
(** Byte-string functions of Go's standard library the protocol uses
    ([strings.ReplaceAll], [bytes.HasPrefix], UTF-8 decoding,
    [sort.Strings]) and the cleaning routines of [pkg/protocol/text.go]. *)
From S2P Require Import Prelude.

(* ------------------------------------------------------------------ *)
(** * Substrings                                                        *)
(* ------------------------------------------------------------------ *)

(** [bytes.HasPrefix(s, p)] *)
Fixpoint hasPrefix (p s : bytes) : bool :=
  match p, s with
  | [], _ => true
  | c :: p', d :: s' => bool_decide (c = d) && hasPrefix p' s'
  | _ :: _, [] => false
  end.

(** [bytes.HasSuffix(s, p)] *)
Definition hasSuffix (p s : bytes) : bool :=
  bool_decide (length p <= length s)%nat &&
  bool_decide (drop (length s - length p) s = p).

(** [bytes.Contains(s, p)] *)
Fixpoint contains (p s : bytes) : bool :=
  hasPrefix p s || match s with [] => false | _ :: s' => contains p s' end.

(** [strings.ReplaceAll(s, old, new)] for a non-empty [old]: occurrences are
    replaced from left to right and never overlap; [skip] counts the bytes
    of the current occurrence still to drop. *)
Fixpoint replaceFrom (old new : bytes) (skip : nat) (s : bytes) : bytes :=
  match s with
  | [] => []
  | c :: s' =>
      match skip with
      | S k => replaceFrom old new k s'
      | O => if hasPrefix old s
             then new ++ replaceFrom old new (pred (length old)) s'
             else c :: replaceFrom old new O s'
      end
  end.
Definition replaceAll (old new s : bytes) : bytes := replaceFrom old new O s.

Lemma hasPrefix_spec p s : hasPrefix p s = true <-> exists t, s = p ++ t.
Proof.
  revert s. induction p as [|c p IH]; intros s; simpl.
  - split; eauto.
  - destruct s as [|d s]; [split; [done|by intros [t ?]]|].
    rewrite andb_true_iff, bool_decide_eq_true, IH. split.
    + intros [-> [t ->]]. eauto.
    + intros [t [= -> ->]]. eauto.
Qed.

Lemma hasSuffix_spec p s : hasSuffix p s = true <-> exists t, s = t ++ p.
Proof.
  unfold hasSuffix. rewrite andb_true_iff, !bool_decide_eq_true. split.
  - intros [Hl Hd]. exists (take (length s - length p) s).
    rewrite <- Hd at 2. by rewrite take_drop.
  - intros [t ->]. rewrite length_app. split; [lia|].
    replace (length t + length p - length p)%nat with (length t) by lia.
    apply drop_app_length.
Qed.

Lemma contains_spec p s : contains p s = true <-> exists t u, s = t ++ p ++ u.
Proof.
  induction s as [|c s IH]; simpl.
  - rewrite orb_false_r, hasPrefix_spec. split.
    + intros [t ->]. by exists [], t.
    + intros (t & u & E). exists u. symmetry in E.
      apply app_eq_nil in E as [-> E]. done.
  - rewrite orb_true_iff, hasPrefix_spec, IH. split.
    + intros [[t E]|(t & u & ->)]; [by exists [], t|by exists (c :: t), u].
    + intros ([|d t] & u & E); [left; eauto|right]. injection E as -> ->. eauto.
Qed.

Lemma replaceAll_absent old new s : contains old s = false -> replaceAll old new s = s.
Proof.
  unfold replaceAll. induction s as [|c s IH]; [done|].
  cbn [contains replaceFrom]. intros [-> Hs]%orb_false_iff. by rewrite IH.
Qed.

Lemma replaceFrom_Forall P old new k s :
  Forall P new -> Forall P s -> Forall P (replaceFrom old new k s).
Proof.
  intros Hn Hs. revert k. induction Hs as [|c s Hc Hs IH]; intros k; [done|].
  cbn [replaceFrom]. destruct k; [|apply IH].
  destruct (hasPrefix _ _); [by apply Forall_app|constructor; eauto].
Qed.

Lemma replaceFrom_nil_length old k s :
  (length (replaceFrom old [] k s) <= length s)%nat.
Proof.
  revert k. induction s as [|c s IH]; intros k; [done|].
  cbn [replaceFrom]. destruct k as [|k].
  - destruct (hasPrefix _ _); simpl.
    + specialize (IH (pred (length old))). lia.
    + specialize (IH O). lia.
  - specialize (IH k). simpl. lia.
Qed.

(* ------------------------------------------------------------------ *)
(** * Ordering                                                          *)
(* ------------------------------------------------------------------ *)

(** [a <= b] on Go strings: bytewise lexicographic. *)
Fixpoint bytesLeb (a b : bytes) : bool :=
  match a, b with
  | [], _ => true
  | _ :: _, [] => false
  | x :: a', y :: b' =>
      (b2z x <? b2z y) || ((b2z x =? b2z y) && bytesLeb a' b')
  end.
Definition bytesLe (a b : bytes) : Prop := bytesLeb a b = true.
#[export] Instance bytesLe_dec : RelDecision bytesLe :=
  fun a b => bool_eq_dec (bytesLeb a b) true.

#[export] Instance bytesLe_total : Total bytesLe.
Proof.
  unfold bytesLe. intros a. induction a as [|x a IH]; intros [|y b]; simpl; auto.
  destruct (Z.ltb_spec (b2z x) (b2z y)), (Z.eqb_spec (b2z x) (b2z y)),
    (Z.ltb_spec (b2z y) (b2z x)), (Z.eqb_spec (b2z y) (b2z x)); simpl; auto; lia.
Qed.

#[export] Instance bytesLe_trans : Transitive bytesLe.
Proof.
  unfold bytesLe. intros a. induction a as [|x a IH]; intros [|y b] [|z c]; simpl; auto;
    try done.
  rewrite !orb_true_iff, !andb_true_iff, !Z.ltb_lt, !Z.eqb_eq.
  intros [?|[? ?]] [?|[? ?]]; [left; lia..|right]. split; [lia|eauto].
Qed.

#[export] Instance bytesLe_antisymm : AntiSymm (=) bytesLe.
Proof.
  unfold bytesLe. intros a. induction a as [|x a IH]; intros [|y b]; simpl; auto;
    try done.
  rewrite !orb_true_iff, !andb_true_iff, !Z.ltb_lt, !Z.eqb_eq.
  intros [?|[E ?]] [?|[? ?]]; try lia.
  apply b2z_inj in E as ->. f_equal. by apply IH.
Qed.

(** [sort.Strings] *)
Definition sortStrings (l : list gostring) : list gostring := merge_sort bytesLe l.

Lemma sortStrings_perm l : sortStrings l ≡ₚ l.
Proof. apply merge_sort_Permutation. Qed.

Lemma sortStrings_sorted l : StronglySorted bytesLe (sortStrings l).
Proof. apply StronglySorted_merge_sort; apply _. Qed.

(* ------------------------------------------------------------------ *)
(** * UTF-8                                                             *)
(* ------------------------------------------------------------------ *)

Definition inRange (lo hi : Z) (b : byte) : bool := (lo <=? b2z b) && (b2z b <=? hi).

(** Continuation bytes, and the accepted range of the second byte of three-
    and four-byte sequences ([unicode/utf8]'s [acceptRanges]). *)
Definition isCont : byte -> bool := inRange 0x80 0xBF.
Definition second3 (c : Z) : byte -> bool :=
  if c =? 0xE0 then inRange 0xA0 0xBF
  else if c =? 0xED then inRange 0x80 0x9F else isCont.
Definition second4 (c : Z) : byte -> bool :=
  if c =? 0xF0 then inRange 0x90 0xBF
  else if c =? 0xF4 then inRange 0x80 0x8F else isCont.

Definition RuneError : Z := 0xFFFD.
Definition low6 (b : byte) : Z := b2z b - 0x80.

(** Repeated [utf8.DecodeRune], the iteration of [for _, r := range s]: the
    runes with their widths. An invalid byte decodes alone as
    [RuneError] of width one. *)
Fixpoint decodeRunes (l : bytes) : list (Z * Z) :=
  match l with
  | [] => []
  | b0 :: r =>
      let c := b2z b0 in
      if c <? 0x80 then (c, 1) :: decodeRunes r
      else if (0xC2 <=? c) && (c <=? 0xDF) then
        match r with
        | b1 :: r1 =>
            if isCont b1 then ((c - 0xC0) * 64 + low6 b1, 2) :: decodeRunes r1
            else (RuneError, 1) :: decodeRunes r
        | [] => [(RuneError, 1)]
        end
      else if (0xE0 <=? c) && (c <=? 0xEF) then
        match r with
        | b1 :: b2 :: r2 =>
            if second3 c b1 && isCont b2
            then (((c - 0xE0) * 64 + low6 b1) * 64 + low6 b2, 3) :: decodeRunes r2
            else (RuneError, 1) :: decodeRunes r
        | _ => (RuneError, 1) :: decodeRunes r
        end
      else if (0xF0 <=? c) && (c <=? 0xF4) then
        match r with
        | b1 :: b2 :: b3 :: r3 =>
            if second4 c b1 && isCont b2 && isCont b3
            then ((((c - 0xF0) * 64 + low6 b1) * 64 + low6 b2) * 64 + low6 b3, 4)
                   :: decodeRunes r3
            else (RuneError, 1) :: decodeRunes r
        | _ => (RuneError, 1) :: decodeRunes r
        end
      else (RuneError, 1) :: decodeRunes r
  end.

(** [utf8.Valid]: no byte decodes to an error. *)
Definition utf8Valid (l : bytes) : bool :=
  forallb (fun '(r, w) => negb ((w =? 1) && (0x80 <=? r))) (decodeRunes l).

(* ------------------------------------------------------------------ *)
(** * pkg/protocol/text.go                                              *)
(* ------------------------------------------------------------------ *)

Definition EmptyFieldChar : gostring := str "-".

(** The rune test of [cleanStringToBytes] and the byte test of
    [isPrintableASCII]. *)
Definition printableRune (r : Z) : bool := (0x20 <=? r) && (r <=? 0x7E).
Definition printable (b : byte) : bool := printableRune (b2z b).

Definition cleanStringToBytes (input : gostring) (maxLength : nat) : bytes :=
  let input := match input with [] => EmptyFieldChar | _ => input end in
  let clean :=
    flat_map (fun '(r, _) => if printableRune r then [z2b r] else [])
             (decodeRunes input) in
  if decide (maxLength < length clean)%nat then take maxLength clean else clean.

Definition cleanBytes (data : bytes) : bytes :=
  List.filter (fun b => negb (b2z b =? 0)) data.

Definition isPrintableASCII (data : bytes) : bool := forallb printable data.

(** ** Facts about decoding *)

(** Case analysis on the tests of [decodeRunes], with their bounds. *)
Ltac byte_cases :=
  repeat match goal with
  | |- context [?a <? ?b] => destruct (Z.ltb_spec a b)
  | |- context [?a <=? ?b] => destruct (Z.leb_spec a b)
  | |- context [?a =? ?b] => destruct (Z.eqb_spec a b)
  end.

Lemma inRange_spec lo hi b : inRange lo hi b = true <-> lo <= b2z b <= hi.
Proof. unfold inRange. lia. Qed.

Lemma isCont_spec b : isCont b = true <-> 0x80 <= b2z b <= 0xBF.
Proof. apply inRange_spec. Qed.

Lemma second3_spec c b : second3 c b = true ->
  0x80 <= b2z b <= 0xBF /\ (c = 0xE0 -> 0xA0 <= b2z b).
Proof.
  unfold second3, isCont. repeat case_match; rewrite inRange_spec; lia.
Qed.

Lemma second4_spec c b : second4 c b = true ->
  0x80 <= b2z b <= 0xBF /\ (c = 0xF0 -> 0x90 <= b2z b).
Proof.
  unfold second4, isCont. repeat case_match; rewrite inRange_spec; lia.
Qed.

Lemma printableRune_spec r : printableRune r = true <-> 0x20 <= r <= 0x7E.
Proof. unfold printableRune. lia. Qed.

Lemma not_printableRune r : 0x80 <= r -> printableRune r = false.
Proof. unfold printableRune. lia. Qed.

Lemma printable_spec b : printable b = true <-> 0x20 <= b2z b <= 0x7E.
Proof. apply printableRune_spec. Qed.

(** One step of decoding: an ASCII byte decodes to itself; anything else
    decodes to one rune outside ASCII that consumes no ASCII byte but
    possibly the first. *)
Inductive decStep : bytes -> Z -> Z -> bytes -> Prop :=
  | decAscii b r : b2z b < 0x80 -> decStep (b :: r) (b2z b) 1 r
  | decBad b r : 0x80 <= b2z b -> decStep (b :: r) RuneError 1 r
  | decMulti b p r v w :
      0x80 <= b2z b -> Forall (fun c => isCont c = true) p -> 0x80 <= v ->
      w = 1 + len p -> 2 <= w ->
      decStep (b :: p ++ r) v w r.

Lemma decodeRunes_step l : l <> [] ->
  exists v w r, decStep l v w r /\ decodeRunes l = (v, w) :: decodeRunes r.
Proof.
  destruct l as [|b0 r]; [done|intros _]. cbn [decodeRunes].
  destruct (Z.ltb_spec (b2z b0) 0x80); [by eexists _, _, _; split; [constructor|]|].
  assert (Hbad : exists v w r', decStep (b0 :: r) v w r' /\
    (RuneError, 1) :: decodeRunes r = (v, w) :: decodeRunes r').
  { eexists _, _, _. split; [by apply decBad|done]. }
  destruct (_ && _) eqn:E2.
  { apply andb_true_iff in E2 as [?%Z.leb_le ?%Z.leb_le].
    destruct r as [|b1 r1]; [done|]. destruct (isCont b1) eqn:Hc; [|done].
    pose proof (proj1 (isCont_spec _) Hc).
    eexists _, _, _. split; [apply (decMulti _ [b1])|done]; try done; auto.
    unfold low6. lia. }
  clear E2. destruct (_ && _) eqn:E3.
  { apply andb_true_iff in E3 as [?%Z.leb_le ?%Z.leb_le].
    destruct r as [|b1 [|b2 r2]]; [done..|].
    destruct (second3 _ _ && _) eqn:Hc; [|done].
    apply andb_true_iff in Hc as [Hs Hc].
    pose proof (second3_spec _ _ Hs). pose proof (proj1 (isCont_spec _) Hc).
    eexists _, _, _. split; [apply (decMulti _ [b1; b2])|done]; try done.
    - repeat constructor; [|done]. apply isCont_spec. lia.
    - unfold low6. lia. }
  clear E3. destruct (_ && _) eqn:E4; [|done].
  apply andb_true_iff in E4 as [?%Z.leb_le ?%Z.leb_le].
  destruct r as [|b1 [|b2 [|b3 r3]]]; [done..|].
  destruct (second4 _ _ && _ && _) eqn:Hc; [|done].
  rewrite !andb_true_iff in Hc. destruct Hc as [[Hs Hc2] Hc3].
  pose proof (second4_spec _ _ Hs).
  pose proof (proj1 (isCont_spec _) Hc2). pose proof (proj1 (isCont_spec _) Hc3).
  eexists _, _, _. split; [apply (decMulti _ [b1; b2; b3])|done]; try done.
  - repeat constructor; [|done..]. apply isCont_spec. lia.
  - unfold low6. lia.
Qed.

Lemma decStep_shorter l v w r : decStep l v w r -> (length r < length l)%nat.
Proof. destruct 1; simpl; rewrite ?length_app; lia. Qed.

(** Induction along the decoding of a string. *)
Lemma decode_ind (P : bytes -> Prop) :
  P [] ->
  (forall l v w r, decStep l v w r -> decodeRunes l = (v, w) :: decodeRunes r ->
     P r -> P l) ->
  forall l, P l.
Proof.
  intros Hnil Hstep l. remember (length l) as n eqn:En.
  revert l En. induction (lt_wf n) as [n _ IH]. intros l ->.
  destruct (decide (l = [])) as [->|Hl]; [done|].
  destruct (decodeRunes_step l Hl) as (v & w & r & Hs & Hd).
  eapply Hstep; [done..|]. eapply IH; [|done]. by eapply decStep_shorter.
Qed.

Lemma filter_printable_cont p :
  Forall (fun c => isCont c = true) p -> List.filter printable p = [].
Proof.
  induction 1 as [|c p Hc _ IH]; [done|]. simpl.
  apply isCont_spec in Hc. replace (printable c) with false; [done|].
  symmetry. apply not_printableRune. lia.
Qed.

(** Decoding runes and keeping the printable ones is filtering the bytes. *)
Lemma clean_runes_filter l :
  flat_map (fun '(r, _) => if printableRune r then [z2b r] else []) (decodeRunes l)
  = List.filter printable l.
Proof.
  induction l as [|l v w r Hs Hd IH] using decode_ind; [done|].
  rewrite Hd. cbn [flat_map]. rewrite IH.
  destruct Hs as [b r Hb|b r Hb|b p r v w Hb Hp Hv _ _]; cbn [List.filter].
  - unfold printable. case_match; [|done]. by rewrite z2b_b2z.
  - rewrite (not_printableRune RuneError) by (unfold RuneError; lia).
    unfold printable. by rewrite (not_printableRune (b2z b)).
  - rewrite List.filter_app, (filter_printable_cont p) by done.
    unfold printable at 2. rewrite (not_printableRune v), (not_printableRune (b2z b)) by done. done.
Qed.

Definition orEmptyChar (s : gostring) : gostring :=
  match s with [] => EmptyFieldChar | _ => s end.

Lemma cleanStringToBytes_eq s n :
  cleanStringToBytes s n = take n (List.filter printable (orEmptyChar s)).
Proof.
  unfold cleanStringToBytes. fold (orEmptyChar s). rewrite clean_runes_filter.
  case_decide; [done|]. by rewrite take_ge by lia.
Qed.

Lemma filter_id {A} (f : A -> bool) l : forallb f l = true -> List.filter f l = l.
Proof.
  induction l as [|x l IH]; [done|]. simpl. intros [-> ?]%andb_true_iff. by rewrite IH.
Qed.

Lemma forallb_filter {A} (f : A -> bool) l : forallb f (List.filter f l) = true.
Proof.
  induction l as [|x l IH]; [done|]. simpl. destruct (f x) eqn:E; simpl; by rewrite ?E.
Qed.

Lemma forallb_take {A} (f : A -> bool) n l : forallb f l = true -> forallb f (take n l) = true.
Proof.
  revert n. induction l as [|x l IH]; intros [|n]; [done..|]. simpl.
  intros [-> ?]%andb_true_iff. simpl. auto.
Qed.

Lemma cleanStringToBytes_printable s n : isPrintableASCII (cleanStringToBytes s n) = true.
Proof. rewrite cleanStringToBytes_eq. apply forallb_take, forallb_filter. Qed.

Lemma cleanStringToBytes_length s n : (length (cleanStringToBytes s n) <= n)%nat.
Proof. rewrite cleanStringToBytes_eq, length_take. lia. Qed.

Lemma cleanStringToBytes_id s n :
  s <> [] -> isPrintableASCII s = true -> (length s <= n)%nat ->
  cleanStringToBytes s n = s.
Proof.
  intros Hne Hp Hl. rewrite cleanStringToBytes_eq.
  replace (orEmptyChar s) with s by (by destruct s).
  by rewrite filter_id, take_ge.
Qed.

Lemma printable_utf8 l : isPrintableASCII l = true -> utf8Valid l = true.
Proof.
  induction l as [|b l IH]; [done|]. simpl. intros [Hb Hl]%andb_true_iff.
  unfold utf8Valid. cbn [decodeRunes]. apply printable_spec in Hb.
  destruct (Z.ltb_spec (b2z b) 0x80); [|lia]. simpl.
  unfold utf8Valid in IH. rewrite (IH Hl). lia.
Qed.

Lemma cleanBytes_id l : forallb (fun b => negb (b2z b =? 0)) l = true -> cleanBytes l = l.
Proof. apply filter_id. Qed.

Lemma cleanBytes_idem l : cleanBytes (cleanBytes l) = cleanBytes l.
Proof. apply filter_id, forallb_filter. Qed.

Lemma hasPrefix_app p s : hasPrefix p (p ++ s) = true.
Proof. apply hasPrefix_spec. eauto. Qed.

Lemma printable_no_nul l :
  isPrintableASCII l = true -> forallb (fun b => negb (b2z b =? 0)) l = true.
Proof.
  unfold isPrintableASCII. rewrite !forallb_forall. intros H b Hb.
  apply H, printable_spec in Hb. destruct (Z.eqb_spec (b2z b) 0); [lia|done].
Qed.

(* ------------------------------------------------------------------ *)
(** * Theorems                                                          *)
(* ------------------------------------------------------------------ *)

(** Cleaning a string rune by rune is filtering its bytes: the first
    printable ASCII bytes of the text (of the placeholder when it is empty),
    at most as many as asked for; no part of a multi-byte or invalid sequence
    survives. *)
Theorem cleanStringToBytes_filter s n :
  cleanStringToBytes s n =
    take n (List.filter printable (match s with [] => EmptyFieldChar | _ => s end)).
Proof. apply cleanStringToBytes_eq. Qed.
