(* ===== verification/Registry.v ===== *)
(** Crypto and signature suites ([pkg/crypto/registry]) with the wrappers
    they call ([internal/crypto/{aead,ecdh,hash,hkdf,random}]).

    The primitives of [golang.org/x/crypto] and the hash and signature
    algorithms of Go's [crypto] packages are the fields of the class
    [Prims]; [PrimLaws] states the documented behaviour the protocol relies
    on. Everything the repository itself does with them is defined here. *)
From S2P Require Import Prelude.

(** Primitive algorithms: [curve25519.X25519], [sha512], [hkdf.New(sha512)]
    read for [n] bytes, ChaCha20-Poly1305 [Seal]/[Open] on a 32-byte key,
    and ed25519 signing, verification and public-key derivation. *)
Class Prims := {
  X25519 : bytes -> bytes -> res bytes;
  sha512 : bytes -> bytes;
  hkdfRead : bytes -> bytes -> bytes -> nat -> res bytes;
  chachaSeal : bytes -> bytes -> bytes -> bytes -> bytes;
  chachaOpen : bytes -> bytes -> bytes -> bytes -> res bytes;
  ed25519Sign : bytes -> bytes -> bytes;
  ed25519Verify : bytes -> bytes -> bytes -> bool;
  ed25519Public : bytes -> bytes
}.

Definition ScalarSize : nat := 32.
Definition ChachaKeySize : nat := 32.
Definition ChachaNonceSize : nat := 12.
Definition ChachaOverhead : nat := 16.
Definition Ed25519SignatureSize : nat := 64.
Definition Ed25519PrivateKeySize : nat := 64.
Definition Ed25519PublicKeySize : nat := 32.

(** [curve25519.Basepoint]: 9 followed by zeros. *)
Definition Basepoint : bytes := z2b 9 :: repeat Byte.x00 31.

Class PrimLaws `{!Prims} := {
  X25519_length a p s : X25519 a p = Ok s -> length s = ScalarSize;
  X25519_dh a b A B :
    X25519 a Basepoint = Ok A -> X25519 b Basepoint = Ok B ->
    X25519 a B = X25519 b A;
  hkdf_length s t i n k : hkdfRead s t i n = Ok k -> length k = n;
  chacha_length k n p a :
    length (chachaSeal k n p a) = (length p + ChachaOverhead)%nat;
  chacha_open_seal k n p a : chachaOpen k n (chachaSeal k n p a) a = Ok p;
  ed25519_length k m : length (ed25519Sign k m) = Ed25519SignatureSize;
  ed25519_public_length k : length (ed25519Public k) = Ed25519PublicKeySize;
  ed25519_correct k m : ed25519Verify (ed25519Public k) m (ed25519Sign k m) = true
}.

(** The random bytes one encryption draws from [crypto/rand]: the ephemeral
    private key, the nonce, and the replacement [PopulateEmptySlice] would
    draw for a degenerate nonce. *)
Record Entropy := mkEntropy {
  entPriv : bytes;
  entNonce : bytes;
  entFix : bytes
}.
Definition entropy_ok (e : Entropy) : Prop :=
  length (entPriv e) = ScalarSize /\ length (entNonce e) = ChachaNonceSize /\
  length (entFix e) = ChachaNonceSize.

(* ------------------------------------------------------------------ *)
(** * internal/crypto                                                   *)
(* ------------------------------------------------------------------ *)

Definition IsZero (slice : bytes) : bool := forallb (fun b => b2z b =? 0) slice.

(** [isAllIdentical], [isAllZero] of [random/generate.go]. *)
Definition isAllIdentical (slice : bytes) : bool :=
  match slice with
  | [] => true
  | first :: rest => forallb (fun b => bool_decide (b = first)) rest
  end.
Definition isAllZero (slice : bytes) : bool := forallb (fun b => b2z b =? 0) slice.

(** [PopulateEmptySlice]: an empty slice is allocated first; a degenerate
    one is overwritten with [fresh] random bytes. *)
Definition PopulateEmptySlice (slice : bytes) (size : nat) (fresh : bytes) : bytes :=
  let slice := match slice with [] => repeat Byte.x00 size | _ => slice end in
  if isAllIdentical slice || isAllZero slice then take (length slice) fresh else slice.

(** [random.NumberInRange]; [draw m] is [rand.Int(rand.Reader, m)]. *)
Definition NumberInRange (min max : Z) (draw : Z -> Z) : res Z :=
  if max <? min then Err EMsg else Ok (draw (max - min + 1) + min).

Section crypto.
Context `{!Prims}.

(** ** ecdh *)
Definition CreateSharedSecret (publicKey : bytes) (e : Entropy)
  : res (bytes * bytes) :=
  ephemeralPublic ← wrap (X25519 (entPriv e) Basepoint);
  sharedSecret ← wrap (X25519 (entPriv e) publicKey);
  mret (sharedSecret, ephemeralPublic).

Definition ReCreateSharedSecret (privateKey ephemeralPublic : bytes) : res bytes :=
  wrap (X25519 privateKey ephemeralPublic).

Definition DerivePersistentPublicKey (private : bytes) : res bytes :=
  wrap (X25519 private Basepoint).

(** ** hash and hkdf *)
Definition MultipleSlices (inputs : list bytes) : res bytes :=
  Ok (sha512 (concat inputs)).

Definition DeriveKey (secret salt namespace : bytes) (keySize : nat) : res bytes :=
  wrap (hkdfRead secret salt namespace keySize).

(** ** aead: [chacha20poly1305.New] refuses a key of the wrong length and
    [Seal]/[Open] panic on a nonce of the wrong length. The nonce is
    returned because [PopulateEmptySlice] may rewrite it in place. *)
Definition aeadEncrypt (plaintext key nonce additional fresh : bytes)
  : res (bytes * bytes) :=
  let nonce := PopulateEmptySlice nonce ChachaNonceSize fresh in
  if negb (bool_decide (length key = ChachaKeySize)) then Err (EWrap EMsg)
  else if negb (bool_decide (length nonce = ChachaNonceSize)) then Panic
  else Ok (chachaSeal key nonce plaintext additional, nonce).

Definition aeadDecrypt (ciphertext key nonce additional : bytes) : res bytes :=
  if negb (bool_decide (length key = ChachaKeySize)) then Err (EWrap EMsg)
  else if negb (bool_decide (length nonce = ChachaNonceSize)) then Panic
  else wrap (chachaOpen key nonce ciphertext additional).
End crypto.

(* ------------------------------------------------------------------ *)
(** * Crypto suites                                                     *)
(* ------------------------------------------------------------------ *)

Definition SuiteIDLen : Z := 1.
Definition DefaultCryptoName : gostring := str "x25519-hkdf-chacha20poly1305".
Definition NoSigName : gostring := str "NoSignature".

Record SuiteInfo := mkSuiteInfo {
  suiteName : gostring;
  KeySize : Z;
  NonceSize : Z;
  CipherOverhead : Z;
  ValidateKey : bytes -> res unit;
  Encrypt : Entropy -> bytes -> bytes -> res (bytes * bytes * bytes);
  Decrypt : bytes -> bytes -> bytes -> bytes -> res bytes
}.

Definition testEphPub : bytes := str "public".
Definition testNonce : bytes := str "nonce".

Definition testSuite : SuiteInfo := {|
  suiteName := str "testing";
  KeySize := len testEphPub;
  NonceSize := len testNonce;
  CipherOverhead := 0;
  ValidateKey key := if 0 <? len key then Err EMsg else Ok tt;
  Encrypt _ _ payload := Ok (payload, testEphPub, testNonce);
  Decrypt _ ciphertext ephemeralPub nonce :=
    if negb (bool_decide (ephemeralPub = testEphPub)) then Err EMsg
    else if negb (bool_decide (nonce = testNonce)) then Err EMsg
    else Ok ciphertext
|}.

Section suites.
Context `{!Prims}.

Definition x25519Encrypt (e : Entropy) (publicKey payload : bytes)
  : res (bytes * bytes * bytes) :=
  '(sharedSecret, ephemeralPub) ← wrap (CreateSharedSecret publicKey e);
  let nonce := entNonce e in
  salt ← wrap (MultipleSlices [ephemeralPub; nonce]);
  actualKey ← wrap (DeriveKey sharedSecret salt DefaultCryptoName ChachaKeySize);
  let aad := z2b 1 :: ephemeralPub in
  '(ciphertext, nonce) ← wrap (aeadEncrypt payload actualKey nonce aad (entFix e));
  mret (ciphertext, ephemeralPub, nonce).

Definition x25519Decrypt (privateKey ciphertext ephemeralPub nonce : bytes)
  : res bytes :=
  sharedSecret ← wrap (ReCreateSharedSecret privateKey ephemeralPub);
  salt ← wrap (MultipleSlices [ephemeralPub; nonce]);
  actualKey ← wrap (DeriveKey sharedSecret salt DefaultCryptoName ChachaKeySize);
  let aad := z2b 1 :: ephemeralPub in
  aeadDecrypt ciphertext actualKey nonce aad.

Definition x25519Suite : SuiteInfo := {|
  suiteName := DefaultCryptoName;
  KeySize := Z.of_nat ScalarSize;
  NonceSize := Z.of_nat ChachaNonceSize;
  CipherOverhead := Z.of_nat ChachaOverhead;
  ValidateKey key :=
    if negb (bool_decide (length key = ScalarSize)) then Err EMsg else Ok tt;
  Encrypt := x25519Encrypt;
  Decrypt := x25519Decrypt
|}.

(** The 256-slot table: slots 0 and 1 are set, the others are nil. *)
Definition GetSuiteInfo (id : Z) : option SuiteInfo :=
  if id =? 0 then Some testSuite
  else if id =? 1 then Some x25519Suite
  else None.

Definition SuiteNameToID (name : gostring) : option Z :=
  fmap (fun p => Z.of_nat (p.1))
    (list_find (fun id => suiteName <$> GetSuiteInfo (Z.of_nat id) = Some name) (seq 0 256)).

(* ---------------------------------------------------------------- *)
(** * Signature suites                                              *)
(* ---------------------------------------------------------------- *)

Record SigInfo := mkSigInfo {
  sigName : gostring;
  MinSignatureLength : Z;
  MaxSignatureLength : Z;
  sigValidateKey : bytes -> res unit;
  Sign : bytes -> bytes -> res bytes;
  Verify : bytes -> bytes -> bytes -> bool
}.

Definition noSignature : SigInfo := {|
  sigName := NoSigName;
  MinSignatureLength := 0;
  MaxSignatureLength := 0;
  sigValidateKey key := if 0 <? len key then Err EMsg else Ok tt;
  Sign _ _ := Ok [];
  Verify _ _ _ := true
|}.

Definition ed25519Suite : SigInfo := {|
  sigName := str "ed25519";
  MinSignatureLength := Z.of_nat Ed25519SignatureSize;
  MaxSignatureLength := Z.of_nat Ed25519SignatureSize;
  sigValidateKey key :=
    if negb (bool_decide (length key = Ed25519PrivateKeySize)) then Err EMsg
    else Ok tt;
  Sign priv msg :=
    if negb (bool_decide (length priv = Ed25519PrivateKeySize)) then Err EMsg
    else Ok (ed25519Sign priv msg);
  Verify pub msg sig :=
    if negb (bool_decide (length pub = Ed25519PublicKeySize))
       || negb (bool_decide (length sig = Ed25519SignatureSize))
    then false
    else ed25519Verify pub msg sig
|}.

Definition GetSignatureInfo (id : Z) : option SigInfo :=
  if id =? 0 then Some noSignature
  else if id =? 1 then Some ed25519Suite
  else None.

Definition SignatureNameToID (name : gostring) : option Z :=
  fmap (fun p => Z.of_nat (p.1))
    (list_find (fun id => sigName <$> GetSignatureInfo (Z.of_nat id) = Some name) (seq 0 256)).
End suites.

(* ------------------------------------------------------------------ *)
(** * Facts                                                             *)
(* ------------------------------------------------------------------ *)

Lemma PopulateEmptySlice_length s n fresh :
  length fresh = n -> (s = [] \/ length s = n) ->
  length (PopulateEmptySlice s n fresh) = n.
Proof.
  intros Hf Hs. unfold PopulateEmptySlice.
  assert (length (match s with [] => repeat Byte.x00 n | _ => s end) = n) as Hl.
  { destruct s; [by rewrite repeat_length|by destruct Hs]. }
  destruct (_ || _); [|done]. rewrite length_take, Hl. lia.
Qed.

(** A nonce the caller may use as it is: not degenerate. *)
Definition nonce_fresh (e : Entropy) : Prop :=
  isAllIdentical (entNonce e) = false /\ isAllZero (entNonce e) = false.

Lemma PopulateEmptySlice_fresh s n fresh :
  isAllIdentical s = false -> isAllZero s = false -> PopulateEmptySlice s n fresh = s.
Proof. unfold PopulateEmptySlice. destruct s; [done|]. by intros -> ->. Qed.

Section facts.
Context {P : Prims} {HL : PrimLaws}.

Lemma GetSuiteInfo_Some id s : GetSuiteInfo id = Some s ->
  (id = 0 /\ s = testSuite) \/ (id = 1 /\ s = x25519Suite).
Proof. unfold GetSuiteInfo. repeat case_match; naive_solver lia. Qed.

Lemma GetSignatureInfo_Some id s : GetSignatureInfo id = Some s ->
  (id = 0 /\ s = noSignature) \/ (id = 1 /\ s = ed25519Suite).
Proof. unfold GetSignatureInfo. repeat case_match; naive_solver lia. Qed.

(** What a successful encryption produces. *)
Lemma x25519Encrypt_Ok e pub payload ct eph nonce :
  entropy_ok e ->
  x25519Encrypt e pub payload = Ok (ct, eph, nonce) ->
  length ct = (length payload + ChachaOverhead)%nat /\
  length eph = ScalarSize /\ length nonce = ChachaNonceSize.
Proof.
  intros (_ & Hn & Hf). unfold x25519Encrypt, CreateSharedSecret. intros H.
  apply bind_inv in H as ([ss ep] & H1 & H).
  apply wrap_inv, bind_inv in H1 as (ep' & Hep%wrap_inv & H1).
  apply bind_inv in H1 as (ss' & _ & [= -> ->]).
  apply bind_inv in H as (salt & _ & H).
  apply bind_inv in H as (key & Hkey & H).
  apply wrap_inv, wrap_inv, hkdf_length in Hkey.
  apply bind_inv in H as ([ct' n'] & Ha%wrap_inv & [= <- <- <-]).
  unfold aeadEncrypt in Ha. rewrite Hkey in Ha.
  pose proof (PopulateEmptySlice_length (entNonce e) ChachaNonceSize (entFix e)
                Hf (or_intror Hn)) as Hp.
  rewrite Hp in Ha. simpl in Ha. injection Ha as <- <-.
  rewrite chacha_length, Hp. apply X25519_length in Hep. done.
Qed.

(** Suite 1: whoever holds the private key of the server key the payload
    was encrypted to recovers it. *)
Lemma x25519_roundtrip e priv pub payload ct eph nonce :
  entropy_ok e -> nonce_fresh e ->
  X25519 priv Basepoint = Ok pub ->
  x25519Encrypt e pub payload = Ok (ct, eph, nonce) ->
  x25519Decrypt priv ct eph nonce = Ok payload.
Proof.
  intros (_ & Hn & _) [Hi Hz] Hpub. unfold x25519Encrypt, x25519Decrypt. intros H.
  apply bind_inv in H as ([ss ep] & H1 & H).
  unfold CreateSharedSecret in H1.
  apply wrap_inv, bind_inv in H1 as (ep' & Hep%wrap_inv & H1).
  apply bind_inv in H1 as (ss' & Hss%wrap_inv & [= -> ->]).
  apply bind_inv in H as (salt & Hsalt & H).
  apply bind_inv in H as (key & Hkey & H).
  apply bind_inv in H as ([ct' n'] & Ha%wrap_inv & [= <- <- <-]).
  unfold aeadEncrypt in Ha.
  rewrite PopulateEmptySlice_fresh in Ha by done.
  unfold ReCreateSharedSecret. rewrite <- (X25519_dh _ _ _ _ Hep Hpub), Hss. simpl.
  repeat case_match; try done. injection Ha as <- <-.
  simpl in Hsalt. injection Hsalt as <-. rewrite Hkey. simpl.
  unfold aeadDecrypt. repeat case_match; try congruence.
  by rewrite chacha_open_seal.
Qed.
End facts.
