(* ===== verification/ToyCrypto.v ===== *)
(** A small lawful instance of the primitives.

    It is not cryptography: it shows that the laws of [PrimLaws] can hold
    together and lets the examples of the development compute. A shared
    secret is a bytewise sum, sealing appends a constant tag and a signature
    is the public key followed by the padded message. *)
From S2P Require Import Prelude Registry.

(** Exactly [n] bytes: cut, or padded with zeros. *)
Definition fit (n : nat) (l : bytes) : bytes := take n (l ++ repeat Byte.x00 n).

Lemma fit_length n l : length (fit n l) = n.
Proof. unfold fit. rewrite length_take, length_app, repeat_length. lia. Qed.

Definition addByte (a b : byte) : byte := z2b (b2z a + b2z b).
Definition toyDH (a p : bytes) : bytes := zip_with addByte (fit 32 a) (fit 32 p).
Definition toyPublic (k : bytes) : bytes := fit 32 k.

#[export] Instance toyPrims : Prims := {|
  X25519 a p := Ok (toyDH a p);
  sha512 m := fit 64 m;
  hkdfRead s t i n := Ok (fit n (s ++ t ++ i));
  chachaSeal k n p a := p ++ repeat Byte.x2a 16;
  chachaOpen k n c a := Ok (take (length c - 16) c);
  ed25519Sign k m := toyPublic k ++ fit 32 m;
  ed25519Verify p m s := bool_decide (s = p ++ fit 32 m);
  ed25519Public := toyPublic
|}.

Lemma addByte_assoc_comm a b c : addByte a (addByte b c) = addByte b (addByte a c).
Proof.
  unfold addByte. apply b2z_inj. rewrite !b2z_z2b.
  rewrite !Zplus_mod_idemp_r. f_equal. lia.
Qed.

Lemma toyDH_length a p : length (toyDH a p) = 32%nat.
Proof. unfold toyDH. rewrite length_zip_with, !fit_length. done. Qed.

Lemma fit_id n l : length l = n -> fit n l = l.
Proof. intros <-. unfold fit. apply take_app_length. Qed.

Lemma zip_with_swap (a b p : bytes) :
  length a = length b ->
  zip_with addByte a (zip_with addByte b p) = zip_with addByte b (zip_with addByte a p).
Proof.
  revert b p. induction a as [|x a IH]; intros [|y b] [|z p] H; try done.
  simpl in *. rewrite addByte_assoc_comm. f_equal. apply IH. lia.
Qed.

#[export] Instance toyLaws : PrimLaws.
Proof.
  constructor; simpl.
  - intros a p s [= <-]. apply toyDH_length.
  - intros a b A B [= <-] [= <-]. f_equal. unfold toyDH at 1 3.
    rewrite !(fit_id 32 (toyDH _ _)) by apply toyDH_length. unfold toyDH.
    apply zip_with_swap. by rewrite !fit_length.
  - intros s t i n k [= <-]. apply fit_length.
  - intros. by rewrite length_app.
  - intros k n p a. f_equal. rewrite length_app. cbn [length].
    replace (length p + 16 - 16)%nat with (length p) by lia. apply take_app_length.
  - intros k m. unfold toyPublic. by rewrite length_app, !fit_length.
  - intros k. apply fit_length.
  - intros k m. by apply bool_decide_eq_true_2.
Qed.

(** Key pairs and random bytes for the examples. *)
Definition toyKey (n : Z) : bytes := repeat (z2b n) 32.
Definition toyPub (priv : bytes) : bytes := toyDH priv Basepoint.
Definition toySigKey : bytes := repeat (z2b 7) 64.
Definition toyEntropy : Entropy :=
  mkEntropy (toyKey 5) (map (fun n => z2b (Z.of_nat n)) (seq 1 12)) (repeat (z2b 3) 12).

