(* ===== verification/Wrappers.v ===== *)
(** The process-wide crypto entry points of [internal/crypto/wrappers].

    The package keeps function variables that the [Setup*] calls replace by
    closures over a key. The model keeps the captured keys in a [CryptoEnv]:
    a variable still holding its fail-safe is [None]. *)
From S2P Require Import Prelude Registry.

Record CryptoEnv := mkCryptoEnv {
  encKey : option bytes;                 (** captured by [EncryptInnerPayload] *)
  decKey : option bytes;                 (** captured by [DecryptInnerPayload] *)
  sigKey : option bytes;                 (** captured by [CreateSignature] *)
  verifyReady : bool;                    (** [VerifySignature] was set up *)
  pinned : option (gmap gostring bytes); (** [pinnedSenderKeys], nil at start *)
  secret : option bytes                  (** captured by [GetSharedSecret] *)
}.

(** The package right after loading: every variable holds its fail-safe. *)
Definition initEnv : CryptoEnv := mkCryptoEnv None None None false None None.

(** An empty key leaves the variable alone; the function variables are never
    nil, so the error branch of the empty case is not reachable. *)
Definition SetupEncryptInnerPayload (env : CryptoEnv) (serverPub : bytes) : CryptoEnv :=
  if len serverPub <=? 0 then env
  else mkCryptoEnv (Some serverPub) (decKey env) (sigKey env) (verifyReady env)
         (pinned env) (secret env).

Definition SetupDecryptInnerPayload (env : CryptoEnv) (privateKey : bytes) : CryptoEnv :=
  if len privateKey <=? 0 then env
  else mkCryptoEnv (encKey env) (Some privateKey) (sigKey env) (verifyReady env)
         (pinned env) (secret env).

Definition SetupCreateSignature (env : CryptoEnv) (privateKey : bytes) : CryptoEnv :=
  if len privateKey <=? 0 then env
  else mkCryptoEnv (encKey env) (decKey env) (Some privateKey) (verifyReady env)
         (pinned env) (secret env).

Definition NewPinnedSenders (env : CryptoEnv) (keys : gmap gostring bytes) : CryptoEnv :=
  mkCryptoEnv (encKey env) (decKey env) (sigKey env) (verifyReady env)
    (Some keys) (secret env).

Definition SetupVerifySignature (env : CryptoEnv) (keys : gmap gostring bytes)
  : CryptoEnv :=
  let env := NewPinnedSenders env keys in
  mkCryptoEnv (encKey env) (decKey env) (sigKey env) true (pinned env) (secret env).

Definition LookupPinnedSender (env : CryptoEnv) (hostname : gostring) : option bytes :=
  match pinned env with
  | None => None
  | Some pinnedKeys =>
      if bool_decide (size pinnedKeys = 0%nat) then None else pinnedKeys !! hostname
  end.

Lemma LookupPinnedSender_eq env h :
  LookupPinnedSender env h = pinned env ≫= (.!! h).
Proof.
  unfold LookupPinnedSender. destruct (pinned env) as [m|]; [|done]. simpl.
  case_bool_decide as E; [|done]. apply map_size_empty_inv in E as ->. done.
Qed.

Section wrappers.
Context `{!Prims}.

Definition EncryptInnerPayload (env : CryptoEnv) (e : Entropy) (payload : bytes)
    (suiteID : Z) : res (bytes * bytes * bytes) :=
  match encKey env with
  | None => Err EMsg
  | Some serverPub =>
      if len serverPub =? 0 then Err EMsg
      else if IsZero serverPub then Err EMsg
      else match GetSuiteInfo suiteID with
           | None => Err EMsg
           | Some suite => Encrypt suite e serverPub payload
           end
  end.

Definition DecryptInnerPayload (env : CryptoEnv)
    (ciphertext ephemeralPub nonce : bytes) (suiteID : Z) : res bytes :=
  match decKey env with
  | None => Err EMsg
  | Some privateKey =>
      if len privateKey =? 0 then Err EMsg
      else if IsZero privateKey then Err EMsg
      else match GetSuiteInfo suiteID with
           | None => Err EMsg
           | Some suite => Decrypt suite privateKey ciphertext ephemeralPub nonce
           end
  end.

Definition CreateSignature (env : CryptoEnv) (data : bytes) (sigID : Z) : res bytes :=
  match sigKey env with
  | None => Err EMsg
  | Some privateKey =>
      if IsZero privateKey then Err EMsg
      else match GetSignatureInfo sigID with
           | None => Err EMsg
           | Some sigSuite =>
               if sigID =? 0 then Ok []
               else if len privateKey =? 0 then Err EMsg
               else Sign sigSuite privateKey data
           end
  end.

Definition VerifySignature (env : CryptoEnv) (publicKey data signature : bytes)
    (sigID : Z) : res bool :=
  if negb (verifyReady env) then Err EMsg
  else if sigID =? 0 then Err EMsg
  else if IsZero publicKey then Err EMsg
  else match GetSignatureInfo sigID with
       | None => Err EMsg
       | Some sigSuite => Ok (Verify sigSuite publicKey data signature)
       end.

(** [SetupGetSharedSecret]: derives the program secret from a copy of the
    private key. *)
Definition SetupGetSharedSecret (env : CryptoEnv) (serverPriv : bytes)
  : res CryptoEnv :=
  if len serverPriv <=? 0 then Ok env
  else if IsZero serverPriv then Err EMsg
  else
    newSecret ← wrap (DeriveKey serverPriv (str "fipr-salt") (str "fipr-secret") 16);
    Ok (mkCryptoEnv (encKey env) (decKey env) (sigKey env) (verifyReady env)
          (pinned env) (Some newSecret)).

Definition GetSharedSecret (env : CryptoEnv) : res bytes :=
  match secret env with None => Err EMsg | Some s => Ok s end.
End wrappers.

Section facts.
Context {P : Prims} {HL : PrimLaws}.

(** A sender that encrypts to [pub] and a receiver that holds [priv]. *)
Definition keyed (snd rcv : CryptoEnv) (priv pub : bytes) : Prop :=
  encKey snd = Some pub /\ decKey rcv = Some priv /\
  X25519 priv Basepoint = Ok pub /\
  IsZero pub = false /\ IsZero priv = false.

(** Entropy good enough for the suite: the testing suite draws none. *)
Definition entropy_for (id : Z) (e : Entropy) : Prop :=
  id = 1 -> entropy_ok e /\ nonce_fresh e.

Lemma IsZero_len l : IsZero l = false -> (len l =? 0) = false.
Proof. destruct l; [done|]. intros _. rewrite len_cons. pose proof (len_nonneg l). lia. Qed.

(** The lengths every successful encryption respects. *)
Lemma EncryptInnerPayload_lengths env e payload id s ct eph nonce :
  GetSuiteInfo id = Some s -> entropy_for id e ->
  EncryptInnerPayload env e payload id = Ok (ct, eph, nonce) ->
  len eph = KeySize s /\ len nonce = NonceSize s /\
  len ct = len payload + CipherOverhead s.
Proof.
  unfold EncryptInnerPayload. intros Hs He.
  destruct (encKey env); [|done]. do 2 (case_match; [done|]). rewrite Hs.
  apply GetSuiteInfo_Some in Hs as [[-> ->]|[-> ->]]; simpl.
  - intros [= <- <- <-]. rewrite Z.add_0_r. done.
  - intros Hx. destruct (He eq_refl) as [Hok _].
    destruct (x25519Encrypt_Ok _ _ _ _ _ _ Hok Hx) as (H1 & H2 & H3).
    unfold len. rewrite H1, H2, H3. lia.
Qed.

(** Decryption inverts encryption between matching keys. *)
Lemma wrappers_roundtrip snd rcv priv pub e payload id ct eph nonce :
  keyed snd rcv priv pub -> entropy_for id e ->
  EncryptInnerPayload snd e payload id = Ok (ct, eph, nonce) ->
  DecryptInnerPayload rcv ct eph nonce id = Ok payload.
Proof.
  intros (Hs & Hr & Hp & Z1 & Z2) He. unfold EncryptInnerPayload, DecryptInnerPayload.
  rewrite Hs, Hr, Z1, Z2, !IsZero_len by done.
  destruct (GetSuiteInfo id) as [s|] eqn:Hid; [|done].
  apply GetSuiteInfo_Some in Hid as [[-> ->]|[-> ->]]; simpl.
  - intros [= <- <- <-]. done.
  - intros Hx. destruct (He eq_refl). by eapply x25519_roundtrip.
Qed.
End facts.
