(* ===== verification/Context.v ===== *)
(** Typed custom-field values ([pkg/protocol/context.go]): the conversion of
    a Go [any] to its wire type and bytes, back, and to readable text. *)
From stdpp Require Import pretty.
From S2P Require Import Prelude Text.

(** The dynamic values an [any] field can hold. Integers are mathematical
    integers in the range of their type ([goval_wf]); floats are their IEEE
    bit patterns; [VOther] stands for every other type (structs, other
    slices, named integer types, ...), which the code refuses. *)
Inductive uintKind := KUint | KUint8 | KUint16 | KUint32 | KUint64.

Inductive goval :=
  | VNil
  | VInt (z : Z) | VInt8 (z : Z) | VInt16 (z : Z) | VInt32 (z : Z) | VInt64 (z : Z)
  | VUint (k : uintKind) (z : Z)
  | VFloat32 (bits : Z) | VFloat64 (bits : Z)
  | VBool (b : bool)
  | VString (s : gostring)
  | VBytes (b : bytes)
  | VOther.

#[export] Instance uintKind_eq_dec : EqDecision uintKind.
Proof. solve_decision. Defined.
#[export] Instance goval_eq_dec : EqDecision goval.
Proof. solve_decision. Defined.

Definition inS (w z : Z) : Prop := - 2 ^ (w - 1) <= z < 2 ^ (w - 1).
Definition inU (w z : Z) : Prop := 0 <= z < 2 ^ w.

(** The ranges the Go types guarantee; a slice is shorter than 2^32 here
    because its wire length field has 32 bits. *)
Definition goval_wf (v : goval) : Prop :=
  match v with
  | VInt z | VInt64 z => inS 64 z
  | VInt8 z => inS 8 z
  | VInt16 z => inS 16 z
  | VInt32 z => inS 32 z
  | VFloat32 b => inU 32 b
  | VFloat64 b => inU 64 b
  | VBytes b => len b < 2 ^ 32
  | _ => True
  end.

Definition ContextInt8 : Z := 0x01.
Definition ContextInt16 : Z := 0x02.
Definition ContextInt32 : Z := 0x03.
Definition ContextInt64 : Z := 0x04.
Definition ContextFloat32 : Z := 0x05.
Definition ContextFloat64 : Z := 0x06.
Definition ContextBool : Z := 0x07.
Definition ContextString : Z := 0x08.
Definition ContextSliceBytes : Z := 0x09.

(** Panics on nil: [reflect.ValueOf(nil).Type()]. *)
Definition serializeAnyValue (value : goval) : res (Z * bytes) :=
  match value with
  | VNil => Panic
  | VBytes b => Ok (ContextSliceBytes, be_encode 4 (wrapU 32 (len b)) ++ b)
  | VInt8 val => Ok (ContextInt8, [z2b val])
  | VInt16 val => Ok (ContextInt16, be_encode 2 val)
  | VInt32 val => Ok (ContextInt32, be_encode 4 val)
  | VInt64 v => Ok (ContextInt64, be_encode 8 v)
  | VInt v => Ok (ContextInt64, be_encode 8 v)
  | VFloat32 bits => Ok (ContextFloat32, be_encode 4 bits)
  | VFloat64 bits => Ok (ContextFloat64, be_encode 8 bits)
  | VBool b => Ok (ContextBool, [if b then Byte.x01 else Byte.x00])
  | VString s => Ok (ContextString, cleanBytes s)
  | VUint _ _ | VOther => Err EMsg
  end.

(** IEEE 754 classification on bit patterns: an all-ones exponent is a NaN
    or an infinity; both zeros compare equal to zero. *)
Definition notFinite32 (bits : Z) : bool := (bits / 2 ^ 23) mod 2 ^ 8 =? 2 ^ 8 - 1.
Definition isZero32 (bits : Z) : bool := (bits =? 0) || (bits =? 2 ^ 31).
Definition notFinite64 (bits : Z) : bool := (bits / 2 ^ 52) mod 2 ^ 11 =? 2 ^ 11 - 1.
Definition isZero64 (bits : Z) : bool := (bits =? 0) || (bits =? 2 ^ 63).

(** Reads the last [n] bytes as an unsigned integer after the length test
    that every fixed-width type performs. *)
Definition fixedWidth (n : nat) (data : bytes) : res Z :=
  if negb (bool_decide (length data = n)) then Err EMsg
  else '(v, _) ← readUint n data; Ok v.

Definition deserializeAnyValue (valType : Z) (data : bytes) : res goval :=
  if valType =? ContextSliceBytes then
    if bool_decide (length data < 4)%nat then Err (ESent ErrUnexpectedEOF)
    else
      '(length, buf) ← readUint 4 data;
      if negb (length =? len buf) then Err EMsg
      else
        '(b, buf) ← readFull (Z.to_nat length) buf;
        if negb (len buf =? 0) then Err (EWrap EMsg) else Ok (VBytes b)
  else if valType =? ContextInt8 then
    v ← fixedWidth 1 data; Ok (VInt8 (wrapS 8 v))
  else if valType =? ContextInt16 then
    v ← fixedWidth 2 data; Ok (VInt16 (wrapS 16 v))
  else if valType =? ContextInt32 then
    v ← fixedWidth 4 data; Ok (VInt32 (wrapS 32 v))
  else if valType =? ContextInt64 then
    v ← fixedWidth 8 data; Ok (VInt64 (wrapS 64 v))
  else if valType =? ContextFloat32 then
    bits ← fixedWidth 4 data;
    if notFinite32 bits then Err EMsg
    else Ok (VFloat32 (if isZero32 bits then 0 else bits))
  else if valType =? ContextFloat64 then
    bits ← fixedWidth 8 data;
    if notFinite64 bits then Err EMsg
    else Ok (VFloat64 (if isZero64 bits then 0 else bits))
  else if valType =? ContextBool then
    b ← fixedWidth 1 data;
    if b =? 0 then Ok (VBool false)
    else if b =? 1 then Ok (VBool true)
    else Err EMsg
  else if valType =? ContextString then
    if len data =? 0 then Ok (VString [])
    else
      '(strBytes, buf) ← readFull (length data) data;
      if negb (len buf =? 0) then Err EMsg
      else if negb (utf8Valid strBytes) then Err EMsg
      else Ok (VString strBytes)
  else Err EMsg.

(** [FormatValue]; [formatFloat w bits] is [strconv.FormatFloat(x, 'g', -1, w)]
    of the float with those bits. *)
Definition itoa (z : Z) : gostring := str (pretty z).

Definition hexDigit (z : Z) : byte :=
  nth (Z.to_nat z) (str "0123456789abcdef") Byte.x00.
Definition hexBytes (b : bytes) : gostring :=
  flat_map (fun c => [hexDigit (b2z c / 16); hexDigit (b2z c mod 16)]) b.

Definition FormatValue (formatFloat : Z -> Z -> gostring) (value : goval) : gostring :=
  match value with
  | VString x => x
  | VBytes x => hexBytes x
  | VInt x | VInt8 x | VInt16 x | VInt32 x | VInt64 x => itoa x
  | VUint _ x => itoa x
  | VFloat32 bits => formatFloat 32 bits
  | VFloat64 bits => formatFloat 64 bits
  | VBool x => if x then str "true" else str "false"
  | VNil | VOther => []
  end.

(* ------------------------------------------------------------------ *)
(** * What a value becomes on the other side                            *)
(* ------------------------------------------------------------------ *)

(** The value the receiver sees for a value the sender could serialize. *)
Definition wireValue (v : goval) : goval :=
  match v with
  | VInt z => VInt64 z
  | VFloat32 b => VFloat32 (if isZero32 b then 0 else b)
  | VFloat64 b => VFloat64 (if isZero64 b then 0 else b)
  | VString s => VString (cleanBytes s)
  | _ => v
  end.

(** Values that survive the trip: finite floats, strings whose cleaned text
    is UTF-8, and the types that have a wire type. *)
Definition transportable (v : goval) : Prop :=
  match v with
  | VFloat32 b => notFinite32 b = false
  | VFloat64 b => notFinite64 b = false
  | VString s => utf8Valid (cleanBytes s) = true
  | VNil | VUint _ _ | VOther => False
  | _ => True
  end.

Lemma fixedWidth_encode n z :
  fixedWidth n (be_encode n z) = Ok (z mod 256 ^ Z.of_nat n).
Proof.
  unfold fixedWidth. rewrite length_be_encode, bool_decide_eq_true_2 by done. simpl.
  rewrite (be_encode_ext n z (z mod 256 ^ Z.of_nat n)).
  - rewrite <- (app_nil_r (be_encode _ _)), readUint_app; [done|].
    apply Z.mod_pos_bound, pow256_pos.
  - rewrite Z.mod_mod by (pose proof (pow256_pos n); lia). done.
Qed.

Lemma fixedWidth_Ok n data v :
  fixedWidth n data = Ok v -> data = be_encode n v /\ 0 <= v < 256 ^ Z.of_nat n.
Proof.
  unfold fixedWidth. case_bool_decide as Hl; [|done]. simpl. intros H.
  apply bind_inv in H as ([v' r] & H & [= <-]).
  apply readUint_Ok in H as [-> Hr].
  rewrite length_app, length_be_encode in Hl.
  assert (r = []) as -> by (destruct r; simpl in Hl; [done|lia]).
  by rewrite app_nil_r.
Qed.

Lemma singleton_be b : [b] = be_encode 1 (b2z b).
Proof. simpl. rewrite Z.div_1_r. by rewrite z2b_b2z. Qed.

Lemma singleton_z2b z : [z2b z] = be_encode 1 z.
Proof. simpl. by rewrite Z.div_1_r. Qed.

Lemma pow256_2 n : 256 ^ Z.of_nat n = 2 ^ (8 * Z.of_nat n).
Proof. change 256 with (2 ^ 8). by rewrite Z.pow_mul_r by lia. Qed.

Lemma signed_roundtrip w n z :
  256 ^ Z.of_nat n = 2 ^ w -> 0 < w -> inS w z -> wrapS w (z mod 256 ^ Z.of_nat n) = z.
Proof. intros -> Hw Hz. by apply wrapS_wrapU. Qed.

Lemma deserializeBytes b :
  len b < 2 ^ 32 ->
  deserializeAnyValue ContextSliceBytes (be_encode 4 (wrapU 32 (len b)) ++ b)
  = Ok (VBytes b).
Proof.
  intros Hb. pose proof (len_nonneg b). rewrite wrapU_small by lia.
  unfold deserializeAnyValue. rewrite Z.eqb_refl, bool_decide_eq_false_2
    by (rewrite length_app, length_be_encode; lia).
  rewrite readUint_app by (change (256 ^ Z.of_nat 4) with (2 ^ 32); lia). simpl.
  rewrite Z.eqb_refl. simpl. unfold len. rewrite Nat2Z.id.
  rewrite <- (app_nil_r b) at 2. by rewrite readFull_app.
Qed.

Lemma deserializeString s :
  utf8Valid s = true -> deserializeAnyValue ContextString s = Ok (VString s).
Proof.
  intros Hs. unfold deserializeAnyValue. simpl.
  destruct (Z.eqb_spec (len s) 0) as [E|_]; [by destruct s|].
  rewrite <- (app_nil_r s) at 2. rewrite readFull_app by done. simpl. by rewrite Hs.
Qed.

(** Serialization followed by deserialization yields the wire value. *)
Lemma deserialize_serialize v t d :
  goval_wf v -> transportable v ->
  serializeAnyValue v = Ok (t, d) -> deserializeAnyValue t d = Ok (wireValue v).
Proof.
  destruct v as [|z|z|z|z|z|k z|z|z|b|s|b|]; simpl; intros Hw Ht; try done;
    intros [= <- <-].
  - change (deserializeAnyValue _ _) with
      (v ← fixedWidth 8 (be_encode 8 z); Ok (VInt64 (wrapS 64 v))).
    rewrite fixedWidth_encode. simpl mbind. by rewrite signed_roundtrip.
  - change (deserializeAnyValue _ _) with
      (v ← fixedWidth 1 [z2b z]; Ok (VInt8 (wrapS 8 v))).
    rewrite singleton_z2b, fixedWidth_encode. simpl mbind. by rewrite signed_roundtrip.
  - change (deserializeAnyValue _ _) with
      (v ← fixedWidth 2 (be_encode 2 z); Ok (VInt16 (wrapS 16 v))).
    rewrite fixedWidth_encode. simpl mbind. by rewrite signed_roundtrip.
  - change (deserializeAnyValue _ _) with
      (v ← fixedWidth 4 (be_encode 4 z); Ok (VInt32 (wrapS 32 v))).
    rewrite fixedWidth_encode. simpl mbind. by rewrite signed_roundtrip.
  - change (deserializeAnyValue _ _) with
      (v ← fixedWidth 8 (be_encode 8 z); Ok (VInt64 (wrapS 64 v))).
    rewrite fixedWidth_encode. simpl mbind. by rewrite signed_roundtrip.
  - change (deserializeAnyValue _ _) with
      (bits ← fixedWidth 4 (be_encode 4 z); if notFinite32 bits then Err EMsg
       else Ok (VFloat32 (if isZero32 bits then 0 else bits))).
    rewrite fixedWidth_encode. simpl mbind.
    rewrite Z.mod_small by (change (256 ^ Z.of_nat 4) with (2 ^ 32); apply Hw).
    by rewrite Ht.
  - change (deserializeAnyValue _ _) with
      (bits ← fixedWidth 8 (be_encode 8 z); if notFinite64 bits then Err EMsg
       else Ok (VFloat64 (if isZero64 bits then 0 else bits))).
    rewrite fixedWidth_encode. simpl mbind.
    rewrite Z.mod_small by (change (256 ^ Z.of_nat 8) with (2 ^ 64); apply Hw).
    by rewrite Ht.
  - by destruct b.
  - by apply deserializeString.
  - by apply deserializeBytes.
Qed.

Lemma wrapS_range w z : 0 < w -> inS w (wrapS w z).
Proof.
  intros Hw. unfold inS, wrapS.
  assert (2 ^ w = 2 * 2 ^ (w - 1)) as E.
  { replace w with (Z.succ (w - 1)) at 1 by lia. rewrite Z.pow_succ_r; lia. }
  pose proof (Z.mod_pos_bound z (2 ^ w) ltac:(lia)).
  destruct (Z.ltb_spec (z mod 2 ^ w) (2 ^ (w - 1))); lia.
Qed.

Lemma wrapS_mod w z : 0 < w -> (wrapS w z) mod 2 ^ w = z mod 2 ^ w.
Proof.
  intros Hw. unfold wrapS. destruct (_ <? _).
  - apply Z.mod_mod. lia.
  - rewrite Zminus_mod, Z.mod_same, Z.sub_0_r, !Z.mod_mod; lia.
Qed.

Lemma be_encode_wrapS n w z :
  256 ^ Z.of_nat n = 2 ^ w -> 0 < w -> be_encode n (wrapS w z) = be_encode n z.
Proof. intros E Hw. apply be_encode_ext. rewrite E. by apply wrapS_mod. Qed.

(** One goal per wire type. *)
Ltac by_type H :=
  unfold deserializeAnyValue in H;
  repeat match type of H with
  | (if ?t =? ?c then _ else _) = _ => destruct (Z.eqb_spec t c) as [->|_]
  end; [..|done].

(** The decoder is injective up to the normalisations it performs: whatever
    it accepts re-serializes to the same type and bytes, unless the bytes are
    a negative zero or a string that contains NUL. *)
Lemma serialize_deserialize t d v :
  deserializeAnyValue t d = Ok v ->
  (t = ContextString -> cleanBytes d = d) ->
  (t = ContextFloat32 -> d <> be_encode 4 (2 ^ 31)) ->
  (t = ContextFloat64 -> d <> be_encode 8 (2 ^ 63)) ->
  serializeAnyValue v = Ok (t, d).
Proof.
  intros H Hs H32 H64. by_type H.
  - case_bool_decide as Hl; [done|].
    apply bind_inv in H as ([n buf] & Hn & H). apply readUint_Ok in Hn as [-> Hn].
    destruct (Z.eqb_spec n (len buf)) as [E0|]; [|done]. simpl in H. subst n.
    apply bind_inv in H as ([b r] & Hb & H). apply readFull_Ok in Hb as [-> Hb].
    destruct (Z.eqb_spec (len r) 0) as [E|]; [|done]. simpl in H. injection H as <-.
    assert (r = []) as -> by (destruct r; [done|rewrite len_cons in E; pose proof (len_nonneg r); lia]).
    simpl. rewrite app_nil_r in *. rewrite wrapU_small; [done|].
    change (2 ^ 32) with (256 ^ Z.of_nat 4). done.
  - apply bind_inv in H as (n & Hn & [= <-]). apply fixedWidth_Ok in Hn as [-> _].
    unfold serializeAnyValue. by rewrite singleton_z2b, be_encode_wrapS.
  - apply bind_inv in H as (n & Hn & [= <-]). apply fixedWidth_Ok in Hn as [-> _].
    unfold serializeAnyValue. by rewrite be_encode_wrapS.
  - apply bind_inv in H as (n & Hn & [= <-]). apply fixedWidth_Ok in Hn as [-> _].
    unfold serializeAnyValue. by rewrite be_encode_wrapS.
  - apply bind_inv in H as (n & Hn & [= <-]). apply fixedWidth_Ok in Hn as [-> _].
    unfold serializeAnyValue. by rewrite be_encode_wrapS.
  - apply bind_inv in H as (n & Hn & H). apply fixedWidth_Ok in Hn as [-> _].
    case_match; [done|]. injection H as <-. unfold serializeAnyValue.
    destruct (isZero32 n) eqn:E; [|done]. apply orb_true_iff in E as [->%Z.eqb_eq|E]; [done|].
    apply Z.eqb_eq in E as ->. by destruct (H32 eq_refl).
  - apply bind_inv in H as (n & Hn & H). apply fixedWidth_Ok in Hn as [-> _].
    case_match; [done|]. injection H as <-. unfold serializeAnyValue.
    destruct (isZero64 n) eqn:E; [|done]. apply orb_true_iff in E as [->%Z.eqb_eq|E]; [done|].
    apply Z.eqb_eq in E as ->. by destruct (H64 eq_refl).
  - apply bind_inv in H as (n & Hn & H). apply fixedWidth_Ok in Hn as [-> _].
    destruct (Z.eqb_spec n 0) as [E|_]; [by injection H as <-; rewrite E|].
    destruct (Z.eqb_spec n 1) as [E|_]; [by injection H as <-; rewrite E|done].
  - destruct (Z.eqb_spec (len d) 0) as [E|_].
    { injection H as <-. by destruct d. }
    apply bind_inv in H as ([b r] & Hb & H). apply readFull_Ok in Hb as [Hd Hb].
    destruct (Z.eqb_spec (len r) 0) as [E|]; [|done].
    assert (r = []) as -> by (destruct r; [done|rewrite len_cons in E; pose proof (len_nonneg r); lia]).
    simpl in H. rewrite app_nil_r in Hd. subst b.
    case_match; [done|]. injection H as <-. simpl. by rewrite Hs.
Qed.

(** What the decoder accepts is well-formed and can travel again. *)
Lemma deserialize_canonical t d v :
  deserializeAnyValue t d = Ok v -> goval_wf v /\
  match v with
  | VFloat32 b => notFinite32 b = false /\ b <> 2 ^ 31
  | VFloat64 b => notFinite64 b = false /\ b <> 2 ^ 63
  | VString s => utf8Valid s = true
  | VNil | VInt _ | VUint _ _ | VOther => False
  | _ => True
  end.
Proof.
  intros H. by_type H.
  - case_bool_decide; [done|].
    apply bind_inv in H as ([n buf] & Hn & H). apply readUint_Ok in Hn as [-> Hn].
    destruct (Z.eqb_spec n (len buf)) as [E0|]; [|done]. simpl in H. subst n.
    apply bind_inv in H as ([b r] & Hb & H). apply readFull_Ok in Hb as [-> Hb].
    case_match; [done|]. injection H as <-. split; [|done]. simpl.
    rewrite len_app in Hn. pose proof (len_nonneg r). change (256 ^ Z.of_nat 4) with (2 ^ 32) in Hn.
    lia.
  - apply bind_inv in H as (n & Hn & [= <-]). split; [by apply wrapS_range|done].
  - apply bind_inv in H as (n & Hn & [= <-]). split; [by apply wrapS_range|done].
  - apply bind_inv in H as (n & Hn & [= <-]). split; [by apply wrapS_range|done].
  - apply bind_inv in H as (n & Hn & [= <-]). split; [by apply wrapS_range|done].
  - apply bind_inv in H as (n & Hn & H). apply fixedWidth_Ok in Hn as [-> Hn].
    change (256 ^ Z.of_nat 4) with (2 ^ 32) in Hn.
    destruct (notFinite32 n) eqn:E; [done|]. injection H as <-.
    destruct (isZero32 n) eqn:Ez; [done|]. repeat split; try done; [lia..|].
    intros ->. by vm_compute in Ez.
  - apply bind_inv in H as (n & Hn & H). apply fixedWidth_Ok in Hn as [-> Hn].
    change (256 ^ Z.of_nat 8) with (2 ^ 64) in Hn.
    destruct (notFinite64 n) eqn:E; [done|]. injection H as <-.
    destruct (isZero64 n) eqn:Ez; [done|]. repeat split; try done; [lia..|].
    intros ->. by vm_compute in Ez.
  - apply bind_inv in H as (n & Hn & H). repeat case_match; by simplify_eq.
  - destruct (Z.eqb_spec (len d) 0) as [E|_]; [by injection H as <-|].
    apply bind_inv in H as ([b r] & Hb & H).
    destruct (negb (len r =? 0)); [done|].
    destruct (utf8Valid b) eqn:E; [|done]. by injection H as <-.
Qed.

Lemma deserialize_not_Panic t d : deserializeAnyValue t d <> Panic.
Proof.
  assert (forall n, fixedWidth n d <> Panic) as Hf.
  { intros n. unfold fixedWidth. case_match; [done|]. apply bind_not_Panic.
    - apply readUint_not_Panic.
    - by intros []. }
  unfold deserializeAnyValue.
  repeat match goal with |- (if ?b then _ else _) <> _ => destruct b end; try done;
    apply bind_not_Panic; auto using readUint_not_Panic, readFull_not_Panic;
    intros; repeat case_match; try done.
  apply bind_not_Panic; auto using readFull_not_Panic. intros []. by case_match.
Qed.

(* ------------------------------------------------------------------ *)
(** * Theorems                                                          *)
(* ------------------------------------------------------------------ *)

(** Every transportable custom value is read back by the receiver as
    the same value, up to what the wire does not distinguish: [int] becomes
    [int64], NUL bytes disappear from strings and zeros lose their sign. *)
Theorem value_roundtrip v t d :
  goval_wf v -> transportable v -> serializeAnyValue v = Ok (t, d) ->
  deserializeAnyValue t d = Ok (wireValue v).
Proof. apply deserialize_serialize. Qed.

(** Decoding is canonical: two encodings the receiver accepts as the
    same value under the same type are the same bytes (signs of zero and NUL
    bytes in strings apart). *)
Theorem deserialize_injective t d d' v :
  (t = ContextString -> cleanBytes d = d /\ cleanBytes d' = d') ->
  (t = ContextFloat32 -> d <> be_encode 4 (2 ^ 31) /\ d' <> be_encode 4 (2 ^ 31)) ->
  (t = ContextFloat64 -> d <> be_encode 8 (2 ^ 63) /\ d' <> be_encode 8 (2 ^ 63)) ->
  deserializeAnyValue t d = Ok v -> deserializeAnyValue t d' = Ok v -> d = d'.
Proof.
  intros Hs H32 H64 H H'.
  apply serialize_deserialize in H;
    [|intros Ht; by destruct (Hs Ht)|intros Ht; by destruct (H32 Ht)
    |intros Ht; by destruct (H64 Ht)].
  apply serialize_deserialize in H';
    [|intros Ht; by destruct (Hs Ht)|intros Ht; by destruct (H32 Ht)
    |intros Ht; by destruct (H64 Ht)]. congruence.
Qed.

Lemma value_roundtrip_witness :
  deserializeAnyValue ContextInt64 (be_encode 8 (-42)) = Ok (VInt64 (-42)).
Proof. by apply (value_roundtrip (VInt (-42))). Defined.

Lemma deserialize_injective_witness :
  be_encode 2 (-300) = [z2b 254; z2b 212].
Proof.
  apply (deserialize_injective ContextInt16 _ _ (VInt16 (-300))); by vm_compute.
Defined.
