(* ===== verification/Consts.v ===== *)
(** The constants and data types of [pkg/protocol] ([consts.go],
    [types.go]). *)
From S2P Require Import Prelude Registry Context.

Definition MissingFragmentPlaceholder : gostring := str "[missing fragment]".
Definition HostPrefixUnkSig : gostring := str "[UNKNOWN]".
Definition HostPrefixUnverified : gostring := str "[UNVERIFIED]".
Definition IdentitySignatureContext : gostring := str "D3P-ID-SIG".

Definition terminatorByte : byte := Byte.x00.
Definition customFieldsEmptyMarker : Z := 0x0001.

(** Wire field lengths: fixed fields, length and terminator fields. *)
Definition lenHostID : Z := 4.
Definition lenMsgID : Z := 4.
Definition lenMsgSeq : Z := 2.
Definition lenSeqMax : Z := 2.
Definition lenTimestamp : Z := 8.
Definition lenHostnameTerminator : Z := 1.
Definition lenContextSectionTerminator : Z := 1.
Definition lenCtxKeyTerminator : Z := 1.
Definition lenCtxValTerminator : Z := 1.
Definition lenHostnameNxtLen : Z := 1.
Definition lenSigIDLen : Z := 1.
Definition lenSigNxtLen : Z := 1.
Definition lenContextSectionNxtLen : Z := 2.
Definition lenCtxKeyNxtLen : Z := 1.
Definition lenCtxTypeVal : Z := 1.
Definition lenCtxValNxtLen : Z := 1.
Definition lenDataNxtLen : Z := 2.

(** Bounds of the variable fields. *)
Definition minHostnameLen : Z := 1.
Definition maxHostnameLen : Z := 255.
Definition minSignatureLen : Z := 0.
Definition maxSignatureLen : Z := 255.
Definition maxCtxSectionLen : Z := Z.shiftl 1 (8 * lenContextSectionNxtLen) - 1.
Definition minCtxKeyLen : Z := 1.
Definition maxCtxKeyLen : Z := 32.
Definition minCtxValLen : Z := 1.
Definition MaxCtxValLen : Z := 255.
Definition minDataLen : Z := 1.
Definition maxDataLen : Z := Z.shiftl 1 (8 * lenDataNxtLen) - 1.
Definition minPaddingLen : Z := 10.
Definition maxPaddingLen : Z := 60.

Definition minInnerPayloadLenFixedOnly : Z :=
  lenHostID + lenMsgID + lenMsgSeq + lenSeqMax + lenTimestamp +
  lenContextSectionNxtLen + lenContextSectionTerminator + lenHostnameNxtLen +
  lenHostnameTerminator + lenSigIDLen + lenSigNxtLen + lenDataNxtLen.

Definition minInnerPayloadLen : Z :=
  lenHostID + lenMsgID + lenMsgSeq + lenSeqMax + lenTimestamp +
  lenContextSectionNxtLen + lenContextSectionTerminator + lenHostnameNxtLen +
  minHostnameLen + lenHostnameTerminator + lenSigIDLen + lenSigNxtLen +
  lenDataNxtLen + minDataLen + minPaddingLen.

Definition MinOuterPayloadLen : Z := SuiteIDLen + minInnerPayloadLen.

Definition ctxFieldOverhead : Z :=
  lenCtxKeyNxtLen + lenCtxKeyTerminator + lenCtxTypeVal + lenCtxValNxtLen +
  lenCtxValTerminator.

Definition minCtxSecLenWithData : Z :=
  lenContextSectionNxtLen + lenCtxKeyNxtLen + minCtxKeyLen + lenCtxKeyTerminator +
  lenCtxTypeVal + lenCtxValNxtLen + minCtxValLen + lenCtxValTerminator +
  lenContextSectionTerminator.

(** [time.Time] in nanoseconds since the Unix epoch, and its conversions:
    [UnixMilli] rounds down to a signed 64-bit millisecond count. *)
Abbreviation gotime := Z (only parsing).
Definition UnixMilli (t : gotime) : Z := wrapS 64 (t / 1000000).
Definition fromUnixMilli (ms : Z) : gotime := ms * 1000000.
(** The zero [time.Time] (January 1, year 1). *)
Definition zeroTime : gotime := -62135596800 * 1000000000.

(** [netip.Addr]: the zero value, IPv4, or IPv6 with its zone. *)
Inductive Addr :=
  | AddrZero
  | AddrV4 (a b c d : byte)
  | AddrV6 (groups : list Z) (zone : gostring).
#[export] Instance Addr_eq_dec : EqDecision Addr.
Proof. solve_decision. Defined.

(** [Message], [Payload], [contextWireFormat] and [innerWireFormat]. *)
Record Message := mkMessage {
  mTimestamp : gotime;
  mHostname : gostring;
  mFields : gmap gostring goval;
  mData : bytes
}.

Record Payload := mkPayload {
  RemoteIP : Addr;
  HostID : Z;
  MsgID : Z;
  MessageSeq : Z;
  MessageSeqMax : Z;
  Timestamp : gotime;
  Hostname : gostring;
  SignatureID : Z;
  Signature : bytes;
  CustomFields : gmap gostring goval;
  Data : bytes;
  PaddingLen : Z
}.

Record contextWireFormat := mkCtx {
  Key : bytes;
  valType : Z;
  Value : bytes
}.

Record innerWireFormat := mkInner {
  wHostID : Z;
  wMsgID : Z;
  wMessageSeq : Z;
  wMessageSeqMax : Z;
  wTimestamp : Z;
  wHostname : bytes;
  wSignatureID : Z;
  wSignature : bytes;
  wContextFields : list contextWireFormat;
  wData : bytes;
  wPaddingLen : Z
}.
