(* ===== verification/Inner.v ===== *)
(** The inner wire format ([pkg/protocol/inner.go]): serialization of a
    validated fragment and the parser of the receiver.

    [layout] is the wire layout of [docs/Protocol.md] as a specification;
    the serializer is shown to produce exactly it and the parser to accept
    exactly the serializations of well-formed fragments. *)
From S2P Require Import Prelude Registry Context Consts ToyCrypto.

(** [err = fmt.Errorf("%w: ...", ErrProtocolViolation)] *)
Definition PV : err := EWrap (ESent ErrProtocolViolation).

(* ------------------------------------------------------------------ *)
(** * Construction                                                      *)
(* ------------------------------------------------------------------ *)

Definition writeUint16 (buf : bytes) (b : Z) : res bytes := Ok (buf ++ be_encode 2 b).

Definition writeFixedLength (buf data : bytes) (length : Z) : res bytes :=
  if negb (len data =? length) then Err EMsg else Ok (buf ++ data).

(** The loop over [fields.ContextFields], filling the temporary buffer. *)
Fixpoint writeContextFields (contextBuffer : bytes) (fs : list contextWireFormat)
  : res bytes :=
  match fs with
  | [] => Ok contextBuffer
  | ctxField :: fs =>
      let buf := contextBuffer ++ [z2b (len (Key ctxField))] in
      buf ← wrapAs ErrSerialization
              (writeFixedLength buf (Key ctxField) (len (Key ctxField)));
      let buf := buf ++ [terminatorByte] in
      let buf := buf ++ [z2b (valType ctxField)] in
      let buf := buf ++ [z2b (len (Value ctxField))] in
      buf ← wrapAs ErrSerialization
              (writeFixedLength buf (Value ctxField) (len (Value ctxField)));
      let buf := buf ++ [terminatorByte] in
      writeContextFields buf fs
  end.

Definition writeHeader (f : innerWireFormat) : bytes :=
  be_encode 4 (wHostID f) ++ be_encode 4 (wMsgID f) ++
  be_encode 2 (wMessageSeq f) ++ be_encode 2 (wMessageSeqMax f).

Definition writeMetadata (buf : bytes) (f : innerWireFormat) : res bytes :=
  let buf := buf ++ be_encode 8 (wTimestamp f) in
  if len (wHostname f) <? minHostnameLen then Err PV
  else
    let buf := buf ++ [z2b (len (wHostname f))] in
    buf ← wrapAs ErrSerialization
            (writeFixedLength buf (wHostname f) (len (wHostname f)));
    let buf := buf ++ [terminatorByte] in
    let buf := buf ++ [z2b (wSignatureID f)] in
    let buf := buf ++ [z2b (len (wSignature f))] in
    if minSignatureLen <? len (wSignature f)
    then wrapAs ErrSerialization
           (writeFixedLength buf (wSignature f) (len (wSignature f)))
    else Ok buf.

Definition writeContext (buf : bytes) (f : innerWireFormat) : res bytes :=
  contextBuffer ← writeContextFields [] (wContextFields f);
  if maxCtxSectionLen <? len contextBuffer then Err PV
  else
    buf ← (if 0 <? len contextBuffer
           then buf ← wrapAs ErrSerialization
                        (writeUint16 buf (wrapU 16 (len contextBuffer)));
                wrapAs ErrSerialization
                  (writeFixedLength buf contextBuffer (len contextBuffer))
           else wrapAs ErrSerialization
                  (writeUint16 buf (wrapU 16 customFieldsEmptyMarker)));
    Ok (buf ++ [terminatorByte]).

Definition writeData (buf : bytes) (f : innerWireFormat) : res bytes :=
  if len (wData f) =? 0 then Err PV
  else if maxDataLen <? len (wData f) then Err PV
  else
    buf ← wrapAs ErrSerialization (writeUint16 buf (wrapU 16 (len (wData f))));
    wrapAs ErrSerialization (writeFixedLength buf (wData f) (len (wData f))).

(** [rand n] are the [n] bytes read from [rand.Reader]; a negative padding
    length makes [make] panic. *)
Definition writeTrailer (rand : nat -> bytes) (buf : bytes) (f : innerWireFormat)
  : res bytes :=
  if wPaddingLen f <? 0 then Panic
  else Ok (buf ++ rand (Z.to_nat (wPaddingLen f))).

Definition ConstructInnerPayload (rand : nat -> bytes) (f : innerWireFormat)
  : res bytes :=
  let buf := writeHeader f in
  buf ← writeMetadata buf f;
  buf ← writeContext buf f;
  buf ← writeData buf f;
  writeTrailer rand buf f.

(* ------------------------------------------------------------------ *)
(** * Parsing                                                           *)
(* ------------------------------------------------------------------ *)

Definition readTerminator : rd unit :=
  term ← rdWrap readByte;
  rdGuard (negb (bool_decide (term = terminatorByte))) EMsg.

Definition readHostname : rd bytes :=
  hostnameLen ← rdWrapAs ErrSerialization (readUint 1);
  rdGuard (hostnameLen =? 0) PV ;;
  rdGuard (wrapU 8 maxHostnameLen <? hostnameLen) PV ;;
  hostname ← rdWrapAs ErrSerialization (readFull (Z.to_nat hostnameLen));
  readTerminator ;;
  mret hostname.

(** One key-value pair after its key length was read. *)
Definition readContextField (keyLen : byte) : rd contextWireFormat :=
  fieldKey ← rdWrapAs ErrSerialization (readFull (Z.to_nat (b2z keyLen)));
  readTerminator ;;
  vt ← rdWrapAs ErrSerialization readByte;
  valLen ← rdWrapAs ErrSerialization readByte;
  fieldValue ← rdWrapAs ErrSerialization (readFull (Z.to_nat (b2z valLen)));
  readTerminator ;;
  mret (mkCtx fieldKey (b2z vt) fieldValue).

(** The loop over the context section: it ends when no byte is left. Every
    round reads at least one byte, so the section's length is enough fuel. *)
Fixpoint readContextFields (fuel : nat) : rd (list contextWireFormat) := fun l =>
  match l with
  | [] => Ok ([], [])
  | keyLen :: l' =>
      match fuel with
      | O => Panic
      | S fuel =>
          (f ← readContextField keyLen;
           fs ← readContextFields fuel;
           mret (f :: fs)) l'
      end
  end.

(** Runs the loop on a reader of its own and requires it to be exhausted. *)
Definition readContextSection (raw : bytes) : rd (list contextWireFormat) := fun l =>
  match readContextFields (length raw) raw with
  | Ok (fs, rest) =>
      if negb (len rest =? 0) then Err (EWrap (ESent ErrSerialization)) else Ok (fs, l)
  | Err e => Err e
  | Panic => Panic
  end.

Definition readContext : rd (list contextWireFormat) :=
  ctxSecLen ← rdWrapAs ErrSerialization (readUint 2);
  rdGuard (ctxSecLen =? 0) PV ;;
  fields ←
    (if negb (ctxSecLen =? customFieldsEmptyMarker) then
       raw ← rdWrapAs ErrSerialization (readFull (Z.to_nat ctxSecLen));
       readContextSection raw
     else mret []);
  readTerminator ;;
  mret fields.

(** [fields.Data] is still nil when its length is compared with
    [maxDataLen]. *)
Definition readData : rd bytes :=
  dataLen ← rdWrapAs ErrSerialization (readUint 2);
  rdGuard (dataLen =? 0) PV ;;
  rdGuard (maxDataLen <? len (@nil byte)) PV ;;
  left ← rdLen;
  rdGuard (left <? dataLen) PV ;;
  rdWrapAs ErrSerialization (readFull (Z.to_nat dataLen)).

Section parse.
Context `{!Prims}.

Definition readSignature : rd (Z * bytes) :=
  sigID ← rdWrapAs ErrSerialization (readUint 1);
  match GetSignatureInfo sigID with
  | None => fun _ => Err (EWrap (ESent ErrUnknownSignatureSuite))
  | Some suite =>
      sigLen ← rdWrapAs ErrSerialization (readUint 1);
      rdGuard ((sigID =? 0) && (0 <? sigLen)) PV ;;
      rdGuard ((0 <? sigID) && (sigLen =? 0)) PV ;;
      signature ←
        (if 0 <? sigLen then
           rdGuard ((wrapU 8 (MaxSignatureLength suite) <? sigLen)
                    || (sigLen <? wrapU 8 (MinSignatureLength suite))) PV ;;
           rdWrapAs ErrSerialization (readFull (Z.to_nat sigLen))
         else mret []);
      mret (sigID, signature)
  end.

Definition readInner : rd innerWireFormat :=
  hostID ← rdWrapAs ErrSerialization (readUint 4);
  msgID ← rdWrapAs ErrSerialization (readUint 4);
  seq ← rdWrapAs ErrSerialization (readUint 2);
  seqMax ← rdWrapAs ErrSerialization (readUint 2);
  timestamp ← rdWrapAs ErrSerialization (readUint 8);
  hostname ← readHostname;
  '(sigID, signature) ← readSignature;
  fields ← readContext;
  data ← readData;
  padding ← rdLen;
  mret (mkInner hostID msgID seq seqMax timestamp hostname sigID signature
          fields data padding).

Definition DeconstructInnerPayload (payload : bytes) : res innerWireFormat :=
  if len payload <? minInnerPayloadLen then Err PV
  else '(f, _) ← readInner payload; Ok f.
End parse.

(* ------------------------------------------------------------------ *)
(** * The wire layout                                                   *)
(* ------------------------------------------------------------------ *)

Definition ctxLayout (c : contextWireFormat) : bytes :=
  z2b (len (Key c)) :: Key c ++ terminatorByte :: z2b (valType c) ::
  z2b (len (Value c)) :: Value c ++ [terminatorByte].

Definition ctxSection (fs : list contextWireFormat) : bytes := concat (map ctxLayout fs).

Definition contextLayout (fs : list contextWireFormat) : bytes :=
  be_encode 2 (match fs with [] => customFieldsEmptyMarker | _ => len (ctxSection fs) end)
  ++ ctxSection fs ++ [terminatorByte].

(** Everything but the padding. *)
Definition layout (f : innerWireFormat) : bytes :=
  be_encode 4 (wHostID f) ++ be_encode 4 (wMsgID f) ++
  be_encode 2 (wMessageSeq f) ++ be_encode 2 (wMessageSeqMax f) ++
  be_encode 8 (wTimestamp f) ++
  z2b (len (wHostname f)) :: wHostname f ++ terminatorByte ::
  z2b (wSignatureID f) :: z2b (len (wSignature f)) :: wSignature f ++
  contextLayout (wContextFields f) ++
  be_encode 2 (len (wData f)) ++ wData f.

Lemma ctxSection_cons c fs : ctxSection (c :: fs) = ctxLayout c ++ ctxSection fs.
Proof. done. Qed.

Lemma len_ctxLayout c : len (ctxLayout c) = ctxFieldOverhead + len (Key c) + len (Value c).
Proof.
  unfold ctxLayout. change ctxFieldOverhead with 5.
  repeat first [rewrite len_cons | rewrite len_app | rewrite len_nil]. lia.
Qed.

(** Field widths of a context pair and of a fragment. *)
Definition ctx_ok (c : contextWireFormat) : Prop :=
  len (Key c) < 256 /\ 0 <= valType c < 256 /\ len (Value c) < 256.

Record inner_ok (f : innerWireFormat) : Prop := {
  ok_hostID : 0 <= wHostID f < 2 ^ 32;
  ok_msgID : 0 <= wMsgID f < 2 ^ 32;
  ok_seq : 0 <= wMessageSeq f < 2 ^ 16;
  ok_seqMax : 0 <= wMessageSeqMax f < 2 ^ 16;
  ok_timestamp : 0 <= wTimestamp f < 2 ^ 64;
  ok_hostname : 1 <= len (wHostname f) <= 255;
  ok_signature : (wSignatureID f = 0 /\ wSignature f = []) \/
                 (wSignatureID f = 1 /\ len (wSignature f) = 64);
  ok_ctx : Forall ctx_ok (wContextFields f);
  ok_ctxLen : len (ctxSection (wContextFields f)) <= maxCtxSectionLen;
  ok_data : 1 <= len (wData f) <= maxDataLen;
  ok_padding : 0 <= wPaddingLen f
}.

(* ------------------------------------------------------------------ *)
(** * The serializer writes the layout                                  *)
(* ------------------------------------------------------------------ *)

Lemma writeFixedLength_len buf d : writeFixedLength buf d (len d) = Ok (buf ++ d).
Proof. unfold writeFixedLength. by rewrite Z.eqb_refl. Qed.

Lemma writeContextFields_eq fs buf :
  writeContextFields buf fs = Ok (buf ++ ctxSection fs).
Proof.
  revert buf. induction fs as [|c fs IH]; intros buf.
  - unfold ctxSection. simpl. by rewrite app_nil_r.
  - cbn [writeContextFields]. rewrite !writeFixedLength_len. simpl.
    rewrite writeFixedLength_len. simpl. rewrite IH.
    unfold ctxSection, ctxLayout. cbn [map concat]. by app_norm.
Qed.

Lemma ctxSection_nil fs : len (ctxSection fs) = 0 <-> fs = [].
Proof.
  split; [|by intros ->]. destruct fs as [|c fs]; [done|]. intros H%len_0. done.
Qed.

Lemma writeContext_eq buf f :
  writeContext buf f =
  if maxCtxSectionLen <? len (ctxSection (wContextFields f)) then Err PV
  else Ok (buf ++ contextLayout (wContextFields f)).
Proof.
  unfold writeContext. rewrite writeContextFields_eq. cbn [mbind res_bind app].
  set (s := ctxSection (wContextFields f)).
  destruct (Z.ltb_spec maxCtxSectionLen (len s)) as [|Hmax]; [done|].
  pose proof (len_nonneg s). unfold contextLayout. fold s.
  destruct (Z.ltb_spec 0 (len s)) as [Hpos|Hz].
  - rewrite wrapU_small by (change (2 ^ 16) with (maxCtxSectionLen + 1); lia).
    unfold writeUint16. simpl. rewrite writeFixedLength_len. simpl.
    destruct (wContextFields f) eqn:E; [subst s; done|]. by app_norm.
  - assert (wContextFields f = []) as E by (apply ctxSection_nil; unfold s in *; lia).
    subst s. rewrite E. simpl. by app_norm.
Qed.

Lemma writeMetadata_eq buf f :
  writeMetadata buf f =
  if len (wHostname f) <? minHostnameLen then Err PV
  else Ok (buf ++ be_encode 8 (wTimestamp f) ++
           z2b (len (wHostname f)) :: wHostname f ++ terminatorByte ::
           z2b (wSignatureID f) :: z2b (len (wSignature f)) :: wSignature f).
Proof.
  unfold writeMetadata. destruct (_ <? minHostnameLen); [done|].
  rewrite !writeFixedLength_len. simpl. rewrite writeFixedLength_len.
  destruct (Z.ltb_spec minSignatureLen (len (wSignature f))) as [|Hs];
    simpl; app_norm; [done|].
  rewrite (len_0 (wSignature f)); [done|].
  pose proof (len_nonneg (wSignature f)). unfold minSignatureLen in Hs. lia.
Qed.

Lemma writeData_eq buf f :
  writeData buf f =
  if len (wData f) =? 0 then Err PV
  else if maxDataLen <? len (wData f) then Err PV
  else Ok (buf ++ be_encode 2 (len (wData f)) ++ wData f).
Proof.
  unfold writeData. destruct (_ =? 0); [done|].
  destruct (Z.ltb_spec maxDataLen (len (wData f))) as [|Hmax]; [done|].
  pose proof (len_nonneg (wData f)).
  rewrite wrapU_small by (change (2 ^ 16) with (maxDataLen + 1); lia).
  unfold writeUint16. simpl. rewrite writeFixedLength_len. simpl.
  by rewrite <- app_assoc.
Qed.

(** The serializer succeeds exactly on a non-empty hostname, a context section
    and data that fit their 16-bit length fields and a padding length that
    is not negative; it then writes the layout and the padding. *)
Lemma ConstructInnerPayload_eq rand f :
  ConstructInnerPayload rand f =
  if (len (wHostname f) <? minHostnameLen)
     || (maxCtxSectionLen <? len (ctxSection (wContextFields f)))
     || (len (wData f) =? 0) || (maxDataLen <? len (wData f))
  then Err PV
  else if wPaddingLen f <? 0 then Panic
  else Ok (layout f ++ rand (Z.to_nat (wPaddingLen f))).
Proof.
  unfold ConstructInnerPayload. rewrite writeMetadata_eq.
  destruct (_ <? minHostnameLen); [done|]. cbn [mbind res_bind orb].
  rewrite writeContext_eq. destruct (maxCtxSectionLen <? _); [done|].
  cbn [mbind res_bind orb]. rewrite writeData_eq.
  destruct (_ =? 0); [done|]. cbn [orb]. destruct (maxDataLen <? _); [done|].
  cbn [mbind res_bind]. unfold writeTrailer. destruct (_ <? 0); [done|].
  unfold layout, writeHeader. by app_norm.
Qed.

Lemma ConstructInnerPayload_ok rand f : inner_ok f ->
  ConstructInnerPayload rand f = Ok (layout f ++ rand (Z.to_nat (wPaddingLen f))).
Proof.
  intros []. rewrite ConstructInnerPayload_eq. unfold minHostnameLen.
  destruct (Z.ltb_spec (len (wHostname f)) 1); [lia|].
  destruct (Z.ltb_spec maxCtxSectionLen (len (ctxSection (wContextFields f)))); [lia|].
  destruct (Z.eqb_spec (len (wData f)) 0); [lia|].
  destruct (Z.ltb_spec maxDataLen (len (wData f))); [lia|].
  destruct (Z.ltb_spec (wPaddingLen f) 0); [lia|]. done.
Qed.

(* ------------------------------------------------------------------ *)
(** * The parser inverts the layout                                     *)
(* ------------------------------------------------------------------ *)

Lemma readTerminator_app l : readTerminator (terminatorByte :: l) = Ok (tt, l).
Proof. done. Qed.

Lemma readTerminator_inv l u l' :
  readTerminator l = Ok (u, l') -> l = terminatorByte :: l'.
Proof.
  unfold readTerminator. intros H. rd_inv H. rd_prim H.
  apply negb_false_iff, bool_decide_eq_true in H as ->. done.
Qed.

Lemma len_of_nat {A} (l : list A) n : length l = Z.to_nat n -> 0 <= n -> len l = n.
Proof. unfold len. lia. Qed.

(** Inverts the terminator reads and turns lengths into [len]. *)
Ltac wire_inv :=
  repeat match goal with
  | H : readTerminator _ = Ok _ |- _ => apply readTerminator_inv in H as ->
  | H : length _ = Z.to_nat _ |- _ => apply len_of_nat in H; [|lia]
  end.

Lemma readHostname_app h l :
  1 <= len h <= 255 ->
  readHostname (z2b (len h) :: h ++ terminatorByte :: l) = Ok (h, l).
Proof.
  intros Hh. unfold readHostname. rd_run.
  destruct (Z.eqb_spec (len h) 0); [lia|]. rd_run.
  destruct (Z.ltb_spec (wrapU 8 maxHostnameLen) (len h)) as [Hlt|].
  { vm_compute (wrapU 8 maxHostnameLen) in Hlt. lia. }
  rd_run. by rewrite readTerminator_app.
Qed.

Lemma z2b_len_nat {A} (h : list A) n :
  length h = Z.to_nat n -> 0 <= n < 256 -> z2b n = z2b (len h).
Proof. intros H ?. unfold len. rewrite H. f_equal. lia. Qed.

Lemma readHostname_inv l h l' :
  readHostname l = Ok (h, l') ->
  l = z2b (len h) :: h ++ terminatorByte :: l' /\ 1 <= len h <= 255.
Proof.
  unfold readHostname. intros H. rd_inv H. wire_inv.
  apply Z.eqb_neq in Hx0. change (256 ^ Z.of_nat 1) with 256 in Hx.
  change (be_encode 1 x) with [z2b (x / 1)]. rewrite Z.div_1_r.
  subst x.
  app_norm. split; [done|lia].
Qed.

Lemma be_encode_1 n : be_encode 1 n = [z2b n].
Proof. simpl. by rewrite Z.div_1_r. Qed.

Lemma readContextField_app c l : ctx_ok c ->
  readContextField (z2b (len (Key c)))
    (Key c ++ terminatorByte :: z2b (valType c) :: z2b (len (Value c)) ::
     Value c ++ terminatorByte :: l) = Ok (c, l).
Proof.
  intros (Hk & Ht & Hv). pose proof (len_nonneg (Key c)). pose proof (len_nonneg (Value c)).
  unfold readContextField. rewrite b2z_z2b, Z.mod_small by lia. rd_run.
  rewrite readTerminator_app. rd_run.
  rewrite (b2z_z2b (len (Value c))), (Z.mod_small (len (Value c))) by lia. rd_run.
  rewrite readTerminator_app. rd_run.
  rewrite b2z_z2b, Z.mod_small by lia. by destruct c.
Qed.

Lemma readContextField_inv k l c l' :
  readContextField k l = Ok (c, l') -> k :: l = ctxLayout c ++ l' /\ ctx_ok c.
Proof.
  unfold readContextField. intros H. rd_inv H. simpl.
  pose proof (b2z_range k). pose proof (b2z_range x1). pose proof (b2z_range x2).
  wire_inv. unfold ctxLayout, ctx_ok. simpl.
  repeat match goal with H : len _ = b2z _ |- _ => rewrite H; clear H end.
  rewrite !z2b_b2z. app_norm. split; [done|lia].
Qed.

Lemma readContextFields_app fs fuel :
  Forall ctx_ok fs -> (length (ctxSection fs) <= fuel)%nat ->
  readContextFields fuel (ctxSection fs) = Ok (fs, []).
Proof.
  intros Hok. revert fuel. induction Hok as [|c fs Hc Hok IH]; intros fuel Hf.
  - by destruct fuel.
  - unfold ctxSection, ctxLayout in *. cbn [map concat app length] in *.
    rewrite length_app in Hf. destruct fuel as [|fuel]; [lia|].
    cbn [readContextFields]. rewrite rd_bind_eq. app_norm.
    rewrite readContextField_app by done. rewrite rd_bind_eq, IH by lia. done.
Qed.

Lemma readContextFields_inv fuel l fs l' :
  readContextFields fuel l = Ok (fs, l') ->
  l = ctxSection fs /\ l' = [] /\ Forall ctx_ok fs.
Proof.
  revert l fs l'. induction fuel as [|fuel IH]; intros [|k l] fs l'; cbn [readContextFields];
    intros H; [by injection H as <- <-|done|by injection H as <- <-|].
  rd_inv H. apply readContextField_inv in Hx as [-> Hc].
  apply IH in Hx0 as (-> & -> & Hfs). split; [|split; [done|by constructor]].
  done.
Qed.

(** The fuel is enough: the loop never runs out of it. *)
Lemma readContextFields_total fuel l :
  (length l <= fuel)%nat -> readContextFields fuel l <> Panic.
Proof.
  revert l. induction fuel as [|fuel IH]; intros [|k l] Hl; cbn [readContextFields length] in *;
    [done|lia|done|].
  apply rd_bind_not_Panic.
  - unfold readContextField, readTerminator. rd_total.
  - intros c l1 H1. apply readContextField_inv in H1 as [E _].
    apply (f_equal length) in E. unfold ctxLayout in E.
    cbn [app length] in E. rewrite length_app in E.
    apply rd_bind_not_Panic; [apply IH; lia|done].
Qed.

Lemma readContext_app fs l :
  Forall ctx_ok fs -> len (ctxSection fs) <= maxCtxSectionLen ->
  readContext (contextLayout fs ++ l) = Ok (fs, l).
Proof.
  intros Hok Hmax. change maxCtxSectionLen with 65535 in Hmax.
  unfold readContext, contextLayout. app_norm.
  destruct fs as [|c fs]; [done|]. cbv beta iota.
  set (s := ctxSection (c :: fs)) in *.
  assert (5 <= len s).
  { subst s. rewrite ctxSection_cons, len_app, len_ctxLayout.
    change ctxFieldOverhead with 5. pose proof (len_nonneg (Key c)). pose proof (len_nonneg (Value c)).
    pose proof (len_nonneg (ctxSection fs)). lia. }
  rd_run.
  destruct (Z.eqb_spec (len s) 0); [lia|]. rd_run.
  destruct (Z.eqb_spec (len s) customFieldsEmptyMarker) as [E|_];
    [unfold customFieldsEmptyMarker in E; lia|].
  cbn [negb]. rd_run. unfold readContextSection.
  unfold s at 1 2. by rewrite readContextFields_app.
Qed.

Lemma readContext_inv l fs l' :
  readContext l = Ok (fs, l') ->
  l = contextLayout fs ++ l' /\ Forall ctx_ok fs /\
  len (ctxSection fs) <= maxCtxSectionLen.
Proof.
  unfold readContext. intros H. rd_inv H. wire_inv.
  change (256 ^ Z.of_nat 2) with 65536 in Hx. unfold contextLayout. app_norm.
  destruct (Z.eqb_spec x customFieldsEmptyMarker) as [->|Hne]; cbn [negb] in Hx1.
  - injection Hx1 as <- <-. done.
  - rd_inv Hx1. unfold readContextSection in Hx1.
    destruct (readContextFields _ _) as [[fs' r]| |] eqn:E; [|done..].
    case_match; [done|]. injection Hx1 as <- <-.
    apply readContextFields_inv in E as (-> & -> & Hok).
    wire_inv. subst x.
    assert (fs' <> []) as Hfs. { intros ->. by rewrite Z.eqb_refl in Hx0. }
    change maxCtxSectionLen with 65535.
    destruct fs'; [done|]. split; [by app_norm|]. split; [done|lia].
Qed.

Lemma readData_app d l : 1 <= len d <= maxDataLen ->
  readData (be_encode 2 (len d) ++ d ++ l) = Ok (d, l).
Proof.
  change maxDataLen with 65535. intros Hd. unfold readData. rd_run.
  destruct (Z.eqb_spec (len d) 0); [lia|]. rd_run.
  change (maxDataLen <? len (@nil byte)) with false. rd_run.
  unfold rdLen at 1. rewrite len_app. pose proof (len_nonneg l).
  destruct (Z.ltb_spec (len d + len l) (len d)); [lia|]. by rd_run.
Qed.

Lemma readData_inv l d l' : readData l = Ok (d, l') ->
  l = be_encode 2 (len d) ++ d ++ l' /\ 1 <= len d <= maxDataLen.
Proof.
  change maxDataLen with 65535. unfold readData. intros H. rd_inv H. rd_prim H.
  change (256 ^ Z.of_nat 2) with 65536 in Hx. wire_inv. subst x.
  apply Z.eqb_neq in Hx0. split; [done|lia].
Qed.

Section parse_facts.
Context {P : Prims}.

Lemma readSignature_app id sig l :
  (id = 0 /\ sig = []) \/ (id = 1 /\ len sig = 64) ->
  readSignature (z2b id :: z2b (len sig) :: sig ++ l) = Ok ((id, sig), l).
Proof.
  intros [[-> ->]|[-> Hs]]; [done|].
  unfold readSignature. rd_run. change (GetSignatureInfo 1) with (Some ed25519Suite).
  cbv iota. rd_run. rewrite Hs. cbn [Z.eqb Z.ltb Z.compare andb]. rd_run.
  change (rdGuard _ PV) with (rdGuard false PV). rd_run. rewrite <- Hs. by rd_run.
Qed.

Lemma readSignature_inv l id sig l' :
  readSignature l = Ok ((id, sig), l') ->
  l = z2b id :: z2b (len sig) :: sig ++ l' /\
  ((id = 0 /\ sig = []) \/ (id = 1 /\ len sig = 64)).
Proof.
  unfold readSignature. intros H. rd_inv H. rewrite be_encode_1. cbn [app].
  destruct (GetSignatureInfo x) as [s|] eqn:Hs; [|done].
  rd_inv H. rewrite be_encode_1. cbn [app].
  change (256 ^ Z.of_nat 1) with 256 in *.
  apply GetSignatureInfo_Some in Hs as [[-> ->]|[-> ->]].
  - destruct (Z.ltb_spec 0 x0); [done|].
    injection Hx3 as <- <-. subst. replace x0 with 0 by lia. split; [done|by left].
  - destruct (Z.ltb_spec 0 x0); [|lia]. rd_inv Hx3. rd_prim Hx3.
    change (wrapU 8 _) with 64 in Hx4. wire_inv.
    apply orb_false_iff in Hx4 as [?%Z.ltb_ge ?%Z.ltb_ge].
    subst. split; [done|]. right. split; [done|].
    change (wrapU 8 (MinSignatureLength ed25519Suite)) with 64 in *.
    change (wrapU 8 (MaxSignatureLength ed25519Suite)) with 64 in *. lia.
Qed.

(** Parsing a layout followed by padding gives the fields back. *)
Lemma readInner_layout f pad :
  inner_ok f -> len pad = wPaddingLen f -> readInner (layout f ++ pad) = Ok (f, pad).
Proof.
  intros [] Hpad. unfold readInner, layout. app_norm. rd_run.
  rewrite readHostname_app by done. rd_run.
  rewrite readSignature_app by done. rd_run.
  rewrite readContext_app by done. rd_run.
  rewrite readData_app by done. rd_run.
  unfold rdLen. rewrite Hpad. by destruct f.
Qed.

Lemma readInner_inv p f rest :
  readInner p = Ok (f, rest) ->
  p = layout f ++ rest /\ len rest = wPaddingLen f /\ inner_ok f.
Proof.
  unfold readInner. intros H. rd_inv H. destruct x5 as [sigID sig]. rd_inv H.
  repeat match goal with
  | Hh : readHostname _ = Ok _ |- _ => apply readHostname_inv in Hh as [-> ?]
  | Hh : readSignature _ = Ok _ |- _ => apply readSignature_inv in Hh as [-> ?]
  | Hh : readContext _ = Ok _ |- _ => apply readContext_inv in Hh as (-> & ? & ?)
  | Hh : readData _ = Ok _ |- _ => apply readData_inv in Hh as [-> ?]
  end.
  unfold layout. cbn. app_norm. split; [done|]. split; [done|].
  change (256 ^ Z.of_nat 4) with (2 ^ 32) in *.
  change (256 ^ Z.of_nat 2) with (2 ^ 16) in *.
  change (256 ^ Z.of_nat 8) with (2 ^ 64) in *.
  constructor; cbn; auto using len_nonneg.
Qed.
End parse_facts.

(* ------------------------------------------------------------------ *)
(** * Sizes                                                             *)
(* ------------------------------------------------------------------ *)

Lemma len_contextLayout fs :
  len (contextLayout fs) =
  lenContextSectionNxtLen + len (ctxSection fs) + lenContextSectionTerminator.
Proof.
  unfold contextLayout. rewrite !len_app, len_be_encode.
  change (len [terminatorByte]) with 1.
  change lenContextSectionNxtLen with 2. change lenContextSectionTerminator with 1. lia.
Qed.

Lemma len_layout f :
  len (layout f) = minInnerPayloadLenFixedOnly + len (wHostname f) +
    len (wSignature f) + len (ctxSection (wContextFields f)) + len (wData f).
Proof.
  unfold layout. change minInnerPayloadLenFixedOnly with 29.
  repeat first [rewrite len_cons | rewrite len_app | rewrite len_be_encode
               | rewrite len_contextLayout].
  change lenContextSectionNxtLen with 2. change lenContextSectionTerminator with 1. lia.
Qed.

Section inner_facts.
Context {P : Prims}.

(** What the parser accepts: exactly the layouts of well-formed fragments
    followed by their padding, of at least the minimum length. *)
Lemma DeconstructInnerPayload_iff p f :
  DeconstructInnerPayload p = Ok f <->
  minInnerPayloadLen <= len p /\ inner_ok f /\
  exists pad, p = layout f ++ pad /\ len pad = wPaddingLen f.
Proof.
  unfold DeconstructInnerPayload. destruct (Z.ltb_spec (len p) minInnerPayloadLen) as [Hl|Hl].
  { split; [done|]. intros [? _]. lia. }
  split.
  - intros H. apply bind_inv in H as ([f' r] & H & [= <-]).
    apply readInner_inv in H as (-> & Hr & Hok). eauto.
  - intros (_ & Hok & pad & -> & Hp). by rewrite readInner_layout.
Qed.

Lemma DeconstructInnerPayload_total p : DeconstructInnerPayload p <> Panic.
Proof.
  unfold DeconstructInnerPayload. case_match; [done|].
  apply bind_not_Panic; [|by intros []]. unfold readInner.
  assert (forall l, readHostname l <> Panic).
  { intros. unfold readHostname, readTerminator. rd_total. }
  assert (forall l, readSignature l <> Panic).
  { intros. unfold readSignature. rd_total. case_match; [|done]. rd_total.
    case_match; rd_total. }
  assert (forall l, readData l <> Panic).
  { intros. unfold readData, rdLen. rd_total. }
  assert (forall raw l, readContextSection raw l <> Panic).
  { intros raw l. unfold readContextSection.
    pose proof (readContextFields_total (length raw) raw (le_n _)).
    destruct (readContextFields _ _) as [[? r]| |]; [|done..]. by destruct (negb _). }
  assert (forall l, readContext l <> Panic).
  { intros. unfold readContext, readTerminator. rd_total.
    destruct (negb _); rd_total. }
  rd_total; auto. case_match. rd_total; auto.
Qed.
End inner_facts.

Lemma ConstructInnerPayload_data rand f p :
  ConstructInnerPayload rand f = Ok p -> 1 <= len (wData f) <= maxDataLen.
Proof.
  rewrite ConstructInnerPayload_eq. pose proof (len_nonneg (wData f)).
  destruct (Z.eqb_spec (len (wData f)) 0), (Z.ltb_spec maxDataLen (len (wData f)));
    rewrite ?orb_true_r; simpl; try done. lia.
Qed.

Lemma ConstructInnerPayload_inv rand f p :
  ConstructInnerPayload rand f = Ok p ->
  p = layout f ++ rand (Z.to_nat (wPaddingLen f)) /\ 0 <= wPaddingLen f.
Proof.
  rewrite ConstructInnerPayload_eq. case_match; [done|].
  destruct (Z.ltb_spec (wPaddingLen f) 0); [done|]. by intros [= <-].
Qed.

(** A constructed fragment with its padding is long enough and read back. *)
Lemma inner_transit `{!Prims} f pad :
  inner_ok f -> minPaddingLen <= wPaddingLen f -> length pad = Z.to_nat (wPaddingLen f) ->
  DeconstructInnerPayload (layout f ++ pad) = Ok f /\
  minInnerPayloadLen <= len (layout f ++ pad).
Proof.
  intros Hok Hp Hl.
  assert (minInnerPayloadLen <= len (layout f ++ pad)) as Hmin.
  { rewrite len_app, len_layout. pose proof Hok as [].
    assert (len pad = wPaddingLen f) by (unfold len; lia). change minInnerPayloadLen with 41.
    change minInnerPayloadLenFixedOnly with 29. change minPaddingLen with 10 in Hp.
    pose proof (len_nonneg (wSignature f)).
    pose proof (len_nonneg (ctxSection (wContextFields f))). lia. }
  split; [|done]. apply DeconstructInnerPayload_iff. split; [done|].
  split; [done|]. exists pad. split; [done|]. pose proof (ok_padding _ Hok). unfold len. lia.
Qed.

(* ------------------------------------------------------------------ *)
(** * Theorems                                                          *)
(* ------------------------------------------------------------------ *)

Section theorems.
Context {P : Prims}.

(** C4: the parser of received inner payloads accepts a byte string exactly
    when it is the wire layout of a fragment whose fields respect their
    widths and bounds, followed by that fragment's padding, and is at least
    the minimum length; the fragment it returns is that one. The bounds are
    those of the code ([inner_ok]), which here are weaker than those of
    [docs/Protocol.md]: keys and values without a byte and sections of five to
    seven bytes pass ([short_section_parsed]). Those with an empty key or
    value are refused one step later, by [DeconstructPayload]. *)
Theorem DeconstructInnerPayload_accepts (payload : bytes) (f : innerWireFormat) :
  DeconstructInnerPayload payload = Ok f <->
  minInnerPayloadLen <= len payload /\ inner_ok f /\
  exists pad, payload = layout f ++ pad /\ len pad = wPaddingLen f.
Proof. apply DeconstructInnerPayload_iff. Qed.

(** What the serializer writes for a fragment within the field widths,
    the parser reads back, field by field, whatever padding bytes the random
    source delivered. *)
Theorem inner_roundtrip (rand : nat -> bytes) (f : innerWireFormat) p :
  (forall n, length (rand n) = n) -> inner_ok f -> minPaddingLen <= wPaddingLen f ->
  ConstructInnerPayload rand f = Ok p -> DeconstructInnerPayload p = Ok f.
Proof.
  intros Hr Hok Hp H. rewrite ConstructInnerPayload_ok in H by done. injection H as <-.
  by apply inner_transit.
Qed.

(** The serializer's behaviour on every branch: an empty hostname, an
    oversized context section and missing or oversized data are protocol
    violations; a negative padding length crashes; anything else is
    serialized as the layout and the padding. *)
Theorem ConstructInnerPayload_branches (rand : nat -> bytes) (f : innerWireFormat) :
  ConstructInnerPayload rand f =
    if bool_decide (wHostname f = []) || (maxCtxSectionLen <? len (ctxSection (wContextFields f)))
       || bool_decide (wData f = []) || (maxDataLen <? len (wData f))
    then fail ErrProtocolViolation
    else if wPaddingLen f <? 0 then Panic
    else Ok (layout f ++ rand (Z.to_nat (wPaddingLen f))).
Proof.
  rewrite ConstructInnerPayload_eq. unfold minHostnameLen, fail, PV.
  rewrite (len_ltb_1 (wHostname f)), (len_eqb_0 (wData f)). done.
Qed.

End theorems.

(** A fragment of the signed, two-field message used in the examples. *)
Definition exampleInner : innerWireFormat :=
  mkInner 77 16909060 0 1 1700000000123 (str "web1") 1 (repeat Byte.x2a 64)
    [mkCtx (str "pid") 1 [z2b 42]; mkCtx (str "app") 8 (str "sshd")] (str "session opened") 12.

(** [docs/Protocol.md] wants a fragment discarded when a length is zero or when
    the section has at most seven bytes: the parser accepts a section of five,
    with an empty key and an empty value. *)
Definition exampleShortSection : innerWireFormat :=
  mkInner 77 16909060 0 1 1700000000123 (str "web1") 0 [] [mkCtx [] 8 []] (str "x") 12.
Example short_section_parsed :
  len (ctxSection (wContextFields exampleShortSection)) = 5 /\
  DeconstructInnerPayload (layout exampleShortSection ++ repeat Byte.x00 12) = Ok exampleShortSection.
Proof. by vm_compute. Qed.

Lemma inner_roundtrip_witness :
  exists p, ConstructInnerPayload (repeat Byte.x00) exampleInner = Ok p /\
    DeconstructInnerPayload p = Ok exampleInner.
Proof.
  eexists. split; [by vm_compute|].
  apply (inner_roundtrip (repeat Byte.x00)).
  - intros. apply repeat_length.
  - constructor; try by vm_compute. right. by vm_compute.
    repeat constructor; by vm_compute.
  - by vm_compute.
  - by vm_compute.
Defined.
