(* ===== verification/Fragmentation.v ===== *)
(** Fragmentation and reassembly ([pkg/protocol/fragmentation.go]).

    [Fragment] cuts a message into payloads that fit a packet;
    [Defragment] puts any collection of fragments of one message back
    together, marking the missing ones. [slots] is the specification of the
    reassembled text. *)
From S2P Require Import Prelude Registry Context Consts.

(** [payloadFragment := *primaryPayload] followed by field assignments. *)
Definition setFragment (p : Payload) (seq pad : Z) (d : bytes) : Payload :=
  mkPayload (RemoteIP p) (HostID p) (MsgID p) seq (MessageSeqMax p) (Timestamp p)
    (Hostname p) (SignatureID p) (Signature p) (CustomFields p) d pad.
Definition setSeqMax (p : Payload) (m : Z) : Payload :=
  mkPayload (RemoteIP p) (HostID p) (MsgID p) (MessageSeq p) m (Timestamp p)
    (Hostname p) (SignatureID p) (Signature p) (CustomFields p) (Data p) (PaddingLen p).

(** The [for len(remaining) > 0] loop; [draw i] is the random source of the
    padding length of fragment [i]. Every round consumes at least one byte,
    so the length of the data is enough fuel. *)
Fixpoint fragmentLoop (fuel : nat) (p : Payload) (maxPayloadSize fixedProtocolSize : Z)
    (draw : nat -> Z -> Z) (remaining : bytes) (seq : nat) : res (list Payload) :=
  if len remaining =? 0 then Ok []
  else
    match fuel with
    | O => Panic
    | S fuel =>
        pad ← wrapAs ErrFragmentation
                (NumberInRange minPaddingLen maxPaddingLen (draw seq));
        let maxMessageSize := maxPayloadSize - fixedProtocolSize - pad in
        if maxMessageSize <=? 0 then Err (EWrap2 (ESent ErrFragmentation) (EWrap EMsg))
        else
          let cut := Z.to_nat maxMessageSize in
          let '(chunk, rest) :=
            if maxMessageSize <? len remaining
            then (take cut remaining, drop cut remaining)
            else (remaining, []) in
          let fragment := setFragment p (Z.of_nat seq) pad chunk in
          fs ← fragmentLoop fuel p maxPayloadSize fixedProtocolSize draw rest (S seq);
          Ok (fragment :: fs)
    end.

Definition Fragment (p : Payload) (maxPayloadSize fixedProtocolSize : Z)
    (draw : nat -> Z -> Z) : res (list Payload) :=
  if maxPayloadSize <=? 0 then fail ErrFragmentation
  else if fixedProtocolSize <=? 0 then fail ErrFragmentation
  else
    fs ← fragmentLoop (length (Data p)) p maxPayloadSize fixedProtocolSize draw (Data p) 0;
    Ok (map (fun f => setSeqMax f (len fs - 1)) fs).

(* ------------------------------------------------------------------ *)
(** * Equality of the shared fields                                     *)
(* ------------------------------------------------------------------ *)

(** [==] on floats by their bits: NaNs differ from everything, the zeros are
    equal. *)
Definition isNaN32 (b : Z) : bool := notFinite32 b && negb (b mod 2 ^ 23 =? 0).
Definition isNaN64 (b : Z) : bool := notFinite64 b && negb (b mod 2 ^ 52 =? 0).
Definition feq32 (a b : Z) : bool :=
  negb (isNaN32 a) && negb (isNaN32 b) && ((a =? b) || (isZero32 a && isZero32 b)).
Definition feq64 (a b : Z) : bool :=
  negb (isNaN64 a) && negb (isNaN64 b) && ((a =? b) || (isZero64 a && isZero64 b)).

(** [==] on [any]: two values of different dynamic types differ; two slices
    cannot be compared and panic (as may the types of [VOther]). *)
Definition ifaceEq (a b : goval) : res bool :=
  match a, b with
  | VBytes _, VBytes _ | VOther, VOther => Panic
  | VFloat32 x, VFloat32 y => Ok (feq32 x y)
  | VFloat64 x, VFloat64 y => Ok (feq64 x y)
  | _, _ => Ok (bool_decide (a = b))
  end.

(** The loop over [payload.CustomFields]; a missing key reads as nil. *)
Fixpoint fieldsEqual (fs : list (gostring * goval)) (other : gmap gostring goval)
  : res bool :=
  match fs with
  | [] => Ok true
  | (k, v) :: fs =>
      same ← ifaceEq (default VNil (other !! k)) v;
      if negb same then Ok false else fieldsEqual fs other
  end.

Definition EqualTo (payload comparePayload : Payload) : res bool :=
  if negb (bool_decide (size (CustomFields payload) = size (CustomFields comparePayload)))
  then Ok false
  else
    same ← fieldsEqual (map_to_list (CustomFields payload)) (CustomFields comparePayload);
    if negb same then Ok false
    else if negb (bool_decide (RemoteIP comparePayload = RemoteIP payload))
            || negb (HostID comparePayload =? HostID payload)
            || negb (MsgID comparePayload =? MsgID payload)
            || negb (Timestamp comparePayload =? Timestamp payload)
            || negb (bool_decide (Hostname comparePayload = Hostname payload))
    then Ok false
    else Ok true.

Fixpoint allEqualTo (ref : Payload) (ps : list Payload) : res bool :=
  match ps with
  | [] => Ok true
  | p :: ps => e ← EqualTo ref p; if negb e then Ok false else allEqualTo ref ps
  end.

(** Indexing an empty slice panics. *)
Definition allFieldsEqual (ps : list Payload) : res bool :=
  match ps with
  | [] => Panic
  | ref :: rest => allEqualTo ref rest
  end.

(* ------------------------------------------------------------------ *)
(** * Reassembly                                                        *)
(* ------------------------------------------------------------------ *)

Definition seqLe (a b : Payload) : Prop := MessageSeq a <= MessageSeq b.
#[export] Instance seqLe_dec : RelDecision seqLe := fun a b => Z_le_dec _ _.

(** [sort.Slice] by sequence number: some sorted permutation. It is not
    stable, so nothing more is known when sequence numbers repeat. *)
Class SeqSort := {
  sortSlice : list Payload -> list Payload;
  sortSlice_perm ps : sortSlice ps ≡ₚ ps;
  sortSlice_sorted ps : StronglySorted seqLe (sortSlice ps)
}.

(** [missing] copies of the placeholder (none for a negative count). *)
Definition placeholders (n : Z) : bytes :=
  concat (repeat MissingFragmentPlaceholder (Z.to_nat n)).

(** The reassembly loop: last sequence number seen ([-1] at first) and the
    buffer. *)
Fixpoint reassemble (prev : Z) (buf : bytes) (ps : list Payload) : Z * bytes :=
  match ps with
  | [] => (prev, buf)
  | p :: ps =>
      let buf :=
        if negb (prev =? -1) then
          let expected := prev + 1 in
          if expected <? MessageSeq p
          then buf ++ placeholders (MessageSeq p - expected) else buf
        else buf in
      reassemble (MessageSeq p) (buf ++ Data p) ps
  end.

Definition Defragment `{!SeqSort} (payloads : list Payload) : res Payload :=
  if bool_decide (payloads = []) then fail ErrFragmentation
  else
    same ← allFieldsEqual payloads;
    if negb same then fail ErrFragmentation
    else
      match sortSlice payloads with
      | [] => Panic
      | (p0 :: _) as sorted =>
          let buf := if 0 <? MessageSeq p0 then placeholders (MessageSeq p0) else [] in
          let '(prev, buf) := reassemble (-1) buf sorted in
          let expectedFinal := MessageSeqMax p0 in
          let buf := if prev <? expectedFinal
                     then buf ++ placeholders (expectedFinal - prev) else buf in
          Ok (mkPayload (RemoteIP p0) (HostID p0) (MsgID p0) 0 0 (Timestamp p0)
                (Hostname p0) 0 [] (CustomFields p0) buf 0)
      end.

(** The stable sort is one such sort. *)
#[export] Instance seqLe_total : Total seqLe.
Proof. intros a b. unfold seqLe. lia. Qed.
#[export] Instance seqLe_trans : Transitive seqLe.
Proof. intros a b c. unfold seqLe. lia. Qed.
Definition stableSort : SeqSort.
Proof.
  refine {| sortSlice := merge_sort seqLe |}.
  - intros. apply merge_sort_Permutation.
  - intros. apply StronglySorted_merge_sort; apply _.
Defined.

(* ------------------------------------------------------------------ *)
(** * Facts about fragmentation                                         *)
(* ------------------------------------------------------------------ *)

(** [rand.Int(r, m)] is uniform in [0, m). *)
Definition draw_ok (draw : Z -> Z) : Prop := forall m, 0 < m -> 0 <= draw m < m.

Lemma NumberInRange_padding d : draw_ok d ->
  exists pad, NumberInRange minPaddingLen maxPaddingLen d = Ok pad /\
    minPaddingLen <= pad <= maxPaddingLen.
Proof.
  intros Hd. specialize (Hd 51 eq_refl). exists (d 51 + 10). split; [done|].
  unfold minPaddingLen, maxPaddingLen. lia.
Qed.

(** What one fragment of a message looks like, at most [M] bytes on the wire
    with [F] bytes of overhead; a fragment that is not the last fills its
    packet. *)
Record fragment_of (p : Payload) (M F : Z) (i : Z) (last : bool) (f : Payload) : Prop := {
  fo_shape : f = setFragment p i (PaddingLen f) (Data f);
  fo_pad : minPaddingLen <= PaddingLen f <= maxPaddingLen;
  fo_data : 1 <= len (Data f);
  fo_fits : F + PaddingLen f + len (Data f) <= M;
  fo_full : last = false -> F + PaddingLen f + len (Data f) = M
}.

Lemma fragmentLoop_spec fuel p M F draw rem seq fs :
  (forall i, draw_ok (draw i)) ->
  fragmentLoop fuel p M F draw rem seq = Ok fs ->
  concat (map Data fs) = rem /\
  forall i f, fs !! i = Some f ->
    fragment_of p M F (Z.of_nat (seq + i)) (bool_decide (S i = length fs)) f.
Proof.
  intros Hdraw. revert rem seq fs. induction fuel as [|fuel IH]; intros rem seq fs;
    cbn [fragmentLoop]; destruct (Z.eqb_spec (len rem) 0) as [Hz|Hz].
  1, 3: intros [= <-]; rewrite (len_0 rem) by done; split; [done|]; intros i f; by rewrite lookup_nil.
  { done. }
  destruct (NumberInRange_padding _ (Hdraw seq)) as (pad & -> & Hpad). cbn [wrapAs mbind res_bind].
  destruct (Z.leb_spec (M - F - pad) 0) as [|Hroom]; [done|].
  set (cr := if M - F - pad <? len rem then _ else _).
  assert (exists chunk rest, cr = (chunk, rest) /\ rem = chunk ++ rest /\
    1 <= len chunk <= M - F - pad /\ (rest <> [] -> len chunk = M - F - pad))
    as (chunk & rest & -> & -> & Hlen & Hfull).
  { subst cr. pose proof (len_nonneg rem).
    destruct (Z.ltb_spec (M - F - pad) (len rem)) as [Hlt|Hge].
    - eexists _, _. split; [done|]. rewrite take_drop. split; [done|].
      unfold len in *. rewrite length_take. lia.
    - eexists _, _. split; [done|]. rewrite app_nil_r. split; [done|]. split; [lia|done]. }
  intros H. apply bind_inv in H as (fs' & Hrest & [= <-]).
  apply IH in Hrest as [Hc Hall]. split; [cbn; by rewrite Hc|].
  intros [|i] f; cbn; intros Hf.
  - injection Hf as <-. rewrite Nat.add_0_r. constructor; cbn; [done|done|lia|lia|].
    intros Hlast%bool_decide_eq_false. rewrite Hfull; [lia|].
    intros ->. destruct fs' as [|f fs']; [done|].
    specialize (Hall 0%nat f eq_refl). destruct Hall as [_ _ Hd _ _].
    cbn in Hc. apply app_eq_nil in Hc as [Hc _]. rewrite Hc in Hd. cbv in Hd. done.
  - apply Hall in Hf. replace (seq + S i)%nat with (S seq + i)%nat by lia.
    erewrite bool_decide_ext; [exact Hf|]. lia.
Qed.

Lemma fragmentLoop_total fuel p M F draw rem seq :
  (forall i, draw_ok (draw i)) -> (length rem <= fuel)%nat ->
  fragmentLoop fuel p M F draw rem seq <> Panic /\
  (F + maxPaddingLen < M -> exists fs, fragmentLoop fuel p M F draw rem seq = Ok fs).
Proof.
  intros Hdraw. revert rem seq. induction fuel as [|fuel IH]; intros rem seq Hl;
    cbn [fragmentLoop]; destruct (Z.eqb_spec (len rem) 0) as [Hz|Hz]; [by eauto| |by eauto|].
  { unfold len in Hz. lia. }
  destruct (NumberInRange_padding _ (Hdraw seq)) as (pad & -> & Hpad). cbn [wrapAs mbind res_bind].
  destruct (Z.leb_spec (M - F - pad) 0) as [|Hroom]; [split; [done|lia]|].
  set (cr := if M - F - pad <? len rem then _ else _).
  assert (exists chunk rest, cr = (chunk, rest) /\ (length rest < length rem)%nat)
    as (chunk & rest & -> & Hlt).
  { subst cr. unfold len in *. case_match.
    - eexists _, _. split; [done|]. rewrite length_drop. lia.
    - eexists _, _. split; [done|]. simpl. lia. }
  destruct (IH rest (S seq)) as [Hp Hok]; [lia|]. split.
  - apply bind_not_Panic; done.
  - intros H. destruct (Hok H) as [fs ->]. eauto.
Qed.

Lemma Fragment_Ok p M F draw fs :
  Fragment p M F draw = Ok fs ->
  0 < M /\ 0 < F /\ exists gs, fs = map (fun f => setSeqMax f (len gs - 1)) gs /\
    fragmentLoop (length (Data p)) p M F draw (Data p) 0 = Ok gs.
Proof.
  unfold Fragment. destruct (Z.leb_spec M 0), (Z.leb_spec F 0); [done..|].
  intros H1. apply bind_inv in H1 as (gs & ? & [= <-]). eauto.
Qed.

(** The fragments of a message, in terms of the message. *)
Lemma Fragment_spec p M F draw fs :
  (forall i, draw_ok (draw i)) -> Fragment p M F draw = Ok fs ->
  concat (map Data fs) = Data p /\
  forall i f, fs !! i = Some f -> exists g,
    f = setSeqMax g (len fs - 1) /\
    fragment_of p M F (Z.of_nat i) (bool_decide (S i = length fs)) g.
Proof.
  intros Hd H. apply Fragment_Ok in H as (_ & _ & gs & -> & H).
  apply fragmentLoop_spec in H as [Hc Hall]; [|done]. split.
  - rewrite map_map. exact Hc.
  - intros i f Hi. rewrite list_lookup_fmap in Hi.
    apply fmap_Some in Hi as (g & Hg & ->). exists g. rewrite length_map.
    unfold len. rewrite length_map. split; [done|]. by apply Hall.
Qed.

(* ------------------------------------------------------------------ *)
(** * Facts about reassembly                                            *)
(* ------------------------------------------------------------------ *)

(** The specification: positions [lo .. lo + n - 1] of a message, each its
    fragment's data or the placeholder. *)
Definition slots (f : Z -> option bytes) (lo n : Z) : bytes :=
  concat (map (fun i => default MissingFragmentPlaceholder (f i)) (seqZ lo n)).

(** The fragment data a collection holds at a position (sequence numbers
    being distinct, at most one). *)
Definition dataAt (ps : list Payload) (i : Z) : option bytes :=
  Data ∘ snd <$> list_find (fun p => MessageSeq p = i) ps.

Definition seqLt (a b : Payload) : Prop := MessageSeq a < MessageSeq b.

(** [f] tabulates the data of [ps] above [prev]. *)
Definition tabulates (f : Z -> option bytes) (ps : list Payload) (prev : Z) : Prop :=
  (forall p, p ∈ ps -> prev < MessageSeq p /\ f (MessageSeq p) = Some (Data p)) /\
  (forall i, prev < i -> f i <> None -> exists p, p ∈ ps /\ MessageSeq p = i).

Lemma slots_app f lo n m : 0 <= n -> 0 <= m ->
  slots f lo (n + m) = slots f lo n ++ slots f (lo + n) m.
Proof. intros. unfold slots. by rewrite seqZ_app, map_app, concat_app by lia. Qed.

Lemma slots_one f lo : slots f lo 1 = default MissingFragmentPlaceholder (f lo).
Proof. unfold slots, seqZ. simpl. by rewrite app_nil_r. Qed.

Lemma slots_none f lo n :
  (forall i, lo <= i < lo + n -> f i = None) -> slots f lo n = placeholders n.
Proof.
  intros H. destruct (Z.leb_spec n 0) as [Hn|Hn].
  { unfold slots, placeholders. rewrite seqZ_nil by lia.
    by replace (Z.to_nat n) with 0%nat by lia. }
  unfold slots, placeholders. f_equal.
  transitivity (map (fun _ => MissingFragmentPlaceholder) (seqZ lo n)).
  - apply map_ext_in. intros i Hi. apply list_elem_of_In, elem_of_seqZ in Hi. by rewrite H.
  - rewrite map_const. by rewrite length_seqZ.
Qed.

Lemma placeholders_nonpos n : n <= 0 -> placeholders n = [].
Proof. intros. unfold placeholders. by replace (Z.to_nat n) with 0%nat by lia. Qed.

(** After a fragment, the next one and the gap before it. *)
Lemma slots_gap f prev s d :
  prev < s -> (forall i, prev < i < s -> f i = None) -> f s = Some d ->
  slots f (prev + 1) (s - prev) = placeholders (s - (prev + 1)) ++ d.
Proof.
  intros Hlt Hgap Hs.
  replace (s - prev) with ((s - (prev + 1)) + 1) by lia.
  rewrite slots_app, slots_one by lia.
  replace (prev + 1 + (s - (prev + 1))) with s by lia. rewrite Hs. f_equal.
  apply slots_none. intros. apply Hgap. lia.
Qed.

Lemma tabulates_cons f p ps prev :
  StronglySorted seqLt (p :: ps) -> tabulates f (p :: ps) prev ->
  prev < MessageSeq p /\ f (MessageSeq p) = Some (Data p) /\
  (forall i, prev < i < MessageSeq p -> f i = None) /\
  tabulates f ps (MessageSeq p).
Proof.
  intros [Hss Hlt]%StronglySorted_inv [Hin Hex].
  destruct (Hin p) as [Hp Hf]; [by left|]. split_and!; [done..| |].
  - intros i Hi. apply eq_None_not_Some. intros [d Hd].
    destruct (Hex i) as (q & Hq & Hqi); [lia|by rewrite Hd|].
    apply elem_of_cons in Hq as [->|Hq]; [lia|].
    rewrite Forall_forall in Hlt. specialize (Hlt q Hq). unfold seqLt in Hlt. lia.
  - split.
    + intros q Hq. rewrite Forall_forall in Hlt. split; [by apply Hlt|].
      apply Hin. by right.
    + intros i Hi Hne. destruct (Hex i) as (q & Hq & Hqi); [lia|done|].
      apply elem_of_cons in Hq as [->|Hq]; [lia|eauto].
Qed.

Lemma reassemble_spec f ps prev buf :
  StronglySorted seqLt ps -> tabulates f ps prev -> 0 <= prev ->
  exists last, prev <= last /\
    (last = prev \/ exists p, p ∈ ps /\ MessageSeq p = last) /\
    (forall i, last < i -> f i = None) /\
    reassemble prev buf ps = (last, buf ++ slots f (prev + 1) (last - prev)).
Proof.
  revert prev buf. induction ps as [|p ps IH]; intros prev buf Hs Ht Hprev.
  - exists prev. split_and!; [lia|by left| |].
    + intros i Hi. apply eq_None_not_Some. intros [d Hd].
      destruct Ht as [_ Hex]. destruct (Hex i Hi) as (q & Hq & _); [by rewrite Hd|].
      by apply elem_of_nil in Hq.
    + rewrite Z.sub_diag. unfold slots. rewrite seqZ_nil by lia. simpl. by rewrite app_nil_r.
  - destruct (tabulates_cons _ _ _ _ Hs Ht) as (Hlt & Hf & Hgap & Ht').
    apply StronglySorted_inv in Hs as [Hs _]. cbn [reassemble].
    destruct (Z.eqb_spec prev (-1)) as [|_]; [lia|]. cbn [negb].
    set (buf' := if _ <? _ then _ else _).
    destruct (IH (MessageSeq p) (buf' ++ Data p) Hs Ht') as (last & Hle & Hlast & Hnone & ->);
      [lia|].
    exists last. split_and!; [lia| |done|].
    { right. destruct Hlast as [->|(q & Hq & Hqi)].
      - exists p. split; [by left|done].
      - exists q. split; [by right|done]. }
    f_equal. replace (last - prev) with ((MessageSeq p - prev) + (last - MessageSeq p)) by lia.
    rewrite slots_app by lia.
    replace (prev + 1 + (MessageSeq p - prev)) with (MessageSeq p + 1) by lia.
    rewrite app_assoc. f_equal. rewrite (slots_gap _ _ _ (Data p)) by done.
    subst buf'. destruct (Z.ltb_spec (prev + 1) (MessageSeq p)).
    + by rewrite app_assoc.
    + rewrite placeholders_nonpos by lia. done.
Qed.

(* ------------------------------------------------------------------ *)
(** * Facts about shared fields                                         *)
(* ------------------------------------------------------------------ *)

(** Values [==] can compare and finds equal to themselves. *)
Definition comparable (v : goval) : Prop :=
  match v with
  | VBytes _ | VOther => False
  | VFloat32 b => isNaN32 b = false
  | VFloat64 b => isNaN64 b = false
  | _ => True
  end.
Definition fields_comparable (m : gmap gostring goval) : Prop :=
  map_Forall (fun _ v => comparable v) m.

(** Fragments that claim to come from the same message. *)
Definition same_message (p q : Payload) : Prop :=
  RemoteIP p = RemoteIP q /\ HostID p = HostID q /\ MsgID p = MsgID q /\
  Timestamp p = Timestamp q /\ Hostname p = Hostname q /\
  CustomFields p = CustomFields q.

Lemma ifaceEq_refl v : comparable v -> ifaceEq v v = Ok true.
Proof.
  destruct v; simpl; intros Hc; try done; try by rewrite bool_decide_eq_true_2.
  - unfold feq32. by rewrite Hc, Z.eqb_refl.
  - unfold feq64. by rewrite Hc, Z.eqb_refl.
Qed.

Lemma fieldsEqual_refl fs m :
  (forall k v, (k, v) ∈ fs -> m !! k = Some v /\ comparable v) ->
  fieldsEqual fs m = Ok true.
Proof.
  induction fs as [|[k v] fs IH]; intros H; [done|]. cbn [fieldsEqual].
  destruct (H k v) as [-> Hc]; [by left|]. cbn [default]. rewrite ifaceEq_refl by done.
  simpl. apply IH. intros. apply H. by right.
Qed.

Lemma EqualTo_same p q :
  same_message p q -> fields_comparable (CustomFields p) -> EqualTo p q = Ok true.
Proof.
  intros (H1 & H2 & H3 & H4 & H5 & H6) Hc. unfold EqualTo.
  rewrite H6, bool_decide_eq_true_2 by done. simpl. rewrite <- H6.
  rewrite fieldsEqual_refl.
  - simpl. rewrite H1, H2, H3, H4, H5, !bool_decide_eq_true_2, !Z.eqb_refl by done. done.
  - intros k v Hkv. apply elem_of_map_to_list in Hkv. split; [done|]. by apply Hc in Hkv.
Qed.

(** Equality as the code decides it implies the scalar fields agree. *)
Lemma EqualTo_true p q : EqualTo p q = Ok true ->
  RemoteIP p = RemoteIP q /\ HostID p = HostID q /\ MsgID p = MsgID q /\
  Timestamp p = Timestamp q /\ Hostname p = Hostname q.
Proof.
  unfold EqualTo. case_match; [done|]. intros Hx. apply bind_inv in Hx as (b & _ & Hx).
  case_match; [done|].
  repeat case_bool_decide; simpl in Hx; repeat case_match; try done; naive_solver lia.
Qed.

(** A slice among otherwise comparable fields makes the comparison panic,
    whatever the order in which the map is visited. *)
Lemma fieldsEqual_bytes fs m k b :
  (forall k v, (k, v) ∈ fs -> m !! k = Some v /\ (comparable v \/ exists b, v = VBytes b)) ->
  (k, VBytes b) ∈ fs -> fieldsEqual fs m = Panic.
Proof.
  induction fs as [|[k' v] fs IH]; intros H Hin; [by apply elem_of_nil in Hin|].
  cbn [fieldsEqual]. destruct (H k' v) as [-> Hv]; [by left|]. cbn [default].
  destruct Hv as [Hv|[b' ->]]; [|done]. rewrite ifaceEq_refl by done. simpl.
  apply elem_of_cons in Hin as [[= <- <-]|Hin]; [done|].
  apply IH; [|done]. intros. apply H. by right.
Qed.

Lemma EqualTo_bytes p q k b :
  CustomFields p = CustomFields q -> CustomFields p !! k = Some (VBytes b) ->
  map_Forall (fun _ v => comparable v \/ exists b, v = VBytes b) (CustomFields p) ->
  EqualTo p q = Panic.
Proof.
  intros E Hk Hall. unfold EqualTo. rewrite <- E, bool_decide_eq_true_2 by done. simpl.
  erewrite fieldsEqual_bytes; [done| |by apply elem_of_map_to_list].
  intros k' v Hkv. apply elem_of_map_to_list in Hkv. split; [done|]. by apply Hall in Hkv.
Qed.

(** A collection of distinct fragments of one message with last position
    [max]. *)
Record fragments_of (ref : Payload) (max : Z) (ps : list Payload) : Prop := {
  fs_same : forall p, p ∈ ps -> same_message ref p;
  fs_max : forall p, p ∈ ps -> MessageSeqMax p = max;
  fs_range : forall p, p ∈ ps -> 0 <= MessageSeq p <= max;
  fs_nodup : NoDup (map MessageSeq ps)
}.

Lemma fragments_of_perm ref max ps qs :
  ps ≡ₚ qs -> fragments_of ref max ps -> fragments_of ref max qs.
Proof.
  intros Hp [H1 H2 H3 H4]. constructor; [intros p; rewrite <- Hp; auto..|].
  assert (map MessageSeq ps ≡ₚ map MessageSeq qs) as <- by by apply Permutation_map. done.
Qed.

Lemma sorted_strict ps :
  StronglySorted seqLe ps -> NoDup (map MessageSeq ps) -> StronglySorted seqLt ps.
Proof.
  induction 1 as [|p ps Hs IH Hle]; cbn [map]; [constructor|].
  intros [Hni Hnd]%NoDup_cons. constructor; [by apply IH|].
  rewrite Forall_forall in Hle |- *. intros q Hq. specialize (Hle q Hq).
  unfold seqLe, seqLt in *. destruct (Z.eq_dec (MessageSeq p) (MessageSeq q)) as [E|]; [|lia].
  destruct Hni. rewrite E. by apply list_elem_of_fmap_2.
Qed.

Lemma NoDup_map_inj {A B} (f : A -> B) (l : list A) x y :
  NoDup (map f l) -> x ∈ l -> y ∈ l -> f x = f y -> x = y.
Proof.
  induction l as [|z l IH]; cbn [map]; intros Hnd Hx Hy E; [by apply elem_of_nil in Hx|].
  apply NoDup_cons in Hnd as [Hni Hnd].
  apply elem_of_cons in Hx as [->|Hx], Hy as [->|Hy]; [done|..|by apply IH].
  - destruct Hni. rewrite E. by apply list_elem_of_fmap_2.
  - destruct Hni. rewrite <- E. by apply list_elem_of_fmap_2.
Qed.

Lemma dataAt_elem ps p : NoDup (map MessageSeq ps) -> p ∈ ps ->
  dataAt ps (MessageSeq p) = Some (Data p).
Proof.
  intros Hnd Hp. unfold dataAt.
  destruct (list_find _ ps) as [[n q]|] eqn:E.
  - apply list_find_Some in E as (Hq & Hs & _). cbn.
    rewrite (NoDup_map_inj MessageSeq ps q p); try done. by eapply list_elem_of_lookup_2.
  - apply list_find_None in E. rewrite Forall_forall in E. by destruct (E p Hp).
Qed.

Lemma dataAt_Some ps i d : dataAt ps i = Some d -> exists p, p ∈ ps /\ MessageSeq p = i.
Proof.
  unfold dataAt. intros H. apply fmap_Some in H as ([n q] & E & _).
  apply list_find_Some in E as (Hq & Hs & _).
  exists q. split; [|done]. by eapply list_elem_of_lookup_2.
Qed.

Lemma dataAt_perm ps qs i : NoDup (map MessageSeq ps) -> ps ≡ₚ qs ->
  dataAt ps i = dataAt qs i.
Proof.
  intros Hnd Hp.
  assert (NoDup (map MessageSeq qs)) as Hnd'.
  { assert (map MessageSeq ps ≡ₚ map MessageSeq qs) as <- by by apply Permutation_map. done. }
  destruct (dataAt ps i) as [d|] eqn:E.
  - destruct (dataAt_Some _ _ _ E) as (p & Hin & <-).
    rewrite dataAt_elem in E by done. rewrite dataAt_elem; [done..|by rewrite <- Hp].
  - destruct (dataAt qs i) as [d|] eqn:E'; [|done].
    destruct (dataAt_Some _ _ _ E') as (p & Hin & <-).
    rewrite dataAt_elem in E; [done..|by rewrite Hp].
Qed.

Lemma allEqualTo_same ref ps :
  fields_comparable (CustomFields ref) -> (forall p, p ∈ ps -> same_message ref p) ->
  allEqualTo ref ps = Ok true.
Proof.
  intros Hc. induction ps as [|p ps IH]; intros H; [done|]. cbn [allEqualTo].
  rewrite EqualTo_same; [|apply H; by left|done]. simpl. apply IH. intros. apply H. by right.
Qed.

Lemma same_message_sym p q : same_message p q -> same_message q p.
Proof. unfold same_message. intros (?&?&?&?&?&?). by repeat split. Qed.
Lemma same_message_trans p q r : same_message p q -> same_message q r -> same_message p r.
Proof.
  unfold same_message. intros (?&?&?&?&?&?) (?&?&?&?&?&?). repeat split; congruence.
Qed.

Lemma reassemble_first p qs buf :
  reassemble (-1) buf (p :: qs) = reassemble (MessageSeq p) (buf ++ Data p) qs.
Proof. done. Qed.

(** The whole reassembly of a sorted collection: leading gap, fragments with
    the gaps between them, trailing gap. *)
Lemma reassemble_all f max p0 qs :
  StronglySorted seqLt (p0 :: qs) -> tabulates f (p0 :: qs) (-1) ->
  (forall p, p ∈ p0 :: qs -> 0 <= MessageSeq p <= max) ->
  (let '(prev, buf) :=
     reassemble (-1) (if 0 <? MessageSeq p0 then placeholders (MessageSeq p0) else [])
       (p0 :: qs) in
   if prev <? max then buf ++ placeholders (max - prev) else buf)
  = slots f 0 (max + 1).
Proof.
  intros Hs Ht Hrange. destruct (tabulates_cons _ _ _ _ Hs Ht) as (_ & H0 & Hgap & Ht').
  pose proof (Hrange p0 ltac:(by left)) as Hr0.
  apply StronglySorted_inv in Hs as [Hs _]. rewrite reassemble_first.
  replace (if 0 <? MessageSeq p0 then placeholders (MessageSeq p0) else [])
    with (placeholders (MessageSeq p0)).
  2: { destruct (Z.ltb_spec 0 (MessageSeq p0)); [done|]. apply placeholders_nonpos. lia. }
  destruct (reassemble_spec f qs (MessageSeq p0)
              (placeholders (MessageSeq p0) ++ Data p0) Hs Ht')
    as (last & Hle & Hlast & Hnone & ->); [lia|].
  assert (Hlm : last <= max).
  { destruct Hlast as [->|(q & Hq & <-)]; [lia|]. apply Hrange. by right. }
  pose proof (slots_gap f (-1) (MessageSeq p0) (Data p0) ltac:(lia) Hgap H0) as Hg.
  replace (MessageSeq p0 - (-1 + 1)) with (MessageSeq p0) in Hg by lia.
  rewrite <- Hg. change (-1 + 1) with 0.
  replace (max + 1) with (((MessageSeq p0 - -1) + (last - MessageSeq p0)) + (max - last))
    by lia.
  rewrite !slots_app by lia.
  replace (0 + (MessageSeq p0 - -1)) with (MessageSeq p0 + 1) by lia.
  rewrite (slots_none f _ (max - last)) by (intros; apply Hnone; lia).
  destruct (Z.ltb_spec last max); [done|].
  rewrite (placeholders_nonpos (max - last)) by lia. by rewrite app_nil_r.
Qed.

Lemma fragments_tabulate ref max ps :
  fragments_of ref max ps -> tabulates (dataAt ps) ps (-1).
Proof.
  intros Hf. split.
  - intros p Hp. split; [pose proof (fs_range _ _ _ Hf p Hp); lia|].
    by apply dataAt_elem; [apply (fs_nodup _ _ _ Hf)|].
  - intros i _ Hi. apply not_eq_None_Some in Hi as [d Hd]. by eapply dataAt_Some.
Qed.

Lemma allFieldsEqual_fragments ref max ps :
  ps <> [] -> (length ps = 1%nat \/ fields_comparable (CustomFields ref)) ->
  fragments_of ref max ps -> allFieldsEqual ps = Ok true.
Proof.
  intros Hne Hc Hf. destruct ps as [|p ps]; [done|]. cbn [allFieldsEqual].
  destruct Hc as [Hc|Hc]; [by destruct ps|].
  assert (same_message ref p) as Hp by (apply (fs_same _ _ _ Hf); by left).
  apply allEqualTo_same.
  - destruct Hp as (_&_&_&_&_&<-). done.
  - intros q Hq. eapply same_message_trans; [by apply same_message_sym|].
    apply (fs_same _ _ _ Hf). by right.
Qed.

(** Fragments listed by position have distinct positions. *)
Lemma seqs_NoDup fs :
  (forall i p, fs !! i = Some p -> MessageSeq p = Z.of_nat i) -> NoDup (map MessageSeq fs).
Proof.
  intros Hall. apply NoDup_alt. intros i j z Hi Hj.
  change (map MessageSeq fs) with (MessageSeq <$> fs) in *.
  rewrite list_lookup_fmap in Hi, Hj.
  apply fmap_Some in Hi as (p & Hi & ->). apply fmap_Some in Hj as (q & Hj & E).
  apply Hall in Hi. apply Hall in Hj. lia.
Qed.

(** A collection without gaps. *)
Lemma slots_complete fs :
  (forall i p, fs !! i = Some p -> MessageSeq p = Z.of_nat i) ->
  slots (dataAt fs) 0 (len fs) = concat (map Data fs).
Proof.
  intros Hall. pose proof (seqs_NoDup _ Hall) as Hnd.
  unfold slots. f_equal. unfold len, seqZ. rewrite Nat2Z.id, map_map.
  apply list_eq. intros i. change (@map nat bytes) with (@fmap list _ nat bytes).
  change (@map Payload bytes) with (@fmap list _ Payload bytes).
  rewrite !list_lookup_fmap.
  destruct (fs !! i) as [p|] eqn:E.
  - apply lookup_lt_Some in E as Hl. rewrite lookup_seq_lt by done. simpl.
    rewrite Z.add_0_r, <- (Hall i p E), dataAt_elem; [done..|].
    by eapply list_elem_of_lookup_2.
  - apply lookup_ge_None in E. rewrite lookup_seq_ge by done. done.
Qed.

Section reassembly.
Context {SS : SeqSort}.

(** The reassembled payload of a message whose shared fields are those of
    [ref]. *)
Definition reassembled (ref : Payload) (text : bytes) : Payload :=
  mkPayload (RemoteIP ref) (HostID ref) (MsgID ref) 0 0 (Timestamp ref)
    (Hostname ref) 0 [] (CustomFields ref) text 0.

(** Sorting and concatenating yields every position of the message in
    order, with the placeholder for the missing ones. *)
Lemma Defragment_spec ref max ps :
  ps <> [] -> (length ps = 1%nat \/ fields_comparable (CustomFields ref)) ->
  fragments_of ref max ps ->
  Defragment ps = Ok (reassembled ref (slots (dataAt ps) 0 (max + 1))).
Proof.
  intros Hne Hc Hf. unfold Defragment. rewrite bool_decide_eq_false_2 by done.
  rewrite (allFieldsEqual_fragments ref max) by done. cbn [mbind res_bind negb].
  pose proof (sortSlice_perm ps) as Hperm.
  apply (fragments_of_perm _ _ _ _ (symmetry Hperm)) in Hf as Hf'.
  pose proof (sorted_strict _ (sortSlice_sorted ps) (fs_nodup _ _ _ Hf')) as Hs.
  assert (slots (dataAt ps) 0 (max + 1) = slots (dataAt (sortSlice ps)) 0 (max + 1)) as ->.
  { unfold slots. f_equal. apply map_ext. intros i. f_equal.
    apply dataAt_perm; [apply (fs_nodup _ _ _ Hf)|done]. }
  destruct (sortSlice ps) as [|p0 qs] eqn:Es.
  { apply Permutation_nil_l in Hperm. by destruct Hne. }
  pose proof (fs_max _ _ _ Hf' p0 ltac:(by left)) as Hm0.
  pose proof (fs_same _ _ _ Hf' p0 ltac:(by left)) as (E1 & E2 & E3 & E4 & E5 & E6).
  rewrite <- (reassemble_all _ max p0 qs Hs (fragments_tabulate _ _ _ Hf')
                (fs_range _ _ _ Hf')).
  unfold reassembled. rewrite E1, E2, E3, E4, E5, E6, Hm0.
  by destruct (reassemble _ _ _).
Qed.

(** All the fragments of a message, in any order, give its data back. *)
Lemma Defragment_complete ref fs ps :
  fs <> [] -> (length fs = 1%nat \/ fields_comparable (CustomFields ref)) ->
  (forall i p, fs !! i = Some p ->
     same_message ref p /\ MessageSeqMax p = len fs - 1 /\ MessageSeq p = Z.of_nat i) ->
  ps ≡ₚ fs ->
  Defragment ps = Ok (reassembled ref (concat (map Data fs))).
Proof.
  intros Hne Hc Hall Hp.
  assert (fragments_of ref (len fs - 1) fs) as Hf.
  { constructor; intros.
    - apply list_elem_of_lookup in H as [i Hi]. by destruct (Hall _ _ Hi) as (?&?&?).
    - apply list_elem_of_lookup in H as [i Hi]. by destruct (Hall _ _ Hi) as (?&?&?).
    - apply list_elem_of_lookup in H as [i Hi]. apply lookup_lt_Some in Hi as Hl.
      apply Hall in Hi as (_ & _ & ->). unfold len. lia.
    - apply seqs_NoDup. intros i p Hi. by destruct (Hall _ _ Hi) as (_ & _ & ->). }
  rewrite (Defragment_spec ref (len fs - 1)).
  - do 2 f_equal. rewrite <- (slots_complete fs) by (intros i p Hi; by destruct (Hall _ _ Hi) as (_ & _ & ->)).
    replace (len fs - 1 + 1) with (len fs) by lia. unfold slots. f_equal.
    apply map_ext. intros i. f_equal. symmetry. apply dataAt_perm; [apply (fs_nodup _ _ _ Hf)|].
    by symmetry.
  - intros ->. by apply Permutation_nil_l in Hp.
  - by rewrite Hp.
  - by eapply fragments_of_perm.
Qed.
End reassembly.

(* ------------------------------------------------------------------ *)
(** * Theorems                                                          *)
(* ------------------------------------------------------------------ *)

(** The fragments of a message, in the order they are created, are
    numbered from zero, all name the last number, carry the shared fields and
    consecutive pieces of the data; every packet is within the limit and
    every one but the last is filled up to it. *)
Theorem Fragment_pieces p maxSize overhead draw fs :
  (forall i, draw_ok (draw i)) -> Fragment p maxSize overhead draw = Ok fs ->
  concat (map Data fs) = Data p /\
  forall i f, fs !! i = Some f ->
    MessageSeq f = Z.of_nat i /\ MessageSeqMax f = len fs - 1 /\ same_message p f /\
    minPaddingLen <= PaddingLen f <= maxPaddingLen /\ 1 <= len (Data f) /\
    overhead + PaddingLen f + len (Data f) <= maxSize /\
    (S i <> length fs -> overhead + PaddingLen f + len (Data f) = maxSize).
Proof.
  intros Hd H. apply Fragment_spec in H as [Hc Hall]; [|done]. split; [done|].
  intros i f Hi. destruct (Hall i f Hi) as (g & -> & [Hg Hp Hl Hfit Hfull]). cbn.
  split_and!; try done; try lia.
  - by rewrite Hg.
  - rewrite Hg. by repeat split.
  - intros Hlast. apply Hfull. by apply bool_decide_eq_false_2.
Qed.

(** Fragmentation terminates and succeeds whenever one byte of data fits
    next to the overhead and the longest padding. *)
Theorem Fragment_succeeds p maxSize overhead draw :
  (forall i, draw_ok (draw i)) -> 0 < overhead -> overhead + maxPaddingLen < maxSize ->
  exists fs, Fragment p maxSize overhead draw = Ok fs /\
    (Data p <> [] -> fs <> []).
Proof.
  intros Hd Ho Hm. unfold maxPaddingLen in Hm. unfold Fragment.
  destruct (Z.leb_spec maxSize 0), (Z.leb_spec overhead 0); try lia.
  destruct (proj2 (fragmentLoop_total (length (Data p)) p maxSize overhead draw (Data p) 0 Hd
                     (le_n _)) Hm) as [gs Hgs]. rewrite Hgs. eexists. split; [done|].
  intros Hne ->%map_eq_nil. apply fragmentLoop_spec in Hgs as [Hc _]; done.
Qed.

Section defragment_theorems.
Context {SS : SeqSort}.

(** C9: reassembling any non-empty collection of distinct fragments of one
    message gives the shared fields and, position by position from the first
    to the last the message names, the data of the fragment at that position
    or the placeholder where it is missing, whatever the order of arrival. *)
Theorem Defragment_positions ref max ps :
  ps <> [] -> length ps = 1%nat \/ fields_comparable (CustomFields ref) ->
  fragments_of ref max ps ->
  Defragment ps = Ok (reassembled ref (slots (dataAt ps) 0 (max + 1))).
Proof. apply Defragment_spec. Qed.

(** Cutting a message into fragments and reassembling them in any order
    gives the data back, with the message's shared fields. *)
Theorem Defragment_Fragment p maxSize overhead draw fs ps :
  (forall i, draw_ok (draw i)) -> Fragment p maxSize overhead draw = Ok fs ->
  fields_comparable (CustomFields p) -> Data p <> [] -> ps ≡ₚ fs ->
  Defragment ps = Ok (reassembled p (Data p)).
Proof.
  intros Hd H Hc Hne Hp. apply Fragment_spec in H as [Hcat Hall]; [|done].
  rewrite (Defragment_complete p fs ps); [by rewrite Hcat| |by right| |done].
  - by intros ->.
  - intros i f Hi. destruct (Hall i f Hi) as (g & -> & [Hg _ _ _ _]). cbn.
    rewrite Hg. by repeat split.
Qed.

(** Two fragments of a message that carries a byte-slice custom field
    (the other fields being of comparable types) crash the reassembly: [==]
    on interface values holding slices panics. *)
Theorem Defragment_bytes_panics p q ps k b :
  CustomFields p = CustomFields q -> CustomFields p !! k = Some (VBytes b) ->
  map_Forall (fun _ v => comparable v \/ exists b, v = VBytes b) (CustomFields p) ->
  Defragment (p :: q :: ps) = Panic.
Proof.
  intros E Hk Hall. unfold Defragment. rewrite bool_decide_eq_false_2 by done.
  cbn [allFieldsEqual allEqualTo]. by erewrite EqualTo_bytes.
Qed.
End defragment_theorems.

(* ------------------------------------------------------------------ *)
(** * Examples                                                          *)
(* ------------------------------------------------------------------ *)

Definition examplePayload (m : gmap gostring goval) : Payload :=
  mkPayload AddrZero 77 9 0 0 0 (str "web1") 0 [] m (str "kernel: eth0: link is up") 0.
Definition exampleFragments : list Payload :=
  match Fragment (examplePayload ∅) 60 40 (fun _ _ => 0) with Ok fs => fs | _ => [] end.

Lemma zero_draw_ok (i : nat) : draw_ok (fun _ => 0).
Proof. intros m Hm. lia. Qed.

Lemma exampleFragments_eq :
  Fragment (examplePayload ∅) 60 40 (fun _ _ => 0) = Ok exampleFragments /\
  len exampleFragments = 3.
Proof. by vm_compute. Qed.

Lemma Fragment_pieces_witness :
  concat (map Data exampleFragments) = str "kernel: eth0: link is up".
Proof.
  apply (Fragment_pieces (examplePayload ∅) 60 40 (fun _ _ => 0) exampleFragments zero_draw_ok).
  apply exampleFragments_eq.
Defined.

Lemma Fragment_succeeds_witness :
  exists fs, Fragment (examplePayload ∅) 101 40 (fun _ _ => 0) = Ok fs /\
    (Data (examplePayload ∅) <> [] -> fs <> []).
Proof. by apply (Fragment_succeeds _ 101 40 _ zero_draw_ok). Defined.

(** The middle fragment is lost and the others arrive in reverse. *)
Definition exampleLossy : list Payload :=
  match exampleFragments with [a; _; c] => [c; a] | _ => [] end.

Lemma exampleLossy_ok : fragments_of (examplePayload ∅) 2 exampleLossy.
Proof.
  constructor; try apply Forall_forall.
  1-3: by vm_compute; repeat constructor.
  vm_compute. repeat constructor; set_solver.
Qed.

Lemma Defragment_positions_witness :
  @Defragment stableSort exampleLossy =
  Ok (reassembled (examplePayload ∅) (str "kernel: et[missing fragment]s up")).
Proof.
  etransitivity.
  - apply (Defragment_positions (SS := stableSort) (examplePayload ∅) 2).
    + by vm_compute.
    + right. apply map_Forall_empty.
    + apply exampleLossy_ok.
  - by vm_compute.
Defined.

Lemma Defragment_Fragment_witness :
  @Defragment stableSort (rev exampleFragments) =
  Ok (reassembled (examplePayload ∅) (str "kernel: eth0: link is up")).
Proof.
  apply (Defragment_Fragment (SS := stableSort) (examplePayload ∅) 60 40 (fun _ _ => 0)
           exampleFragments).
  - apply zero_draw_ok.
  - apply exampleFragments_eq.
  - apply map_Forall_empty.
  - done.
  - symmetry. apply Permutation_rev.
Defined.

Lemma Defragment_bytes_panics_witness :
  let p := examplePayload {[ str "raw" := VBytes (str "x") ]} in
  @Defragment stableSort [p; p] = Panic.
Proof.
  apply (Defragment_bytes_panics (SS := stableSort) _ _ [] (str "raw") (str "x")).
  - done.
  - by vm_compute.
  - apply map_Forall_singleton. by right; eexists.
Defined.
