(* ===== verification/Payload.v ===== *)
(** Validation of a fragment on its way out and in
    ([pkg/protocol/payload.go]): [ConstructPayload] turns a [Payload] into
    the wire record, [DeconstructPayload] validates a received record and
    decides how far its sender is trusted. *)
From S2P Require Import Prelude Text Registry Wrappers Context Consts Inner ToyCrypto.

(** [request.Hostname = h] *)
Definition setHostname (p : Payload) (h : gostring) : Payload :=
  mkPayload (RemoteIP p) (HostID p) (MsgID p) (MessageSeq p) (MessageSeqMax p)
    (Timestamp p) h (SignatureID p) (Signature p) (CustomFields p) (Data p)
    (PaddingLen p).

(** [msg.RemoteIP = a] *)
Definition setRemoteIP (p : Payload) (a : Addr) : Payload :=
  mkPayload a (HostID p) (MsgID p) (MessageSeq p) (MessageSeqMax p)
    (Timestamp p) (Hostname p) (SignatureID p) (Signature p) (CustomFields p) (Data p)
    (PaddingLen p).

(** The two successive [ReplaceAll] calls, on a string in one direction and
    on bytes in the other. *)
Definition stripTrustMarkers (h : gostring) : gostring :=
  replaceAll HostPrefixUnverified [] (replaceAll HostPrefixUnkSig [] h).

Definition SerializeSignature (hostname : bytes) (hostID timestamp : Z) : bytes :=
  IdentitySignatureContext ++ be_encode 8 timestamp ++ be_encode 4 hostID ++ hostname.

(* ------------------------------------------------------------------ *)
(** * Outgoing                                                          *)
(* ------------------------------------------------------------------ *)

(** Type and bytes of one custom field value. *)
Definition constructValue (value : goval) : res (Z * bytes) :=
  match value with
  | VNil => Ok (ContextString, EmptyFieldChar)
  | _ =>
      '(cleanType, cleanValue) ← wrapAs ErrSerialization (serializeAnyValue value);
      let cleanValue :=
        if len cleanValue <? minCtxValLen then EmptyFieldChar else cleanValue in
      if MaxCtxValLen <? len cleanValue then fail2 ErrInvalidPayload ErrInvalidContextField
      else if (cleanType =? ContextString) && negb (utf8Valid cleanValue)
      then fail2 ErrInvalidPayload ErrInvalidContextField
      else Ok (cleanType, cleanValue)
  end.

Definition constructField (key : gostring) (value : goval) : res contextWireFormat :=
  let cleanKey := cleanStringToBytes key (Z.to_nat maxCtxKeyLen) in
  if len cleanKey <? minCtxKeyLen then fail2 ErrInvalidPayload ErrInvalidContextField
  else if maxCtxKeyLen <? len cleanKey then fail2 ErrInvalidPayload ErrInvalidContextField
  else
    '(cleanType, cleanValue) ← constructValue value;
    Ok (mkCtx cleanKey cleanType cleanValue).

(** The loop over the sorted keys, with the running serialized length. *)
Fixpoint constructFields (fields : gmap gostring goval) (keys : list gostring)
    (totalCtxLen : Z) : res (list contextWireFormat * Z) :=
  match keys with
  | [] => Ok ([], totalCtxLen)
  | key :: keys =>
      c ← constructField key (default VNil (fields !! key));
      '(cs, total) ← constructFields fields keys
        (totalCtxLen + (lenCtxKeyNxtLen + len (Key c) + lenCtxKeyTerminator +
                        lenCtxTypeVal + lenCtxValNxtLen + len (Value c) +
                        lenCtxValTerminator));
      Ok (c :: cs, total)
  end.

Definition sortedKeys (fields : gmap gostring goval) : list gostring :=
  sortStrings (map fst (map_to_list fields)).

Definition constructContext (fields : gmap gostring goval)
  : res (list contextWireFormat) :=
  if bool_decide (size fields = 0%nat) then Ok []
  else
    '(cs, totalCtxLen) ← constructFields fields (sortedKeys fields) 0;
    if totalCtxLen <? minCtxSecLenWithData then fail ErrInvalidPayload
    else if maxCtxSectionLen <? totalCtxLen then fail ErrInvalidPayload
    else Ok cs.

Section payload.
Context `{!Prims}.

(** The pre-computed signature the wire record carries. *)
Definition constructSignature (request : Payload) (sigID : Z) : res bytes :=
  if 0 <? sigID then
    if len (Signature request) =? 0 then fail ErrInvalidPayload
    else match GetSignatureInfo sigID with
    | None => fail2 ErrInvalidPayload ErrUnknownSignatureSuite
    | Some suite =>
        if negb (sigID =? SignatureID request) then fail ErrInvalidPayload
        else if (MaxSignatureLength suite <? len (Signature request))
                || (len (Signature request) <? MinSignatureLength suite)
        then fail ErrInvalidPayload
        else if (len (Signature request) <? minSignatureLen)
                || (maxSignatureLen <? len (Signature request))
        then fail ErrInvalidPayload
        else Ok (Signature request)
    end
  else Ok [].

(** The rest of [ConstructPayload] once the hostname of the request was
    stripped. *)
Definition constructStripped (request : Payload) (sigID : Z) : res innerWireFormat :=
  signature ← constructSignature request sigID;
  fields ← constructContext (CustomFields request);
  if (PaddingLen request <? minPaddingLen) || (maxPaddingLen <? PaddingLen request)
  then fail ErrInvalidPayload
  else
    Ok (mkInner (wrapU 32 (HostID request)) (wrapU 32 (MsgID request))
          (wrapU 16 (MessageSeq request)) (wrapU 16 (MessageSeqMax request))
          (wrapU 64 (UnixMilli (Timestamp request)))
          (cleanStringToBytes (Hostname request) (Z.to_nat maxHostnameLen))
          sigID signature fields (Data request) (PaddingLen request)).

(** The request is passed by pointer: the first component is what the
    caller's payload looks like afterwards. *)
Definition ConstructPayload (request : Payload) (sigID : Z)
  : Payload * res innerWireFormat :=
  if HostID request =? 0 then (request, fail ErrInvalidPayload)
  else if MsgID request =? 0 then (request, fail ErrInvalidPayload)
  else if MessageSeqMax request <? MessageSeq request
  then (request, fail ErrInvalidPayload)
  else
    let request := setHostname request (stripTrustMarkers (Hostname request)) in
    (request, constructStripped request sigID).

(** [CalculateProtocolOverhead]: the loop visits the map in any order. *)
Fixpoint overheadFields (fs : list (gostring * goval)) (innerVariableLength : Z)
  : res Z :=
  match fs with
  | [] => Ok innerVariableLength
  | (key, value) :: fs =>
      '(_, data) ← wrapAs ErrSerialization (serializeAnyValue value);
      overheadFields fs (innerVariableLength + ctxFieldOverhead + len key + len data)
  end.

Definition CalculateProtocolOverhead (suiteID : Z) (p : Payload) : res Z :=
  match GetSuiteInfo suiteID with
  | None => fail ErrUnknownSuite
  | Some cryptoInfo =>
      let outerTotal :=
        SuiteIDLen + KeySize cryptoInfo + NonceSize cryptoInfo +
        CipherOverhead cryptoInfo in
      let innerVariableLength := len (Hostname p) + len (Signature p) in
      innerVariableLength ←
        (if bool_decide (0 < size (CustomFields p))%nat
         then overheadFields (map_to_list (CustomFields p)) innerVariableLength
         else Ok innerVariableLength);
      let innerVariableLength :=
        innerVariableLength + lenContextSectionNxtLen + lenContextSectionTerminator in
      Ok (outerTotal + minInnerPayloadLenFixedOnly + innerVariableLength)
  end.

(* -------------------------------------------------------------- *)
(** * Incoming                                                      *)
(* -------------------------------------------------------------- *)

(** The four cases of pinned key and signature: the hostname the message
    is recorded under, given the stripped one. *)
Definition checkSender (env : CryptoEnv) (proto : innerWireFormat) (hostname : bytes)
  : res gostring :=
  match LookupPinnedSender env hostname with
  | Some pubKey =>
      if wSignatureID proto =? 0 then fail ErrInvalidPayload
      else
        let bytesToVerify :=
          SerializeSignature hostname (wHostID proto) (wTimestamp proto) in
        valid ← wrapAs ErrCryptoFailure
          (VerifySignature env pubKey bytesToVerify (wSignature proto) (wSignatureID proto));
        if negb valid then fail ErrInvalidPayload else Ok hostname
  | None =>
      if wSignatureID proto =? 0 then Ok (HostPrefixUnverified ++ hostname)
      else Ok (HostPrefixUnkSig ++ hostname)
  end.

Definition deconstructField (field : contextWireFormat) : res goval :=
  if len (Key field) <? minCtxKeyLen
  then fail2 ErrInvalidPayload ErrInvalidContextField
  else if maxCtxKeyLen <? len (Key field)
  then fail2 ErrInvalidPayload ErrInvalidContextField
  else if negb (isPrintableASCII (Key field))
  then fail2 ErrInvalidPayload ErrInvalidContextField
  else if (len (Value field) <? minCtxValLen) || (MaxCtxValLen <? len (Value field))
  then fail2 ErrInvalidPayload ErrInvalidContextField
  else if (valType field =? ContextString) && negb (utf8Valid (Value field))
  then fail2 ErrInvalidPayload ErrInvalidContextField
  else wrapAs ErrSerialization (deserializeAnyValue (valType field) (Value field)).

(** The loop over the context fields: a later key overwrites an equal
    earlier one. *)
Fixpoint deconstructFields (acc : gmap gostring goval) (fs : list contextWireFormat)
  : res (gmap gostring goval) :=
  match fs with
  | [] => Ok acc
  | field :: fs =>
      value ← deconstructField field;
      deconstructFields (<[Key field := value]> acc) fs
  end.

Definition DeconstructPayload (env : CryptoEnv) (proto : innerWireFormat)
  : res Payload :=
  if wHostID proto =? 0 then fail ErrInvalidPayload
  else if wMsgID proto =? 0 then fail ErrInvalidPayload
  else if wMessageSeqMax proto <? wMessageSeq proto then fail ErrInvalidPayload
  else if len (wHostname proto) =? 0 then fail ErrInvalidPayload
  else if maxHostnameLen <? len (wHostname proto) then fail ErrInvalidPayload
  else if negb (isPrintableASCII (wHostname proto)) then fail ErrInvalidPayload
  else
    let stripped := stripTrustMarkers (wHostname proto) in
    hostname ← checkSender env proto stripped;
    fields ← deconstructFields ∅ (wContextFields proto);
    if len (wData proto) =? 0 then fail ErrInvalidPayload
    else if (wPaddingLen proto <? minPaddingLen) || (maxPaddingLen <? wPaddingLen proto)
    then fail ErrInvalidPayload
    else
      Ok (mkPayload AddrZero (wHostID proto) (wMsgID proto) (wMessageSeq proto)
            (wMessageSeqMax proto) (fromUnixMilli (wrapS 64 (wTimestamp proto)))
            hostname (wSignatureID proto) (wSignature proto) fields (wData proto)
            (wPaddingLen proto)).
End payload.

(* ------------------------------------------------------------------ *)
(** * Facts about the outgoing direction                                *)
(* ------------------------------------------------------------------ *)

(** The value the receiver gets: nil and values without text become the
    placeholder string. *)
Definition sentValue (v : goval) : goval :=
  match v with
  | VNil => VString EmptyFieldChar
  | VString s => VString (orEmptyChar (cleanBytes s))
  | _ => wireValue v
  end.

(** Floats the receiver accepts, and values in the range of their type. *)
Definition finite (v : goval) : Prop :=
  match v with
  | VFloat32 b => notFinite32 b = false
  | VFloat64 b => notFinite64 b = false
  | _ => True
  end.

Definition cleanKey (k : gostring) : bytes := cleanStringToBytes k (Z.to_nat maxCtxKeyLen).

(** The custom fields on the other side. *)
Definition sentFields (m : gmap gostring goval) : gmap gostring goval :=
  list_to_map (map (fun '(k, v) => (cleanKey k, sentValue v)) (map_to_list m)).

Lemma serializeAnyValue_len v t d :
  serializeAnyValue v = Ok (t, d) -> t <> ContextString -> minCtxValLen <= len d.
Proof.
  unfold minCtxValLen. destruct v; simpl; intros H Ht; try done; injection H as <- <-;
    rewrite ?len_app, ?len_be_encode, ?len_cons, ?len_nil; try lia; try done.
  pose proof (len_nonneg b). lia.
Qed.

Lemma serializeAnyValue_String v d :
  serializeAnyValue v = Ok (ContextString, d) -> exists s, v = VString s /\ d = cleanBytes s.
Proof. destruct v; simpl; intros [=]; eauto. Qed.

Lemma constructValue_inv v t d :
  constructValue v = Ok (t, d) ->
  1 <= len d <= MaxCtxValLen /\ 0 <= t < 256 /\
  (t = ContextString -> utf8Valid d = true) /\
  ((v = VNil /\ t = ContextString /\ d = EmptyFieldChar) \/
   (exists s, v = VString s /\ t = ContextString /\ d = orEmptyChar (cleanBytes s)) \/
   (t <> ContextString /\ serializeAnyValue v = Ok (t, d))).
Proof.
  intros H. destruct (decide (v = VNil)) as [->|Hn].
  { injection H as <- <-. split_and!; try done. by left. }
  assert (exists d0, serializeAnyValue v = Ok (t, d0) /\
    d = (if len d0 <? minCtxValLen then EmptyFieldChar else d0) /\
    len d <= MaxCtxValLen /\ (t = ContextString -> utf8Valid d = true))
    as (d0 & Hs & Hd & Hmax & Hu).
  { destruct v; try done; unfold constructValue in H;
      apply bind_inv in H as ([t0 d0] & Hs%wrapAs_inv & H); exists d0;
      destruct (Z.ltb_spec MaxCtxValLen (len (if len d0 <? minCtxValLen then EmptyFieldChar else d0)));
      try done;
      destruct ((t0 =? ContextString) && _) eqn:E; try done;
      injection H as <- <-; split_and!; try done;
      intros ->; rewrite Z.eqb_refl in E; simpl in E; by apply negb_false_iff in E. }
  assert (1 <= len d) as Hmin.
  { subst d. unfold minCtxValLen. destruct (Z.ltb_spec (len d0) 1); [done|lia]. }
  split_and!; try done.
  1, 2: destruct v; simpl in Hs; simplify_eq; done.
  destruct (decide (t = ContextString)) as [->|Ht].
  - apply serializeAnyValue_String in Hs as (s & -> & ->).
    right; left. exists s. split_and!; [done..|]. subst d. unfold minCtxValLen.
    destruct (cleanBytes s) as [|b l]; [done|]. rewrite len_cons.
    pose proof (len_nonneg l). destruct (Z.ltb_spec (1 + len l) 1); [lia|done].
  - right; right. split; [done|]. rewrite Hs. subst d.
    pose proof (serializeAnyValue_len _ _ _ Hs Ht).
    destruct (Z.ltb_spec (len d0) minCtxValLen); [lia|done].
Qed.

Lemma cleanKey_len k : len (cleanKey k) <= maxCtxKeyLen.
Proof.
  unfold cleanKey, len. pose proof (cleanStringToBytes_length k (Z.to_nat maxCtxKeyLen)).
  change maxCtxKeyLen with 32 in *. lia.
Qed.

Lemma constructField_inv k v c :
  constructField k v = Ok c ->
  Key c = cleanKey k /\ 1 <= len (Key c) <= 32 /\ ctx_ok c /\
  constructValue v = Ok (valType c, Value c).
Proof.
  unfold constructField. fold (cleanKey k).
  destruct (Z.ltb_spec (len (cleanKey k)) minCtxKeyLen) as [|H1]; [done|].
  destruct (Z.ltb_spec maxCtxKeyLen (len (cleanKey k))) as [|H2]; [done|].
  unfold minCtxKeyLen, maxCtxKeyLen in *.
  intros H. apply bind_inv in H as ([t d] & Hv & [= <-]). simpl.
  apply constructValue_inv in Hv as Hb. unfold MaxCtxValLen in Hb.
  split_and!; try done. unfold ctx_ok. simpl. lia.
Qed.

Lemma constructFields_inv m keys t cs t' :
  constructFields m keys t = Ok (cs, t') ->
  Forall2 (fun k c => constructField k (default VNil (m !! k)) = Ok c) keys cs /\
  t' = t + len (ctxSection cs).
Proof.
  revert t cs. induction keys as [|k keys IH]; intros t cs; cbn [constructFields].
  - intros [= <- <-]. split; [constructor|]. rewrite Z.add_0_r. done.
  - intros H. apply bind_inv in H as (c & Hc & H).
    apply bind_inv in H as ([cs' t1] & Hcs & [= <- <-]).
    apply IH in Hcs as [Hall ->]. split; [by constructor|].
    rewrite ctxSection_cons, len_app, len_ctxLayout. unfold ctxFieldOverhead. lia.
Qed.

Lemma sortedKeys_spec m :
  Permutation (sortedKeys m) (map fst (map_to_list m)) /\ NoDup (sortedKeys m).
Proof.
  assert (Permutation (sortedKeys m) (map fst (map_to_list m))) as Hp
    by apply sortStrings_perm.
  split; [done|]. rewrite Hp. apply NoDup_fst_map_to_list.
Qed.

Lemma constructContext_inv m cs :
  constructContext m = Ok cs ->
  Forall2 (fun k c => constructField k (default VNil (m !! k)) = Ok c) (sortedKeys m) cs /\
  len (ctxSection cs) <= maxCtxSectionLen.
Proof.
  unfold constructContext. case_bool_decide as Hm.
  - intros [= <-]. apply map_size_empty_inv in Hm as ->.
    unfold sortedKeys. rewrite map_to_list_empty. split; [constructor|done].
  - intros H. apply bind_inv in H as ([cs' t] & H & Hx).
    apply constructFields_inv in H as [Hall ->].
    destruct (_ <? minCtxSecLenWithData); [done|].
    destruct (Z.ltb_spec maxCtxSectionLen (0 + len (ctxSection cs'))); [done|].
    injection Hx as <-. split; [done|lia].
Qed.

(* ------------------------------------------------------------------ *)
(** * Facts about the incoming direction                                *)
(* ------------------------------------------------------------------ *)

Lemma wireValue_text v t d :
  serializeAnyValue v = Ok (t, d) -> t <> ContextString -> sentValue v = wireValue v.
Proof. destruct v; simpl; intros H Ht; try done. by injection H as <- _. Qed.

(** A field that was constructed is accepted and yields the sent value. *)
Lemma deconstructField_constructed k v c :
  finite v -> goval_wf v -> constructField k v = Ok c ->
  deconstructField c = Ok (sentValue v).
Proof.
  intros Hf Hw Hc. apply constructField_inv in Hc as (Hk & Hkl & _ & Hv).
  apply constructValue_inv in Hv as (Hl & _ & Hu & Hcase).
  unfold deconstructField, minCtxKeyLen, maxCtxKeyLen, minCtxValLen.
  destruct (Z.ltb_spec (len (Key c)) 1); [lia|].
  destruct (Z.ltb_spec 32 (len (Key c))); [lia|].
  rewrite Hk at 1. unfold cleanKey. rewrite cleanStringToBytes_printable. cbn [negb].
  destruct (Z.ltb_spec (len (Value c)) 1); [lia|].
  destruct (Z.ltb_spec MaxCtxValLen (len (Value c))); [lia|]. cbn [orb].
  assert ((valType c =? ContextString) && negb (utf8Valid (Value c)) = false) as ->.
  { destruct (Z.eqb_spec (valType c) ContextString); [|done]. by rewrite Hu. }
  destruct Hcase as [(-> & -> & ->)|[(s & -> & Ht & Hs)|[Ht Hser]]].
  - done.
  - rewrite Ht, deserializeString by auto. simpl. by rewrite Hs.
  - erewrite (deserialize_serialize v); [|done| |done].
    + simpl. by erewrite wireValue_text.
    + destruct v; simpl in *; try done. injection Hser as E _. by destruct Ht.
Qed.

Lemma deconstructFields_all acc cs kvs :
  Forall2 (fun c kv => Key c = kv.1 /\ deconstructField c = Ok kv.2) cs kvs ->
  deconstructFields acc cs = Ok (foldl (fun m kv => <[kv.1 := kv.2]> m) acc kvs).
Proof.
  intros H. revert acc. induction H as [|c [k v] cs kvs [Hk Hv] _ IH]; intros acc; [done|].
  cbn [deconstructFields]. rewrite Hv. simpl in *. by rewrite IH, Hk.
Qed.

Lemma foldl_insert (acc : gmap gostring goval) kvs :
  NoDup kvs.*1 ->
  foldl (fun m kv => <[kv.1 := kv.2]> m) acc kvs = list_to_map kvs ∪ acc.
Proof.
  revert acc. induction kvs as [|[k v] kvs IH]; intros acc; csimpl.
  - intros _. by rewrite map_empty_union.
  - intros [Hni Hnd]%NoDup_cons. rewrite IH by done.
    rewrite <- insert_union_r by by apply not_elem_of_list_to_map.
    apply insert_union_l.
Qed.

Lemma sortedKeys_sent m :
  map (fun k => (cleanKey k, sentValue (default VNil (m !! k)))) (sortedKeys m)
  ≡ₚ map (fun '(k, v) => (cleanKey k, sentValue v)) (map_to_list m).
Proof.
  destruct (sortedKeys_spec m) as [Hp _].
  etrans; [by apply Permutation_map|]. rewrite map_map.
  erewrite map_ext_in; [reflexivity|]. intros [k v] Hkv.
  apply list_elem_of_In, elem_of_map_to_list in Hkv. simpl. by rewrite Hkv.
Qed.

(** The keys stay apart after cleaning. *)
Definition keys_distinct (m : gmap gostring goval) : Prop :=
  NoDup (map (fun kv => cleanKey kv.1) (map_to_list m)).

Lemma deconstructFields_constructed m cs :
  map_Forall (fun _ v => finite v /\ goval_wf v) m -> keys_distinct m ->
  constructContext m = Ok cs ->
  deconstructFields ∅ cs = Ok (sentFields m).
Proof.
  intros Hm Hd Hcs. apply constructContext_inv in Hcs as [Hall _].
  pose proof (sortedKeys_sent m) as Hp.
  set (f := fun k => (cleanKey k, sentValue (default VNil (m !! k)))) in *.
  rewrite (deconstructFields_all _ _ (map f (sortedKeys m))).
  - assert (NoDup (map f (sortedKeys m)).*1) as Hnd.
    { rewrite Hp. unfold keys_distinct in Hd.
      replace (fmap fst _) with (map (fun kv => cleanKey kv.1) (map_to_list m)); [done|].
      change (@fmap list _ _ _ fst) with (@map (bytes * goval) bytes fst).
      rewrite map_map. by apply map_ext; intros []. }
    rewrite foldl_insert, map_union_empty by done. f_equal.
    apply list_to_map_proper; done.
  - apply Forall2_fmap_r, Forall2_flip.
    assert (Forall (fun k => exists v, m !! k = Some v) (sortedKeys m)) as Hin.
    { apply Forall_forall. intros k Hk. destruct (sortedKeys_spec m) as [Hq _].
      rewrite Hq in Hk. apply list_elem_of_fmap in Hk as ([k' v] & -> & Hkv).
      apply elem_of_map_to_list in Hkv. by exists v. }
    clear Hp. induction Hall as [|k c ks cs Hc _ IH]; constructor.
    + apply Forall_cons in Hin as [[v Hv] _]. simpl. rewrite Hv in *. simpl in *.
      apply constructField_inv in Hc as Hk. split; [apply Hk|].
      apply Hm in Hv as []. by eapply deconstructField_constructed.
    + apply Forall_cons in Hin as [_ Hin]. by apply IH.
Qed.

Section facts.
Context {P : Prims}.

(** Everything a successful [ConstructPayload] checked and produced. *)
Lemma ConstructPayload_inv p sigID p' w :
  ConstructPayload p sigID = (p', Ok w) ->
  HostID p <> 0 /\ MsgID p <> 0 /\ MessageSeq p <= MessageSeqMax p /\
  minPaddingLen <= PaddingLen p <= maxPaddingLen /\
  p' = setHostname p (stripTrustMarkers (Hostname p)) /\
  exists sig cs, constructSignature p sigID = Ok sig /\
    constructContext (CustomFields p) = Ok cs /\
    w = mkInner (wrapU 32 (HostID p)) (wrapU 32 (MsgID p)) (wrapU 16 (MessageSeq p))
          (wrapU 16 (MessageSeqMax p)) (wrapU 64 (UnixMilli (Timestamp p)))
          (cleanStringToBytes (stripTrustMarkers (Hostname p)) (Z.to_nat maxHostnameLen))
          sigID sig cs (Data p) (PaddingLen p).
Proof.
  unfold ConstructPayload.
  destruct (Z.eqb_spec (HostID p) 0) as [|E1], (Z.eqb_spec (MsgID p) 0) as [|E2],
    (Z.ltb_spec (MessageSeqMax p) (MessageSeq p)) as [|E3]; try done.
  intros [= <- H]. unfold constructStripped in H.
  apply bind_inv in H as (sig & Hsig & H). apply bind_inv in H as (cs & Hcs & H).
  cbn [PaddingLen setHostname] in H.
  destruct (Z.ltb_spec (PaddingLen p) minPaddingLen),
    (Z.ltb_spec maxPaddingLen (PaddingLen p)); try done.
  cbn [orb] in H. injection H as <-. split_and!; try done.
  exists sig, cs. by split_and!.
Qed.

Lemma constructSignature_inv p sigID sig :
  constructSignature p sigID = Ok sig -> 0 <= sigID ->
  (sigID = 0 /\ sig = []) \/
  (sigID = 1 /\ SignatureID p = 1 /\ sig = Signature p /\ len sig = 64).
Proof.
  unfold constructSignature. intros H Hs. destruct (Z.ltb_spec 0 sigID); [|left].
  - destruct (len (Signature p) =? 0); [done|].
    destruct (GetSignatureInfo sigID) as [s|] eqn:E; [|done].
    apply GetSignatureInfo_Some in E as [[-> _]|[-> ->]]; [done|]. right.
    destruct (Z.eqb_spec 1 (SignatureID p)) as [E1|]; [|done]. cbn [negb] in H.
    cbn [MaxSignatureLength MinSignatureLength ed25519Suite] in H.
    change (Z.of_nat Ed25519SignatureSize) with 64 in H.
    destruct (Z.ltb_spec 64 (len (Signature p))), (Z.ltb_spec (len (Signature p)) 64);
      try done; cbn [orb] in H.
    destruct ((len (Signature p) <? minSignatureLen) || _); [done|].
    injection H as <-. split_and!; [done..|lia].
  - injection H as <-. split; [lia|done].
Qed.

(** A constructed record is well-formed for the wire as soon as it has a
    hostname and data left. *)
Lemma ConstructPayload_inner_ok p sigID p' w :
  ConstructPayload p sigID = (p', Ok w) -> 0 <= sigID ->
  wHostname w <> [] -> 1 <= len (Data p) <= maxDataLen -> inner_ok w.
Proof.
  intros H Hs Hh Hd.
  apply ConstructPayload_inv in H as (_ & _ & _ & Hp & _ & sig & cs & Hsig & Hcs & ->).
  apply constructSignature_inv in Hsig; [|done].
  apply constructContext_inv in Hcs as [Hall Hlen].
  unfold minPaddingLen in Hp. simpl in Hh.
  constructor; simpl; try done; try (by apply wrapU_range).
  - split.
    + destruct (cleanStringToBytes _ _) as [|b l] eqn:E; [done|].
      rewrite len_cons. pose proof (len_nonneg l). lia.
    + unfold len. pose proof (cleanStringToBytes_length (stripTrustMarkers (Hostname p))
                                (Z.to_nat maxHostnameLen)).
      change maxHostnameLen with 255 in *. lia.
  - destruct Hsig as [[-> ->]|(-> & _ & _ & ?)]; [by left|by right].
  - clear Hlen. induction Hall as [|k c ks cs' Hc _ IH]; constructor; [|done].
    by apply constructField_inv in Hc as (_ & _ & ? & _).
  - lia.
Qed.

Lemma wrapS_timestamp t : wrapS 64 (wrapU 64 (UnixMilli t)) = UnixMilli t.
Proof.
  unfold UnixMilli, wrapU. apply wrapS_wrapU; [lia|].
  by apply wrapS_range.
Qed.

(** The receiver's view of a payload it accepts under the name [name]. *)
Definition received (p : Payload) (sigID : Z) (sig : bytes) (name : gostring) : Payload :=
  mkPayload AddrZero (HostID p) (MsgID p) (MessageSeq p) (MessageSeqMax p)
    (fromUnixMilli (UnixMilli (Timestamp p))) name sigID sig
    (sentFields (CustomFields p)) (Data p) (PaddingLen p).

(** Identifiers and positions that fit their wire fields. *)
Record ids_ok (p : Payload) : Prop := {
  ids_host : 0 < HostID p < 2 ^ 32;
  ids_msg : 0 < MsgID p < 2 ^ 32;
  ids_seq : 0 <= MessageSeq p;
  ids_max : MessageSeqMax p < 2 ^ 16
}.

Definition fields_ok (m : gmap gostring goval) : Prop :=
  map_Forall (fun _ v => finite v /\ goval_wf v) m /\ keys_distinct m.

Lemma payload_transit env p sigID p' w :
  ConstructPayload p sigID = (p', Ok w) -> ids_ok p -> fields_ok (CustomFields p) ->
  wHostname w <> [] -> Data p <> [] ->
  DeconstructPayload env w =
    name ← checkSender env w (stripTrustMarkers (wHostname w));
    Ok (received p sigID (wSignature w) name).
Proof.
  intros H [Hi1 Hi2 Hi3 Hi4] [Hf1 Hf2] Hh Hd.
  apply ConstructPayload_inv in H as (_ & _ & Hq & Hp & _ & sig & cs & _ & Hcs & ->).
  unfold DeconstructPayload. cbn [wHostname] in *.
  set (h := cleanStringToBytes _ _) in *.
  assert (1 <= len h <= maxHostnameLen) as Hl.
  { split.
    - destruct h as [|b l]; [done|]. rewrite len_cons. pose proof (len_nonneg l). lia.
    - unfold len, h. pose proof (cleanStringToBytes_length (stripTrustMarkers (Hostname p))
                                   (Z.to_nat maxHostnameLen)).
      change maxHostnameLen with 255 in *. lia. }
  cbn [wHostID wMsgID wMessageSeq wMessageSeqMax wTimestamp wSignatureID wSignature
       wContextFields wData wPaddingLen].
  rewrite !wrapU_small by lia.
  destruct (Z.eqb_spec (HostID p) 0); [lia|]. destruct (Z.eqb_spec (MsgID p) 0); [lia|].
  destruct (Z.ltb_spec (MessageSeqMax p) (MessageSeq p)); [lia|].
  destruct (Z.eqb_spec (len h) 0); [lia|]. destruct (Z.ltb_spec maxHostnameLen (len h)); [lia|].
  unfold h at 1. rewrite cleanStringToBytes_printable. cbn [negb].
  destruct (checkSender _ _ _) as [name| |]; [|done..]. cbn [mbind res_bind].
  rewrite (deconstructFields_constructed _ _ Hf1 Hf2 Hcs). cbn [mbind res_bind].
  destruct (Z.eqb_spec (len (Data p)) 0) as [E|]; [by apply len_0 in E|].
  destruct (Z.ltb_spec (PaddingLen p) minPaddingLen); [lia|].
  destruct (Z.ltb_spec maxPaddingLen (PaddingLen p)); [lia|]. cbn [orb].
  fold (wrapU 64 (UnixMilli (Timestamp p))). unfold received.
  rewrite <- (wrapS_timestamp (Timestamp p)) at 2. done.
Qed.
End facts.

(* ------------------------------------------------------------------ *)
(** * Facts about the overhead                                          *)
(* ------------------------------------------------------------------ *)

(** Serialized length of a value as the overhead calculation sees it. *)
Definition serialLen (v : goval) : Z :=
  match serializeAnyValue v with Ok (_, d) => len d | _ => 0 end.

Definition fieldSize (kv : gostring * goval) : Z :=
  ctxFieldOverhead + len kv.1 + serialLen kv.2.

(** Bytes the placeholder adds to what the calculation counted: one for an
    empty key, one for a value without bytes. *)
Definition fieldDeficit (kv : gostring * goval) : Z :=
  (if len kv.1 =? 0 then 1 else 0) + (if serialLen kv.2 =? 0 then 1 else 0).

Definition deficit (h : gostring) (m : gmap gostring goval) : Z :=
  (if len h =? 0 then 1 else 0) + sumZ fieldDeficit (map_to_list m).

Lemma overheadFields_Ok fs acc t :
  overheadFields fs acc = Ok t -> t = acc + sumZ fieldSize fs.
Proof.
  revert acc. induction fs as [|[k v] fs IH]; intros acc; cbn [overheadFields].
  - intros [= <-]. rewrite sumZ_nil. lia.
  - intros H. apply bind_inv in H as ([t0 d] & Hs%wrapAs_inv & H).
    rewrite (IH _ H), sumZ_cons. unfold fieldSize at 2, serialLen. simpl. rewrite Hs. lia.
Qed.

Lemma cleaned_len s n : len (cleanStringToBytes s n) <= len s + (if len s =? 0 then 1 else 0).
Proof.
  rewrite cleanStringToBytes_eq. unfold len at 1. rewrite length_take.
  pose proof (List.filter_length_le printable (orEmptyChar s)).
  destruct (Z.eqb_spec (len s) 0) as [E|Hs].
  - apply len_0 in E as ->. change (length (orEmptyChar [])) with 1%nat in *. change (len (@nil byte)) with 0. lia.
  - destruct s as [|b s]; [by destruct Hs|]. change (orEmptyChar (b :: s)) with (b :: s) in *. unfold len. lia.
Qed.

Lemma le_plus_flag z (b : bool) : z <= z + (if b then 1 else 0).
Proof. destruct b; lia. Qed.

Lemma constructField_len k v c :
  constructField k v = Ok c -> v <> VNil ->
  len (ctxLayout c) <= fieldSize (k, v) + fieldDeficit (k, v).
Proof.
  intros Hc Hn. apply constructField_inv in Hc as (Hk & _ & _ & Hv).
  pose proof (cleaned_len k (Z.to_nat maxCtxKeyLen)) as Hkl.
  fold (cleanKey k) in Hkl. rewrite <- Hk in Hkl.
  apply constructValue_inv in Hv as (_ & _ & _ & Hcase).
  assert (len (Value c) <= serialLen v + (if serialLen v =? 0 then 1 else 0)).
  { destruct Hcase as [(-> & _)|[(s & -> & Ht & ->)|[Ht Hs]]]; [done|..]; unfold serialLen.
    - cbn [serializeAnyValue]. destruct (cleanBytes s) as [|b l]; [done|].
      apply le_plus_flag.
    - rewrite Hs. apply le_plus_flag. }
  rewrite len_ctxLayout. unfold fieldSize, fieldDeficit. cbn [fst snd]. lia.
Qed.

Lemma ctxSection_len m cs :
  constructContext m = Ok cs -> map_Forall (fun _ v => v <> VNil) m ->
  len (ctxSection cs) <= sumZ fieldSize (map_to_list m) + sumZ fieldDeficit (map_to_list m).
Proof.
  intros H Hm. apply constructContext_inv in H as [Hall _].
  destruct (sortedKeys_spec m) as [Hp _].
  rewrite <- sumZ_plus.
  transitivity (sumZ (fun k => let kv := (k, default VNil (m !! k)) in
                               fieldSize kv + fieldDeficit kv) (sortedKeys m)).
  - assert (Forall (fun k => default VNil (m !! k) <> VNil) (sortedKeys m)) as Hin.
    { apply Forall_forall. intros k Hk. rewrite Hp in Hk.
      apply list_elem_of_fmap in Hk as ([k' v] & -> & Hkv).
      apply elem_of_map_to_list in Hkv. simpl. rewrite Hkv. by apply Hm in Hkv. }
    clear Hp. induction Hall as [|k c ks cs Hc _ IH]; [done|].
    apply Forall_cons in Hin as [Hk Hin]. rewrite ctxSection_cons, len_app, sumZ_cons.
    specialize (IH Hin). pose proof (constructField_len _ _ _ Hc Hk). cbv zeta in *. lia.
  - rewrite (sumZ_perm _ _ _ Hp), sumZ_map.
    apply Z.eq_le_incl, sumZ_ext. intros [k v] Hkv.
    apply elem_of_map_to_list in Hkv. simpl. by rewrite Hkv.
Qed.

(** Serialization fails on nil; so does the overhead calculation. *)
Lemma overheadFields_not_nil fs acc t :
  overheadFields fs acc = Ok t -> Forall (fun kv => kv.2 <> VNil) fs.
Proof.
  revert acc. induction fs as [|[k v] fs IH]; intros acc; cbn [overheadFields]; intros H;
    constructor; apply bind_inv in H as ([t0 d] & Hs%wrapAs_inv & H); [|eauto].
  cbn [snd]. by intros ->.
Qed.

Section overhead_facts.
Context {P : Prims}.

Lemma CalculateProtocolOverhead_Ok suiteID p F :
  CalculateProtocolOverhead suiteID p = Ok F ->
  map_Forall (fun _ v => v <> VNil) (CustomFields p) /\
  exists s, GetSuiteInfo suiteID = Some s /\
    F = SuiteIDLen + KeySize s + NonceSize s + CipherOverhead s +
        minInnerPayloadLenFixedOnly + len (Hostname p) + len (Signature p) +
        sumZ fieldSize (map_to_list (CustomFields p)) + 3.
Proof.
  unfold CalculateProtocolOverhead. destruct (GetSuiteInfo suiteID) as [s|]; [|done].
  intros H. apply bind_inv in H as (v & Hv & [= <-]).
  change (lenContextSectionNxtLen) with 2. change lenContextSectionTerminator with 1.
  case_bool_decide as Hm.
  - split.
    + apply overheadFields_not_nil in Hv. rewrite Forall_forall in Hv.
      intros k x Hk. by apply (Hv (k, x)), elem_of_map_to_list.
    + exists s. split; [done|]. apply overheadFields_Ok in Hv. lia.
  - assert (CustomFields p = ∅) as E by (apply map_size_empty_inv; lia).
    rewrite E, map_to_list_empty. injection Hv as <-.
    split; [done|]. exists s. split; [done|]. rewrite sumZ_nil. lia.
Qed.

(** The wire record of a fragment is at most the calculated inner overhead,
    the data and the deficit beyond the three bytes counted twice. *)
Lemma ConstructPayload_len p sigID p' w :
  ConstructPayload p sigID = (p', Ok w) -> 0 <= sigID ->
  map_Forall (fun _ v => v <> VNil) (CustomFields p) ->
  len (layout w) <=
    minInnerPayloadLenFixedOnly + len (Hostname p) + len (Signature p) +
    sumZ fieldSize (map_to_list (CustomFields p)) +
    len (Data p) + deficit (stripTrustMarkers (Hostname p)) (CustomFields p).
Proof.
  intros H Hs Hm.
  apply ConstructPayload_inv in H as (_ & _ & _ & _ & _ & sig & cs & Hsig & Hcs & ->).
  rewrite len_layout. cbn [wHostname wSignature wContextFields wData].
  pose proof (ctxSection_len _ _ Hcs Hm).
  pose proof (cleaned_len (stripTrustMarkers (Hostname p)) (Z.to_nat maxHostnameLen)).
  assert (len (stripTrustMarkers (Hostname p)) <= len (Hostname p)).
  { unfold stripTrustMarkers, replaceAll, len.
    pose proof (replaceFrom_nil_length HostPrefixUnkSig 0 (Hostname p)).
    pose proof (replaceFrom_nil_length HostPrefixUnverified 0
                  (replaceFrom HostPrefixUnkSig [] 0 (Hostname p))). lia. }
  assert (len sig <= len (Signature p)).
  { apply constructSignature_inv in Hsig as [(_ & ->)|(_ & _ & -> & _)]; [|done..].
    apply len_nonneg. }
  unfold deficit. lia.
Qed.
End overhead_facts.

(* ------------------------------------------------------------------ *)
(** * Facts about the checks                                            *)
(* ------------------------------------------------------------------ *)

Section check_facts.
Context {P : Prims}.

(** The outcomes of the sender check. *)
Lemma checkSender_inv env proto h name :
  checkSender env proto h = Ok name ->
  (exists key, LookupPinnedSender env h = Some key /\ wSignatureID proto <> 0 /\
     VerifySignature env key (SerializeSignature h (wHostID proto) (wTimestamp proto))
       (wSignature proto) (wSignatureID proto) = Ok true /\ name = h) \/
  (LookupPinnedSender env h = None /\
     (name = HostPrefixUnverified ++ h \/ name = HostPrefixUnkSig ++ h)).
Proof.
  unfold checkSender. destruct (LookupPinnedSender env h) as [key|].
  - destruct (Z.eqb_spec (wSignatureID proto) 0); [done|]. intros H.
    apply bind_inv in H as (v & Hv%wrapAs_inv & H). destruct v; [|done].
    injection H as <-. left. eauto.
  - destruct (_ =? 0); intros [= <-]; right; eauto.
Qed.

(** What a received field is allowed to be: of a type the wire has, in its
    range, and in the one form the decoder yields. *)
Definition canonical (v : goval) : Prop :=
  match v with
  | VFloat32 b => notFinite32 b = false /\ b <> 2 ^ 31
  | VFloat64 b => notFinite64 b = false /\ b <> 2 ^ 63
  | VString s => utf8Valid s = true
  | VNil | VInt _ | VUint _ _ | VOther => False
  | _ => True
  end.
Definition field_valid (k : gostring) (v : goval) : Prop :=
  isPrintableASCII k = true /\ 1 <= len k <= 32 /\ goval_wf v /\ canonical v.

Lemma deconstructField_valid c v : deconstructField c = Ok v -> field_valid (Key c) v.
Proof.
  unfold deconstructField, minCtxKeyLen, maxCtxKeyLen. intros H.
  destruct (Z.ltb_spec (len (Key c)) 1); [done|].
  destruct (Z.ltb_spec 32 (len (Key c))); [done|].
  destruct (isPrintableASCII (Key c)) eqn:Hp; [|done]. cbn [negb] in H.
  repeat (case_match; [done|]). apply wrapAs_inv, deserialize_canonical in H as [Hw Hv].
  unfold field_valid. by split_and!; [|lia..| |].
Qed.

Lemma deconstructFields_valid acc cs fs :
  map_Forall field_valid acc -> deconstructFields acc cs = Ok fs -> map_Forall field_valid fs.
Proof.
  revert acc. induction cs as [|c cs IH]; intros acc Ha; cbn [deconstructFields].
  - by intros [= <-].
  - intros H. apply bind_inv in H as (v & Hv & H). apply (IH _) in H; [done|].
    apply map_Forall_insert_2; [by apply deconstructField_valid|done].
Qed.

(** The fields on the wire keep to the bounds of keys and values. *)
Lemma deconstructFields_bounds acc cs fs : deconstructFields acc cs = Ok fs ->
  Forall (fun c => 1 <= len (Key c) <= 32 /\ 1 <= len (Value c) <= 255) cs.
Proof.
  revert acc. induction cs as [|c cs IH]; intros acc H; constructor; cbn [deconstructFields] in H;
    apply bind_inv in H as (v & Hv & H); [|by eapply IH].
  unfold deconstructField, minCtxKeyLen, maxCtxKeyLen, minCtxValLen, MaxCtxValLen in Hv.
  destruct (Z.ltb_spec (len (Key c)) 1); [done|]. destruct (Z.ltb_spec 32 (len (Key c))); [done|].
  destruct (isPrintableASCII (Key c)); [|done].
  destruct (Z.ltb_spec (len (Value c)) 1); [done|]. destruct (Z.ltb_spec 255 (len (Value c))); [done|]. lia.
Qed.
Lemma ctxSection_bounds cs : Forall (fun c => 1 <= len (Key c) <= 32 /\ 1 <= len (Value c) <= 255) cs ->
  cs = [] \/ 7 <= len (ctxSection cs).
Proof.
  intros [|c cs' [Hk Hv] _]; [by left|right]. unfold ctxSection, ctxLayout, len in *. cbn [map concat].
  rewrite length_app. cbn [length]. rewrite length_app. cbn [length]. rewrite length_app. cbn [length]. lia.
Qed.
(** The recorded name is the name behind at most one marker. *)
Lemma checkSender_marker env proto name h : checkSender env proto name = Ok h ->
  exists marker, marker ∈ [[]; HostPrefixUnverified; HostPrefixUnkSig] /\ h = marker ++ name.
Proof.
  intros [(key & _ & _ & _ & ->)|[_ [-> | ->]]]%checkSender_inv;
    [exists []|exists HostPrefixUnverified|exists HostPrefixUnkSig]; split; try done; set_solver.
Qed.

(** A single short string field falls below the minimum. *)
Lemma constructContext_short k s :
  k <> [] -> s <> [] -> isPrintableASCII k = true -> isPrintableASCII s = true ->
  len k + len s < 5 ->
  constructContext {[ k := VString s ]} = fail ErrInvalidPayload.
Proof.
  intros Hk Hs Pk Ps Hl. pose proof (len_pos _ Hk). pose proof (len_pos _ Hs).
  unfold constructContext, sortedKeys.
  rewrite map_size_singleton, map_to_list_singleton. cbn [map fst].
  change (sortStrings [k]) with [k]. rewrite bool_decide_eq_false_2 by done.
  cbn [constructFields]. rewrite lookup_singleton_eq.
  change (default VNil (Some (VString s))) with (VString s).
  unfold constructField. rewrite cleanStringToBytes_id by
    (done || (change (Z.to_nat maxCtxKeyLen) with 32%nat; unfold len in *; lia)).
  unfold minCtxKeyLen, maxCtxKeyLen.
  destruct (Z.ltb_spec (len k) 1); [lia|]. destruct (Z.ltb_spec 32 (len k)); [lia|].
  cbn [constructValue serializeAnyValue wrapAs mbind res_bind].
  rewrite cleanBytes_id by by apply printable_no_nul.
  unfold minCtxValLen, MaxCtxValLen.
  destruct (Z.ltb_spec (len s) 1); [lia|]. destruct (Z.ltb_spec 255 (len s)); [lia|].
  rewrite printable_utf8 by done. rewrite andb_false_r.
  cbn [mbind res_bind Key Value constructFields].
  match goal with |- context [?x <? minCtxSecLenWithData] =>
    destruct (Z.ltb_spec x minCtxSecLenWithData) as [|Hx] end; [done|].
  revert Hx. change minCtxSecLenWithData with 10.
  change lenCtxKeyNxtLen with 1. change lenCtxKeyTerminator with 1.
  change lenCtxTypeVal with 1. change lenCtxValNxtLen with 1.
  change lenCtxValTerminator with 1. cbn [Key Value]. lia.
Qed.
End check_facts.

(* ------------------------------------------------------------------ *)
(** * Theorems                                                          *)
(* ------------------------------------------------------------------ *)

(** No pinned name can be mistaken for a marked one. *)
Definition unmarked (h : gostring) : Prop :=
  hasPrefix HostPrefixUnverified h = false /\ hasPrefix HostPrefixUnkSig h = false.

Section theorems.
Context {P : Prims}.

(** C3: a received fragment that is recorded under the name of a pinned
    host was signed with that host's key over the name, the host identifier
    and the timestamp of the fragment: nobody without the key can speak in
    the name of a pinned host (pinned names not starting with a marker). *)
Theorem pinned_host_authentic env proto p key :
  map_Forall (fun h _ => unmarked h) (default ∅ (pinned env)) ->
  DeconstructPayload env proto = Ok p ->
  LookupPinnedSender env (Hostname p) = Some key ->
  wSignatureID proto <> 0 /\
  VerifySignature env key
    (SerializeSignature (Hostname p) (wHostID proto) (wTimestamp proto))
    (wSignature proto) (wSignatureID proto) = Ok true.
Proof.
  intros Hm H Hk. unfold DeconstructPayload in H. repeat (case_match; [done|]).
  apply bind_inv in H as (h & Hh & H).
  apply bind_inv in H as (fs & _ & H). repeat (case_match; [done|]). injection H as <-.
  cbn [Hostname] in *. rewrite LookupPinnedSender_eq in Hk.
  apply bind_Some in Hk as (m & Hpin & Hk). rewrite Hpin in Hm. cbn in Hm.
  apply checkSender_inv in Hh as [(key' & Hl & Hsig & Hv & ->)|[_ [->| ->]]].
  - rewrite LookupPinnedSender_eq, Hpin in Hl. cbn in Hl. rewrite Hk in Hl.
    injection Hl as <-. done.
  - apply Hm in Hk as [Hu _]. by rewrite hasPrefix_app in Hu.
  - apply Hm in Hk as [_ Hu]. by rewrite hasPrefix_app in Hu.
Qed.

(** The receiver reads from the wire record of a payload what the sender
    put there: identifiers, position, data and padding as they are, the
    timestamp in milliseconds, the custom fields cleaned, under the name
    the sender check gives (or with that check's error). *)
Theorem payload_roundtrip env p sigID p' w :
  ConstructPayload p sigID = (p', Ok w) -> ids_ok p -> fields_ok (CustomFields p) ->
  wHostname w <> [] -> Data p <> [] ->
  DeconstructPayload env w =
    name ← checkSender env w (stripTrustMarkers (wHostname w));
    Ok (received p sigID (wSignature w) name).
Proof. apply payload_transit. Qed.

(** C35: an accepted fragment has a host and a message number and a position
    within its message, some data and padding within its bounds. The host name
    on the wire is printable and has 1 to 255 bytes; the one that is recorded
    is that one without trust markers, behind at most one marker, and so it may
    be a marker alone ([marker_only_hostname]). Keys have 1 to 32 bytes, values
    1 to 255, and a section of fields at least 7, which is one less than
    [docs/Protocol.md] asks for ([seven_byte_section]). The deserialized fields
    are canonical: printable keys, values of a type that the wire has and in
    its range, floats finite and no negative zero, strings valid UTF-8. *)
Theorem DeconstructPayload_valid env proto p :
  DeconstructPayload env proto = Ok p ->
  HostID p <> 0 /\ MsgID p <> 0 /\ MessageSeq p <= MessageSeqMax p /\ Data p <> [] /\
  minPaddingLen <= PaddingLen p <= maxPaddingLen /\
  (isPrintableASCII (wHostname proto) = true /\ 1 <= len (wHostname proto) <= 255) /\
  (exists marker, marker ∈ [[]; HostPrefixUnverified; HostPrefixUnkSig] /\
    Hostname p = marker ++ stripTrustMarkers (wHostname proto)) /\
  Forall (fun c => 1 <= len (Key c) <= 32 /\ 1 <= len (Value c) <= 255) (wContextFields proto) /\
  (wContextFields proto = [] \/ 7 <= len (ctxSection (wContextFields proto))) /\
  map_Forall field_valid (CustomFields p).
Proof.
  unfold DeconstructPayload. intros H.
  destruct (Z.eqb_spec (wHostID proto) 0) as [|H1]; [done|].
  destruct (Z.eqb_spec (wMsgID proto) 0) as [|H2]; [done|].
  destruct (Z.ltb_spec (wMessageSeqMax proto) (wMessageSeq proto)) as [|H3]; [done|].
  destruct (Z.eqb_spec (len (wHostname proto)) 0) as [|Hn1]; [done|].
  destruct (Z.ltb_spec maxHostnameLen (len (wHostname proto))) as [|Hn2]; [done|].
  destruct (isPrintableASCII (wHostname proto)) eqn:Hprint; [|done].
  cbn [negb] in H. apply bind_inv in H as (h & Hh & H). apply bind_inv in H as (fs & Hfs & H).
  destruct (Z.eqb_spec (len (wData proto)) 0) as [|Hd]; [done|].
  destruct (Z.ltb_spec (wPaddingLen proto) minPaddingLen) as [|Hp1]; [done|].
  destruct (Z.ltb_spec maxPaddingLen (wPaddingLen proto)) as [|Hp2]; [done|].
  injection H as <-. cbn [HostID MsgID MessageSeq MessageSeqMax Data PaddingLen Hostname CustomFields].
  pose proof (deconstructFields_bounds _ _ _ Hfs) as Hb. pose proof (len_nonneg (wHostname proto)).
  split_and!; try done; [by intros E; rewrite E in Hd|lia|by apply checkSender_marker in Hh|by apply ctxSection_bounds|].
  eapply deconstructFields_valid; [|exact Hfs]. apply map_Forall_empty.
Qed.

(** A message whose only custom field is a short string is refused: key
    and value together below five bytes fail the minimum-length test, which
    counts section framing the total leaves out. *)
Theorem short_field_refused p sigID k s sig :
  CustomFields p = {[ k := VString s ]} ->
  k <> [] -> s <> [] -> isPrintableASCII k = true -> isPrintableASCII s = true ->
  len k + len s < 5 ->
  HostID p <> 0 -> MsgID p <> 0 -> MessageSeq p <= MessageSeqMax p ->
  constructSignature p sigID = Ok sig ->
  (ConstructPayload p sigID).2 = fail ErrInvalidPayload.
Proof.
  intros Ec Hk Hs Pk Ps Hl H1 H2 H3 Hsig. unfold ConstructPayload.
  destruct (Z.eqb_spec (HostID p) 0); [done|]. destruct (Z.eqb_spec (MsgID p) 0); [done|].
  destruct (Z.ltb_spec (MessageSeqMax p) (MessageSeq p)); [lia|]. cbn [snd].
  unfold constructStripped.
  change (constructSignature (setHostname _ _) sigID) with (constructSignature p sigID).
  rewrite Hsig. cbn [mbind res_bind CustomFields setHostname]. rewrite Ec.
  by rewrite constructContext_short.
Qed.

(** The overhead calculation crashes on a custom field without a value,
    which payload construction would send as a placeholder. *)
Theorem overhead_nil_panics suiteID p k :
  GetSuiteInfo suiteID <> None -> CustomFields p = {[ k := VNil ]} ->
  CalculateProtocolOverhead suiteID p = Panic.
Proof.
  intros Hs Hc. unfold CalculateProtocolOverhead.
  destruct (GetSuiteInfo suiteID); [|done]. rewrite Hc, map_size_singleton.
  rewrite bool_decide_eq_true_2 by lia. by rewrite map_to_list_singleton.
Qed.
End theorems.

(* ------------------------------------------------------------------ *)
(** * Examples                                                          *)
(* ------------------------------------------------------------------ *)

(** A receiver that pins one host, and that host's signed fragment. *)
Definition pinnedReceiver : CryptoEnv :=
  SetupVerifySignature initEnv {[ str "web1" := toyPublic toySigKey ]}.
Definition signedPayload (h : gostring) (m : gmap gostring goval) : Payload :=
  mkPayload AddrZero 77 16909060 0 1 1700000000123456789 h 1
    (ed25519Sign toySigKey (SerializeSignature h 77 1700000000123)) m
    (str "session opened") 12.
Definition signedWire : innerWireFormat :=
  match (ConstructPayload (signedPayload (str "web1") {[ str "pid" := VInt 42 ]}) 1).2 with
  | Ok w => w | _ => exampleInner end.
Definition signedReceived : Payload :=
  match DeconstructPayload pinnedReceiver signedWire with
  | Ok p => p | _ => signedPayload [] ∅ end.

Lemma pinned_host_authentic_witness :
  DeconstructPayload pinnedReceiver signedWire = Ok signedReceived /\
  Hostname signedReceived = str "web1" /\
  VerifySignature pinnedReceiver (toyPublic toySigKey)
    (SerializeSignature (Hostname signedReceived) (wHostID signedWire) (wTimestamp signedWire))
    (wSignature signedWire) (wSignatureID signedWire) = Ok true.
Proof.
  split; [by vm_compute|]. split; [by vm_compute|].
  apply (pinned_host_authentic pinnedReceiver signedWire signedReceived (toyPublic toySigKey)).
  - apply map_Forall_singleton. by vm_compute.
  - by vm_compute.
  - by vm_compute.
Defined.

Lemma payload_roundtrip_witness :
  DeconstructPayload pinnedReceiver signedWire =
    Ok (received (signedPayload (str "web1") {[ str "pid" := VInt 42 ]}) 1
          (wSignature signedWire) (str "web1")).
Proof.
  etransitivity.
  - apply (payload_roundtrip pinnedReceiver
             (signedPayload (str "web1") {[ str "pid" := VInt 42 ]}) 1
             (signedPayload (str "web1") {[ str "pid" := VInt 42 ]}) signedWire).
    + by vm_compute.
    + by constructor.
    + split; [by apply map_Forall_singleton|].
      by vm_compute; repeat constructor; set_solver.
    + by vm_compute.
    + by vm_compute.
  - by vm_compute.
Defined.

Lemma DeconstructPayload_valid_witness :
  MessageSeq signedReceived <= MessageSeqMax signedReceived /\
  map_Forall field_valid (CustomFields signedReceived).
Proof.
  destruct (DeconstructPayload_valid pinnedReceiver signedWire signedReceived)
    as (_ & _ & H & _ & _ & _ & _ & _ & _ & H'); [by vm_compute|]. by split.
Defined.

Lemma short_field_refused_witness :
  (ConstructPayload (signedPayload (str "web1") {[ str "k" := VString (str "up") ]}) 1).2
    = fail ErrInvalidPayload.
Proof.
  apply (short_field_refused _ 1 (str "k") (str "up")
           (ed25519Sign toySigKey (SerializeSignature (str "web1") 77 1700000000123)));
    by vm_compute.
Defined.

Lemma overhead_nil_panics_witness :
  CalculateProtocolOverhead 1 (signedPayload (str "web1") {[ str "user" := VNil ]}) = Panic.
Proof. by apply (overhead_nil_panics 1 _ (str "user")). Defined.

(** The markers are removed in one pass each: a nested one takes its place,
    and either one can be smuggled through. *)
Example nested_marker_survives :
  stripTrustMarkers (str "[UNK[UNKNOWN]NOWN]web1") = str "[UNKNOWN]web1" /\
  stripTrustMarkers (str "[UNK[UNVERIFIED]NOWN]web1") = str "[UNKNOWN]web1".
Proof. by vm_compute. Qed.

(** A hostname made of a marker only is accepted and leaves no name. *)
Example marker_only_hostname :
  Hostname <$> match DeconstructPayload initEnv
    (mkInner 77 1 0 0 0 HostPrefixUnkSig 0 [] [] (str "x") 10) with
    | Ok p => Some p | _ => None end = Some HostPrefixUnverified.
Proof. by vm_compute. Qed.

(** A section of seven bytes, one key and one value of a byte each, is
    accepted, although [docs/Protocol.md] says that such a fragment must be
    discarded. *)
Example seven_byte_section :
  len (ctxSection [mkCtx (str "k") 8 (str "v")]) = 7 /\
  CustomFields <$> match DeconstructPayload initEnv
    (mkInner 77 1 0 0 0 (str "web1") 0 [] [mkCtx (str "k") 8 (str "v")] (str "x") 10) with
    | Ok p => Some p | _ => None end = Some {[ str "k" := VString (str "v") ]}.
Proof. by vm_compute. Qed.
