(* ===== verification/Packets.v ===== *)
(** Packets ([pkg/protocol/outer.go], [pkg/protocol/wrapper.go]): the
    encrypted outer format and the two entry points, [Create] from a message
    to packets and [Extract] from packets to a message. *)
From S2P Require Import Prelude Text Registry Wrappers Context Consts Inner Fragmentation Payload ToyCrypto.

(** [random.FourByte]: [b] are the four bytes read. *)
Definition FourByte (b : bytes) : Z := be_decode b.

Section packets.
Context `{!Prims}.

(** The buffer writes never fail; the key and the nonce are copied into the
    packet before they are wiped. *)
Definition ConstructOuterPayload (env : CryptoEnv) (e : Entropy)
    (innerPayload : bytes) (suiteID : Z) : res bytes :=
  if len innerPayload <? 1 then fail ErrProtocolViolation
  else match GetSuiteInfo suiteID with
  | None => fail ErrUnknownSuite
  | Some suite =>
      '(ciphertext, ephemeralPub, nonce) ←
        wrapAs ErrCryptoFailure (EncryptInnerPayload env e innerPayload suiteID);
      if negb (len ephemeralPub =? KeySize suite) then fail ErrProtocolViolation
      else if negb (len nonce =? NonceSize suite) then fail ErrProtocolViolation
      else Ok ([z2b suiteID] ++ ephemeralPub ++ nonce ++ ciphertext)
  end.

Definition DeconstructOuterPayload (env : CryptoEnv) (blob : bytes) : res bytes :=
  if len blob <? 1 then fail ErrProtocolViolation
  else
    first ← goIndex blob 0;
    let suiteID := b2z first in
    let currentIndex := SuiteIDLen in
    match GetSuiteInfo suiteID with
    | None => fail ErrUnknownSuite
    | Some suite =>
        let minLength := SuiteIDLen + KeySize suite + NonceSize suite in
        if len blob <? minLength then fail ErrProtocolViolation
        else
          pubKey ← goSlice blob currentIndex (currentIndex + KeySize suite);
          let currentIndex := currentIndex + KeySize suite in
          nonce ← goSlice blob currentIndex (currentIndex + NonceSize suite);
          let currentIndex := currentIndex + NonceSize suite in
          ciphertext ← goSlice blob currentIndex (len blob);
          if len ciphertext <? minInnerPayloadLen + CipherOverhead suite
          then fail ErrProtocolViolation
          else
            wrapAs ErrCryptoFailure
              (DecryptInnerPayload env ciphertext pubKey nonce suiteID)
    end.

(** What [Create] draws from the random source: the message identifier, the
    padding lengths, the padding bytes and the encryption entropy of each
    fragment. *)
Record Randomness := mkRandomness {
  rndID : bytes;
  rndDraw : nat -> Z -> Z;
  rndPad : nat -> nat -> bytes;
  rndCrypto : nat -> Entropy
}.

(** The body of the loop over the fragments. *)
Definition createPacket (env : CryptoEnv) (r : Randomness)
    (cryptoSuite signatureSuite : Z) (index : nat) (fragment : Payload) : res bytes :=
  payload ← wrap (ConstructPayload fragment signatureSuite).2;
  innerPayload ← wrap (ConstructInnerPayload (rndPad r index) payload);
  wrap (ConstructOuterPayload env (rndCrypto r index) innerPayload cryptoSuite).

Fixpoint createPackets (env : CryptoEnv) (r : Randomness)
    (cryptoSuite signatureSuite : Z) (index : nat) (fragments : list Payload)
  : res (list bytes) :=
  match fragments with
  | [] => Ok []
  | fragment :: fragments =>
      packet ← createPacket env r cryptoSuite signatureSuite index fragment;
      packets ← createPackets env r cryptoSuite signatureSuite (S index) fragments;
      Ok (packet :: packets)
  end.

Definition newMessage (r : Randomness) (sendMsg : Message) (hostID signatureSuite : Z)
    (signature : bytes) : Payload :=
  mkPayload AddrZero hostID (FourByte (rndID r)) 0 0 (mTimestamp sendMsg)
    (mHostname sendMsg) signatureSuite signature (mFields sendMsg) (mData sendMsg) 0.

Definition Create (env : CryptoEnv) (r : Randomness) (sendMsg : Message)
    (hostID maxPayloadSize cryptoSuite signatureSuite : Z) : res (list bytes) :=
  signature ←
    (if 0 <? signatureSuite then
       let bitTime := wrapU 64 (UnixMilli (mTimestamp sendMsg)) in
       let bytesToSign :=
         SerializeSignature (mHostname sendMsg) (wrapU 32 hostID) bitTime in
       wrapAs ErrCryptoFailure (CreateSignature env bytesToSign signatureSuite)
     else Ok []);
  let newMsg := newMessage r sendMsg hostID signatureSuite signature in
  protocolOverhead ← wrap (CalculateProtocolOverhead cryptoSuite newMsg);
  fragments ← Fragment newMsg maxPayloadSize protocolOverhead (rndDraw r);
  createPackets env r cryptoSuite signatureSuite 0 fragments.

Definition extractPacket (env : CryptoEnv) (packet : bytes) : res Payload :=
  innerPayload ← wrap (DeconstructOuterPayload env packet);
  payload ← wrap (DeconstructInnerPayload innerPayload);
  wrap (DeconstructPayload env payload).

Fixpoint extractPackets (env : CryptoEnv) (packets : list bytes) : res (list Payload) :=
  match packets with
  | [] => Ok []
  | packet :: packets =>
      messageFragment ← extractPacket env packet;
      fragments ← extractPackets env packets;
      Ok (messageFragment :: fragments)
  end.

(** No packets give a nil message and no error. *)
Definition Extract {SS : SeqSort} (env : CryptoEnv) (packets : list bytes)
  : res (option Message * Z) :=
  if bool_decide (packets = []) then Ok (None, 0)
  else
    fragments ← extractPackets env packets;
    primaryPayload ← Defragment fragments;
    Ok (Some (mkMessage (Timestamp primaryPayload) (Hostname primaryPayload)
                (CustomFields primaryPayload) (Data primaryPayload)),
        HostID primaryPayload).
End packets.

(* ------------------------------------------------------------------ *)
(** * Facts about the outer format                                      *)
(* ------------------------------------------------------------------ *)

Section facts.
Context {P : Prims} {HL : PrimLaws}.

Lemma ConstructOuterPayload_Ok env e inner id pkt :
  entropy_for id e ->
  ConstructOuterPayload env e inner id = Ok pkt ->
  exists s ct eph nonce, GetSuiteInfo id = Some s /\
    EncryptInnerPayload env e inner id = Ok (ct, eph, nonce) /\
    pkt = [z2b id] ++ eph ++ nonce ++ ct /\
    len eph = KeySize s /\ len nonce = NonceSize s /\
    len ct = len inner + CipherOverhead s.
Proof.
  intros He. unfold ConstructOuterPayload.
  destruct (len inner <? 1); [done|].
  destruct (GetSuiteInfo id) as [s|] eqn:Hs; [|done]. intros H.
  apply bind_inv in H as ([[ct eph] nonce] & Henc%wrapAs_inv & H).
  destruct (EncryptInnerPayload_lengths _ _ _ _ _ _ _ _ Hs He Henc) as (H1 & H2 & H3).
  rewrite H1, H2, !Z.eqb_refl in H. injection H as <-. by exists s, ct, eph, nonce.
Qed.

(** Every packet is the inner payload and the fixed overhead of its suite. *)
Lemma ConstructOuterPayload_len env e inner id pkt s :
  entropy_for id e -> GetSuiteInfo id = Some s ->
  ConstructOuterPayload env e inner id = Ok pkt ->
  len pkt = SuiteIDLen + KeySize s + NonceSize s + CipherOverhead s + len inner.
Proof.
  intros He Hs H. apply ConstructOuterPayload_Ok in H
    as (s' & ct & eph & nonce & Hs' & _ & -> & H1 & H2 & H3); [|done].
  rewrite Hs in Hs'. injection Hs' as <-.
  rewrite !len_app, H1, H2, H3. change (len [z2b id]) with SuiteIDLen. lia.
Qed.

Lemma outer_roundtrip snd rcv priv pub e inner id pkt :
  keyed snd rcv priv pub -> entropy_for id e -> minInnerPayloadLen <= len inner ->
  ConstructOuterPayload snd e inner id = Ok pkt ->
  DeconstructOuterPayload rcv pkt = Ok inner.
Proof.
  intros Hk He Hmin H.
  apply ConstructOuterPayload_Ok in H
    as (s & ct & eph & nonce & Hs & Henc & -> & H1 & H2 & H3); [|done].
  assert (0 <= id < 256 /\ 0 <= KeySize s /\ 0 <= NonceSize s) as (Hid & Hks & Hns).
  { apply GetSuiteInfo_Some in Hs as [[-> ->]|[-> ->]]; by cbv. }
  pose proof (len_nonneg inner). pose proof (len_nonneg ct).
  set (pkt := [z2b id] ++ eph ++ nonce ++ ct).
  assert (len pkt = SuiteIDLen + KeySize s + NonceSize s + len ct) as Hlen.
  { subst pkt. rewrite !len_app, H1, H2. change (len [z2b id]) with SuiteIDLen. lia. }
  unfold DeconstructOuterPayload. change SuiteIDLen with 1 in *.
  destruct (Z.ltb_spec (len pkt) 1); [lia|].
  change (goIndex pkt 0) with (Ok (z2b id)). cbn [mbind res_bind].
  rewrite b2z_z2b, Z.mod_small, Hs by done.
  destruct (Z.ltb_spec (len pkt) (1 + KeySize s + NonceSize s)); [lia|].
  rewrite !goSlice_ok by lia. cbn [mbind res_bind].
  assert (slice pkt 1 (1 + KeySize s) = eph) as ->.
  { apply slice_app; [done|]. by rewrite H1. }
  assert (slice pkt (1 + KeySize s) (1 + KeySize s + NonceSize s) = nonce) as ->.
  { unfold pkt. rewrite app_assoc. apply slice_app; rewrite len_app, H1, ?H2; done. }
  assert (slice pkt (1 + KeySize s + NonceSize s) (len pkt) = ct) as ->.
  { unfold pkt at 1. rewrite !app_assoc, <- (app_nil_r ct) at 1.
    rewrite !app_assoc, <- app_assoc.
    apply slice_app; rewrite !len_app, H1, H2, ?Hlen; done. }
  destruct (Z.ltb_spec (len ct) (minInnerPayloadLen + CipherOverhead s)); [lia|].
  erewrite wrappers_roundtrip by eauto. done.
Qed.
End facts.

(* ------------------------------------------------------------------ *)
(** * End to end                                                        *)
(* ------------------------------------------------------------------ *)

(** The hostname as it travels. *)
Definition cleanHost (h : gostring) : bytes :=
  cleanStringToBytes (stripTrustMarkers h) (Z.to_nat maxHostnameLen).

(** A hostname that has text left and on which the receiver finds nothing
    more to strip. *)
Definition host_ok (h : gostring) : Prop :=
  cleanHost h <> [] /\ stripTrustMarkers (cleanHost h) = cleanHost h.

Record rnd_ok (r : Randomness) (suite : Z) : Prop := {
  rnd_draw : forall i, draw_ok (rndDraw r i);
  rnd_pad : forall i n, length (rndPad r i n) = n;
  rnd_crypto : forall i, entropy_for suite (rndCrypto r i)
}.

Section e2e.
Context {P : Prims} {HL : PrimLaws} {SS : SeqSort}.

(** How the receiver knows the sender, and the name it records: unsigned
    and not pinned, signed and not pinned, or signed with the pinned key
    under a hostname that cleaning leaves alone. *)
Inductive knownAs (snd rcv : CryptoEnv) (h : gostring) : Z -> gostring -> Prop :=
  | knownUnsigned :
      LookupPinnedSender rcv (cleanHost h) = None ->
      knownAs snd rcv h 0 (HostPrefixUnverified ++ cleanHost h)
  | knownNotPinned :
      LookupPinnedSender rcv (cleanHost h) = None ->
      knownAs snd rcv h 1 (HostPrefixUnkSig ++ cleanHost h)
  | knownPinned sk :
      sigKey snd = Some sk -> cleanHost h = h ->
      LookupPinnedSender rcv h = Some (ed25519Public sk) ->
      verifyReady rcv = true -> IsZero (ed25519Public sk) = false ->
      knownAs snd rcv h 1 h.

Lemma createPackets_Forall2 env r cs ss k fs pkts :
  createPackets env r cs ss k fs = Ok pkts ->
  Forall2 (fun f pkt => exists i, createPacket env r cs ss i f = Ok pkt) fs pkts.
Proof.
  revert k pkts. induction fs as [|f fs IH]; intros k pkts; cbn [createPackets].
  - intros [= <-]. constructor.
  - intros H. apply bind_inv in H as (pkt & Hp & H).
    apply bind_inv in H as (pkts' & Hps & [= <-]). constructor; eauto.
Qed.

Lemma extractPackets_Forall2 env pkts ms :
  Forall2 (fun pkt m => extractPacket env pkt = Ok m) pkts ms ->
  extractPackets env pkts = Ok ms.
Proof.
  induction 1 as [|pkt m pkts ms H _ IH]; [done|]. cbn [extractPackets].
  rewrite H. simpl. by rewrite IH.
Qed.

Lemma createPacket_Ok env r cs ss i f pkt :
  createPacket env r cs ss i f = Ok pkt ->
  exists f' w inner, ConstructPayload f ss = (f', Ok w) /\
    ConstructInnerPayload (rndPad r i) w = Ok inner /\
    ConstructOuterPayload env (rndCrypto r i) inner cs = Ok pkt.
Proof.
  unfold createPacket. intros H. apply bind_inv in H as (w & Hw%wrap_inv & H).
  apply bind_inv in H as (inner & Hi%wrap_inv & H%wrap_inv).
  destruct (ConstructPayload f ss) as [f' r'] eqn:E. simpl in Hw. subst r'.
  by exists f', w, inner.
Qed.

(** A fragment's inner payload, there and back. *)
Lemma fragment_transit rcv rand ss f f' w inner name :
  (forall n, length (rand n) = n) -> 0 <= ss ->
  ids_ok f -> fields_ok (CustomFields f) -> host_ok (Hostname f) ->
  ConstructPayload f ss = (f', Ok w) -> ConstructInnerPayload rand w = Ok inner ->
  checkSender rcv w (cleanHost (Hostname f)) = Ok name ->
  minInnerPayloadLen <= len inner /\ DeconstructInnerPayload inner = Ok w /\
  DeconstructPayload rcv w = Ok (received f ss (wSignature w) name).
Proof.
  intros Hr Hss Hids Hf [Hh1 Hh2] Hw Hi Hname.
  assert (wHostname w = cleanHost (Hostname f)) as Hwh.
  { apply ConstructPayload_inv in Hw as (_ & _ & _ & _ & _ & sig & fs & _ & _ & ->). done. }
  assert (1 <= len (Data f) <= maxDataLen) as Hd.
  { apply ConstructPayload_inv in Hw as (_ & _ & _ & _ & _ & sig & fs & _ & _ & ->).
    by apply ConstructInnerPayload_data in Hi. }
  assert (inner_ok w) as Hok.
  { eapply ConstructPayload_inner_ok; [done..| |done]. by rewrite Hwh. }
  rewrite ConstructInnerPayload_ok in Hi by done. injection Hi as <-.
  destruct (inner_transit w (rand (Z.to_nat (wPaddingLen w)))) as [Hdi Hmin]; [done| |done|].
  { apply ConstructPayload_inv in Hw as (_ & _ & _ & Hp & _ & sig & fs & _ & _ & ->). apply Hp. }
  split_and!; [done..|]. erewrite payload_transit; [|done..| |].
  - rewrite Hwh, Hh2, Hname. done.
  - by rewrite Hwh.
  - intros E. rewrite E in Hd. by destruct Hd.
Qed.

(** One packet, there and back. *)
Lemma packet_transit snd rcv priv pub r cs ss i f pkt name :
  keyed snd rcv priv pub -> rnd_ok r cs -> 0 <= ss ->
  ids_ok f -> fields_ok (CustomFields f) -> host_ok (Hostname f) ->
  createPacket snd r cs ss i f = Ok pkt ->
  (forall f' w, ConstructPayload f ss = (f', Ok w) ->
     checkSender rcv w (cleanHost (Hostname f)) = Ok name) ->
  exists sig, extractPacket rcv pkt = Ok (received f ss sig name).
Proof.
  intros Hk Hr Hss Hids Hf Hh Hc Hname.
  apply createPacket_Ok in Hc as (f' & w & inner & Hw & Hi & Ho).
  destruct (fragment_transit rcv (rndPad r i) ss f f' w inner name) as (Hmin & Hdi & Hdp);
    try done; [apply (rnd_pad _ _ Hr)|by eapply Hname|].
  exists (wSignature w). unfold extractPacket.
  erewrite outer_roundtrip; [|done|apply (rnd_crypto _ _ Hr)|done|done].
  cbn [wrap mbind res_bind]. rewrite Hdi. cbn [wrap mbind res_bind]. by rewrite Hdp.
Qed.

Definition createSignature (env : CryptoEnv) (m : Message) (hostID ss : Z) : res bytes :=
  if 0 <? ss then
    wrapAs ErrCryptoFailure
      (CreateSignature env
         (SerializeSignature (mHostname m) (wrapU 32 hostID)
            (wrapU 64 (UnixMilli (mTimestamp m)))) ss)
  else Ok [].

Lemma Create_Ok env r m hostID max cs ss pkts :
  Create env r m hostID max cs ss = Ok pkts ->
  exists sig F fs, createSignature env m hostID ss = Ok sig /\
    CalculateProtocolOverhead cs (newMessage r m hostID ss sig) = Ok F /\
    Fragment (newMessage r m hostID ss sig) max F (rndDraw r) = Ok fs /\
    createPackets env r cs ss 0 fs = Ok pkts.
Proof.
  unfold Create. intros H. apply bind_inv in H as (sig & Hsig & H).
  apply bind_inv in H as (F & HF%wrap_inv & H). apply bind_inv in H as (fs & Hfs & H).
  by exists sig, F, fs.
Qed.

Lemma signed_verifies snd rcv sk data sig :
  sigKey snd = Some sk -> verifyReady rcv = true -> IsZero (ed25519Public sk) = false ->
  CreateSignature snd data 1 = Ok sig ->
  VerifySignature rcv (ed25519Public sk) data sig 1 = Ok true.
Proof.
  intros Hsk Hv Hz H. unfold CreateSignature in H. rewrite Hsk in H.
  destruct (IsZero sk); [done|]. simpl in H. destruct (_ =? 0); [done|].
  case_bool_decide; [|done]. simpl in H. injection H as <-.
  unfold VerifySignature. rewrite Hv, Hz. simpl.
  rewrite ed25519_public_length, ed25519_length, !bool_decide_eq_true_2 by done. simpl.
  by rewrite ed25519_correct.
Qed.

Lemma knownAs_checkSender snd rcv ss name f f' w m hostID :
  knownAs snd rcv (Hostname f) ss name ->
  Hostname f = mHostname m -> HostID f = hostID -> Timestamp f = mTimestamp m ->
  createSignature snd m hostID ss = Ok (Signature f) ->
  ConstructPayload f ss = (f', Ok w) ->
  checkSender rcv w (cleanHost (Hostname f)) = Ok name.
Proof.
  intros Hk Eh Ei Et Hs Hw.
  apply ConstructPayload_inv in Hw as (_ & _ & _ & _ & _ & sig & fs & Hsig & _ & ->).
  unfold checkSender. destruct Hk as [Hl|Hl|sk Hsk Hc Hl Hv Hz].
  1, 2: by rewrite Hl.
  rewrite Hc, Hl. cbn [wSignatureID wHostID wTimestamp wSignature Z.eqb].
  apply constructSignature_inv in Hsig as [[? _]|(_ & _ & -> & _)]; [done| |done].
  unfold createSignature in Hs. simpl in Hs. apply wrapAs_inv in Hs.
  rewrite <- Eh, <- Et, <- Ei in Hs. by erewrite signed_verifies.
Qed.

(** What a fragment shares with the message it was cut from. *)
Lemma Fragment_fields p M F draw fs i f :
  (forall i, draw_ok (draw i)) -> Fragment p M F draw = Ok fs -> fs !! i = Some f ->
  HostID f = HostID p /\ MsgID f = MsgID p /\ Timestamp f = Timestamp p /\
  Hostname f = Hostname p /\ SignatureID f = SignatureID p /\
  Signature f = Signature p /\ CustomFields f = CustomFields p /\
  MessageSeq f = Z.of_nat i /\ MessageSeqMax f = len fs - 1.
Proof.
  intros Hd Hf Hi. apply Fragment_spec in Hf as [_ Hf]; [|done].
  destruct (Hf i f Hi) as (g & -> & [Hg _ _ _ _]). rewrite Hg. done.
Qed.
End e2e.

Section e2e_theorem.
Context {P : Prims} {HL : PrimLaws} {SS : SeqSort}.

(** The packets of a message decode to the fragments of the message the
    receiver knows. *)
Lemma Create_transit snd rcv priv pub r m hostID max cs ss name pkts :
  keyed snd rcv priv pub -> rnd_ok r cs -> knownAs snd rcv (mHostname m) ss name ->
  0 < hostID < 2 ^ 32 -> length (rndID r) = 4%nat -> FourByte (rndID r) <> 0 ->
  host_ok (mHostname m) -> fields_ok (mFields m) ->
  Create snd r m hostID max cs ss = Ok pkts -> len pkts <= 2 ^ 16 ->
  exists sig ms,
    let ref := received (newMessage r m hostID ss sig) ss sig name in
    Forall2 (fun pkt x => extractPacket rcv pkt = Ok x) pkts ms /\
    concat (map Data ms) = mData m /\
    forall i x, ms !! i = Some x ->
      same_message ref x /\ MessageSeqMax x = len ms - 1 /\ MessageSeq x = Z.of_nat i.
Proof.
  intros Hk Hr Hkn Hhost Hrl Hid Hh Hf Hc Hlen.
  assert (0 <= ss) as Hss by by destruct Hkn.
  apply Create_Ok in Hc as (sig & F & fs & Hsig & _ & Hfr & Hpk).
  apply createPackets_Forall2 in Hpk.
  apply Forall2_length in Hpk as Hfl.
  pose proof (rnd_draw _ _ Hr) as Hdraw.
  pose proof (be_decode_range (rndID r)) as Hrange. fold (FourByte (rndID r)) in Hrange.
  replace (256 ^ len (rndID r)) with (2 ^ 32) in Hrange by (unfold len; by rewrite Hrl).
  assert (exists ms, Forall2 (fun pkt m => extractPacket rcv pkt = Ok m) pkts ms /\
    Forall2 (fun f m => exists sg, m = received f ss sg name) fs ms) as (ms & Hms & Hmf).
  { apply Forall2_exists_mid. eapply Forall2_impl_lookup; [exact Hpk|].
    intros i f pkt Hi (j & Hp).
    destruct (Fragment_fields _ _ _ _ _ _ _ Hdraw Hfr Hi)
      as (E1 & E2 & E3 & E4 & E5 & E6 & E7 & E8 & E9). cbn in E1, E2, E3, E4, E5, E6, E7.
    apply lookup_lt_Some in Hi as Hl.
    destruct (packet_transit snd rcv priv pub r cs ss j f pkt name) as [sg Hsg];
      rewrite ?E4, ?E7; try done.
    - constructor; rewrite ?E1, ?E2, ?E8, ?E9; unfold len in *; lia.
    - intros f' w Hw. rewrite <- E4.
      eapply (knownAs_checkSender _ _ _ _ f f' w m hostID); rewrite ?E4, ?E6; done.
    - eauto. }
  exists sig, ms. split_and!; [done|..].
  - change (mData m) with (Data (newMessage r m hostID ss sig)).
    rewrite <- (proj1 (Fragment_spec _ _ _ _ _ Hdraw Hfr)). f_equal.
    clear -Hmf. induction Hmf as [|f x fs ms (sg & ->) _ IH]; [done|]. simpl. by rewrite IH.
  - intros i x Hx. destruct (Forall2_lookup_r _ _ _ _ _ Hmf Hx) as (f & Hi & sg & ->).
    destruct (Fragment_fields _ _ _ _ _ _ _ Hdraw Hfr Hi)
      as (E1 & E2 & E3 & E4 & E5 & E6 & E7 & E8 & E9).
    apply Forall2_length in Hmf. unfold same_message, received. cbn.
    rewrite E1, E2, E3, E7. cbn. split_and!; try done. rewrite E9. unfold len. lia.
Qed.

(** The packets of one message, in any order, are the message. *)
Lemma Extract_transit rcv ref name data pkts pkts' ms :
  Hostname ref = name -> Forall2 (fun pkt x => extractPacket rcv pkt = Ok x) pkts ms ->
  concat (map Data ms) = data ->
  (forall i x, ms !! i = Some x ->
     same_message ref x /\ MessageSeqMax x = len ms - 1 /\ MessageSeq x = Z.of_nat i) ->
  pkts <> [] -> length pkts = 1%nat \/ fields_comparable (CustomFields ref) -> pkts' ≡ₚ pkts ->
  Extract rcv pkts' =
    Ok (Some (mkMessage (Timestamp ref) name (CustomFields ref) data), HostID ref).
Proof.
  intros <- Hms <- Hall Hne Hcmp Hperm.
  destruct (Permutation_Forall2 (symmetry Hperm) Hms) as (ms' & Hp' & Hms').
  unfold Extract. rewrite bool_decide_eq_false_2 by (intros ->; by apply Permutation_nil_l in Hperm).
  rewrite (extractPackets_Forall2 _ _ _ Hms'). cbn [mbind res_bind].
  rewrite (Defragment_complete ref ms ms'); [done| | |exact Hall|done].
  - intros ->. apply Forall2_length in Hms. by destruct pkts.
  - apply Forall2_length in Hms. rewrite <- Hms. exact Hcmp.
Qed.

(** C1: whatever [Create] turns into packets, [Extract] turns back into the
    message, for the packets in any order: the receiver that holds the key
    the packets were encrypted to gets the data, the timestamp in
    milliseconds, the custom fields as they travel and the host identifier,
    under the name its knowledge of the sender gives. *)
Theorem Extract_Create snd rcv priv pub r m hostID max cs ss name pkts pkts' :
  keyed snd rcv priv pub -> rnd_ok r cs -> knownAs snd rcv (mHostname m) ss name ->
  0 < hostID < 2 ^ 32 -> length (rndID r) = 4%nat -> FourByte (rndID r) <> 0 ->
  host_ok (mHostname m) -> fields_ok (mFields m) ->
  Create snd r m hostID max cs ss = Ok pkts ->
  pkts <> [] -> len pkts <= 2 ^ 16 ->
  length pkts = 1%nat \/ fields_comparable (sentFields (mFields m)) ->
  pkts' ≡ₚ pkts ->
  Extract rcv pkts' =
    Ok (Some (mkMessage (fromUnixMilli (UnixMilli (mTimestamp m))) name
                (sentFields (mFields m)) (mData m)), hostID).
Proof.
  intros Hk Hr Hkn Hhost Hrl Hid Hh Hf Hc Hne Hlen Hcmp Hperm.
  destruct (Create_transit snd rcv priv pub r m hostID max cs ss name pkts)
    as (sig & ms & Hms & Hdata & Hall); [done..|].
  by apply (Extract_transit rcv (received (newMessage r m hostID ss sig) ss sig name) name _ pkts pkts' ms).
Qed.
End e2e_theorem.

(* ------------------------------------------------------------------ *)
(** * Packet sizes                                                      *)
(* ------------------------------------------------------------------ *)

Section sizes.
Context {P : Prims} {HL : PrimLaws}.

Lemma createPacket_len env r cs ss i f pkt s :
  rnd_ok r cs -> 0 <= ss -> GetSuiteInfo cs = Some s ->
  map_Forall (fun _ v => v <> VNil) (CustomFields f) ->
  createPacket env r cs ss i f = Ok pkt ->
  len pkt <= SuiteIDLen + KeySize s + NonceSize s + CipherOverhead s +
    minInnerPayloadLenFixedOnly + len (Hostname f) + len (Signature f) +
    sumZ fieldSize (map_to_list (CustomFields f)) + len (Data f) + PaddingLen f +
    deficit (stripTrustMarkers (Hostname f)) (CustomFields f).
Proof.
  intros Hr Hss Hs Hn H. apply createPacket_Ok in H as (f' & w & inner & Hw & Hi & Ho).
  rewrite (ConstructOuterPayload_len _ _ _ _ _ s (rnd_crypto _ _ Hr i) Hs Ho).
  apply ConstructInnerPayload_inv in Hi as [-> Hp].
  pose proof (ConstructPayload_len _ _ _ _ Hw Hss Hn).
  apply ConstructPayload_inv in Hw as (_ & _ & _ & _ & _ & sig & fs & _ & _ & Ew).
  assert (wPaddingLen w = PaddingLen f) as Ep by by rewrite Ew.
  rewrite len_app. unfold len at 2. rewrite (rnd_pad _ _ Hr). lia.
Qed.

(** C13: no packet exceeds the requested maximum payload size, as long as at
    most three of the hostname, the keys and the values are empty (each
    empty one travels as a one-byte placeholder the overhead calculation
    does not count; it counts three bytes of section framing twice). *)
Theorem Create_packet_size env r m hostID max cs ss pkts :
  rnd_ok r cs -> 0 <= ss ->
  deficit (stripTrustMarkers (mHostname m)) (mFields m) <= 3 ->
  Create env r m hostID max cs ss = Ok pkts ->
  Forall (fun pkt => len pkt <= max) pkts.
Proof.
  intros Hr Hss Hdef H.
  apply Create_Ok in H as (sig & F & fs & _ & HF & Hfr & Hpk).
  apply CalculateProtocolOverhead_Ok in HF as (Hn & s & Hs & ->).
  apply createPackets_Forall2 in Hpk. pose proof (rnd_draw _ _ Hr) as Hdraw.
  apply Forall_lookup. intros i pkt Hi.
  destruct (Forall2_lookup_r _ _ _ _ _ Hpk Hi) as (f & Hf & j & Hc).
  destruct (Fragment_fields _ _ _ _ _ _ _ Hdraw Hfr Hf)
    as (_ & _ & _ & E4 & _ & E6 & E7 & _ & _).
  destruct (proj2 (Fragment_spec _ _ _ _ _ Hdraw Hfr) _ _ Hf) as (g & Eg & [_ _ _ Hfit _]).
  assert (Data f = Data g /\ PaddingLen f = PaddingLen g) as [Ed Ep] by by rewrite Eg.
  apply (createPacket_len _ _ _ _ _ _ _ s Hr Hss Hs) in Hc; [|by rewrite E7].
  rewrite E4, E6, E7 in Hc. cbn [Hostname Signature CustomFields newMessage] in *.
  rewrite Ed, Ep in Hc. lia.
Qed.
End sizes.

(* ------------------------------------------------------------------ *)
(** * Robustness                                                        *)
(* ------------------------------------------------------------------ *)

(** The primitives return errors, they do not crash, on well-sized input. *)
Class PrimTotal `{!Prims} := {
  X25519_total a p : X25519 a p <> Panic;
  hkdf_total s t i n : hkdfRead s t i n <> Panic;
  chacha_total k n c a : chachaOpen k n c a <> Panic
}.

Section robust.
Context {P : Prims} {HT : PrimTotal}.

Lemma wrap_total {A} (m : res A) : m <> Panic -> wrap m <> Panic.
Proof. by destruct m. Qed.
Lemma wrapAs_total {A} s (m : res A) : m <> Panic -> wrapAs s m <> Panic.
Proof. by destruct m. Qed.

Lemma DecryptInnerPayload_total env ct eph nonce id s :
  GetSuiteInfo id = Some s -> len nonce = NonceSize s ->
  DecryptInnerPayload env ct eph nonce id <> Panic.
Proof.
  intros Hs Hn. unfold DecryptInnerPayload. destruct (decKey env) as [k|]; [|done].
  do 2 (case_match; [done|]). rewrite Hs.
  apply GetSuiteInfo_Some in Hs as [[_ ->]|[_ ->]]; cbn [Decrypt testSuite x25519Suite].
  - by repeat case_match.
  - unfold x25519Decrypt, ReCreateSharedSecret, DeriveKey, MultipleSlices, aeadDecrypt.
    apply bind_not_Panic; [by apply wrap_total, wrap_total, X25519_total|]. intros ss _.
    apply bind_not_Panic; [done|]. intros salt _.
    apply bind_not_Panic; [by apply wrap_total, wrap_total, hkdf_total|]. intros key _.
    destruct (negb _); [done|].
    rewrite bool_decide_eq_true_2 by (unfold len in Hn; cbn in Hn; lia).
    apply wrap_total, chacha_total.
Qed.

Lemma DeconstructOuterPayload_total env blob : DeconstructOuterPayload env blob <> Panic.
Proof.
  unfold DeconstructOuterPayload. destruct blob as [|b blob]; [done|].
  set (l := b :: blob). destruct (len l <? 1); [done|].
  change (goIndex l 0) with (Ok b). cbn [mbind res_bind].
  destruct (GetSuiteInfo _) as [s|] eqn:Hs; [|done].
  assert (0 <= KeySize s /\ 0 <= NonceSize s)
    by (apply GetSuiteInfo_Some in Hs as [[_ ->]|[_ ->]]; by cbv).
  change SuiteIDLen with 1.
  destruct (Z.ltb_spec (len l) (1 + KeySize s + NonceSize s)); [done|].
  rewrite !goSlice_ok by lia. cbn [mbind res_bind].
  destruct (_ <? minInnerPayloadLen + _); [done|].
  apply wrapAs_total. eapply DecryptInnerPayload_total; [exact Hs|].
  unfold slice, len in *. rewrite length_take, length_drop. lia.
Qed.

Lemma checkSender_total env w h : checkSender env w h <> Panic.
Proof.
  unfold checkSender. destruct (LookupPinnedSender env h); [|by case_match].
  case_match; [done|]. apply bind_not_Panic.
  - apply wrapAs_total. unfold VerifySignature. by repeat case_match.
  - intros [] _; done.
Qed.

Lemma deconstructFields_total acc fs : deconstructFields acc fs <> Panic.
Proof.
  revert acc. induction fs as [|f fs IH]; intros acc; [done|]. cbn [deconstructFields].
  apply bind_not_Panic; [|intros; apply IH]. unfold deconstructField.
  repeat (case_match; [done|]). apply wrapAs_total, deserialize_not_Panic.
Qed.

Lemma DeconstructPayload_total env w : DeconstructPayload env w <> Panic.
Proof.
  unfold DeconstructPayload. repeat (case_match; [done|]).
  apply bind_not_Panic; [apply checkSender_total|]. intros h _.
  apply bind_not_Panic; [apply deconstructFields_total|]. intros fs _.
  by repeat case_match.
Qed.

(** C14: nothing that arrives from the network can crash the receiver's
    decoding of a packet: for every byte string and every configuration of
    keys the result is a payload or an error. *)
Theorem extractPacket_no_panic env (packet : bytes) : extractPacket env packet <> Panic.
Proof.
  unfold extractPacket. apply bind_not_Panic.
  { apply wrap_total, DeconstructOuterPayload_total. }
  intros inner _. apply bind_not_Panic.
  { apply wrap_total, DeconstructInnerPayload_total. }
  intros w _. apply wrap_total, DeconstructPayload_total.
Qed.
End robust.

(* ------------------------------------------------------------------ *)
(** * A concrete run                                                    *)
(* ------------------------------------------------------------------ *)

Definition exampleSender : CryptoEnv :=
  SetupCreateSignature (SetupEncryptInnerPayload initEnv (toyPub (toyKey 9))) toySigKey.
Definition exampleReceiver : CryptoEnv :=
  SetupVerifySignature (SetupDecryptInnerPayload initEnv (toyKey 9))
    {[ str "web1" := toyPublic toySigKey ]}.
Definition exampleRandomness : Randomness :=
  mkRandomness (map z2b [1; 2; 3; 4]) (fun _ _ => 0) (fun _ n => repeat (z2b 7) n)
    (fun _ => toyEntropy).
Definition exampleMessage : Message :=
  mkMessage 1700000000123456789 (str "web1") {[ str "pid" := VInt 42 ]}
    (str "kernel: eth0: link is up").
Definition examplePackets : list bytes :=
  match Create exampleSender exampleRandomness exampleMessage 77 200 1 1 with
  | Ok pkts => pkts
  | _ => []
  end.

Lemma exampleRandomness_ok : rnd_ok exampleRandomness 1.
Proof.
  constructor; simpl.
  - intros i m Hm. lia.
  - intros. apply repeat_length.
  - intros _ _. by vm_compute.
Qed.

Lemma example_runs :
  Create exampleSender exampleRandomness exampleMessage 77 200 1 1 = Ok examplePackets /\
  len examplePackets = 2.
Proof. by vm_compute. Qed.

Lemma Extract_Create_witness :
  Extract (SS := stableSort) exampleReceiver (rev examplePackets) =
    Ok (Some (mkMessage 1700000000123000000 (str "web1") {[ str "pid" := VInt64 42 ]}
                (str "kernel: eth0: link is up")), 77).
Proof.
  etransitivity.
  - apply (Extract_Create exampleSender exampleReceiver (toyKey 9) (toyPub (toyKey 9))
             exampleRandomness exampleMessage 77 200 1 1 (str "web1") examplePackets).
    + by vm_compute.
    + apply exampleRandomness_ok.
    + apply (knownPinned _ _ _ toySigKey); by vm_compute.
    + done.
    + done.
    + by vm_compute.
    + by vm_compute.
    + split; [|by vm_compute; repeat constructor; set_solver].
      apply map_Forall_singleton. by vm_compute.
    + apply example_runs.
    + by vm_compute.
    + by vm_compute.
    + right. change (sentFields _) with ({[ str "pid" := VInt64 42 ]} : gmap gostring goval).
      by apply map_Forall_singleton.
    + symmetry. apply Permutation_rev.
  - by vm_compute.
Defined.

Lemma Create_packet_size_witness :
  Forall (fun pkt => len pkt <= 200) examplePackets.
Proof.
  apply (Create_packet_size exampleSender exampleRandomness exampleMessage 77 200 1 1).
  - apply exampleRandomness_ok.
  - done.
  - by vm_compute.
  - apply example_runs.
Defined.

(** With four empty values a full packet is one byte larger than asked for. *)
Definition emptyFieldsMessage : Message :=
  mkMessage 1700000000123456789 (str "web1")
    (list_to_map (map (fun k => (str k, VString [])) ["a"; "b"; "c"; "d"]%string))
    (repeat (z2b 65) 100).
Example packet_size_exceeded :
  match Create exampleSender exampleRandomness emptyFieldsMessage 77 250 1 1 with
  | Ok pkts => map len pkts
  | _ => []
  end = [251; 241].
Proof. by vm_compute. Qed.

#[export] Instance toyTotal : PrimTotal.
Proof. by constructor. Qed.

(** A packet cut in the middle of its nonce. *)
Lemma extractPacket_no_panic_witness :
  extractPacket exampleReceiver (take 40 (nth 0 examplePackets [])) <> Panic.
Proof. apply (extractPacket_no_panic exampleReceiver). Defined.
