(* ===== verification/Filtering.v ===== *)
(** Message filters ([internal/filtering] and [pkg/protocol/filtering.go]).

    A filter is a configuration record of which exactly one part may be set.
    [expr] is its specification, a Boolean expression over substring tests:
    validation accepts exactly the records of well-formed expressions and
    matching computes their truth value. *)
From S2P Require Import Prelude Text Context Consts.

#[warnings="-register-all"]
Inductive Filter := mkFilter {
  And : list Filter;
  Or : list Filter;
  Not : option Filter;
  Prefix : gostring;
  Suffix : gostring;
  Contains : gostring;
  Exact : gostring
}.

Fixpoint Match (filter : Filter) (input : bytes) : bool :=
  if 0 <? len (And filter) then forallb (fun sub => Match sub input) (And filter)
  else if 0 <? len (Or filter) then existsb (fun sub => Match sub input) (Or filter)
  else match Not filter with
  | Some sub => negb (Match sub input)
  | None =>
      if negb (bool_decide (Prefix filter = [])) then hasPrefix (Prefix filter) input
      else if negb (bool_decide (Suffix filter = [])) then hasSuffix (Suffix filter) input
      else if negb (bool_decide (Contains filter = [])) then contains (Contains filter) input
      else if negb (bool_decide (Exact filter = [])) then bool_decide (input = Exact filter)
      else false
  end.

(** The number of parts that are set. *)
Definition setCount (filter : Filter) : Z :=
  (if 0 <? len (And filter) then 1 else 0) + (if 0 <? len (Or filter) then 1 else 0) +
  (match Not filter with Some _ => 1 | None => 0 end) +
  (if bool_decide (Prefix filter = []) then 0 else 1) +
  (if bool_decide (Suffix filter = []) then 0 else 1) +
  (if bool_decide (Contains filter = []) then 0 else 1) +
  (if bool_decide (Exact filter = []) then 0 else 1).

(** The loop over the children stops at the first error. *)
Definition validateAll (validate : Filter -> res unit) : list Filter -> res unit :=
  fix all fs :=
    match fs with
    | [] => Ok tt
    | sub :: fs => wrap (validate sub) ≫= fun _ => all fs
    end.

Fixpoint Validate (filter : Filter) : res unit :=
  let count := setCount filter in
  if count =? 0 then Err EMsg
  else if 1 <? count then Err EMsg
  else
    _ ← validateAll Validate (And filter);
    _ ← validateAll Validate (Or filter);
    match Not filter with
    | Some sub => wrap (Validate sub)
    | None => Ok tt
    end.

(** [MessageFilter] *)
Record MessageFilter := mkMessageFilter {
  fData : option Filter;
  fFieldsKey : option Filter;
  fFieldsValue : option Filter;
  fUseAnd : bool
}.

Section message_filter.
(** [fmt.Sprint] of a custom field value. *)
Variable sprint : goval -> gostring.

(** The configured tests in order; the fields are visited until one
    matches. *)
Definition matchesOf (mf : MessageFilter) (msg : Message) : list bool :=
  (match fData mf with Some f => [Match f (mData msg)] | None => [] end) ++
  (match fFieldsKey mf with
   | Some f => [existsb (fun kv => Match f kv.1) (map_to_list (mFields msg))]
   | None => [] end) ++
  (match fFieldsValue mf with
   | Some f => [existsb (fun kv => Match f (sprint kv.2)) (map_to_list (mFields msg))]
   | None => [] end).

Definition matchMessage (mf : MessageFilter) (msg : Message) : bool :=
  let matches := matchesOf mf msg in
  if len matches =? 0 then false
  else if fUseAnd mf then forallb id matches else existsb id matches.
End message_filter.

Definition validateMessageFilter (mf : MessageFilter) : res unit :=
  let part f := match f with Some f => wrap (Validate f) | None => Ok tt end in
  _ ← part (fData mf);
  _ ← part (fFieldsKey mf);
  part (fFieldsValue mf).

(* ------------------------------------------------------------------ *)
(** * Specification                                                     *)
(* ------------------------------------------------------------------ *)

#[warnings="-register-all"]
Inductive expr :=
  | EAll (es : list expr)
  | EAny (es : list expr)
  | ENeg (e : expr)
  | EPrefix (s : gostring)
  | ESuffix (s : gostring)
  | EContains (s : gostring)
  | EExact (s : gostring).

(** The truth of an expression of a text. *)
Fixpoint holds (e : expr) (t : bytes) : Prop :=
  match e with
  | EAll es => foldr (fun e P => holds e t /\ P) True es
  | EAny es => foldr (fun e P => holds e t \/ P) False es
  | ENeg e => ~ holds e t
  | EPrefix s => exists u, t = s ++ u
  | ESuffix s => exists u, t = u ++ s
  | EContains s => exists u v, t = u ++ s ++ v
  | EExact s => t = s
  end.

(** No empty connective and no empty string. *)
Fixpoint wf (e : expr) : Prop :=
  match e with
  | EAll es | EAny es => es <> [] /\ foldr (fun e P => wf e /\ P) True es
  | ENeg e => wf e
  | EPrefix s | ESuffix s | EContains s | EExact s => s <> []
  end.

(** The configuration of an expression. *)
Fixpoint config (e : expr) : Filter :=
  match e with
  | EAll es => mkFilter (map config es) [] None [] [] [] []
  | EAny es => mkFilter [] (map config es) None [] [] [] []
  | ENeg e => mkFilter [] [] (Some (config e)) [] [] [] []
  | EPrefix s => mkFilter [] [] None s [] [] []
  | ESuffix s => mkFilter [] [] None [] s [] []
  | EContains s => mkFilter [] [] None [] [] s []
  | EExact s => mkFilter [] [] None [] [] [] s
  end.

(** Induction on expressions and filters with their nested children. *)
Section nested_induction.
Variable Q : expr -> Prop.
Hypothesis HAll : forall es, Forall Q es -> Q (EAll es).
Hypothesis HAny : forall es, Forall Q es -> Q (EAny es).
Hypothesis HNeg : forall e, Q e -> Q (ENeg e).
Hypothesis HP : forall s, Q (EPrefix s).
Hypothesis HS : forall s, Q (ESuffix s).
Hypothesis HC : forall s, Q (EContains s).
Hypothesis HE : forall s, Q (EExact s).

Fixpoint expr_nested_ind (e : expr) : Q e :=
  let all := fix all es : Forall Q es :=
    match es with
    | [] => Forall_nil_2 _
    | e :: es => Forall_cons_2 _ _ _ (expr_nested_ind e) (all es)
    end in
  match e with
  | EAll es => HAll es (all es)
  | EAny es => HAny es (all es)
  | ENeg e => HNeg e (expr_nested_ind e)
  | EPrefix s => HP s
  | ESuffix s => HS s
  | EContains s => HC s
  | EExact s => HE s
  end.
End nested_induction.

Section filter_induction.
Variable Q : Filter -> Prop.
Hypothesis HF : forall f,
  Forall Q (And f) -> Forall Q (Or f) -> (forall g, Not f = Some g -> Q g) -> Q f.

Fixpoint filter_nested_ind (f : Filter) : Q f :=
  let all := fix all fs : Forall Q fs :=
    match fs with
    | [] => Forall_nil_2 _
    | f :: fs => Forall_cons_2 _ _ _ (filter_nested_ind f) (all fs)
    end in
  HF f (all (And f)) (all (Or f))
    (match Not f as o return forall g, o = Some g -> Q g with
     | Some g => fun g' E => match E in _ = o return
                   match o with Some h => Q h | None => True end with
                   eq_refl => filter_nested_ind g end
     | None => fun g' E => match E in _ = o return
                   match o with Some _ => Q g' | None => True end with
                   eq_refl => I end
     end).
End filter_induction.

Lemma len_pos_bool {A} (l : list A) : (0 <? len l) = match l with [] => false | _ => true end.
Proof. destruct l; [done|]. rewrite len_cons. pose proof (len_nonneg l). lia. Qed.

(** Matching a configuration decides the expression. *)
Lemma Match_config e t : wf e -> Match (config e) t = true <-> holds e t.
Proof.
  induction e as [es IH|es IH|e IH|s|s|s|s] using expr_nested_ind; intros Hw.
  - destruct Hw as [Hne Hw]. cbn [config Match And]. rewrite len_pos_bool.
    destruct (map config es) eqn:E; [by destruct es|]. rewrite <- E. clear E Hne.
    induction IH as [|e es He _ IH]; [done|]. destruct Hw as [Hw1 Hw2].
    cbn. rewrite andb_true_iff, He, IH; done.
  - destruct Hw as [Hne Hw]. cbn [config Match And Or]. rewrite !len_pos_bool.
    destruct (map config es) eqn:E; [by destruct es|]. rewrite <- E. clear E Hne.
    induction IH as [|e es He _ IH]; [done|]. destruct Hw as [Hw1 Hw2].
    cbn. rewrite orb_true_iff, He, IH; done.
  - change (Match (config (ENeg e)) t) with (negb (Match (config e) t)).
    cbn [holds wf] in *. rewrite negb_true_iff, <- not_true_iff_false, IH; done.
  - cbn in *. rewrite bool_decide_eq_false_2 by done. apply hasPrefix_spec.
  - cbn in *. rewrite bool_decide_eq_false_2 by done. apply hasSuffix_spec.
  - cbn in *. rewrite bool_decide_eq_false_2 by done. apply contains_spec.
  - cbn in *. rewrite bool_decide_eq_false_2 by done. apply bool_decide_eq_true.
Qed.

Lemma validateAll_Ok v fs : validateAll v fs = Ok tt <-> Forall (fun f => v f = Ok tt) fs.
Proof.
  induction fs as [|f fs IH]; cbn [validateAll]; [by split|]. split.
  - intros H. apply bind_inv in H as ([] & Hf%wrap_inv & H). constructor; [done|]. by apply IH.
  - intros [Hf Hfs]%Forall_cons. rewrite Hf. by apply IH.
Qed.

Lemma Validate_config e : wf e -> Validate (config e) = Ok tt.
Proof.
  assert (forall es, Forall (fun e => wf e -> Validate (config e) = Ok tt) es ->
            foldr (fun e P => wf e /\ P) True es -> validateAll Validate (map config es) = Ok tt)
    as Hall.
  { intros es Hes Hw. apply validateAll_Ok. induction Hes as [|e' es He _ IH]; cbn; constructor.
    - by apply He, Hw.
    - by apply IH, Hw. }
  induction e as [es IH|es IH|e IH|s|s|s|s] using expr_nested_ind; intros Hw;
    cbn [config Validate And Or Not]; unfold setCount; cbn [And Or Not Prefix Suffix Contains Exact].
  - destruct Hw as [Hne Hw]. rewrite len_pos_bool.
    destruct (map config es) eqn:E; [by destruct es|]. rewrite <- E.
    cbn -[validateAll]. by rewrite (Hall _ IH Hw).
  - destruct Hw as [Hne Hw]. rewrite (len_pos_bool (map config es)).
    destruct (map config es) eqn:E; [by destruct es|]. rewrite <- E.
    cbn -[validateAll]. rewrite (Hall _ IH Hw). done.
  - cbn. by rewrite IH.
  - cbn in *. by rewrite bool_decide_eq_false_2.
  - cbn in *. by rewrite bool_decide_eq_false_2.
  - cbn in *. by rewrite bool_decide_eq_false_2.
  - cbn in *. by rewrite bool_decide_eq_false_2.
Qed.

(** Every accepted configuration is that of an expression. *)
Lemma Validate_inv f : Validate f = Ok tt -> exists e, wf e /\ f = config e.
Proof.
  assert (forall fs, Forall (fun f => Validate f = Ok tt -> exists e, wf e /\ f = config e) fs ->
            validateAll Validate fs = Ok tt ->
            exists es, foldr (fun e P => wf e /\ P) True es /\ fs = map config es) as Hall.
  { intros fs Hfs Hv. apply validateAll_Ok in Hv.
    induction Hfs as [|f' fs Hf _ IH]; [by exists []|].
    apply Forall_cons in Hv as [Hv1 Hv2]. destruct (Hf Hv1) as (e & ? & ->).
    destruct (IH Hv2) as (es & ? & ->). exists (e :: es). by split. }
  induction f as [f IHa IHo IHn] using filter_nested_ind.
  destruct f as [A O N p s c x]. cbn [And Or Not] in *. intros H. cbn [Validate] in H.
  destruct (Z.eqb_spec (setCount (mkFilter A O N p s c x)) 0) as [|H0]; [done|].
  destruct (Z.ltb_spec 1 (setCount (mkFilter A O N p s c x))) as [|H1]; [done|].
  unfold setCount in H0, H1. cbn [And Or Not Prefix Suffix Contains Exact] in *.
  apply bind_inv in H as ([] & HA & H). apply bind_inv in H as ([] & HO & HN).
  rewrite !len_pos_bool in *.
  destruct A as [|a A]; [destruct O as [|o O]; [destruct N as [g|]|]|];
    cbv beta iota in H0, H1.
  - repeat case_bool_decide; try lia. subst.
    apply wrap_inv in HN. destruct (IHn g eq_refl HN) as (e & He & ->). exists (ENeg e). by split.
  - repeat case_bool_decide; try lia; subst;
      [exists (EExact x)|exists (EContains c)|exists (ESuffix s)|exists (EPrefix p)]; by split.
  - destruct N; cbv beta iota in H0, H1;
      repeat case_bool_decide; try lia. subst.
    destruct (Hall _ IHo HO) as (es & He & E). exists (EAny es). split; [|by rewrite E].
    split; [by intros ->|done].
  - destruct O, N; cbv beta iota in H0, H1;
      repeat case_bool_decide; try lia. subst.
    destruct (Hall _ IHa HA) as (es & He & E). exists (EAll es). split; [|by rewrite E].
    split; [by intros ->|done].
Qed.

(* ------------------------------------------------------------------ *)
(** * Theorems                                                          *)
(* ------------------------------------------------------------------ *)

(** C36: validation accepts a filter exactly when it is the configuration of
    a well-formed expression, and on such a filter matching returns the truth
    value of the expression: every branch of the precedence between the parts
    of a filter node is that of the one part that is set. *)
Theorem Filter_semantics f :
  Validate f = Ok tt <->
  exists e, wf e /\ f = config e /\ forall t, Match f t = true <-> holds e t.
Proof.
  split.
  - intros (e & He & ->)%Validate_inv. exists e. split_and!; [done..|].
    intros t. by apply Match_config.
  - intros (e & He & -> & _). by apply Validate_config.
Qed.

Section message_theorems.
Variable sprint : goval -> gostring.

(** The configured tests of a message as propositions. *)
Definition passes (mf : MessageFilter) (msg : Message) : list Prop :=
  (match fData mf with Some f => [Match f (mData msg) = true] | None => [] end) ++
  (match fFieldsKey mf with
   | Some f => [exists k v, mFields msg !! k = Some v /\ Match f k = true]
   | None => [] end) ++
  (match fFieldsValue mf with
   | Some f => [exists k v, mFields msg !! k = Some v /\ Match f (sprint v) = true]
   | None => [] end).

Lemma existsb_fields (g : gostring -> goval -> bool) m :
  existsb (fun kv => g kv.1 kv.2) (map_to_list m) = true <->
  exists k v, m !! k = Some v /\ g k v = true.
Proof.
  rewrite existsb_exists. split.
  - intros ([k v] & Hin & Hg). exists k, v. split; [|done].
    by apply elem_of_map_to_list, list_elem_of_In.
  - intros (k & v & Hk & Hg). exists (k, v). split; [|done].
    by apply list_elem_of_In, elem_of_map_to_list.
Qed.

Lemma matchesOf_passes mf msg :
  Forall2 (fun b P => b = true <-> P) (matchesOf sprint mf msg) (passes mf msg).
Proof.
  unfold matchesOf, passes. repeat apply Forall2_app; case_match; repeat constructor.
  1, 2: done.
  1, 2: apply (existsb_fields (fun k _ => Match f k)).
  1, 2: apply (existsb_fields (fun _ v => Match f (sprint v))).
Qed.

(** A message filter matches when at least one test is configured and
    all (in AND mode) or some (otherwise) configured tests pass, a field test
    passing when some key or some printed value of the message matches; the
    order in which the fields are visited does not matter. *)
Theorem matchMessage_semantics mf msg :
  matchMessage sprint mf msg = true <->
  passes mf msg <> [] /\
  if fUseAnd mf then Forall id (passes mf msg) else List.Exists id (passes mf msg).
Proof.
  unfold matchMessage. pose proof (matchesOf_passes mf msg) as H.
  rewrite len_eqb_0. destruct (decide (passes mf msg = [])) as [E|E].
  { rewrite E in *. apply Forall2_nil_inv_r in H as ->. split; [done|]. by intros []. }
  rewrite bool_decide_eq_false_2.
  2: { intros E'. rewrite E' in H. by apply Forall2_nil_inv_l in H. }
  transitivity (if fUseAnd mf then Forall id (passes mf msg)
                else List.Exists id (passes mf msg)); [|by split; [|intros []]].
  clear E. destruct (fUseAnd mf); induction H as [|b Q bs Qs Hb _ IH]; cbn.
  - by split.
  - rewrite andb_true_iff, Forall_cons, IH. unfold id at 1 3. by rewrite Hb.
  - split; [done|]. by intros E%List.Exists_nil.
  - rewrite orb_true_iff, List.Exists_cons, IH. unfold id at 1 3. by rewrite Hb.
Qed.
End message_theorems.

(** Without an explicit [use_and], any test suffices. *)
Example default_is_or :
  let f := mkMessageFilter (Some (config (EExact (str "x")))) (Some (config (EExact (str "k"))))
             None false in
  matchMessage (fun _ => []) f (mkMessage 0 [] {[ str "k" := VBool true ]} (str "y")) = true.
Proof. by vm_compute. Qed.
