(* ===== verification/Size.v ===== *)
(** In-memory size estimates ([pkg/protocol/size.go]), which the queues use
    as the byte count of their items. *)
From S2P Require Import Prelude Context Consts.

(** [valueSizeApprox] on the reflected dynamic value; the elements of a byte
    slice are one-byte integers. [other] is the estimate of the types the
    protocol cannot carry. *)
Definition uintSize (k : uintKind) : Z :=
  match k with
  | KUint | KUint64 => 8 | KUint8 => 1 | KUint16 => 2 | KUint32 => 4
  end.

Section sizes.
Variable other : Z.

Definition valueSizeApprox (v : goval) : Z :=
  match v with
  | VNil => 0
  | VString s => 16 + len s
  | VBool _ => 1 + 1
  | VInt _ | VInt64 _ => 8
  | VInt8 _ => 1
  | VInt16 _ => 2
  | VInt32 _ => 4
  | VUint k _ => uintSize k
  | VFloat32 _ => 4
  | VFloat64 _ => 8
  | VBytes b => foldl (fun size _ => size + 1) 24 b
  | VOther => other
  end.

Definition fieldsSize (m : gmap gostring goval) (bytes : Z) : Z :=
  foldl (fun acc kv => acc + (len kv.1 + 16) + valueSizeApprox kv.2) bytes (map_to_list m).

Definition PayloadSize (p : Payload) : Z :=
  let bytes := 8 + 8 + 8 + 8 + 24 + 8 + 24 + 16 in
  let bytes := bytes + len (Hostname p) in
  let bytes := bytes + 24 + len (Data p) in
  fieldsSize (CustomFields p) (bytes + 8).

Definition MessageSize (msg : Message) : Z :=
  let bytes := 24 + 16 + len (mHostname msg) in
  let bytes := bytes + 16 + len (mData msg) in
  fieldsSize (mFields msg) (bytes + 8).

Lemma valueSizeApprox_bytes b : valueSizeApprox (VBytes b) = 24 + len b.
Proof.
  cbn [valueSizeApprox]. generalize 24. induction b as [|x b IH]; intros n; cbn [foldl].
  - rewrite Z.add_0_r. done.
  - rewrite IH, len_cons. lia.
Qed.

Lemma fieldsSize_sum m n :
  fieldsSize m n = n + sumZ (fun kv => len kv.1 + 16 + valueSizeApprox kv.2) (map_to_list m).
Proof.
  unfold fieldsSize. revert n. induction (map_to_list m) as [|kv l IH]; intros n; cbn [foldl].
  - rewrite sumZ_nil. lia.
  - rewrite IH, sumZ_cons. lia.
Qed.

(** Adding a custom field to a message grows its estimate by the
    field's own size, whatever the other fields and the order in which the
    map is visited; an existing field is replaced at the difference. *)
Theorem MessageSize_insert t h m d k v :
  MessageSize (mkMessage t h (<[k := v]> m) d) =
    MessageSize (mkMessage t h m d) + valueSizeApprox v +
    match m !! k with
    | Some old => - valueSizeApprox old
    | None => len k + 16
    end.
Proof.
  unfold MessageSize. cbn [mHostname mData mFields]. rewrite !fieldsSize_sum.
  set (g := fun kv : gostring * goval => len kv.1 + 16 + valueSizeApprox kv.2).
  rewrite <- insert_delete_eq, (sumZ_perm _ _ _ (map_to_list_insert _ k v (lookup_delete_eq m k))).
  rewrite sumZ_cons. unfold g at 1. cbn [fst snd].
  destruct (m !! k) as [old|] eqn:E.
  - rewrite <- (sumZ_perm g _ _ (map_to_list_delete m k old E)), sumZ_cons.
    unfold g at 2. cbn [fst snd]. lia.
  - rewrite delete_id by done. lia.
Qed.
End sizes.
