(* ===== verification/Sha256.v ===== *)
(** SHA-256 and HMAC-SHA-256 as Go's [crypto/sha256] and [crypto/hmac]
    compute them (FIPS 180-4, RFC 2104), and the truncated authentication
    codes of [internal/crypto/hmac]. *)
From S2P Require Import Prelude.

Module Sha256.
(** 32-bit words. *)
Definition w32 (z : Z) : Z := z mod 2 ^ 32.
Definition add (a b : Z) : Z := w32 (a + b).
Definition shr (n x : Z) : Z := Z.shiftr x n.
Definition rotr (n x : Z) : Z := Z.lor (Z.shiftr x n) (w32 (Z.shiftl x (32 - n))).

Definition ch (x y z : Z) : Z :=
  Z.lxor (Z.land x y) (Z.land (Z.lxor x (2 ^ 32 - 1)) z).
Definition maj (x y z : Z) : Z :=
  Z.lxor (Z.lxor (Z.land x y) (Z.land x z)) (Z.land y z).
Definition bsig0 (x : Z) : Z := Z.lxor (Z.lxor (rotr 2 x) (rotr 13 x)) (rotr 22 x).
Definition bsig1 (x : Z) : Z := Z.lxor (Z.lxor (rotr 6 x) (rotr 11 x)) (rotr 25 x).
Definition ssig0 (x : Z) : Z := Z.lxor (Z.lxor (rotr 7 x) (rotr 18 x)) (shr 3 x).
Definition ssig1 (x : Z) : Z := Z.lxor (Z.lxor (rotr 17 x) (rotr 19 x)) (shr 10 x).

(** The constants of the standard are the first 32 bits of the fractional
    parts of the cube roots of the first 64 primes and of the square roots of
    the first 8. They are computed from that description. *)
Definition isPrime (n : nat) : bool :=
  forallb (fun d => negb (Nat.eqb (n mod d) 0)) (seq 2 (n - 2)).
Definition primes (n : nat) : list Z :=
  map Z.of_nat (take n (List.filter isPrime (seq 2 400))).
(** The largest [r] below [2 ^ bits] on top of [acc] with [r ^ 3 <= n]. *)
Fixpoint cubeRoot (bits : nat) (acc n : Z) : Z :=
  match bits with
  | O => acc
  | S b =>
      let r := acc + 2 ^ Z.of_nat b in
      cubeRoot b (if r * r * r <=? n then r else acc) n
  end.
Definition roundConstants : list Z :=
  Eval vm_compute in map (fun p => w32 (cubeRoot 36 0 (p * 2 ^ 96))) (primes 64).
Definition initial : list Z :=
  Eval vm_compute in map (fun p => w32 (Z.sqrt (p * 2 ^ 64))) (primes 8).

(** One bit, zeros up to 56 modulo 64, and the bit length in 64 bits. *)
Definition pad (m : bytes) : bytes :=
  m ++ z2b 0x80 :: repeat Byte.x00 (Z.to_nat ((55 - len m) mod 64)) ++
  be_encode 8 (8 * len m).

Fixpoint words (n : nat) (l : bytes) : list Z :=
  match n with
  | O => []
  | S n => be_decode (take 4 l) :: words n (drop 4 l)
  end.

(** The message schedule, most recent word first. *)
Fixpoint extend (n : nat) (ws : list Z) : list Z :=
  match n with
  | O => ws
  | S n =>
      let w i := nth i ws 0 in
      extend n (add (add (ssig1 (w 1%nat)) (w 6%nat)) (add (ssig0 (w 14%nat)) (w 15%nat)) :: ws)
  end.
Definition schedule (block : bytes) : list Z := rev (extend 48 (rev (words 16 block))).

Definition round (h : list Z) (kw : Z * Z) : list Z :=
  match h with
  | [a; b; c; d; e; f; g; h] =>
      let t1 := add (add (add h (bsig1 e)) (ch e f g)) (add kw.1 kw.2) in
      let t2 := add (bsig0 a) (maj a b c) in
      [add t1 t2; a; b; c; add d t1; e; f; g]
  | _ => h
  end.
Definition compress (h : list Z) (block : bytes) : list Z :=
  zip_with add h (foldl round h (zip roundConstants (schedule block))).

Fixpoint blocks (n : nat) (l : bytes) : list bytes :=
  match n with
  | O => []
  | S n => take 64 l :: blocks n (drop 64 l)
  end.
Definition hash (m : bytes) : bytes :=
  let p := pad m in
  flat_map (be_encode 4) (foldl compress initial (blocks (length p / 64) p)).

(** ** HMAC with its 64-byte block *)
Definition blockKey (key : bytes) : bytes :=
  let k := if 64 <? len key then hash key else key in
  k ++ repeat Byte.x00 (64 - length k).
Definition xorKey (c : Z) (k : bytes) : bytes := map (fun b => z2b (Z.lxor (b2z b) c)) k.
Definition hmac (key msg : bytes) : bytes :=
  let k := blockKey key in
  hash (xorKey 0x5c k ++ hash (xorKey 0x36 k ++ msg)).

Lemma length_round h kw : length (round h kw) = length h.
Proof. do 9 (destruct h as [|? h]; [done|]). done. Qed.

Lemma length_compress h b : length (compress h b) = length h.
Proof.
  unfold compress. rewrite length_zip_with.
  enough (forall l, length (foldl round h l) = length h) as -> by lia.
  intros l. revert h. induction l as [|kw l IH]; intros h; [done|].
  cbn [foldl]. by rewrite IH, length_round.
Qed.

Lemma hash_length m : length (hash m) = 32%nat.
Proof.
  unfold hash. generalize (blocks (length (pad m) / 64) (pad m)). intros bs.
  assert (length (foldl compress initial bs) = 8%nat) as Hl.
  { change 8%nat with (length initial). generalize initial.
    induction bs as [|b bs IH]; intros h; [done|]. cbn [foldl]. by rewrite IH, length_compress. }
  revert Hl. generalize (foldl compress initial bs). intros h Hh.
  do 9 (destruct h as [|? h]; try done).
Qed.
End Sha256.

(** [ComputeSHA256] slices the digest; a size beyond it panics in Go, and
    every caller asks for at most 32 bytes. *)
Definition ComputeSHA256 (key : bytes) (desiredSize : Z) (data : bytes) : bytes :=
  take (Z.to_nat desiredSize) (Sha256.hmac key data).

Definition VerifySHA256 (key : bytes) (requiredSize : Z) (data mac : bytes) : bool :=
  bool_decide (take (Z.to_nat requiredSize) (Sha256.hmac key data) = mac).

Lemma ComputeSHA256_length key n data :
  0 <= n <= 32 -> len (ComputeSHA256 key n data) = n.
Proof.
  intros Hn. unfold ComputeSHA256, len. rewrite length_take.
  unfold Sha256.hmac. rewrite Sha256.hash_length. lia.
Qed.

(** Published test vectors. *)
Definition fromHex (s : string) : bytes :=
  let digit c := let z := b2z c in if z <? 58 then z - 48 else z - 87 in
  (fix go l := match l with
               | a :: b :: l => z2b (16 * digit a + digit b) :: go l
               | _ => [] end) (str s).

Example sha256_abc :
  Sha256.hash (str "abc") =
  fromHex "ba7816bf8f01cfea414140de5dae2223b00361a396177a9cb410ff61f20015ad".
Proof. by vm_compute. Qed.

Example sha256_two_blocks :
  Sha256.hash (str "abcdbcdecdefdefgefghfghighijhijkijkljklmklmnlmnomnopnopq") =
  fromHex "248d6a61d20638b8e5c026930c3e6039a33ce45964ff2167f6ecedd419db06c1".
Proof. by vm_compute. Qed.

Example hmac_rfc4231_2 :
  Sha256.hmac (str "Jefe") (str "what do ya want for nothing?") =
  fromHex "5bdcc146bf60754e6a042426089575c75a003f089d2739839dec58b964ec3843".
Proof. by vm_compute. Qed.
