(* ===== verification/Fipr.v ===== *)
(** The fragment inter-process routing protocol ([pkg/fipr]): session state,
    frame encoding and decoding, and the transport.

    A session is a record that every operation transforms; the connection is
    part of it as a script of what the transport will answer, with the bytes
    written so far. *)
From S2P Require Import Prelude Sha256.

(* ------------------------------------------------------------------ *)
(** * Constants                                                         *)
(* ------------------------------------------------------------------ *)

Definition lenFieldFrameLen : Z := 4.
Definition lenFieldSequence : Z := 2.
Definition lenFieldOpCode : Z := 1.
Definition lenFieldHMAC : Z := 16.
Definition HMACSize : Z := lenFieldHMAC.
Definition maxDataLength : Z := 65535.
Definition minDataLength : Z :=
  lenFieldFrameLen + lenFieldSequence + lenFieldOpCode + lenFieldHMAC.
Definition minFrameLen : Z := lenFieldSequence + lenFieldOpCode + lenFieldHMAC.

Definition opStart : Z := 0x00.
Definition opOBO : Z := 0x05.
Definition opAck : Z := 0x10.
Definition opResend : Z := 0x11.
Definition opAccepted : Z := 0x12.
Definition opRejected : Z := 0x13.
Definition opShardCheck : Z := 0x20.
Definition opShardStatus : Z := 0x21.
Definition opMsgCheck : Z := 0x22.
Definition opMsgStatus : Z := 0x23.
Definition opFrgRoute : Z := 0x24.

Definition shardRunning : Z := 0x01.
Definition shardDraining : Z := 0x11.
Definition shardShutdown : Z := 0x22.
Definition msgNew : Z := 0x00.
Definition msgExisting : Z := 0x10.

Definition maxConsecutiveResends : Z := 3.
Definition maxSequence : Z := Z.shiftl 1 (8 * lenFieldSequence) - 1.

(* ------------------------------------------------------------------ *)
(** * State                                                             *)
(* ------------------------------------------------------------------ *)

Inductive sessionState := stateInit | stateStarted | stateClosed.
#[export] Instance sessionState_eq_dec : EqDecision sessionState.
Proof. solve_decision. Defined.

Record framebody := mkFrame {
  sequence : Z;
  op : Z;
  payload : bytes
}.

(** The transport: what the coming calls of [Read] return (bytes or an
    error; a read past the script waits until its deadline), the errors of
    the coming [Write] and [Set*Deadline] calls ([None] for success, as past
    the scripts), and the bytes written. By [net.Conn]'s contract a write
    without error takes all its bytes. *)
Record Conn := mkConn {
  reads : list (bytes + err);
  writes : list (option err);
  deadlines : list (option err);
  written : bytes
}.

(** A [sync.Once]-guarded field is [None] until it is set. *)
Record Session := mkSession {
  messageID : option bytes;
  obo : option bytes;
  hmacSecret : bytes;
  conn : Conn;
  state : sessionState;
  seq : Z;
  transportBuffer : bytes;
  sentFrames : gmap Z framebody;
  consecResends : Z
}.

Definition setConn (s : Session) (c : Conn) : Session :=
  mkSession (messageID s) (obo s) (hmacSecret s) c (state s) (seq s)
    (transportBuffer s) (sentFrames s) (consecResends s).
Definition setState (s : Session) (st : sessionState) : Session :=
  mkSession (messageID s) (obo s) (hmacSecret s) (conn s) st (seq s)
    (transportBuffer s) (sentFrames s) (consecResends s).
Definition setSeq (s : Session) (q : Z) : Session :=
  mkSession (messageID s) (obo s) (hmacSecret s) (conn s) (state s) q
    (transportBuffer s) (sentFrames s) (consecResends s).
Definition setBuffer (s : Session) (b : bytes) : Session :=
  mkSession (messageID s) (obo s) (hmacSecret s) (conn s) (state s) (seq s)
    b (sentFrames s) (consecResends s).
Definition setSent (s : Session) (m : gmap Z framebody) : Session :=
  mkSession (messageID s) (obo s) (hmacSecret s) (conn s) (state s) (seq s)
    (transportBuffer s) m (consecResends s).
Definition setResends (s : Session) (n : Z) : Session :=
  mkSession (messageID s) (obo s) (hmacSecret s) (conn s) (state s) (seq s)
    (transportBuffer s) (sentFrames s) n.

(** [New]; [None] is a nil connection. *)
Definition New (conn : option Conn) (secret : bytes) : res Session :=
  if negb (len secret =? HMACSize) then fail ErrInvalidHMAC
  else match conn with
  | None => fail ErrTransportFailure
  | Some c => Ok (mkSession None None secret c stateInit 0 [] ∅ 0)
  end.

(** A session method: its result and the session afterwards. *)
Definition SM (A : Type) : Type := Session -> res A * Session.
#[export] Instance SM_ret : MRet SM := fun A a s => (Ok a, s).
#[export] Instance SM_bind : MBind SM := fun A B f m s =>
  match m s with
  | (Ok a, s') => f a s'
  | (Err e, s') => (Err e, s')
  | (Panic, s') => (Panic, s')
  end.

Definition raise {A} (e : err) : SM A := fun s => (Err e, s).
Definition liftRes {A} (r : res A) : SM A := fun s => (r, s).
Definition getS : SM Session := fun s => (Ok s, s).
Definition modS (f : Session -> Session) : SM unit := fun s => (Ok tt, f s).
Definition wrapM {A} (m : SM A) : SM A := fun s => let '(r, s') := m s in (wrap r, s').

(** Runs a call and hands its error to the caller as a value. *)
Definition attempt {A} (m : SM A) : SM (A + err) := fun s =>
  match m s with
  | (Ok a, s') => (Ok (inl a), s')
  | (Err e, s') => (Ok (inr e), s')
  | (Panic, s') => (Panic, s')
  end.

Definition IsClosed (s : Session) : bool := bool_decide (state s = stateClosed).
Definition Close : SM unit := modS (fun s => setState s stateClosed).

(** [sync.Once]: only the first call has an effect. *)
Definition setMessageID (id : bytes) : SM unit := modS (fun s =>
  mkSession (Some (default id (messageID s))) (obo s) (hmacSecret s) (conn s) (state s)
    (seq s) (transportBuffer s) (sentFrames s) (consecResends s)).
Definition setOriginalSender (a : bytes) : SM unit := modS (fun s =>
  mkSession (messageID s) (Some (default a (obo s))) (hmacSecret s) (conn s) (state s)
    (seq s) (transportBuffer s) (sentFrames s) (consecResends s)).
Definition MessageID (s : Session) : gostring := default [] (messageID s).
Definition OriginalSender (s : Session) : gostring := default [] (obo s).

(* ------------------------------------------------------------------ *)
(** * Frames                                                            *)
(* ------------------------------------------------------------------ *)

Definition encodeSeq (seq : Z) : bytes := be_encode 2 seq.
(** Panics on fewer than two bytes. *)
Definition decodeSeq (sequence : bytes) : res Z :=
  match sequence with
  | a :: b :: _ => Ok (be_decode [a; b])
  | _ => Panic
  end.

Definition requiresAck (op : Z) : bool :=
  negb ((op =? opAck) || (op =? opResend) || (op =? opAccepted) || (op =? opRejected)).

Definition isRetryableError (e : err) : bool :=
  errIs ErrFrameHasNoPayload e || errIs ErrFrameHasPayload e || errIs ErrPayloadWrongLength e.

Definition encodeFrame (op : Z) (payload : bytes) : SM bytes := fun session =>
  if IsClosed session then (Err (ESent ErrSessionClosed), session)
  else
    let q := seq session in
    if q =? maxSequence then (Err (ESent ErrBadSequence), setState session stateClosed)
    else
      let bodyLen := lenFieldSequence + lenFieldOpCode + len payload + HMACSize in
      let head :=
        be_encode 4 (wrapU 32 bodyLen) ++ encodeSeq q ++ [z2b op] ++ payload in
      let mac := ComputeSHA256 (hmacSecret session) HMACSize head in
      let session := setSeq session (wrapU 16 (q + 1)) in
      (Ok (head ++ mac), setSent session (<[q := mkFrame q op payload]> (sentFrames session))).

(** Close the session and fail, or pass. *)
Definition validateFrame (frame : framebody) : SM unit := fun session =>
  if IsClosed session then (Err (ESent ErrSessionClosed), session)
  else
    let closed := setState session stateClosed in
    let noPayload := len (payload frame) <=? 0 in
    if op frame =? opStart then
      let '(e, session) :=
        if negb (bool_decide (state session = stateInit))
        then (Some ErrLateStart, closed)
        else if negb (sequence frame =? 0) then (Some ErrOutOfOrderStart, closed)
        else (None, session) in
      let e := if noPayload then Some ErrFrameHasNoPayload else e in
      (match e with Some e => Err (ESent e) | None => Ok tt end, session)
    else if (op frame =? opOBO) || (op frame =? opFrgRoute) then
      (if noPayload then Err (ESent ErrFrameHasNoPayload) else Ok tt, session)
    else if (op frame =? opShardCheck) || (op frame =? opMsgCheck) then
      (if 0 <? len (payload frame) then Err (ESent ErrFrameHasPayload) else Ok tt, session)
    else if (op frame =? opShardStatus) || (op frame =? opMsgStatus) then
      (if 1 <? len (payload frame) then Err (ESent ErrPayloadWrongLength)
       else if noPayload then Err (ESent ErrFrameHasNoPayload) else Ok tt, session)
    else if (op frame =? opResend) || (op frame =? opAck) then
      (if negb (len (payload frame) =? 2) then Err (ESent ErrPayloadWrongLength)
       else Ok tt, session)
    else if op frame =? opAccepted then (Ok tt, closed)
    else if op frame =? opRejected then (Err (ESent ErrRemoteRejected), session)
    else (Err (ESent ErrInvalidOpcode), closed).

(** Validation of a decoded frame; the sequence advances unless the frame is
    refused for good. *)
Definition finishFrame (rawFrame : framebody) : SM framebody := fun session =>
  let '(r, session) := validateFrame rawFrame session in
  let advanced := setSeq session (wrapU 16 (seq session + 1)) in
  match r with
  | Ok _ => (Ok rawFrame, advanced)
  | Err e => (Err (EWrap e), if isRetryableError e then advanced else session)
  | Panic => (Panic, session)
  end.

(** Slicing past the end of the frame panics. *)
Definition decodeFrame (wireFrame : bytes) : SM framebody := fun session =>
  if len wireFrame <? minDataLength then (Err (ESent ErrFrameTooShort), session)
  else if maxDataLength <? len wireFrame then (Err (ESent ErrFrameTooLarge), session)
  else
    let bodyLen := be_decode (slice wireFrame 0 lenFieldFrameLen) in
    if bodyLen <? minFrameLen then (Err (ESent ErrInvalidFrameLen), session)
    else
      let seqStart := lenFieldFrameLen in
      let q := be_decode (slice wireFrame seqStart (seqStart + lenFieldSequence)) in
      if negb (q =? seq session) then (fail ErrBadSequence, session)
      else
        let opCodeIndex := lenFieldFrameLen + lenFieldSequence in
        let o := be_decode (slice wireFrame opCodeIndex (opCodeIndex + 1)) in
        let payloadStart := opCodeIndex + lenFieldOpCode in
        let payloadLen := bodyLen - (lenFieldSequence + lenFieldOpCode + HMACSize) in
        let payloadEnd := payloadStart + payloadLen in
        if len wireFrame <? payloadEnd then (Panic, session)
        else
          let pl := slice wireFrame payloadStart payloadEnd in
          let mac := slice wireFrame payloadEnd (len wireFrame) in
          if negb (VerifySHA256 (hmacSecret session) HMACSize
                     (slice wireFrame 0 payloadEnd) mac)
          then (Err (ESent ErrInvalidHMAC), setState session stateClosed)
          else finishFrame (mkFrame q o pl) session.

(* ------------------------------------------------------------------ *)
(** * Transport                                                         *)
(* ------------------------------------------------------------------ *)

(** Nothing consumed and no frame, a frame and its length, or an error. *)
Definition tryParseFrame (buf : bytes) : res (option (Z * bytes)) :=
  if len buf <? lenFieldFrameLen then Ok None
  else
    let frameLen := be_decode (take 4 buf) in
    if frameLen <? minFrameLen then Err (ESent ErrInvalidFrameLen)
    else
      let totalLen := lenFieldFrameLen + frameLen in
      if len buf <? totalLen then Ok None
      else Ok (Some (totalLen, take (Z.to_nat totalLen) buf)).

Definition transportWasClosed (e : err) : bool :=
  errIs ErrEOF e || errIs ErrClosedPipe e || errIs ErrNetClosed e.

(** [conn.SetWriteDeadline] and [conn.SetReadDeadline]. *)
Definition setDeadline : SM (option err) := fun s =>
  let c := conn s in
  match deadlines c with
  | [] => (Ok None, s)
  | d :: ds => (Ok d, setConn s (mkConn (reads c) (writes c) ds (written c)))
  end.

Definition connWrite (data : bytes) : SM (option err) := fun s =>
  let c := conn s in
  match writes c with
  | Some e :: ws => (Ok (Some e), setConn s (mkConn (reads c) ws (deadlines c) (written c)))
  | ws => (Ok None, setConn s (mkConn (reads c) (tail ws) (deadlines c) (written c ++ data)))
  end.

Definition connRead : SM (bytes + err) := fun s =>
  let c := conn s in
  match reads c with
  | [] => (Ok (inr EMsg), s)
  | r :: rs => (Ok r, setConn s (mkConn rs (writes c) (deadlines c) (written c)))
  end.

(** A closed transport closes the session and becomes a sentinel error. *)
Definition transportError {A} (e other : err) : SM A :=
  if transportWasClosed e then Close ;; raise (ESent ErrTransportWasClosed)
  else raise other.

Definition writeFrame (wireFrame : bytes) : SM unit :=
  d ← setDeadline;
  match d with
  | Some e => transportError e (EWrap e)
  | None =>
      w ← (if len wireFrame =? 0 then mret None else connWrite wireFrame);
      match w with
      | Some e => transportError e (EWrap2 (ESent ErrTransportFailure) e)
      | None =>
          d ← setDeadline;
          match d with
          | Some e => raise (if transportWasClosed e then e else EWrap e)
          | None => mret tt
          end
      end
  end.

(** The loop that extracts a frame or reads more, as long as the transport
    has data: the script of reads is the measure. *)
Fixpoint readLoop (rs : list (bytes + err)) : SM bytes := fun s =>
  match tryParseFrame (transportBuffer s) with
  | Err e => (Err e, s)
  | Panic => (Panic, s)
  | Ok (Some (n, frame)) => (Ok frame, setBuffer s (drop (Z.to_nat n) (transportBuffer s)))
  | Ok None =>
      (r ← connRead;
       match r with
       | inr e => transportError e (EWrap2 (ESent ErrTransportFailure) e)
       | inl data =>
           modS (fun s => setBuffer s (transportBuffer s ++ data)) ;;
           match rs with
           | [] => raise EMsg
           | _ :: rs => readLoop rs
           end
       end) s
  end.

Definition readFrame : SM bytes :=
  d ← setDeadline;
  match d with
  | Some e => transportError e (EWrap e)
  | None =>
      s ← getS;
      r ← attempt (readLoop (reads (conn s)));
      d ← setDeadline;
      match r with
      | inr e => raise e
      | inl frame =>
          match d with
          | Some e => if negb (transportWasClosed e) then raise (EWrap EMsg) else mret frame
          | None => mret frame
          end
      end
  end.

(* ------------------------------------------------------------------ *)
(** * The wire frame                                                    *)
(* ------------------------------------------------------------------ *)

(** The frame a holder of the secret [k] sends: length, sequence, opcode and
    payload, and the code that authenticates all of them. *)
Definition frameHead (q op : Z) (pl : bytes) : bytes :=
  be_encode 4 (minFrameLen + len pl) ++ be_encode 2 q ++ [z2b op] ++ pl.
Definition frameWire (k : bytes) (q op : Z) (pl : bytes) : bytes :=
  frameHead q op pl ++ ComputeSHA256 k HMACSize (frameHead q op pl).

(** The longest payload of a frame the decoder does not find too large. *)
Definition maxPayload : Z := maxDataLength - minDataLength.

Lemma len_frameHead q op pl : len (frameHead q op pl) = 7 + len pl.
Proof.
  unfold frameHead. rewrite !len_app, !len_be_encode, len_cons, len_nil. lia.
Qed.

Lemma len_frameWire k q op pl : len (frameWire k q op pl) = minDataLength + len pl.
Proof.
  unfold frameWire. rewrite len_app, len_frameHead, ComputeSHA256_length by done.
  change HMACSize with 16. change minDataLength with 23. lia.
Qed.

(** Arithmetic on the lengths of the protocol. *)
Ltac lia_consts :=
  unfold maxPayload, minDataLength, minFrameLen, maxDataLength, HMACSize, lenFieldHMAC,
    lenFieldFrameLen, lenFieldSequence, lenFieldOpCode in *; lia.

Lemma encodeFrame_Ok s op pl :
  state s <> stateClosed -> seq s <> maxSequence -> len pl <= maxPayload ->
  encodeFrame op pl s =
    (Ok (frameWire (hmacSecret s) (seq s) op pl),
     setSent (setSeq s (wrapU 16 (seq s + 1)))
       (<[seq s := mkFrame (seq s) op pl]> (sentFrames s))).
Proof.
  intros Hs Hq Hp. unfold encodeFrame, IsClosed. rewrite bool_decide_eq_false_2 by done.
  destruct (Z.eqb_spec (seq s) maxSequence); [done|].
  replace (wrapU 32 (lenFieldSequence + lenFieldOpCode + len pl + HMACSize))
    with (minFrameLen + len pl); [done|].
  pose proof (len_nonneg pl). rewrite wrapU_small; lia_consts.
Qed.

Lemma encodeFrame_inv s op pl w s' :
  encodeFrame op pl s = (Ok w, s') ->
  state s <> stateClosed /\ seq s <> maxSequence /\ state s' = state s /\
  seq s' = wrapU 16 (seq s + 1) /\ conn s' = conn s.
Proof.
  unfold encodeFrame, IsClosed. case_bool_decide; [done|].
  destruct (Z.eqb_spec (seq s) maxSequence); [done|]. by intros [= <- <-].
Qed.

(** What decoding does with bytes that have the shape of a frame. *)
Lemma decodeFrame_shape s n q op pl mac :
  0 <= n < 2 ^ 32 -> 0 <= q < 2 ^ 16 -> 0 <= op < 256 ->
  minFrameLen + len pl = n -> len mac = HMACSize -> len pl <= maxPayload ->
  let head := be_encode 4 n ++ be_encode 2 q ++ [z2b op] ++ pl in
  decodeFrame (head ++ mac) s =
    if negb (q =? seq s) then (fail ErrBadSequence, s)
    else if bool_decide (ComputeSHA256 (hmacSecret s) HMACSize head = mac)
    then finishFrame (mkFrame q op pl) s
    else (Err (ESent ErrInvalidHMAC), setState s stateClosed).
Proof.
  intros Hn Hq Ho Hl Hm Hp head. pose proof (len_nonneg pl).
  assert (len head = 7 + len pl) as Hh.
  { subst head. rewrite !len_app, !len_be_encode, len_cons, len_nil. lia. }
  assert (len (head ++ mac) = 23 + len pl) as Hw
    by (rewrite len_app, Hh, Hm; change HMACSize with 16; lia).
  change minFrameLen with 19 in *. change maxPayload with 65512 in *.
  unfold decodeFrame. rewrite Hw. change minDataLength with 23. change maxDataLength with 65535.
  destruct (Z.ltb_spec (23 + len pl) 23); [lia|].
  destruct (Z.ltb_spec 65535 (23 + len pl)); [lia|].
  assert (slice (head ++ mac) 0 lenFieldFrameLen = be_encode 4 n) as ->.
  { unfold head. rewrite <- app_assoc. apply slice_0. apply len_be_encode. }
  rewrite be_decode_encode_small by done. change minFrameLen with 19.
  destruct (Z.ltb_spec n 19); [lia|].
  assert (slice (head ++ mac) lenFieldFrameLen (lenFieldFrameLen + lenFieldSequence)
          = be_encode 2 q) as ->.
  { unfold head. rewrite <- !app_assoc. apply slice_app; by rewrite !len_be_encode. }
  rewrite be_decode_encode_small by done.
  destruct (negb (q =? seq s)); [done|].
  assert (slice (head ++ mac) (lenFieldFrameLen + lenFieldSequence)
            (lenFieldFrameLen + lenFieldSequence + 1) = [z2b op]) as ->.
  { unfold head. rewrite <- !app_assoc, (app_assoc (be_encode 4 n)).
    apply slice_app; by rewrite !len_app, !len_be_encode. }
  replace (be_decode [z2b op]) with op
    by (rewrite be_decode_1, b2z_z2b, Z.mod_small; done).
  change lenFieldFrameLen with 4. change lenFieldSequence with 2. change lenFieldOpCode with 1.
  change HMACSize with 16 in *.
  replace (4 + 2 + 1 + (n - (2 + 1 + 16))) with (7 + len pl) by lia.
  destruct (Z.ltb_spec (23 + len pl) (7 + len pl)); [lia|].
  assert (slice (head ++ mac) (4 + 2 + 1) (7 + len pl) = pl) as ->.
  { unfold head. rewrite <- !app_assoc, (app_assoc (be_encode 4 n)), (app_assoc (be_encode 4 n ++ _)).
    apply slice_app; rewrite !len_app, !len_be_encode, len_cons, len_nil; lia. }
  rewrite slice_0 by done. rewrite slice_end by lia.
  unfold VerifySHA256, ComputeSHA256. by case_bool_decide.
Qed.

(** An accepted frame is, byte for byte, the frame a holder of the secret
    sends at the current sequence number; its length was checked. *)
Lemma decodeFrame_inv s w f s' :
  0 <= seq s < 2 ^ 16 -> decodeFrame w s = (Ok f, s') ->
  w = frameWire (hmacSecret s) (seq s) (op f) (payload f) /\
  sequence f = seq s /\ 0 <= op f < 256 /\ len (payload f) <= maxPayload /\
  finishFrame f s = (Ok f, s').
Proof.
  intros Hseq H. unfold decodeFrame in H. change minDataLength with 23 in H.
  change maxDataLength with 65535 in H.
  destruct (Z.ltb_spec (len w) 23) as [|H1]; [done|].
  destruct (Z.ltb_spec 65535 (len w)) as [|H2]; [done|].
  destruct (split_at w 4) as (a & w1 & -> & Ha); [lia|]. rewrite len_app, Ha in *.
  destruct (split_at w1 2) as (b & w2 & -> & Hb); [lia|]. rewrite len_app, Hb in *.
  destruct w2 as [|o w2]; [rewrite len_nil in H1; lia|]. rewrite len_cons in *.
  change lenFieldFrameLen with 4 in H. change lenFieldSequence with 2 in H.
  change lenFieldOpCode with 1 in H. change HMACSize with 16 in H. change minFrameLen with 19 in H.
  rewrite (slice_0 a) in H by done.
  destruct (Z.ltb_spec (be_decode a) 19) as [|H3]; [done|].
  rewrite (slice_app a b) in H by lia.
  destruct (Z.eqb_spec (be_decode b) (seq s)) as [Hq|]; [|done]. cbn [negb] in H.
  change (o :: w2) with ([o] ++ w2) in H.
  rewrite (app_assoc a b), (slice_app (a ++ b) [o] w2 (4 + 2) (4 + 2 + 1)) in H by (rewrite len_app, ?len_cons, ?len_nil; lia).
  replace (4 + 2 + 1 + (be_decode a - (2 + 1 + 16))) with (be_decode a - 12) in H by lia.
  destruct (Z.ltb_spec (4 + (2 + (1 + len w2))) (be_decode a - 12)) as [|H4]; [done|].
  destruct (split_at w2 (be_decode a - 19)) as (pl & mac & -> & Hpl); [lia|].
  rewrite len_app in *.
  assert (exists head, head = (a ++ b) ++ [o] ++ pl /\ (a ++ b) ++ [o] ++ pl ++ mac = head ++ mac
          /\ len head = be_decode a - 12) as (head & Eh & Ew & Hh).
  { eexists. split; [done|]. rewrite <- !app_assoc. split; [done|].
    rewrite !len_app, len_cons, len_nil. lia. }
  rewrite Ew in H. rewrite (slice_0 head) in H by done.
  replace (slice (head ++ mac) (4 + 2 + 1) (be_decode a - 12)) with pl in H.
  2: { rewrite Eh, <- !app_assoc. rewrite (app_assoc a b), (app_assoc (a ++ b) [o]).
       symmetry. apply slice_app; rewrite !len_app, len_cons, len_nil; lia. }
  rewrite slice_end in H by lia.
  unfold VerifySHA256 in H. case_bool_decide as Hmac; [|done]. cbn [negb] in H.
  assert (f = mkFrame (be_decode b) (be_decode [o]) pl) as ->.
  { unfold finishFrame in H. destruct (validateFrame _ _) as [[[]| |] s1]; by inversion H. }
  cbn [sequence op payload]. pose proof (b2z_range o).
  pose proof (be_decode_1 o) as Eo.
  assert (len mac = 16) as Hm.
  { rewrite <- Hmac. apply (ComputeSHA256_length _ 16); lia. }
  change maxPayload with 65512. rewrite Hq in *.
  assert (head = frameHead (seq s) (be_decode [o]) pl) as Ehead.
  { rewrite Eh. unfold frameHead. change minFrameLen with 19. rewrite Eo, z2b_b2z, <- app_assoc.
    f_equal; [|f_equal].
    - replace (19 + len pl) with (be_decode a) by lia.
      replace 4%nat with (length a) by (unfold len in Ha; lia). by rewrite be_encode_decode.
    - rewrite <- Hq. replace 2%nat with (length b) by (unfold len in Hb; lia).
      by rewrite be_encode_decode. }
  split_and!; [|done|lia|lia|lia|done].
  change (o :: pl ++ mac) with ([o] ++ pl ++ mac). rewrite (app_assoc a b), Ew.
  unfold frameWire, ComputeSHA256. rewrite <- Ehead. by rewrite <- Hmac at 1.
Qed.

(* ------------------------------------------------------------------ *)
(** * The byte stream                                                   *)
(* ------------------------------------------------------------------ *)

(** A complete frame: its length field counts the bytes that follow it. *)
Definition is_frame (fr : bytes) : Prop :=
  lenFieldFrameLen <= len fr /\ minFrameLen <= be_decode (take 4 fr) /\
  len fr = lenFieldFrameLen + be_decode (take 4 fr).

Lemma frameWire_is_frame k q op pl : len pl <= maxPayload -> is_frame (frameWire k q op pl).
Proof.
  intros Hp. pose proof (len_nonneg pl). unfold is_frame. rewrite len_frameWire.
  replace (take 4 (frameWire k q op pl)) with (be_encode 4 (minFrameLen + len pl)).
  - rewrite be_decode_encode_small by (change (256 ^ Z.of_nat 4) with 4294967296; lia_consts).
    lia_consts.
  - unfold frameWire, frameHead. rewrite <- !app_assoc.
    rewrite take_app_le by (by rewrite length_be_encode).
    by rewrite take_ge by by rewrite length_be_encode.
Qed.

Lemma take_len {A} (l k : list A) : take (Z.to_nat (len l)) (l ++ k) = l.
Proof. unfold len. rewrite Nat2Z.id. apply take_app_length. Qed.
Lemma drop_len {A} (l k : list A) : drop (Z.to_nat (len l)) (l ++ k) = k.
Proof. unfold len. rewrite Nat2Z.id. apply drop_app_length. Qed.

Lemma tryParseFrame_app fr rest :
  is_frame fr -> tryParseFrame (fr ++ rest) = Ok (Some (len fr, fr)).
Proof.
  intros (H1 & H2 & H3). unfold tryParseFrame. rewrite len_app. pose proof (len_nonneg rest).
  destruct (Z.ltb_spec (len fr + len rest) lenFieldFrameLen); [lia|].
  rewrite take_app_le by (unfold len in H1; change lenFieldFrameLen with 4 in H1; lia).
  destruct (Z.ltb_spec (be_decode (take 4 fr)) minFrameLen); [lia|].
  rewrite <- H3. destruct (Z.ltb_spec (len fr + len rest) (len fr)); [lia|].
  by rewrite take_len.
Qed.

(** A proper prefix of a frame asks for more bytes. *)
Lemma tryParseFrame_short fr buf more :
  is_frame fr -> buf ++ more = fr -> more <> [] -> tryParseFrame buf = Ok None.
Proof.
  intros (H1 & H2 & H3) E Hm. unfold tryParseFrame.
  destruct (Z.ltb_spec (len buf) lenFieldFrameLen) as [|Hl]; [done|].
  assert (take 4 fr = take 4 buf) as Ht.
  { rewrite <- E, take_app_le; [done|]. unfold len in Hl. change lenFieldFrameLen with 4 in Hl. lia. }
  rewrite Ht in *. destruct (Z.ltb_spec (be_decode (take 4 buf)) minFrameLen); [lia|].
  rewrite <- H3, <- E, len_app. pose proof (len_pos _ Hm).
  destruct (Z.ltb_spec (len buf) (len buf + len more)); [done|lia].
Qed.

(** What is still to be read: the buffer and the chunks to come. *)
Definition withStream (s : Session) (buf : bytes) (chunks : list bytes) : Session :=
  setBuffer (setConn s (mkConn (map inl chunks) (writes (conn s)) (deadlines (conn s))
                          (written (conn s)))) buf.

(** However the transport cuts the stream, the loop returns its first frame
    and leaves the rest. *)
Lemma readLoop_stream fr rest chunks buf s rs :
  is_frame fr -> buf ++ concat chunks = fr ++ rest ->
  (length chunks <= length rs)%nat ->
  exists buf' chunks', readLoop rs (withStream s buf chunks) =
      (Ok fr, withStream s buf' chunks') /\ buf' ++ concat chunks' = rest.
Proof.
  intros Hfr. revert buf rs. induction chunks as [|c chunks IH]; intros buf rs E Hl.
  - cbn in E. rewrite app_nil_r in E. subst buf. exists rest, [].
    destruct rs; cbn [readLoop transportBuffer withStream setBuffer];
      rewrite tryParseFrame_app by done; cbn iota; rewrite drop_len, app_nil_r; done.
  - destruct rs as [|r rs]; [cbn in Hl; lia|].
    destruct (decide (length fr <= length buf)%nat) as [Hle|Hgt].
    + assert (exists b', buf = fr ++ b' /\ b' ++ concat (c :: chunks) = rest) as (b' & -> & Hr).
      { apply app_eq_inv in E as [(k & Ek & E)|(k & Ek & E)].
        - exists k. by split.
        - rewrite Ek, length_app in Hle. assert (k = []) as -> by (destruct k; [done|simpl in Hle; lia]).
          exists []. rewrite Ek, !app_nil_r. by split. }
      exists b', (c :: chunks). split; [|done].
      cbn [readLoop transportBuffer withStream setBuffer].
      rewrite tryParseFrame_app by done. cbn iota. by rewrite drop_len.
    + assert (exists k, buf ++ k = fr /\ k <> []) as (k & Ek & Hk).
      { apply app_eq_inv in E as [(k & Ek & E)|(k & Ek & E)].
        - rewrite Ek, length_app in Hgt. lia.
        - exists k. split; [done|]. intros ->. rewrite app_nil_r in Ek. subst. lia. }
      destruct (IH (buf ++ c) rs) as (buf' & chunks' & Hrun & Hrest).
      { cbn in E. by rewrite <- app_assoc. }
      { cbn in Hl. lia. }
      exists buf', chunks'. split; [|done]. rewrite <- Hrun.
      cbn [readLoop transportBuffer withStream setBuffer].
      by rewrite (tryParseFrame_short fr buf k).
Qed.

(* ------------------------------------------------------------------ *)
(** * Closed sessions                                                   *)
(* ------------------------------------------------------------------ *)

Lemma validateFrame_closed f s :
  state s = stateClosed -> validateFrame f s = (Err (ESent ErrSessionClosed), s).
Proof. intros Hs. unfold validateFrame, IsClosed. by rewrite bool_decide_eq_true_2. Qed.

(** Validation never reopens a session. *)
Lemma validateFrame_state f s r s' :
  validateFrame f s = (r, s') -> (s' = s \/ s' = setState s stateClosed) /\ r <> Panic.
Proof.
  unfold validateFrame. intros H.
  repeat match type of H with
  | context [if ?b then _ else _] => destruct b
  end; injection H as <- <-; split; by auto.
Qed.

(* ------------------------------------------------------------------ *)
(** * Theorems                                                          *)
(* ------------------------------------------------------------------ *)

(** C5: frames are authentic: the decoder accepts only the exact bytes that
    a holder of the session secret sends for that opcode and payload at the
    session's current sequence number, so no frame can be altered, forged
    without the secret, replayed or reordered. *)
Theorem decodeFrame_authentic s wireFrame f s' :
  0 <= seq s < 2 ^ 16 -> decodeFrame wireFrame s = (Ok f, s') ->
  wireFrame = frameWire (hmacSecret s) (seq s) (op f) (payload f) /\
  sequence f = seq s /\ state s <> stateClosed.
Proof.
  intros Hq H. destruct (decodeFrame_inv _ _ _ _ Hq H) as (-> & Hs & _ & _ & Hf).
  split_and!; [done..|]. intros Hc. unfold finishFrame in Hf.
  by rewrite validateFrame_closed in Hf.
Qed.

(** What one end encodes, an end with the same secret and sequence
    number decodes to the same opcode and payload, both advancing by one,
    provided the receiving state admits the frame. *)
Theorem frame_roundtrip a b op pl wireFrame a' b' :
  hmacSecret b = hmacSecret a -> seq b = seq a -> 0 <= seq a < 2 ^ 16 -> 0 <= op < 256 ->
  len pl <= maxPayload -> encodeFrame op pl a = (Ok wireFrame, a') ->
  validateFrame (mkFrame (seq b) op pl) b = (Ok tt, b') ->
  exists b'', decodeFrame wireFrame b = (Ok (mkFrame (seq b) op pl), b'') /\
    seq b'' = seq a' /\ seq a' = seq a + 1.
Proof.
  intros Hk Hq Hr Ho Hp He Hv. pose proof (len_nonneg pl).
  pose proof (encodeFrame_inv _ _ _ _ _ He) as (Hs & Hm & _ & Hsa & _).
  rewrite encodeFrame_Ok in He by done. injection He as <- _.
  pose proof (validateFrame_state _ _ _ _ Hv) as [Hb _].
  unfold frameWire, frameHead. rewrite decodeFrame_shape; try done; [|lia_consts|by apply ComputeSHA256_length].
  rewrite Hq, Z.eqb_refl, Hk, bool_decide_eq_true_2 by done. cbn [negb].
  unfold finishFrame. rewrite <- Hq, Hv. eexists. split; [done|]. cbn.
  assert (seq b' = seq a) as -> by (by destruct Hb as [-> | ->]).
  rewrite Hsa, <- ?Hq. split; [done|]. rewrite Hq. apply wrapU_small. change maxSequence with 65535 in Hm. lia.
Qed.

(** The transport may cut the byte stream anywhere: reading returns the
    next frame of the stream, whole, and leaves exactly the bytes after it. *)
Theorem readFrame_stream s fr rest chunks :
  is_frame fr -> deadlines (conn s) = [] -> reads (conn s) = map inl chunks ->
  transportBuffer s ++ concat chunks = fr ++ rest ->
  exists buf' chunks', readFrame s = (Ok fr, withStream s buf' chunks') /\
    buf' ++ concat chunks' = rest.
Proof.
  intros Hfr Hd Hr Hs.
  assert (s = withStream s (transportBuffer s) chunks) as Es.
  { destruct s as [? ? ? [? ? ? ?]]. cbn in *. by subst. }
  destruct (readLoop_stream fr rest chunks (transportBuffer s) s (reads (conn s)) Hfr Hs)
    as (buf' & cs' & Hrun & Hrest); [by rewrite Hr, length_map|].
  exists buf', cs'. split; [|done]. rewrite <- Es in Hrun.
  assert (setDeadline s = (Ok None, s)) as Hd1 by (unfold setDeadline; by rewrite Hd).
  assert (setDeadline (withStream s buf' cs') = (Ok None, withStream s buf' cs')) as Hd2
    by (unfold setDeadline; cbn; by rewrite Hd).
  unfold readFrame, mbind, SM_bind, attempt, getS. by rewrite Hd1, Hrun, Hd2.
Qed.

(** Whatever a peer sends, extracting and decoding frames does not crash:
    the length the stream parser cuts by is the one the decoder slices by. *)
Theorem decodeFrame_no_panic s buf n wireFrame s' r :
  tryParseFrame buf = Ok (Some (n, wireFrame)) ->
  decodeFrame wireFrame s = (r, s') -> r <> Panic.
Proof.
  unfold tryParseFrame. change lenFieldFrameLen with 4. change minFrameLen with 19.
  destruct (Z.ltb_spec (len buf) 4); [done|].
  destruct (Z.ltb_spec (be_decode (take 4 buf)) 19); [done|].
  destruct (Z.ltb_spec (len buf) (4 + be_decode (take 4 buf))); [done|].
  intros [= _ <-]. set (m := be_decode (take 4 buf)) in *.
  set (w := take (Z.to_nat (4 + m)) buf).
  assert (len w = 4 + m) as Hw by (unfold w, len in *; rewrite length_take; lia).
  assert (slice w 0 4 = take 4 buf) as Hs.
  { unfold slice, w. rewrite drop_0, take_take. f_equal. lia. }
  unfold decodeFrame. destruct (len w <? minDataLength); [by intros [= <- _]|].
  destruct (maxDataLength <? len w); [by intros [= <- _]|].
  change lenFieldFrameLen with 4. rewrite Hs. fold m.
  destruct (m <? minFrameLen); [by intros [= <- _]|].
  destruct (negb _); [by intros [= <- _]|].
  destruct (Z.ltb_spec (len w) (4 + lenFieldSequence + lenFieldOpCode +
     (m - (lenFieldSequence + lenFieldOpCode + HMACSize)))); [lia_consts|].
  destruct (negb _); [by intros [= <- _]|].
  unfold finishFrame. destruct (validateFrame _ s) as [r0 s0] eqn:E.
  apply validateFrame_state in E as [_ Hr0].
  destruct r0; [by intros [= <- _]|by intros [= <- _]|done].
Qed.

(* ------------------------------------------------------------------ *)
(** * Examples                                                          *)
(* ------------------------------------------------------------------ *)

Definition exampleSecret : bytes := str "0123456789abcdef".

(** A new session whose transport delivers a stream byte by byte. *)
Definition byteByByte (stream : bytes) : list bytes := map (fun b => [b]) stream.
Definition exampleSession (st : sessionState) (q : Z) (stream : bytes) : Session :=
  mkSession None None exampleSecret (mkConn (map inl (byteByByte stream)) [] [] []) st q [] ∅ 0.

Lemma concat_byteByByte l : concat (byteByByte l) = l.
Proof. unfold byteByByte. induction l as [|b l IH]; [done|]. cbn. by rewrite IH. Qed.

Definition exampleFrame : bytes := frameWire exampleSecret 4 opShardCheck [].

Lemma decodeFrame_authentic_witness :
  exampleFrame = frameWire exampleSecret 4 opShardCheck [] /\
  (decodeFrame exampleFrame (exampleSession stateStarted 4 [])).1 =
    Ok (mkFrame 4 opShardCheck []).
Proof.
  split; [|by vm_compute].
  apply (decodeFrame_authentic (exampleSession stateStarted 4 []) exampleFrame
           (mkFrame 4 opShardCheck []) (exampleSession stateStarted 5 [])).
  - done.
  - by vm_compute.
Defined.

Lemma frame_roundtrip_witness :
  exists b'', decodeFrame exampleFrame (exampleSession stateStarted 4 []) =
      (Ok (mkFrame 4 opShardCheck []), b'') /\ seq b'' = 5.
Proof.
  destruct (frame_roundtrip (exampleSession stateStarted 4 []) (exampleSession stateStarted 4 [])
              opShardCheck [] exampleFrame
              (encodeFrame opShardCheck [] (exampleSession stateStarted 4 [])).2
              (exampleSession stateStarted 4 []))
    as (b'' & H & Hq & Ha).
  1-7: by vm_compute.
  - exists b''. split; [exact H|]. rewrite Hq. exact Ha.
Defined.

Lemma readFrame_stream_witness :
  exists buf' chunks',
    readFrame (exampleSession stateStarted 4 (exampleFrame ++ str "next")) =
      (Ok exampleFrame,
       withStream (exampleSession stateStarted 4 (exampleFrame ++ str "next")) buf' chunks') /\
    buf' ++ concat chunks' = str "next".
Proof.
  apply (readFrame_stream _ _ _ (byteByByte (exampleFrame ++ str "next"))).
  - by vm_compute.
  - done.
  - done.
  - apply concat_byteByByte.
Defined.

Lemma decodeFrame_no_panic_witness :
  (decodeFrame exampleFrame (exampleSession stateStarted 4 [])).1 <> Panic.
Proof.
  apply (decodeFrame_no_panic (exampleSession stateStarted 4 []) (exampleFrame ++ str "next")
           (len exampleFrame) exampleFrame
           (decodeFrame exampleFrame (exampleSession stateStarted 4 [])).2).
  - by vm_compute.
  - by vm_compute.
Defined.
