(* ===== verification/FiprSession.v ===== *)
(** The exchanges of the routing protocol ([pkg/fipr/handlers.go],
    [pkg/fipr/public.go]): acknowledged sends, awaiting an opcode, resends,
    and the calls of the two ends. *)
From S2P Require Import Prelude Sha256 Fipr.

Definition deleteSent (q : Z) : SM unit := modS (fun s => setSent s (delete q (sentFrames s))).
Definition incResends : SM unit := modS (fun s => setResends s (consecResends s + 1)).
Definition resetResends : SM unit := modS (fun s => setResends s 0).

(** [send], given what awaits the acknowledgement. An error of the write is
    reported only for opcodes that are not acknowledged; for the others the
    outcome of the wait replaces it. *)
Definition sendWith (awaitAck : Z -> SM unit) (op : Z) (payload : bytes) : SM Z :=
  s ← getS;
  let reqSeq := seq s in
  request ← wrapM (encodeFrame op payload);
  r ← attempt (writeFrame request);
  if requiresAck op then
    wrapM (awaitAck reqSeq) ;; mret reqSeq
  else
    match r with
    | inr e => raise e
    | inl _ => mret reqSeq
    end.

(** Acks and resend requests are sent without awaiting anything. *)
Definition sendNoAck : Z -> bytes -> SM Z := sendWith (fun _ => mret tt).

Definition sendAck (seqToAck : Z) : SM unit := sendNoAck opAck (encodeSeq seqToAck) ;; mret tt.

(** The opcode test and the acknowledgement of a decoded frame. *)
Definition acceptFrame (expectedOps : list Z) (responseFrame : framebody) : SM framebody :=
  resetResends ;;
  let opCodeMatches := existsb (fun o => op responseFrame =? o) expectedOps in
  if opCodeMatches && requiresAck (op responseFrame) then
    wrapM (sendAck (sequence responseFrame)) ;; mret responseFrame
  else if negb opCodeMatches then Close ;; raise (ESent ErrInvalidOpcode)
  else mret responseFrame.

(** The loop of [await]: at most [n] more frames. *)
Fixpoint awaitLoop (n : nat) (expectedOps : list Z) (prevSeqForResendReq : Z)
  : SM framebody :=
  match n with
  | O => Close ;; raise (ESent ErrTooManyResends)
  | S n =>
      wireFrame ← wrapM readFrame;
      r ← attempt (decodeFrame wireFrame);
      match r with
      | inl responseFrame => acceptFrame expectedOps responseFrame
      | inr e =>
          if isRetryableError e then
            if len wireFrame <? lenFieldFrameLen + lenFieldSequence
            then raise (EWrap2 (ESent ErrResendWithoutSeq) e)
            else
              let seqToResend :=
                slice wireFrame lenFieldFrameLen (lenFieldFrameLen + lenFieldSequence) in
              sentSeq ← wrapM (sendNoAck opResend seqToResend);
              incResends ;;
              (if 0 <? prevSeqForResendReq then deleteSent prevSeqForResendReq else mret tt) ;;
              awaitLoop n expectedOps sentSeq
          else Close ;; raise (EWrap e)
      end
  end.

Definition await (expectedOps : list Z) : SM framebody :=
  awaitLoop (Z.to_nat maxConsecutiveResends) expectedOps 0.

Definition resend (seqToResend : Z) : SM Z :=
  s ← getS;
  if maxConsecutiveResends <? consecResends s then Close ;; raise (ESent ErrTooManyResends)
  else match sentFrames s !! seqToResend with
  | None => Close ;; raise (ESent ErrInvalidResend)
  | Some oldFrame =>
      incResends ;;
      let sentSeq := seq s in
      resendFrame ← wrapM (encodeFrame (op oldFrame) (payload oldFrame));
      writeFrame resendFrame ;;
      mret sentSeq
  end.

(** The loop of [awaitAck]: it falls through after [n] resends. *)
Fixpoint awaitAckLoop (n : nat) (expectedAckdSeq : Z) : SM unit :=
  match n with
  | O => mret tt
  | S n =>
      r ← attempt (await [opAck; opResend]);
      match r with
      | inr e =>
          Close ;;
          raise (EWrap (if errEq ErrInvalidOpcode e then ESent ErrReceivedNoAck else e))
      | inl response =>
          if op response =? opResend then
            seqToResend ← liftRes (decodeSeq (payload response));
            sentSequence ← wrapM (resend seqToResend);
            deleteSent expectedAckdSeq ;;
            awaitAckLoop n sentSequence
          else
            ackdSeq ← liftRes (decodeSeq (payload response));
            if negb (ackdSeq =? expectedAckdSeq) then Close ;; raise (ESent ErrBadSequence)
            else deleteSent expectedAckdSeq ;; resetResends
      end
  end.

Definition awaitAck (expectedAckdSeq : Z) : SM unit :=
  awaitAckLoop (Z.to_nat maxConsecutiveResends) expectedAckdSeq.

Definition send : Z -> bytes -> SM Z := sendWith awaitAck.

(* ------------------------------------------------------------------ *)
(** * The calls of the client and the server                            *)
(* ------------------------------------------------------------------ *)

Definition started : SM unit := modS (fun s => setState s stateStarted).

Definition SendStart (messageID : gostring) : SM unit :=
  if bool_decide (messageID = []) then raise (EWrap (ESent ErrFrameHasNoPayload))
  else wrapM (send opStart messageID) ;; started.

Definition WaitStart : SM unit :=
  recvFrame ← wrapM (await [opStart]);
  if len (payload recvFrame) =? 0 then raise (ESent ErrFrameHasNoPayload)
  else setMessageID (payload recvFrame) ;; started.

Definition SendAccept : SM unit := wrapM (send opAccepted []) ;; Close.
Definition SendReject : SM unit := wrapM (send opRejected []) ;; Close.

Definition SendOnBehalfOf (originalSender : gostring) : SM unit :=
  wrapM (send opOBO originalSender) ;; mret tt.

Definition WaitOnBehalfOf : SM unit :=
  recvFrame ← wrapM (await [opOBO]);
  setOriginalSender (payload recvFrame).

(** [recvFrame.payload[0]] *)
Definition firstByte (p : bytes) : SM Z :=
  match p with
  | [] => liftRes Panic
  | b :: _ => mret (b2z b)
  end.

Definition SendShardCheck : SM bool :=
  wrapM (send opShardCheck []) ;;
  recvFrame ← wrapM (await [opShardStatus]);
  currentStatus ← firstByte (payload recvFrame);
  if currentStatus =? shardDraining then mret true
  else if currentStatus =? shardShutdown then raise (ESent ErrShardShutdown)
  else mret false.

Definition WaitShardCheck : SM unit := wrapM (await [opShardCheck]) ;; mret tt.

Definition shardStatusByte (running draining : bool) : Z :=
  if running && negb draining then shardRunning
  else if draining then shardDraining else shardShutdown.

Definition SendShardStatus (running draining : bool) : SM unit :=
  wrapM (send opShardStatus [z2b (shardStatusByte running draining)]) ;; mret tt.

Definition SendMessageCheck : SM bool :=
  wrapM (send opMsgCheck []) ;;
  recvFrame ← wrapM (await [opMsgStatus]);
  currentStatus ← firstByte (payload recvFrame);
  mret (currentStatus =? msgExisting).

Definition WaitMessageCheck : SM unit := wrapM (await [opMsgCheck]) ;; mret tt.

Definition SendMessageStatus (exists_ : bool) : SM unit :=
  send opMsgStatus [z2b (if exists_ then msgExisting else msgNew)] ;; mret tt.

Definition SendFragment (fragment : bytes) : SM unit :=
  wrapM (send opFrgRoute fragment) ;;
  r ← attempt (await [opAccepted]);
  match r with
  | inl _ => mret tt
  | inr e => raise (EWrap (if errEq ErrInvalidOpcode e then ESent ErrRemoteRejected else e))
  end.

Definition WaitFragment : SM bytes :=
  recvFrame ← wrapM (await [opFrgRoute]);
  mret (payload recvFrame).

(* ------------------------------------------------------------------ *)
(** * A session over a transport that delivers                          *)
(* ------------------------------------------------------------------ *)

(** Everything observable of a session whose transport works: the secret, the
    state and sequence number, the identities, the bytes that will arrive
    (cut into reads in any way) and the bytes sent so far. *)
Record ready (k : bytes) (s : Session) (st : sessionState) (q : Z)
    (id from : option bytes) (input output : bytes) : Prop := mkReady {
  rd_secret : hmacSecret s = k;
  rd_state : state s = st;
  rd_seq : seq s = q;
  rd_id : messageID s = id;
  rd_obo : obo s = from;
  rd_deadlines : deadlines (conn s) = [];
  rd_writes : writes (conn s) = [];
  rd_written : written (conn s) = output;
  rd_input : exists chunks, reads (conn s) = map inl chunks /\
    transportBuffer s ++ concat chunks = input
}.

(** The decoder's verdict on an opcode and payload in a state. *)
Definition passes (st : sessionState) (q op : Z) (pl : bytes) (st' : sessionState) : Prop :=
  forall s, state s = st ->
    exists s', validateFrame (mkFrame q op pl) s = (Ok tt, s') /\ s' = setState s st'.

Lemma setState_same s : setState s (state s) = s.
Proof. by destruct s. Qed.

(** Case analysis on the opcode of a concrete frame. *)
Ltac run_validate :=
  intros s Hs; unfold validateFrame, IsClosed; rewrite bool_decide_eq_false_2 by (rewrite Hs; done);
  cbn [op payload sequence].

Lemma passes_nonempty st q o pl :
  st <> stateClosed -> o = opOBO \/ o = opFrgRoute -> pl <> [] -> passes st q o pl st.
Proof.
  intros Hst Ho Hp. run_validate. pose proof (len_pos _ Hp).
  exists s. rewrite <- Hs, setState_same. split; [|done].
  destruct (Z.leb_spec (len pl) 0); [lia|]. by destruct Ho as [-> | ->].
Qed.

Lemma passes_empty st q o :
  st <> stateClosed -> o = opShardCheck \/ o = opMsgCheck -> passes st q o [] st.
Proof.
  intros Hst Ho. run_validate. exists s. rewrite <- Hs, setState_same. split; [|done].
  by destruct Ho as [-> | ->].
Qed.

Lemma passes_status st q o b :
  st <> stateClosed -> o = opShardStatus \/ o = opMsgStatus -> passes st q o [b] st.
Proof.
  intros Hst Ho. run_validate. exists s. rewrite <- Hs, setState_same. split; [|done].
  by destruct Ho as [-> | ->].
Qed.

Lemma passes_two st q o pl :
  st <> stateClosed -> o = opAck \/ o = opResend -> len pl = 2 -> passes st q o pl st.
Proof.
  intros Hst Ho Hl. run_validate. exists s. rewrite <- Hs, setState_same, Hl. split; [|done].
  by destruct Ho as [-> | ->].
Qed.

Lemma passes_start pl : pl <> [] -> passes stateInit 0 opStart pl stateInit.
Proof.
  intros Hp. run_validate. pose proof (len_pos _ Hp). exists s.
  split; [|by rewrite <- Hs, setState_same].
  destruct (Z.leb_spec (len pl) 0); [lia|]. rewrite bool_decide_eq_true_2 by done. done.
Qed.

Lemma passes_accepted st q : st <> stateClosed -> passes st q opAccepted [] stateClosed.
Proof. intros Hst. run_validate. by eexists. Qed.

Lemma frameWire_nonempty k q op pl : frameWire k q op pl <> [].
Proof.
  intros E. pose proof (len_frameWire k q op pl) as H. rewrite E in H.
  pose proof (len_nonneg pl). change (len (@nil byte)) with 0 in H. lia_consts.
Qed.

Lemma decodeSeq_encodeSeq q : 0 <= q < 2 ^ 16 -> decodeSeq (encodeSeq q) = Ok q.
Proof.
  intros Hq. unfold encodeSeq. change (be_encode 2 q) with [z2b (q / 256 ^ 1); z2b (q / 1)].
  unfold decodeSeq. f_equal. rewrite <- (be_decode_encode_small 2 q) at 3 by done. done.
Qed.

Lemma SM_bind_eq {A B} (m : SM A) (f : A -> SM B) s :
  (m ≫= f) s = match m s with
               | (Ok a, s') => f a s' | (Err e, s') => (Err e, s') | (Panic, s') => (Panic, s')
               end.
Proof. done. Qed.

Lemma setDeadline_none s : deadlines (conn s) = [] -> setDeadline s = (Ok None, s).
Proof. unfold setDeadline. by intros ->. Qed.

Lemma connWrite_ok s d : writes (conn s) = [] ->
  connWrite d s = (Ok None, setConn s (mkConn (reads (conn s)) [] (deadlines (conn s))
                                         (written (conn s) ++ d))).
Proof. unfold connWrite. by intros ->. Qed.

Lemma wrapM_Ok {A} (m : SM A) s a s' : m s = (Ok a, s') -> wrapM m s = (Ok a, s').
Proof. unfold wrapM. by intros ->. Qed.

Lemma attempt_Ok {A} (m : SM A) s a s' : m s = (Ok a, s') -> attempt m s = (Ok (inl a), s').
Proof. unfold attempt. by intros ->. Qed.

Section steps.
Context (k : bytes).

Ltac ready_intro := constructor; cbn; try done.

Lemma ready_write s st q i o inp out w :
  ready k s st q i o inp out -> w <> [] ->
  exists s', writeFrame w s = (Ok tt, s') /\ ready k s' st q i o inp (out ++ w) /\
    sentFrames s' = sentFrames s.
Proof.
  intros [H1 H2 H3 H4 H5 H6 H7 H8 (cs & H9 & H10)] Hw.
  unfold writeFrame. rewrite SM_bind_eq, setDeadline_none, SM_bind_eq by done.
  rewrite len_eqb_0, bool_decide_eq_false_2 by done.
  rewrite connWrite_ok, SM_bind_eq, setDeadline_none by done.
  eexists. split; [done|]. split; [|done]. ready_intro; [by rewrite H8|eauto].
Qed.

Lemma ready_encode s st q i o inp out op pl :
  ready k s st q i o inp out -> st <> stateClosed -> 0 <= q < maxSequence ->
  len pl <= maxPayload ->
  exists s', encodeFrame op pl s = (Ok (frameWire k q op pl), s') /\
    ready k s' st (q + 1) i o inp out /\
    sentFrames s' = <[q := mkFrame q op pl]> (sentFrames s).
Proof.
  intros [H1 H2 H3 H4 H5 H6 H7 H8 H9] Hst Hq Hp.
  rewrite encodeFrame_Ok by (rewrite ?H2, ?H3; done || lia). rewrite H1, H3.
  eexists. split; [done|]. split; [|done]. ready_intro.
  apply wrapU_small. change maxSequence with 65535 in Hq. lia.
Qed.

Lemma ready_read s st q i o inp out fr :
  ready k s st q i o (fr ++ inp) out -> is_frame fr ->
  exists s', readFrame s = (Ok fr, s') /\ ready k s' st q i o inp out /\
    sentFrames s' = sentFrames s /\ consecResends s' = consecResends s.
Proof.
  intros [H1 H2 H3 H4 H5 H6 H7 H8 (cs & H9 & H10)] Hfr.
  unfold readFrame. rewrite SM_bind_eq, setDeadline_none by done.
  rewrite SM_bind_eq. cbn [getS].
  assert (s = withStream s (transportBuffer s) cs) as Es.
  { destruct s as [? ? ? [? ? ? ?]]. cbn in *. subst. done. }
  destruct (readLoop_stream fr inp cs (transportBuffer s) s (reads (conn s)) Hfr H10)
    as (buf' & cs' & Hrun & Hrest).
  { by rewrite H9, length_map. }
  rewrite <- Es in Hrun. rewrite SM_bind_eq, (attempt_Ok _ _ _ _ Hrun), SM_bind_eq.
  rewrite setDeadline_none by done.
  eexists. split; [done|]. split; [|done]. ready_intro. eauto.
Qed.

Lemma ready_decode s st q i o inp out op pl st' :
  ready k s st q i o inp out -> 0 <= q < maxSequence -> 0 <= op < 256 ->
  len pl <= maxPayload -> passes st q op pl st' ->
  exists s', decodeFrame (frameWire k q op pl) s = (Ok (mkFrame q op pl), s') /\
    ready k s' st' (q + 1) i o inp out /\
    sentFrames s' = sentFrames s /\ consecResends s' = consecResends s.
Proof.
  intros [H1 H2 H3 H4 H5 H6 H7 H8 H9] Hq Hop Hp Hv. pose proof (len_nonneg pl).
  unfold frameWire, frameHead.
  rewrite decodeFrame_shape; [|lia_consts|change maxSequence with 65535 in Hq; lia|done|done
                              |by apply ComputeSHA256_length|done].
  rewrite H1, H3, Z.eqb_refl, bool_decide_eq_true_2 by done. cbn [negb].
  unfold finishFrame. destruct (Hv s H2) as (s1 & -> & ->).
  eexists. split; [done|]. split; [|done]. ready_intro.
  rewrite H3. apply wrapU_small. change maxSequence with 65535 in Hq. lia.
Qed.

(** The bookkeeping of resends is invisible. *)
Lemma ready_resends s st q i o inp out n :
  ready k s st q i o inp out -> ready k (setResends s n) st q i o inp out.
Proof. intros []. by constructor. Qed.
Lemma ready_sent s st q i o inp out m :
  ready k s st q i o inp out -> ready k (setSent s m) st q i o inp out.
Proof. intros []. by constructor. Qed.

Lemma ready_sendNoAck s st q i o inp out op pl :
  ready k s st q i o inp out -> st <> stateClosed -> 0 <= q < maxSequence ->
  len pl <= maxPayload -> requiresAck op = false ->
  exists s', sendNoAck op pl s = (Ok q, s') /\
    ready k s' st (q + 1) i o inp (out ++ frameWire k q op pl).
Proof.
  intros Hr Hst Hq Hp Ho. unfold sendNoAck, sendWith. rewrite SM_bind_eq. cbn [getS].
  rewrite (rd_seq _ _ _ _ _ _ _ _ Hr).
  destruct (ready_encode _ _ _ _ _ _ _ op pl Hr Hst Hq Hp) as (s1 & E1 & Hr1 & _).
  rewrite SM_bind_eq, (wrapM_Ok _ _ _ _ E1).
  destruct (ready_write _ _ _ _ _ _ _ (frameWire k q op pl) Hr1) as (s2 & E2 & Hr2 & _).
  { apply frameWire_nonempty. }
  rewrite SM_bind_eq, (attempt_Ok _ _ _ _ E2), Ho. eauto.
Qed.

Lemma len_encodeSeq q : len (encodeSeq q) = 2.
Proof. apply len_be_encode. Qed.

(** Receiving an expected request: it is returned and acknowledged. *)
Lemma ready_await_request s st q i o inp out op pl ops :
  ready k s st q i o (frameWire k q op pl ++ inp) out ->
  st <> stateClosed -> 0 <= q < maxSequence - 1 -> 0 <= op < 256 -> len pl <= maxPayload ->
  passes st q op pl st -> requiresAck op = true -> existsb (fun x => op =? x) ops = true ->
  exists s', await ops s = (Ok (mkFrame q op pl), s') /\
    ready k s' st (q + 2) i o inp (out ++ frameWire k (q + 1) opAck (encodeSeq q)).
Proof.
  intros Hr Hst Hq Hop Hp Hv Hack Hin. unfold await. change (Z.to_nat maxConsecutiveResends) with 3%nat.
  cbn [awaitLoop]. rewrite SM_bind_eq.
  destruct (ready_read _ _ _ _ _ _ _ _ Hr (frameWire_is_frame _ _ _ _ Hp))
    as (s1 & E1 & Hr1 & _).
  rewrite (wrapM_Ok _ _ _ _ E1), SM_bind_eq.
  destruct (ready_decode _ _ _ _ _ _ _ op pl st Hr1) as (s2 & E2 & Hr2 & _); [lia|done..|].
  rewrite (attempt_Ok _ _ _ _ E2). unfold acceptFrame. cbn [Fipr.op].
  rewrite SM_bind_eq. cbn [resetResends modS]. rewrite Hin, Hack. cbn [andb].
  apply (ready_resends _ _ _ _ _ _ _ 0) in Hr2. unfold sendAck.
  destruct (ready_sendNoAck _ _ _ _ _ _ _ opAck (encodeSeq q) Hr2) as (s3 & E3 & Hr3);
    [done|lia|by rewrite len_encodeSeq|done|].
  replace (q + 1 + 1) with (q + 2) in Hr3 by lia. exists s3. split; [|done].
  rewrite SM_bind_eq. cbn [sequence].
  assert ((sendNoAck opAck (encodeSeq q) ≫= fun _ => mret tt) (setResends s2 0) = (Ok tt, s3)) as E4
    by by rewrite SM_bind_eq, E3.
  by rewrite (wrapM_Ok _ _ _ _ E4).
Qed.

(** A successful wait leaves no resends counted. *)
Lemma await_resets ops s f s' : requiresAck (Fipr.op f) = false ->
  await ops s = (Ok f, s') -> consecResends s' = 0.
Proof.
  intros Hf. enough (forall n p s, awaitLoop n ops p s = (Ok f, s') -> consecResends s' = 0)
    as H by apply H.
  clear s. intros n. induction n as [|n IH]; intros p s; cbn [awaitLoop]; [done|].
  rewrite SM_bind_eq. destruct (wrapM readFrame s) as [[w| |] s1]; [|done..].
  rewrite SM_bind_eq. destruct (attempt _ s1) as [[[f'|e]| |] s2]; [| |done..].
  - unfold acceptFrame. rewrite SM_bind_eq. cbn [resetResends modS].
    destruct (existsb _ ops); cbn [andb negb].
    + destruct (requiresAck (Fipr.op f')) eqn:Ea.
      * rewrite SM_bind_eq. destruct (wrapM _ _) as [[[]| |] s3]; [|done..].
        unfold mret, SM_ret. intros [= <- _]. by rewrite Ea in Hf.
      * unfold mret, SM_ret. by intros [= _ <-].
    + done.
  - destruct (isRetryableError e); [|done].
    destruct (_ <? _); [done|]. rewrite SM_bind_eq.
    destruct (wrapM _ s2) as [[q'| |] s3]; [|done..].
    rewrite SM_bind_eq. cbn [incResends modS]. rewrite SM_bind_eq.
    destruct (0 <? p); apply IH.
Qed.

(** Receiving an expected answer that is not acknowledged. *)
Lemma ready_await_answer s st q i o inp out op pl ops st' :
  ready k s st q i o (frameWire k q op pl ++ inp) out ->
  0 <= q < maxSequence -> 0 <= op < 256 -> len pl <= maxPayload ->
  passes st q op pl st' -> requiresAck op = false -> existsb (fun x => op =? x) ops = true ->
  exists s', await ops s = (Ok (mkFrame q op pl), s') /\ ready k s' st' (q + 1) i o inp out /\
    sentFrames s' = sentFrames s.
Proof.
  intros Hr Hq Hop Hp Hv Hack Hin. unfold await. change (Z.to_nat maxConsecutiveResends) with 3%nat.
  cbn [awaitLoop]. rewrite SM_bind_eq.
  destruct (ready_read _ _ _ _ _ _ _ _ Hr (frameWire_is_frame _ _ _ _ Hp))
    as (s1 & E1 & Hr1 & F1 & _).
  rewrite (wrapM_Ok _ _ _ _ E1), SM_bind_eq.
  destruct (ready_decode _ _ _ _ _ _ _ op pl st' Hr1) as (s2 & E2 & Hr2 & F2 & _); [done..|].
  rewrite (attempt_Ok _ _ _ _ E2). unfold acceptFrame. cbn [Fipr.op].
  rewrite SM_bind_eq. cbn [resetResends modS]. rewrite Hin, Hack. cbn [andb negb].
  eexists. split; [done|]. split; [by apply ready_resends|]. cbn. by rewrite F2, F1.
Qed.

(** Sending a request whose acknowledgement arrives. *)
Lemma ready_send s st q i o inp out op pl :
  ready k s st q i o (frameWire k (q + 1) opAck (encodeSeq q) ++ inp) out ->
  st <> stateClosed -> 0 <= q < maxSequence - 1 -> len pl <= maxPayload ->
  requiresAck op = true ->
  exists s', send op pl s = (Ok q, s') /\
    ready k s' st (q + 2) i o inp (out ++ frameWire k q op pl).
Proof.
  intros Hr Hst Hq Hp Ho. unfold send, sendWith. rewrite SM_bind_eq. cbn [getS].
  rewrite (rd_seq _ _ _ _ _ _ _ _ Hr).
  destruct (ready_encode _ _ _ _ _ _ _ op pl Hr Hst ltac:(lia) Hp) as (s1 & E1 & Hr1 & _).
  rewrite SM_bind_eq, (wrapM_Ok _ _ _ _ E1).
  destruct (ready_write _ _ _ _ _ _ _ (frameWire k q op pl) Hr1) as (s2 & E2 & Hr2 & _).
  { apply frameWire_nonempty. }
  rewrite SM_bind_eq, (attempt_Ok _ _ _ _ E2), Ho.
  destruct (ready_await_answer _ _ _ _ _ _ _ opAck (encodeSeq q) [opAck; opResend] st Hr2)
    as (s3 & E3 & Hr3 & _); [lia|done|by rewrite len_encodeSeq| |done|done|].
  { apply passes_two; [done|by left|apply len_encodeSeq]. }
  replace (q + 1 + 1) with (q + 2) in Hr3 by lia.
  exists (setResends (setSent s3 (delete q (sentFrames s3))) 0).
  split; [|by apply ready_resends, ready_sent].
  assert (awaitAck q s2 = (Ok tt, setResends (setSent s3 (delete q (sentFrames s3))) 0)) as E4.
  { unfold awaitAck. change (Z.to_nat maxConsecutiveResends) with 3%nat. cbn [awaitAckLoop].
    rewrite SM_bind_eq, (attempt_Ok _ _ _ _ E3). cbn [Fipr.op payload].
    change (opAck =? opResend) with false. cbn iota. rewrite SM_bind_eq.
    rewrite decodeSeq_encodeSeq by (change maxSequence with 65535 in Hq; lia).
    cbn [liftRes]. rewrite Z.eqb_refl. done. }
  rewrite SM_bind_eq. by rewrite (wrapM_Ok _ _ _ _ E4).
Qed.
End steps.

(* ------------------------------------------------------------------ *)
(** * The calls over a transport that delivers                          *)
(* ------------------------------------------------------------------ *)

Section calls.
Context (k : bytes).

(** Runs a call lemma inside the goal. *)
Ltac call H s E R :=
  destruct H as (s & E & R);
  [first [done | lia | idtac] ..| rewrite ?SM_bind_eq, ?(wrapM_Ok _ _ _ _ E); cbn beta iota].

Lemma ready_SendStart s i o inp out id :
  ready k s stateInit 0 i o (frameWire k 1 opAck (encodeSeq 0) ++ inp) out ->
  id <> [] -> len id <= maxPayload ->
  exists s', SendStart id s = (Ok tt, s') /\
    ready k s' stateStarted 2 i o inp (out ++ frameWire k 0 opStart id).
Proof.
  intros Hr Hid Hl. unfold SendStart. rewrite bool_decide_eq_false_2 by done.
  call (ready_send k s stateInit 0 i o inp out opStart id Hr) s1 E R.
  eexists. split; [done|]. destruct R. by constructor.
Qed.

Lemma ready_WaitStart s inp out id o :
  ready k s stateInit 0 None o (frameWire k 0 opStart id ++ inp) out ->
  id <> [] -> len id <= maxPayload ->
  exists s', WaitStart s = (Ok tt, s') /\
    ready k s' stateStarted 2 (Some id) o inp (out ++ frameWire k 1 opAck (encodeSeq 0)).
Proof.
  intros Hr Hid Hl. unfold WaitStart.
  call (ready_await_request k s stateInit 0 None o inp out opStart id [opStart] Hr) s1 E R;
    [by apply passes_start|].
  cbn [payload]. rewrite len_eqb_0, bool_decide_eq_false_2 by done.
  eexists. split; [done|]. destruct R. constructor; try done. cbn. by rewrite rd_id0.
Qed.

Lemma ready_SendOnBehalfOf s q i o inp out a :
  ready k s stateStarted q i o (frameWire k (q + 1) opAck (encodeSeq q) ++ inp) out ->
  0 <= q < maxSequence - 1 -> len a <= maxPayload ->
  exists s', SendOnBehalfOf a s = (Ok tt, s') /\
    ready k s' stateStarted (q + 2) i o inp (out ++ frameWire k q opOBO a).
Proof.
  intros Hr Hq Hl. unfold SendOnBehalfOf.
  call (ready_send k s stateStarted q i o inp out opOBO a Hr) s1 E R. eauto.
Qed.

Lemma ready_WaitOnBehalfOf s q i inp out a :
  ready k s stateStarted q i None (frameWire k q opOBO a ++ inp) out ->
  0 <= q < maxSequence - 1 -> a <> [] -> len a <= maxPayload ->
  exists s', WaitOnBehalfOf s = (Ok tt, s') /\
    ready k s' stateStarted (q + 2) i (Some a) inp
      (out ++ frameWire k (q + 1) opAck (encodeSeq q)).
Proof.
  intros Hr Hq Ha Hl. unfold WaitOnBehalfOf.
  call (ready_await_request k s stateStarted q i None inp out opOBO a [opOBO] Hr) s1 E R;
    [apply passes_nonempty; [done|by left|done]|].
  eexists. split; [done|]. destruct R. constructor; try done. cbn. by rewrite rd_obo0.
Qed.

(** The acknowledged question and its one-byte answer. *)
Lemma ready_ask s q i o inp out opq opa b :
  ready k s stateStarted q i o
    (frameWire k (q + 1) opAck (encodeSeq q) ++ frameWire k (q + 2) opa [b] ++ inp) out ->
  0 <= q < maxSequence - 3 ->
  (opq = opShardCheck /\ opa = opShardStatus) \/ (opq = opMsgCheck /\ opa = opMsgStatus) ->
  exists s1 s2, send opq [] s = (Ok q, s1) /\
    await [opa] s1 = (Ok (mkFrame (q + 2) opa [b]), s2) /\
    ready k s2 stateStarted (q + 4) i o inp
      (out ++ frameWire k q opq [] ++ frameWire k (q + 3) opAck (encodeSeq (q + 2))).
Proof.
  intros Hr Hq Hop.
  destruct (ready_send k s stateStarted q i o _ out opq [] Hr) as (s1 & E1 & R1);
    [done|lia|done|by destruct Hop as [[-> _]|[-> _]]|].
  destruct (ready_await_request k s1 stateStarted (q + 2) i o inp _ opa [b] [opa] R1)
    as (s2 & E2 & R2); [done|lia|by destruct Hop as [[_ ->]|[_ ->]]|done| | | |].
  { apply passes_status; [done|]. by destruct Hop as [[_ ->]|[_ ->]]; [left|right]. }
  1, 2: by destruct Hop as [[_ ->]|[_ ->]].
  exists s1, s2. split_and!; [done..|].
  replace (q + 2 + 1) with (q + 3) in R2 by lia. replace (q + 2 + 2) with (q + 4) in R2 by lia.
  by rewrite <- app_assoc in R2.
Qed.

(** The other side of it. *)
Lemma ready_answer s q i o inp out opq opa b :
  ready k s stateStarted q i o
    (frameWire k q opq [] ++ frameWire k (q + 3) opAck (encodeSeq (q + 2)) ++ inp) out ->
  0 <= q < maxSequence - 3 ->
  (opq = opShardCheck /\ opa = opShardStatus) \/ (opq = opMsgCheck /\ opa = opMsgStatus) ->
  exists s1 s2, await [opq] s = (Ok (mkFrame q opq []), s1) /\
    send opa [b] s1 = (Ok (q + 2), s2) /\ messageID s1 = i /\
    ready k s2 stateStarted (q + 4) i o inp
      (out ++ frameWire k (q + 1) opAck (encodeSeq q) ++ frameWire k (q + 2) opa [b]).
Proof.
  intros Hr Hq Hop.
  destruct (ready_await_request k s stateStarted q i o _ out opq [] [opq] Hr)
    as (s1 & E1 & R1); [done|lia|by destruct Hop as [[-> _]|[-> _]]|done| | | |].
  { apply passes_empty; [done|]. by destruct Hop as [[-> _]|[-> _]]; [left|right]. }
  1, 2: by destruct Hop as [[-> _]|[-> _]].
  destruct (ready_send k s1 stateStarted (q + 2) i o inp
              (out ++ frameWire k (q + 1) opAck (encodeSeq q)) opa [b])
    as (s2 & E2 & R2); [|done|lia|done|by destruct Hop as [[_ ->]|[_ ->]]|].
  { by replace (q + 2 + 1) with (q + 3) by lia. }
  exists s1, s2. split_and!; [done|done|apply R1|].
  replace (q + 2 + 2) with (q + 4) in R2 by lia. by rewrite <- app_assoc in R2.
Qed.

Lemma ready_SendFragment s q i o inp out f :
  ready k s stateStarted q i o
    (frameWire k (q + 1) opAck (encodeSeq q) ++ frameWire k (q + 2) opAccepted [] ++ inp) out ->
  0 <= q < maxSequence - 2 -> len f <= maxPayload ->
  exists s', SendFragment f s = (Ok tt, s') /\
    ready k s' stateClosed (q + 3) i o inp (out ++ frameWire k q opFrgRoute f).
Proof.
  intros Hr Hq Hl. unfold SendFragment.
  call (ready_send k s stateStarted q i o _ out opFrgRoute f Hr) s1 E R.
  destruct (ready_await_answer k s1 stateStarted (q + 2) i o inp _ opAccepted [] [opAccepted]
              stateClosed R) as (s2 & E2 & R2 & _); [lia|done|done|by apply passes_accepted|done..|].
  rewrite SM_bind_eq, (attempt_Ok _ _ _ _ E2). exists s2. split; [done|].
  by replace (q + 2 + 1) with (q + 3) in R2 by lia.
Qed.

Lemma ready_WaitFragment s q i o inp out f :
  ready k s stateStarted q i o (frameWire k q opFrgRoute f ++ inp) out ->
  0 <= q < maxSequence - 1 -> f <> [] -> len f <= maxPayload ->
  exists s', WaitFragment s = (Ok f, s') /\
    ready k s' stateStarted (q + 2) i o inp
      (out ++ frameWire k (q + 1) opAck (encodeSeq q)).
Proof.
  intros Hr Hq Hf Hl. unfold WaitFragment.
  call (ready_await_request k s stateStarted q i o inp out opFrgRoute f [opFrgRoute] Hr) s1 E R;
    [apply passes_nonempty; [done|by right|done]|]. eauto.
Qed.

Lemma ready_SendAccept s q i o inp out :
  ready k s stateStarted q i o inp out -> 0 <= q < maxSequence ->
  exists s', SendAccept s = (Ok tt, s') /\
    ready k s' stateClosed (q + 1) i o inp (out ++ frameWire k q opAccepted []).
Proof.
  intros Hr Hq. unfold SendAccept.
  destruct (ready_sendNoAck k s stateStarted q i o inp out opAccepted [] Hr)
    as (s1 & E & R); [done..|].
  assert (send opAccepted [] s = (Ok q, s1)) as E' by by rewrite <- E.
  rewrite SM_bind_eq, (wrapM_Ok _ _ _ _ E'). eexists. split; [done|].
  destruct R. by constructor.
Qed.
End calls.

(* ------------------------------------------------------------------ *)
(** * Resends                                                           *)
(* ------------------------------------------------------------------ *)

Section resends.
Context (k : bytes).

(** A resend of a recorded frame: the same opcode and payload under a new
    sequence number. *)
Lemma ready_resend s st q i o inp out r op pl :
  ready k s st q i o inp out -> st <> stateClosed -> 0 <= q < maxSequence ->
  consecResends s <= maxConsecutiveResends ->
  sentFrames s !! r = Some (mkFrame r op pl) -> len pl <= maxPayload ->
  exists s', resend r s = (Ok q, s') /\
    ready k s' st (q + 1) i o inp (out ++ frameWire k q op pl) /\
    sentFrames s' = <[q := mkFrame q op pl]> (sentFrames s).
Proof.
  intros Hr Hst Hq Hc Hs Hp. unfold resend. rewrite SM_bind_eq. cbn [getS].
  destruct (Z.ltb_spec maxConsecutiveResends (consecResends s)); [lia|]. rewrite Hs.
  rewrite SM_bind_eq. cbn [incResends modS Fipr.op payload].
  apply (ready_resends _ _ _ _ _ _ _ _ (consecResends s + 1)) in Hr as Hr0.
  rewrite (rd_seq _ _ _ _ _ _ _ _ Hr).
  destruct (ready_encode k _ _ _ _ _ _ _ op pl Hr0 Hst Hq Hp) as (s1 & E1 & Hr1 & F1).
  rewrite SM_bind_eq, (wrapM_Ok _ _ _ _ E1).
  destruct (ready_write k _ _ _ _ _ _ _ (frameWire k q op pl) Hr1) as (s2 & E2 & Hr2 & F2).
  { apply frameWire_nonempty. }
  rewrite SM_bind_eq, E2. exists s2. split; [done|]. split; [done|]. by rewrite F2, F1.
Qed.

(** One round of [awaitAck] against a peer that asks for the frame again. *)
Lemma ready_resend_round n s st q i o inp out op pl :
  ready k s st (q + 1) i o (frameWire k (q + 1) opResend (encodeSeq q) ++ inp) out ->
  st <> stateClosed -> 0 <= q < maxSequence - 2 -> len pl <= maxPayload ->
  sentFrames s !! q = Some (mkFrame q op pl) ->
  exists s', awaitAckLoop (S n) q s = awaitAckLoop n (q + 2) s' /\
    ready k s' st (q + 3) i o inp (out ++ frameWire k (q + 2) op pl) /\
    sentFrames s' !! (q + 2) = Some (mkFrame (q + 2) op pl).
Proof.
  intros Hr Hst Hq Hp Hs. cbn [awaitAckLoop]. rewrite SM_bind_eq.
  destruct (ready_await_answer k s st (q + 1) i o inp out opResend (encodeSeq q)
              [opAck; opResend] st Hr) as (s1 & E1 & R1 & F1);
    [lia|done|by rewrite len_encodeSeq|apply passes_two; [done|by right|apply len_encodeSeq]
    |done|done|].
  assert (consecResends s1 = 0) as Hc by (eapply await_resets; [|exact E1]; done).
  rewrite (attempt_Ok _ _ _ _ E1). cbn [Fipr.op payload].
  change (opResend =? opResend) with true. cbn iota.
  rewrite SM_bind_eq, decodeSeq_encodeSeq by (change maxSequence with 65535 in Hq; lia).
  cbn [liftRes]. rewrite SM_bind_eq.
  replace (q + 1 + 1) with (q + 2) in R1 by lia.
  destruct (ready_resend s1 st (q + 2) i o inp out q op pl R1) as (s2 & E2 & R2 & F2);
    [done|lia|by rewrite Hc|by rewrite F1|done|].
  rewrite (wrapM_Ok _ _ _ _ E2), SM_bind_eq. cbn [deleteSent modS].
  eexists. split; [done|]. split.
  - replace (q + 3) with (q + 2 + 1) by lia. by apply ready_sent.
  - cbn. rewrite lookup_delete_ne by lia. rewrite F2. apply lookup_insert_eq.
Qed.
End resends.

(* ------------------------------------------------------------------ *)
(** * Closed sessions stay closed                                       *)
(* ------------------------------------------------------------------ *)

(** Neither reopens the session nor sends anything. *)
Definition quiet (s s' : Session) : Prop :=
  (state s = stateClosed -> state s' = stateClosed) /\
  written (conn s') = written (conn s).

#[export] Instance quiet_preorder : PreOrder quiet.
Proof.
  split; [by split|]. intros a b c [H1 H2] [H3 H4]. split; [auto|congruence].
Qed.

Definition quietly {A} (m : SM A) : Prop := forall s, quiet s (m s).2.

Lemma quietly_bind {A B} (m : SM A) (f : A -> SM B) :
  quietly m -> (forall a, quietly (f a)) -> quietly (m ≫= f).
Proof.
  intros Hm Hf s. rewrite SM_bind_eq. specialize (Hm s).
  destruct (m s) as [[a| |] s']; cbn in *; [|done..]. etrans; [done|apply Hf].
Qed.
Lemma quietly_attempt {A} (m : SM A) : quietly m -> quietly (attempt m).
Proof. intros Hm s. specialize (Hm s). unfold attempt. by destruct (m s) as [[]]. Qed.
Lemma quietly_ret {A} (a : A) : quietly (mret a).
Proof. by intros s. Qed.
Lemma quietly_raise {A} e : quietly (@raise A e).
Proof. by intros s. Qed.
Lemma quietly_getS : quietly getS.
Proof. by intros s. Qed.
Lemma quietly_Close : quietly Close.
Proof. by intros s. Qed.
Lemma quietly_setDeadline : quietly setDeadline.
Proof. intros s. unfold setDeadline. by destruct (deadlines (conn s)). Qed.
Lemma quietly_connRead : quietly connRead.
Proof. intros s. unfold connRead. by destruct (reads (conn s)). Qed.

Create HintDb quiet.
#[export] Hint Resolve quietly_ret quietly_raise quietly_getS quietly_Close
  quietly_setDeadline quietly_connRead quietly_attempt : quiet.

Lemma quietly_transportError {A} e e' : quietly (@transportError A e e').
Proof.
  unfold transportError. destruct (transportWasClosed e); [|apply quietly_raise].
  apply quietly_bind; auto with quiet.
Qed.
#[export] Hint Resolve quietly_transportError : quiet.

Lemma quietly_readLoop rs : quietly (readLoop rs).
Proof.
  induction rs as [|r rs IH]; intros s; cbn [readLoop];
    (destruct (tryParseFrame _) as [[[n fr]|]| |]; [done| |done..]).
  all: apply (quietly_bind connRead); [apply quietly_connRead|]; intros [d|e]; [|auto with quiet].
  all: apply quietly_bind; [by intros s'|]; intros _; auto with quiet.
Qed.

Lemma quietly_readFrame : quietly readFrame.
Proof.
  unfold readFrame. apply quietly_bind; [auto with quiet|]. intros [e|]; [auto with quiet|].
  apply quietly_bind; [auto with quiet|]. intros s.
  apply quietly_bind; [apply quietly_attempt, quietly_readLoop|]. intros r.
  apply quietly_bind; [auto with quiet|]. intros d.
  destruct r as [fr|e]; [|auto with quiet]. destruct d as [e|]; [|auto with quiet].
  destruct (negb _); auto with quiet.
Qed.

(** A call that fails on a closed session, leaving it closed and silent. *)
Definition halts {A} (m : SM A) : Prop :=
  forall s, state s = stateClosed ->
    isOk (m s).1 = false /\ state (m s).2 = stateClosed /\
    written (conn (m s).2) = written (conn s).

Lemma halts_bind {A B} (m : SM A) (f : A -> SM B) : halts m -> halts (m ≫= f).
Proof.
  intros Hm s Hs. rewrite SM_bind_eq. specialize (Hm s Hs).
  destruct (m s) as [[a| |] s']; cbn in *; [by destruct Hm|done..].
Qed.
Lemma halts_wrapM {A} (m : SM A) : halts m -> halts (wrapM m).
Proof. intros Hm s Hs. specialize (Hm s Hs). unfold wrapM. by destruct (m s) as [[]]. Qed.

(** After a quiet call, the rest decides. *)
Lemma halts_bind_quiet {A B} (m : SM A) (f : A -> SM B) :
  quietly m -> (forall a, halts (f a)) -> halts (m ≫= f).
Proof.
  intros Hm Hf s Hs. rewrite SM_bind_eq. destruct (Hm s) as [Hst Hw].
  destruct (m s) as [[a| |] s']; cbn in *; [|by auto..].
  rewrite <- Hw. apply Hf. auto.
Qed.

Lemma halts_encodeFrame o pl : halts (encodeFrame o pl).
Proof. intros s Hs. unfold encodeFrame, IsClosed. by rewrite bool_decide_eq_true_2. Qed.

Lemma halts_send o pl : halts (send o pl).
Proof.
  unfold send, sendWith. apply halts_bind_quiet; [auto with quiet|]. intros s.
  apply halts_bind, halts_wrapM, halts_encodeFrame.
Qed.

(** Decoding on a closed session fails, never in a way that asks for a
    resend. *)
Lemma decodeFrame_closed w s : state s = stateClosed ->
  exists s', (decodeFrame w s = (Panic, s') \/
              exists e, decodeFrame w s = (Err e, s') /\ isRetryableError e = false) /\
    state s' = stateClosed /\ written (conn s') = written (conn s).
Proof.
  intros Hs. unfold decodeFrame.
  repeat match goal with
  | |- context [if ?b then (_, _) else _] =>
      destruct b; [eexists; split; [first [by left|right; eexists; by split]|by split]|]
  end.
  unfold finishFrame. rewrite validateFrame_closed by done.
  eexists. split; [right; eexists; by split|]. by split.
Qed.

Lemma halts_await ops : halts (await ops).
Proof.
  unfold await. change (Z.to_nat maxConsecutiveResends) with 3%nat. cbn [awaitLoop].
  apply halts_bind_quiet.
  { intros s. pose proof (quietly_readFrame s). unfold wrapM. by destruct (readFrame s). }
  intros w s Hs. rewrite SM_bind_eq.
  destruct (decodeFrame_closed w s Hs) as (s' & [E|(e & E & He)] & Hs' & Hw);
    unfold attempt; rewrite E; cbn; [by split|].
  rewrite He. by split.
Qed.

(* ------------------------------------------------------------------ *)
(** * Theorems                                                          *)
(* ------------------------------------------------------------------ *)

(** The calls of the routing client and of the server, in the order the two
    ends of the receiver make them. *)
Definition clientChecks (id addr : gostring) : SM (bool * bool) :=
  SendStart id ;;
  SendOnBehalfOf addr ;;
  draining ← SendShardCheck;
  msgExists ← SendMessageCheck;
  mret (draining, msgExists).
Definition clientSession (id addr : gostring) (fragment : bytes) : SM (bool * bool) :=
  checks ← clientChecks id addr;
  SendFragment fragment ;;
  mret checks.

Definition serverChecks (running draining msgExists : bool) : SM unit :=
  WaitStart ;;
  WaitOnBehalfOf ;;
  WaitShardCheck ;;
  SendShardStatus running draining ;;
  WaitMessageCheck ;;
  SendMessageStatus msgExists.
Definition serverSession (running draining msgExists : bool) : SM bytes :=
  serverChecks running draining msgExists ;;
  fragment ← WaitFragment;
  SendAccept ;;
  mret fragment.

(** The two byte streams of an accepted fragment. *)
Definition clientPrefix (k : bytes) (id addr : gostring) : bytes :=
  frameWire k 0 opStart id ++ frameWire k 2 opOBO addr ++
  (frameWire k 4 opShardCheck [] ++ frameWire k 7 opAck (encodeSeq 6)) ++
  frameWire k 8 opMsgCheck [] ++ frameWire k 11 opAck (encodeSeq 10).
Definition clientStream (k : bytes) (id addr : gostring) (fragment : bytes) : bytes :=
  clientPrefix k id addr ++ frameWire k 12 opFrgRoute fragment.
Definition serverPrefix (k : bytes) (status existing : byte) : bytes :=
  frameWire k 1 opAck (encodeSeq 0) ++ frameWire k 3 opAck (encodeSeq 2) ++
  (frameWire k 5 opAck (encodeSeq 4) ++ frameWire k 6 opShardStatus [status]) ++
  frameWire k 9 opAck (encodeSeq 8) ++ frameWire k 10 opMsgStatus [existing].
Definition serverEnd (k : bytes) : bytes :=
  frameWire k 13 opAck (encodeSeq 12) ++ frameWire k 14 opAccepted [].
Definition serverStream (k : bytes) (status existing : byte) : bytes :=
  serverPrefix k status existing ++ serverEnd k.

Definition statusByte (running draining : bool) : byte := z2b (shardStatusByte running draining).
Definition existsByte (e : bool) : byte := z2b (if e then msgExisting else msgNew).

(** A fresh session whose transport will deliver a stream. *)
Definition fresh (k : bytes) (s : Session) (input : bytes) : Prop :=
  ready k s stateInit 0 None None input [].

Section corun.
Context (k : bytes).

Lemma ready_SendShardCheck s q i o inp out running draining :
  ready k s stateStarted q i o
    (frameWire k (q + 1) opAck (encodeSeq q) ++
     frameWire k (q + 2) opShardStatus [statusByte running draining] ++ inp) out ->
  0 <= q < maxSequence - 3 -> running || draining = true ->
  exists s', SendShardCheck s = (Ok draining, s') /\
    ready k s' stateStarted (q + 4) i o inp
      (out ++ frameWire k q opShardCheck [] ++ frameWire k (q + 3) opAck (encodeSeq (q + 2))).
Proof.
  intros Hr Hq Hrun.
  destruct (ready_ask k s q i o _ _ opShardCheck opShardStatus _ Hr) as (s1 & s2 & E1 & E2 & R);
    [done|by left|].
  unfold SendShardCheck.
  rewrite SM_bind_eq, (wrapM_Ok _ _ _ _ E1), SM_bind_eq, (wrapM_Ok _ _ _ _ E2).
  exists s2. split; [|done]. by destruct running, draining.
Qed.

Lemma ready_SendMessageCheck s q i o inp out ex :
  ready k s stateStarted q i o
    (frameWire k (q + 1) opAck (encodeSeq q) ++
     frameWire k (q + 2) opMsgStatus [existsByte ex] ++ inp) out ->
  0 <= q < maxSequence - 3 ->
  exists s', SendMessageCheck s = (Ok ex, s') /\
    ready k s' stateStarted (q + 4) i o inp
      (out ++ frameWire k q opMsgCheck [] ++ frameWire k (q + 3) opAck (encodeSeq (q + 2))).
Proof.
  intros Hr Hq.
  destruct (ready_ask k s q i o _ _ opMsgCheck opMsgStatus _ Hr) as (s1 & s2 & E1 & E2 & R);
    [done|by right|].
  unfold SendMessageCheck.
  rewrite SM_bind_eq, (wrapM_Ok _ _ _ _ E1), SM_bind_eq, (wrapM_Ok _ _ _ _ E2).
  exists s2. split; [|done]. by destruct ex.
Qed.

(** The checks before a fragment is sent, whatever comes after them. *)
Lemma client_checks_run s id addr running draining ex inp :
  fresh k s (serverPrefix k (statusByte running draining) (existsByte ex) ++ inp) ->
  running || draining = true -> id <> [] -> len id <= maxPayload -> len addr <= maxPayload ->
  exists s', clientChecks id addr s = (Ok (draining, ex), s') /\
    ready k s' stateStarted 12 None None inp (clientPrefix k id addr).
Proof.
  intros Hr Hrun Hid L1 L2. unfold clientChecks, fresh, serverPrefix in *.
  rewrite <- !app_assoc in Hr.
  destruct (ready_SendStart k s None None _ [] id Hr Hid L1) as (s1 & E1 & R1).
  rewrite SM_bind_eq, E1.
  destruct (ready_SendOnBehalfOf k s1 2 None None _ _ addr R1) as (s2 & E2 & R2); [done..|].
  rewrite SM_bind_eq, E2.
  destruct (ready_SendShardCheck s2 4 None None _ _ running draining R2) as (s3 & E3 & R3);
    [done..|].
  rewrite SM_bind_eq, E3.
  destruct (ready_SendMessageCheck s3 8 None None _ _ ex R3) as (s4 & E4 & R4); [done|].
  rewrite SM_bind_eq, E4. exists s4. split; [done|].
  rewrite <- !app_assoc in R4. unfold clientPrefix. by rewrite <- !app_assoc.
Qed.

Lemma client_runs s id addr f running draining ex :
  fresh k s (serverStream k (statusByte running draining) (existsByte ex)) ->
  running || draining = true -> id <> [] ->
  len id <= maxPayload -> len addr <= maxPayload -> len f <= maxPayload ->
  exists s', clientSession id addr f s = (Ok (draining, ex), s') /\
    ready k s' stateClosed 15 None None [] (clientStream k id addr f).
Proof.
  intros Hr Hrun Hid L1 L2 L3. unfold clientSession.
  destruct (client_checks_run s id addr running draining ex _ Hr) as (s1 & E1 & R1); [done..|].
  rewrite SM_bind_eq, E1. unfold serverEnd in R1.
  rewrite <- (app_nil_r (frameWire k 14 opAccepted [])) in R1.
  destruct (ready_SendFragment k s1 12 None None [] _ f R1) as (s2 & E2 & R2); [done..|].
  rewrite SM_bind_eq, E2. by exists s2.
Qed.

Lemma ready_serve_shard s q i o inp out running draining :
  ready k s stateStarted q i o
    (frameWire k q opShardCheck [] ++ frameWire k (q + 3) opAck (encodeSeq (q + 2)) ++ inp) out ->
  0 <= q < maxSequence - 3 ->
  exists s1 s2, WaitShardCheck s = (Ok tt, s1) /\
    SendShardStatus running draining s1 = (Ok tt, s2) /\
    ready k s2 stateStarted (q + 4) i o inp
      (out ++ frameWire k (q + 1) opAck (encodeSeq q) ++
       frameWire k (q + 2) opShardStatus [statusByte running draining]).
Proof.
  intros Hr Hq.
  destruct (ready_answer k s q i o inp out opShardCheck opShardStatus
              (statusByte running draining) Hr) as (s1 & s2 & E1 & E2 & _ & R); [done|by left|].
  exists s1, s2. unfold WaitShardCheck, SendShardStatus.
  rewrite !SM_bind_eq, (wrapM_Ok _ _ _ _ E1). fold (statusByte running draining).
  by rewrite (wrapM_Ok _ _ _ _ E2).
Qed.

Lemma ready_serve_message s q i o inp out ex :
  ready k s stateStarted q i o
    (frameWire k q opMsgCheck [] ++ frameWire k (q + 3) opAck (encodeSeq (q + 2)) ++ inp) out ->
  0 <= q < maxSequence - 3 ->
  exists s1 s2, WaitMessageCheck s = (Ok tt, s1) /\
    SendMessageStatus ex s1 = (Ok tt, s2) /\ messageID s1 = i /\
    ready k s2 stateStarted (q + 4) i o inp
      (out ++ frameWire k (q + 1) opAck (encodeSeq q) ++
       frameWire k (q + 2) opMsgStatus [existsByte ex]).
Proof.
  intros Hr Hq.
  destruct (ready_answer k s q i o inp out opMsgCheck opMsgStatus
              (existsByte ex) Hr) as (s1 & s2 & E1 & E2 & Ei & R); [done|by right|].
  exists s1, s2. unfold WaitMessageCheck, SendMessageStatus.
  rewrite !SM_bind_eq, (wrapM_Ok _ _ _ _ E1). fold (existsByte ex). by rewrite E2.
Qed.

Lemma server_checks_run s id addr running draining ex inp :
  fresh k s (clientPrefix k id addr ++ inp) ->
  id <> [] -> addr <> [] -> len id <= maxPayload -> len addr <= maxPayload ->
  exists s1 s2 s3 s4 s5 s', WaitStart s = (Ok tt, s1) /\ WaitOnBehalfOf s1 = (Ok tt, s2) /\
    WaitShardCheck s2 = (Ok tt, s3) /\ SendShardStatus running draining s3 = (Ok tt, s4) /\
    WaitMessageCheck s4 = (Ok tt, s5) /\ SendMessageStatus ex s5 = (Ok tt, s') /\
    obo s2 = Some addr /\ messageID s5 = Some id /\
    ready k s' stateStarted 12 (Some id) (Some addr) inp
      (serverPrefix k (statusByte running draining) (existsByte ex)).
Proof.
  intros Hr N1 N2 L1 L2. unfold fresh, clientPrefix in *. rewrite <- !app_assoc in Hr.
  destruct (ready_WaitStart k s _ [] id None Hr N1 L1) as (s1 & E1 & R1).
  destruct (ready_WaitOnBehalfOf k s1 2 (Some id) _ _ addr R1) as (s2 & E2 & R2); [done..|].
  destruct (ready_serve_shard s2 4 _ _ _ _ running draining R2) as (s3 & s4 & E3 & E4 & R4);
    [done|].
  destruct (ready_serve_message s4 8 _ _ _ _ ex R4) as (s5 & s6 & E5 & E6 & Ei & R6); [done|].
  exists s1, s2, s3, s4, s5, s6. split_and!; try done.
  - apply R2.
  - rewrite <- !app_assoc in R6. unfold serverPrefix. by rewrite <- !app_assoc.
Qed.

Lemma server_runs s id addr f running draining ex :
  fresh k s (clientStream k id addr f) ->
  id <> [] -> addr <> [] -> f <> [] ->
  len id <= maxPayload -> len addr <= maxPayload -> len f <= maxPayload ->
  exists s', serverSession running draining ex s = (Ok f, s') /\
    ready k s' stateClosed 15 (Some id) (Some addr) []
      (serverStream k (statusByte running draining) (existsByte ex)).
Proof.
  intros Hr N1 N2 N3 L1 L2 L3. unfold serverSession, serverChecks.
  destruct (server_checks_run s id addr running draining ex _ Hr)
    as (s1 & s2 & s3 & s4 & s5 & s6 & E1 & E2 & E3 & E4 & E5 & E6 & _ & _ & R); [done..|].
  rewrite !SM_bind_eq, E1, SM_bind_eq, E2, SM_bind_eq, E3, SM_bind_eq, E4, SM_bind_eq, E5, E6.
  rewrite <- (app_nil_r (frameWire k 12 opFrgRoute f)) in R.
  destruct (ready_WaitFragment k s6 12 _ _ [] _ f R) as (s7 & E7 & R7); [done..|].
  rewrite SM_bind_eq, E7.
  destruct (ready_SendAccept k s7 14 _ _ _ _ R7) as (s8 & E8 & R8); [done|].
  rewrite SM_bind_eq, E8. exists s8. split; [done|].
  rewrite <- !app_assoc in R8. unfold serverStream, serverEnd. exact R8.
Qed.
End corun.

(** C6: a routed fragment arrives: when each end reads what the other
    writes, cut into reads in any way, the client's calls all succeed and
    report the server's status, the server gets the fragment under the
    client's message identifier and original sender, each end has sent
    exactly the stream the other expects, and both sessions end closed. *)
Theorem session_succeeds k c s id addr f running draining ex :
  fresh k c (serverStream k (statusByte running draining) (existsByte ex)) ->
  fresh k s (clientStream k id addr f) ->
  running || draining = true -> id <> [] -> addr <> [] -> f <> [] ->
  len id <= maxPayload -> len addr <= maxPayload -> len f <= maxPayload ->
  exists c' s',
    clientSession id addr f c = (Ok (draining, ex), c') /\
    serverSession running draining ex s = (Ok f, s') /\
    written (conn c') = clientStream k id addr f /\
    written (conn s') = serverStream k (statusByte running draining) (existsByte ex) /\
    MessageID s' = id /\ OriginalSender s' = addr /\
    state c' = stateClosed /\ state s' = stateClosed.
Proof.
  intros Hc Hs Hrun N1 N2 N3 L1 L2 L3.
  destruct (client_runs k c id addr f running draining ex) as (c' & Ec & []); [done..|].
  destruct (server_runs k s id addr f running draining ex) as (s' & Es & []); [done..|].
  exists c', s'. unfold MessageID, OriginalSender. rewrite rd_id1, rd_obo1. by split_and!.
Qed.

(** Every call of the public interface. *)
Definition publicCalls (id addr : gostring) (f : bytes) (a b : bool) : list (SM unit) :=
  [SendStart id; WaitStart; SendAccept; SendReject; SendOnBehalfOf addr; WaitOnBehalfOf;
   SendShardCheck ;; mret tt; WaitShardCheck; SendShardStatus a b;
   SendMessageCheck ;; mret tt; WaitMessageCheck; SendMessageStatus a;
   SendFragment f; WaitFragment ;; mret tt].

(** A closed session stays closed: every call fails, nothing is sent any
    more and no call reopens the session. *)
Theorem closed_session_halts id addr f a b :
  Forall halts (publicCalls id addr f a b).
Proof.
  assert (forall op pl, halts (wrapM (send op pl))) as Hs
    by (intros; apply halts_wrapM, halts_send).
  assert (forall ops, halts (wrapM (await ops))) as Ha
    by (intros; apply halts_wrapM, halts_await).
  unfold publicCalls. repeat apply Forall_cons_2; try apply Forall_nil_2;
    try solve [apply halts_bind, Hs | apply halts_bind, Ha | apply halts_bind, halts_send
              | apply halts_bind, halts_bind, Hs | apply halts_bind, halts_bind, Ha].
  unfold SendStart. destruct (bool_decide (id = [])); [|apply halts_bind, Hs].
  intros s Hst. by split.
Qed.

(** A send can succeed without ever being acknowledged: a peer that
    answers the frame and its first two resends with a resend request makes
    [send] return success after the third resend. *)
Theorem send_without_ack k s q i o inp out op pl :
  ready k s stateStarted q i o
    (frameWire k (q + 1) opResend (encodeSeq q) ++
     frameWire k (q + 3) opResend (encodeSeq (q + 2)) ++
     frameWire k (q + 5) opResend (encodeSeq (q + 4)) ++ inp) out ->
  0 <= q < maxSequence - 6 -> len pl <= maxPayload -> requiresAck op = true ->
  exists s', send op pl s = (Ok q, s') /\
    ready k s' stateStarted (q + 7) i o inp
      (out ++ frameWire k q op pl ++ frameWire k (q + 2) op pl ++
       frameWire k (q + 4) op pl ++ frameWire k (q + 6) op pl).
Proof.
  intros Hr Hq Hp Ho. unfold send, sendWith. rewrite SM_bind_eq. cbn [getS].
  rewrite (rd_seq _ _ _ _ _ _ _ _ Hr).
  destruct (ready_encode k _ _ _ _ _ _ _ op pl Hr) as (s1 & E1 & R1 & F1); [done|lia|done|].
  rewrite SM_bind_eq, (wrapM_Ok _ _ _ _ E1).
  destruct (ready_write k _ _ _ _ _ _ _ (frameWire k q op pl) R1) as (s2 & E2 & R2 & F2).
  { apply frameWire_nonempty. }
  rewrite SM_bind_eq, (attempt_Ok _ _ _ _ E2), Ho, SM_bind_eq.
  assert (sentFrames s2 !! q = Some (mkFrame q op pl)) as S2
    by (rewrite F2, F1; apply lookup_insert_eq).
  destruct (ready_resend_round k 2 s2 stateStarted q i o _ _ op pl R2) as (s3 & E3 & R3 & S3);
    [done|lia|done|done|].
  replace (q + 3) with (q + 2 + 1) in R3 at 1 by lia.
  replace (q + 3) with (q + 2 + 1) in R3 by lia. replace (q + 4) with (q + 2 + 2) in R3 by lia.
  destruct (ready_resend_round k 1 s3 stateStarted (q + 2) i o (frameWire k (q + 5) opResend (encodeSeq (q + 2 + 2)) ++ inp) _ op pl R3) as (s4 & E4 & R4 & S4);
    [done|lia|done|done|].
  replace (q + 5) with (q + 2 + 2 + 1) in R4 by lia.
  replace (q + 2 + 3) with (q + 2 + 2 + 1) in R4 by lia.
  destruct (ready_resend_round k 0 s4 stateStarted (q + 2 + 2) i o inp _ op pl R4)
    as (s5 & E5 & R5 & S5); [done|lia|done|done|].
  exists s5. split.
  - assert (awaitAck q s2 = (Ok tt, s5)) as E.
    { unfold awaitAck. change (Z.to_nat maxConsecutiveResends) with 3%nat.
      by rewrite E3, E4, E5. }
    by rewrite (wrapM_Ok _ _ _ _ E).
  - replace (q + 7) with (q + 2 + 2 + 3) by lia. replace (q + 6) with (q + 2 + 2 + 2) by lia.
    replace (q + 4) with (q + 2 + 2) by lia. by rewrite <- !app_assoc in R5.
Qed.

(* ------------------------------------------------------------------ *)
(** * Examples                                                          *)
(* ------------------------------------------------------------------ *)

Lemma fresh_example stream :
  fresh exampleSecret (exampleSession stateInit 0 stream) stream.
Proof. constructor; try reflexivity. eexists. split; [reflexivity|]. apply concat_byteByByte. Qed.

Lemma session_succeeds_witness :
  exists c' s',
    clientSession (str "77-9") (str "10.0.0.7") (str "fragment")
      (exampleSession stateInit 0
         (serverStream exampleSecret (statusByte true true) (existsByte true))) =
      (Ok (true, true), c') /\
    serverSession true true true
      (exampleSession stateInit 0
         (clientStream exampleSecret (str "77-9") (str "10.0.0.7") (str "fragment"))) =
      (Ok (str "fragment"), s') /\ MessageID s' = str "77-9".
Proof.
  destruct (session_succeeds exampleSecret
    (exampleSession stateInit 0 (serverStream exampleSecret (statusByte true true) (existsByte true)))
    (exampleSession stateInit 0
       (clientStream exampleSecret (str "77-9") (str "10.0.0.7") (str "fragment")))
    (str "77-9") (str "10.0.0.7") (str "fragment") true true true)
    as (c' & s' & H1 & H2 & _ & _ & H3 & _).
  1-2: apply fresh_example.
  1-7: by vm_compute.
  exists c', s'. split; [exact H1|]. split; [exact H2|exact H3].
Defined.

Lemma send_without_ack_witness :
  exists s', send opFrgRoute (str "fragment")
    (exampleSession stateStarted 12
       (frameWire exampleSecret 13 opResend (encodeSeq 12) ++
        frameWire exampleSecret 15 opResend (encodeSeq 14) ++
        frameWire exampleSecret 17 opResend (encodeSeq 16))) = (Ok 12, s') /\
    seq s' = 19.
Proof.
  destruct (send_without_ack exampleSecret
    (exampleSession stateStarted 12
       (frameWire exampleSecret 13 opResend (encodeSeq 12) ++
        frameWire exampleSecret 15 opResend (encodeSeq 14) ++
        frameWire exampleSecret 17 opResend (encodeSeq 16)))
    12 None None [] [] opFrgRoute (str "fragment")) as (s' & H & Hr).
  - constructor; try reflexivity. eexists. split; [reflexivity|]. rewrite app_nil_r.
    apply concat_byteByByte.
  - by vm_compute.
  - by vm_compute.
  - reflexivity.
  - exists s'. split; [exact H|]. exact (rd_seq _ _ _ _ _ _ _ _ Hr).
Defined.
