(* ===== verification/NetAddr.v ===== *)
(** Text of addresses and integers ([net/netip]'s [Addr.String] and
    [ParseAddr], [strconv.FormatInt]), which the receiver uses as the key of
    a message's bucket and sends to other processes. *)
From stdpp Require Import pretty.
From S2P Require Import Prelude Registry Context Consts.

(* ------------------------------------------------------------------ *)
(** * Numbers                                                           *)
(* ------------------------------------------------------------------ *)

Definition digit (d : Z) : byte := z2b (48 + d).

(** Decimal digits of a non-negative number; the number of its binary digits
    bounds the number of its decimal digits. *)
Fixpoint digitsFuel (fuel : nat) (z : Z) (acc : bytes) : bytes :=
  match fuel with
  | O => acc
  | S fuel =>
      let acc := digit (z mod 10) :: acc in
      if z <? 10 then acc else digitsFuel fuel (z / 10) acc
  end.
Definition digits (z : Z) : bytes := digitsFuel (S (Z.to_nat (Z.log2 z))) z [].

(** [strconv.FormatInt(z, 10)] *)
Definition FormatInt (z : Z) : gostring :=
  if z <? 0 then z2b 45 :: digits (- z) else digits z.

Definition hexDigit (d : Z) : byte := z2b (if d <? 10 then 48 + d else 87 + d).
Definition appendHex (x : Z) : gostring :=
  (if 0x1000 <=? x then [hexDigit (x / 0x1000)] else []) ++
  (if 0x100 <=? x then [hexDigit (x / 0x100 mod 16)] else []) ++
  (if 0x10 <=? x then [hexDigit (x / 0x10 mod 16)] else []) ++
  [hexDigit (x mod 16)].

(** Every byte is a decimal digit. *)
Definition isDigit (b : byte) : bool := (48 <=? b2z b) && (b2z b <=? 57).

Fixpoint decimal (l : bytes) (acc : Z) : Z :=
  match l with
  | [] => acc
  | b :: l => decimal l (10 * acc + (b2z b - 48))
  end.

(* ------------------------------------------------------------------ *)
(** * [Addr.String]                                                     *)
(* ------------------------------------------------------------------ *)

Definition string4 (a b c d : byte) : gostring :=
  digits (b2z a) ++ str "." ++ digits (b2z b) ++ str "." ++ digits (b2z c) ++ str "." ++
  digits (b2z d).

(** The length of the run of zero groups at the head, and the first longest
    run of at least two: start and end. *)
Fixpoint zeroRun (groups : list Z) : nat :=
  match groups with
  | 0 :: groups => S (zeroRun groups)
  | _ => O
  end.
Fixpoint longestRun (i : nat) (groups : list Z) (best : option (nat * nat)) : option (nat * nat) :=
  match groups with
  | [] => best
  | _ :: rest =>
      let l := zeroRun groups in
      let old := match best with Some (s, e) => (e - s)%nat | None => O end in
      longestRun (S i) rest
        (if (2 <=? l)%nat && (old <? l)%nat then Some (i, (i + l)%nat) else best)
  end.

Definition joinGroups (groups : list Z) : gostring :=
  match groups with
  | [] => []
  | g :: gs => appendHex g ++ concat (map (fun g => str ":" ++ appendHex g) gs)
  end.
Definition string6 (groups : list Z) : gostring :=
  match longestRun 0 groups None with
  | Some (s, e) => joinGroups (take s groups) ++ str "::" ++ joinGroups (drop e groups)
  | None => joinGroups groups
  end.

Definition AddrString (ip : Addr) : gostring :=
  match ip with
  | AddrZero => str "invalid IP"
  | AddrV4 a b c d => string4 a b c d
  | AddrV6 groups zone =>
      let withZone := if bool_decide (zone = []) then [] else str "%" ++ zone in
      match groups with
      | [0; 0; 0; 0; 0; 0xffff; hi; lo] =>
          str "::ffff:" ++
          string4 (z2b (hi / 256)) (z2b hi) (z2b (lo / 256)) (z2b lo) ++ withZone
      | _ => string6 groups ++ withZone
      end
  end.

(* ------------------------------------------------------------------ *)
(** * [ParseAddr]                                                       *)
(* ------------------------------------------------------------------ *)

(** Cuts at the first byte [c]. *)
Fixpoint cutAt (c : byte) (s : bytes) : bytes * option bytes :=
  match s with
  | [] => ([], None)
  | b :: s =>
      if bool_decide (b = c) then ([], Some s)
      else let '(l, r) := cutAt c s in (b :: l, r)
  end.

(** One field of [parseIPv4Fields]: digits without a leading zero. *)
Definition parseField (s : bytes) : option byte :=
  if negb (forallb isDigit s) then None
  else match s with
  | [] => None
  | [b] => Some (z2b (decimal s 0))
  | b :: _ => if bool_decide (b = z2b 48) || (255 <? decimal s 0) then None
              else Some (z2b (decimal s 0))
  end.
Fixpoint parseFields (n : nat) (s : bytes) : option (list byte) :=
  match n, cutAt (z2b 46) s with
  | O, _ => None
  | 1%nat, (f, None) => b ← parseField f; Some [b]
  | S n, (f, Some rest) => b ← parseField f; bs ← parseFields n rest; Some (b :: bs)
  | _, _ => None
  end.

Definition hexValue (b : byte) : option Z :=
  let c := b2z b in
  if (48 <=? c) && (c <=? 57) then Some (c - 48)
  else if (97 <=? c) && (c <=? 102) then Some (c - 87)
  else if (65 <=? c) && (c <=? 70) then Some (c - 55)
  else None.
(** A hex number of one to four digits, and the rest. *)
Fixpoint hexNumber (off : nat) (s : bytes) (acc : Z) : option (Z * bytes) :=
  match s with
  | b :: s' =>
      match hexValue b with
      | Some v => if (3 <? off)%nat then None else hexNumber (S off) s' (acc * 16 + v)
      | None => if (off =? 0)%nat then None else Some (acc, s)
      end
  | [] => if (off =? 0)%nat then None else Some (acc, [])
  end.

(** The loop over at most [n] more groups; [done] are the groups read and
    [ellipsis] the position of the double colon. *)
Fixpoint parseGroups (n : nat) (s : bytes) (done : list Z) (ellipsis : option nat)
  : option (list Z * option nat * bytes) :=
  match n with
  | O => Some (done, ellipsis, s)
  | S n =>
      '(acc, rest) ← hexNumber 0 s 0;
      match rest with
      | [] => Some (done ++ [acc], ellipsis, [])
      | c :: rest' =>
          if bool_decide (c = z2b 46) then
            if bool_decide (ellipsis = None) && negb (length done =? 6)%nat then None
            else if (6 <? length done)%nat then None
            else
              fs ← parseFields 4 s;
              match fs with
              | [a; b; c; d] => Some (done ++ [be_decode [a; b]; be_decode [c; d]], ellipsis, [])
              | _ => None
              end
          else if negb (bool_decide (c = z2b 58)) then None
          else match rest' with
          | [] => None
          | c' :: rest'' =>
              if bool_decide (c' = z2b 58) then
                if bool_decide (ellipsis = None)
                then match rest'' with
                     | [] => Some (done ++ [acc], Some (S (length done)), [])
                     | _ => parseGroups n rest'' (done ++ [acc]) (Some (S (length done)))
                     end
                else None
              else parseGroups n rest' (done ++ [acc]) ellipsis
          end
      end
  end.

Definition parseIPv6 (s : bytes) : option Addr :=
  let '(s, z) := cutAt (z2b 37) s in
  if bool_decide (z = Some []) then None
  else
    let zone := default [] z in
    '(groups, ellipsis, rest) ←
      match s with
      | x :: y :: s' =>
          if bool_decide (x = z2b 58) && bool_decide (y = z2b 58)
          then match s' with [] => Some ([], Some O, []) | _ => parseGroups 8 s' [] (Some O) end
          else parseGroups 8 s [] None
      | _ => parseGroups 8 s [] None
      end;
    if negb (bool_decide (rest = [])) then None
    else match ellipsis with
    | None => if (length groups <? 8)%nat then None else Some (AddrV6 groups zone)
    | Some e =>
        if (length groups <? 8)%nat
        then Some (AddrV6 (take e groups ++ repeat 0 (8 - length groups) ++ drop e groups) zone)
        else None
    end.

(** The first dot, colon or percent sign decides. *)
Fixpoint ParseAddrFrom (rest s : bytes) : option Addr :=
  match rest with
  | [] => None
  | c :: rest =>
      if bool_decide (c = z2b 46) then
        fs ← parseFields 4 s;
        match fs with [a; b; c; d] => Some (AddrV4 a b c d) | _ => None end
      else if bool_decide (c = z2b 58) then parseIPv6 s
      else if bool_decide (c = z2b 37) then None
      else ParseAddrFrom rest s
  end.
Definition ParseAddr (s : gostring) : option Addr := ParseAddrFrom s s.

(* ------------------------------------------------------------------ *)
(** * Facts                                                             *)
(* ------------------------------------------------------------------ *)

Lemma digit_range d : 0 <= d < 10 -> b2z (digit d) = 48 + d /\ isDigit (digit d) = true.
Proof.
  intros Hd. unfold isDigit, digit. rewrite b2z_z2b, Z.mod_small by lia. split; [done|].
  apply andb_true_iff. rewrite !Z.leb_le. lia.
Qed.

Lemma digitsFuel_app fuel z acc : digitsFuel fuel z acc = digitsFuel fuel z [] ++ acc.
Proof.
  revert z acc. induction fuel as [|fuel IH]; intros z acc; [done|]. cbn [digitsFuel].
  destruct (z <? 10); [done|]. by rewrite IH, (IH _ [_]), <- app_assoc.
Qed.

Lemma decimal_app l k acc : decimal (l ++ k) acc = decimal k (decimal l acc).
Proof. revert acc. induction l as [|b l IH]; intros acc; cbn; auto. Qed.

Lemma digitsFuel_spec fuel z :
  0 <= z < 10 ^ Z.of_nat fuel ->
  decimal (digitsFuel fuel z []) 0 = z /\ Forall (fun b => isDigit b = true) (digitsFuel fuel z []).
Proof.
  revert z. induction fuel as [|fuel IH]; intros z Hz; cbn [digitsFuel].
  - change (10 ^ Z.of_nat 0) with 1 in Hz. split; [cbn; lia|constructor].
  - assert (0 <= z mod 10 < 10) as Hm by (apply Z.mod_pos_bound; lia).
    destruct (digit_range _ Hm) as [H1 H2]. pose proof (Z.div_mod z 10 ltac:(lia)) as Hdm.
    destruct (Z.ltb_spec z 10).
    + cbn [decimal]. rewrite H1. split; [rewrite Z.mod_small in *; lia|by repeat constructor].
    + rewrite digitsFuel_app, decimal_app.
      replace (Z.of_nat (S fuel)) with (Z.succ (Z.of_nat fuel)) in Hz by lia.
      rewrite Z.pow_succ_r in Hz by lia.
      destruct (IH (z / 10)) as [-> Hf]; [split; [apply Z.div_pos; lia|apply Z.div_lt_upper_bound; lia]|].
      cbn [decimal]. rewrite H1. split; [lia|]. apply Forall_app. by repeat constructor.
Qed.

Lemma digits_spec z :
  0 <= z -> decimal (digits z) 0 = z /\ Forall (fun b => isDigit b = true) (digits z).
Proof.
  intros Hz. apply digitsFuel_spec. split; [done|]. rewrite Nat2Z.inj_succ.
  rewrite Z2Nat.id by apply Z.log2_nonneg.
  destruct (Z.eqb_spec z 0) as [->|]; [done|]. pose proof (Z.log2_spec z ltac:(lia)) as [_ H].
  eapply Z.lt_le_trans; [exact H|]. apply Z.pow_le_mono_l. pose proof (Z.log2_nonneg z). lia.
Qed.

Lemma digits_inj z z' : 0 <= z -> 0 <= z' -> digits z = digits z' -> z = z'.
Proof.
  intros H H' E. rewrite <- (proj1 (digits_spec z H)), <- (proj1 (digits_spec z' H')). by rewrite E.
Qed.

Lemma FormatInt_digits z : 0 <= z -> FormatInt z = digits z.
Proof. intros. unfold FormatInt. by rewrite (proj2 (Z.ltb_ge _ _)). Qed.

(** No byte of a number is the separator [c]. *)
Lemma digits_without c z : isDigit c = false -> 0 <= z -> c ∉ digits z.
Proof.
  intros Hc Hz Hin. destruct (digits_spec z Hz) as [_ H].
  rewrite Forall_forall in H. apply H in Hin. congruence.
Qed.

(** Equal texts with a separator that the tails do not contain. *)
Lemma last_separator (c : byte) (l l' k k' : bytes) :
  c ∉ k -> c ∉ k' -> l ++ c :: k = l' ++ c :: k' -> l = l' /\ k = k'.
Proof.
  intros Hk Hk' E. apply app_eq_inv in E as [(m & -> & E)|(m & -> & E)]; destruct m as [|b m].
  1, 3: rewrite app_nil_r; injection E as ->; done.
  - injection E as -> ->. destruct Hk'. apply elem_of_app. right. by left.
  - injection E as -> ->. destruct Hk. apply elem_of_app. right. by left.
Qed.

Lemma cutAt_app c l r : c ∉ l -> cutAt c (l ++ c :: r) = (l, Some r).
Proof.
  induction l as [|b l IH]; intros Hn; cbn [app cutAt].
  - by rewrite bool_decide_eq_true_2.
  - apply not_elem_of_cons in Hn as [Hb Hn]. rewrite bool_decide_eq_false_2 by (by intros ->).
    by rewrite IH.
Qed.
Lemma cutAt_none c l : c ∉ l -> cutAt c l = (l, None).
Proof.
  induction l as [|b l IH]; intros Hn; cbn [cutAt]; [done|].
  apply not_elem_of_cons in Hn as [Hb Hn]. rewrite bool_decide_eq_false_2 by (by intros ->).
  by rewrite IH.
Qed.

(** Checked on all bytes. *)
Lemma parseField_digits b : parseField (digits (b2z b)) = Some b.
Proof. by destruct b; vm_compute. Qed.
Lemma digits_byte_dotless b : z2b 46 ∉ digits (b2z b).
Proof. apply digits_without; [done|apply b2z_range]. Qed.

Lemma ParseAddrFrom_digits l rest s :
  Forall (fun b => isDigit b = true) l -> ParseAddrFrom (l ++ rest) s = ParseAddrFrom rest s.
Proof.
  induction 1 as [|b l Hb _ IH]; [done|]. cbn [app ParseAddrFrom].
  rewrite !bool_decide_eq_false_2 by (by intros ->). done.
Qed.

(** The text of an IPv4 address parses back. *)
Lemma ParseAddr_v4 a b c d : ParseAddr (AddrString (AddrV4 a b c d)) = Some (AddrV4 a b c d).
Proof.
  unfold ParseAddr. set (s := AddrString _) at 2. cbn [AddrString]. unfold string4.
  rewrite ParseAddrFrom_digits by apply digits_spec, b2z_range. cbn [app str ParseAddrFrom].
  change (str ".") with [z2b 46]. cbn [app ParseAddrFrom].
  rewrite bool_decide_eq_true_2 by done. subst s. cbn [AddrString]. unfold string4.
  change (str ".") with [z2b 46]. cbn [app parseFields].
  rewrite cutAt_app by apply digits_byte_dotless.
  rewrite cutAt_app by apply digits_byte_dotless.
  rewrite cutAt_app by apply digits_byte_dotless.
  rewrite cutAt_none by apply digits_byte_dotless. by rewrite !parseField_digits.
Qed.

Example ParseAddr_texts :
  map (fun s => AddrString <$> ParseAddr (str s))
    ["::1"; "2001:db8:0:0:1:0:0:1"; "::ffff:1.2.3.4"; "fe80::1%eth-0"; "1:2:3:4:5:6:7::";
     "256.1.1.1"; "01.2.3.4"; "1::2::3"; "12345::"]%string =
  [Some (str "::1"); Some (str "2001:db8::1:0:0:1"); Some (str "::ffff:1.2.3.4");
   Some (str "fe80::1%eth-0"); Some (str "1:2:3:4:5:6:7:0"); None; None; None; None].
Proof. by vm_compute. Qed.
