(* ===== verification/GoStrings.v ===== *)
(** What the program uses of Go's [strings], [bytes] and [strconv] packages
    besides the functions of [Text] and [NetAddr]. Indices are [Z], absence is
    [-1] as in Go; the parsers of numbers return [None] where Go returns an
    error. *)
From S2P Require Import Prelude Text Registry Context Consts NetAddr.

(* ------------------------------------------------------------------ *)
(** * Joining, splitting, searching                                     *)
(* ------------------------------------------------------------------ *)

(** [strings.Join] *)
Fixpoint join (sep : gostring) (l : list gostring) : gostring :=
  match l with
  | [] => []
  | [s] => s
  | s :: l => s ++ sep ++ join sep l
  end.

(** [strings.Split] at a separator of one byte. *)
Fixpoint split (sep : byte) (s : gostring) : list gostring :=
  match s with
  | [] => [[]]
  | c :: s =>
      if bool_decide (c = sep) then [] :: split sep s
      else match split sep s with
      | h :: t => (c :: h) :: t
      | [] => [[c]]
      end
  end.

(** [strings.IndexByte] (and [strings.Index] of one byte). *)
Fixpoint IndexByte (s : gostring) (c : byte) : Z :=
  match s with
  | [] => -1
  | b :: s => if bool_decide (b = c) then 0 else let i := IndexByte s c in if i <? 0 then i else i + 1
  end.

Definition TrimPrefix (s prefix : gostring) : gostring :=
  if hasPrefix prefix s then drop (length prefix) s else s.
Definition TrimSuffix (s suffix : gostring) : gostring :=
  if hasSuffix suffix s then take (length s - length suffix) s else s.

(** [s[lo:hi]] where the code has checked the bounds; [before] and [after] are
    [s[:i]] and [s[i:]]. *)
Definition before (s : gostring) (i : Z) : gostring := take (Z.to_nat i) s.
Definition after (s : gostring) (i : Z) : gostring := drop (Z.to_nat i) s.

(** [filepath.Base] on Unix: the text after the last slash, trailing slashes
    aside. *)
Definition slashByte : byte := z2b 47.
Fixpoint dropSlashes (reversed : bytes) : bytes :=
  match reversed with
  | c :: r => if bool_decide (c = slashByte) then dropSlashes r else reversed
  | [] => []
  end.
Fixpoint untilSlash (reversed : bytes) : bytes :=
  match reversed with
  | c :: r => if bool_decide (c = slashByte) then [] else c :: untilSlash r
  | [] => []
  end.
Definition Base (path : gostring) : gostring :=
  if bool_decide (path = []) then str "."
  else match dropSlashes (reverse path) with
  | [] => [slashByte]
  | r => reverse (untilSlash r)
  end.

(* ------------------------------------------------------------------ *)
(** * White space                                                       *)
(* ------------------------------------------------------------------ *)

(** The encodings of the runes of [unicode.IsSpace]. No encoding starts inside
    another rune, so that they can be looked for byte by byte. *)
Definition spaces : list bytes :=
  map (fun z => [z2b z]) [9; 10; 11; 12; 13; 32] ++
  map (fun z => [z2b 0xC2; z2b z]) [0x85; 0xA0] ++ [map z2b [0xE1; 0x9A; 0x80]] ++
  map (fun z => map z2b [0xE2; 0x80; z])
    [0x80; 0x81; 0x82; 0x83; 0x84; 0x85; 0x86; 0x87; 0x88; 0x89; 0x8A; 0xA8; 0xA9; 0xAF] ++
  [map z2b [0xE2; 0x81; 0x9F]; map z2b [0xE3; 0x80; 0x80]].

(** The length of the element of [cut] that [s] starts with, or [0]. *)
Fixpoint cutLength (cut : list bytes) (s : bytes) : nat :=
  match cut with
  | [] => O
  | p :: cut => if hasPrefix p s then length p else cutLength cut s
  end.
(** Drops elements of [cut] from the front. *)
Fixpoint trimFuel (fuel : nat) (cut : list bytes) (s : bytes) : bytes :=
  match fuel, cutLength cut s with
  | S fuel, S n => trimFuel fuel cut (drop (S n) s)
  | _, _ => s
  end.
Definition trimLeft (cut : list bytes) (s : bytes) : bytes := trimFuel (length s) cut s.
Definition trimRight (cut : list bytes) (s : bytes) : bytes :=
  reverse (trimLeft (map reverse cut) (reverse s)).
Definition TrimSpace (s : gostring) : gostring := trimRight spaces (trimLeft spaces s).
(** [strings.Trim(s, "\n")] *)
Definition newline : byte := z2b 10.
Definition TrimNewlines (s : gostring) : gostring := trimRight [[newline]] (trimLeft [[newline]] s).

(** [strings.Fields]: [field] is the field under way. *)
Fixpoint fieldsFuel (fuel : nat) (field s : bytes) : list gostring :=
  let flush := if bool_decide (field = []) then [] else [field] in
  match fuel, s with
  | S fuel, c :: s' =>
      match cutLength spaces s with
      | S n => flush ++ fieldsFuel fuel [] (drop (S n) s)
      | O => fieldsFuel fuel (field ++ [c]) s'
      end
  | _, _ => flush
  end.
Definition Fields (s : gostring) : list gostring := fieldsFuel (length s) [] s.

(* ------------------------------------------------------------------ *)
(** * Numbers                                                           *)
(* ------------------------------------------------------------------ *)

(** [strconv.ParseUint(s, 10, 64)] *)
Definition ParseUint (s : gostring) : option Z :=
  if bool_decide (s = []) || negb (forallb isDigit s) || (2 ^ 64 <=? decimal s 0) then None
  else Some (decimal s 0).

(** The sign and the rest. *)
Definition signOf (s : gostring) : bool * gostring :=
  match s with
  | c :: rest =>
      if bool_decide (c = z2b 45) then (true, rest)
      else if bool_decide (c = z2b 43) then (false, rest) else (false, s)
  | [] => (false, s)
  end.
Definition signed64 (negative : bool) (magnitude : option Z) : option Z :=
  un ← magnitude;
  if negative then if 2 ^ 63 <? un then None else Some (- un)
  else if 2 ^ 63 <=? un then None else Some un.

(** [strconv.Atoi] and [strconv.ParseInt(s, 10, 64)]. *)
Definition Atoi (s : gostring) : option Z :=
  let '(negative, digits) := signOf s in signed64 negative (ParseUint digits).

(** [strconv.ParseInt(s, 0, 64)]: a prefix gives the base, and underscores may
    separate digits. *)
Definition underscore : byte := z2b 95.
Definition lower (b : byte) : Z := Z.lor (b2z b) 32.
Inductive seen := SawStart | SawDigit | SawUnderscore | SawOther.
Fixpoint underscoresFrom (hex : bool) (saw : seen) (s : bytes) : bool :=
  match s with
  | [] => match saw with SawUnderscore => false | _ => true end
  | b :: s =>
      if isDigit b || (hex && (97 <=? lower b) && (lower b <=? 102)) then underscoresFrom hex SawDigit s
      else if bool_decide (b = underscore) then
        match saw with SawDigit => underscoresFrom hex SawUnderscore s | _ => false end
      else match saw with SawUnderscore => false | _ => underscoresFrom hex SawOther s end
  end.
Definition prefixBase (s : bytes) : option Z :=
  match s with
  | z :: x :: _ =>
      if negb (bool_decide (z = z2b 48)) then None
      else if lower x =? 98 then Some 2
      else if lower x =? 111 then Some 8
      else if lower x =? 120 then Some 16 else None
  | _ => None
  end.
Definition underscoreOK (s : bytes) : bool :=
  match prefixBase s with
  | Some base => underscoresFrom (base =? 16) SawDigit (drop 2 s)
  | None => underscoresFrom false SawStart s
  end.
(** The value of a digit, whatever the base. *)
Definition digitValue (b : byte) : option Z :=
  if isDigit b then Some (b2z b - 48)
  else if (97 <=? lower b) && (lower b <=? 122) then Some (lower b - 87) else None.
Fixpoint accumulate (base : Z) (s : bytes) (acc : Z) : option Z :=
  match s with
  | [] => Some acc
  | b :: s =>
      if bool_decide (b = underscore) then accumulate base s acc
      else
        d ← digitValue b;
        if base <=? d then None else accumulate base s (acc * base + d)
  end.
Definition ParseInt0 (s : gostring) : option Z :=
  let '(negative, s0) := signOf s in
  if bool_decide (s0 = []) then None
  else
    let '(base, digits) :=
      match prefixBase s0 with
      | Some base => if 3 <=? len s0 then (base, drop 2 s0) else (8, drop 1 s0)
      | None => if hasPrefix [z2b 48] s0 then (8, drop 1 s0) else (10, s0)
      end in
    signed64 negative
      (un ← accumulate base digits 0;
       if (2 ^ 64 <=? un) || (negb (bool_decide (underscore ∉ s0)) && negb (underscoreOK s0))
       then None else Some un).

(* ------------------------------------------------------------------ *)
(** * Facts                                                             *)
(* ------------------------------------------------------------------ *)

Lemma split_absent sep s : sep ∉ s -> split sep s = [s].
Proof.
  induction s as [|c s IH]; intros Hn; [done|]. apply not_elem_of_cons in Hn as [Hc Hn].
  cbn [split]. by rewrite bool_decide_eq_false_2, IH by (done || by intros ->).
Qed.
Lemma split_app sep s t : sep ∉ s -> split sep (s ++ sep :: t) = s :: split sep t.
Proof.
  induction s as [|c s IH]; intros Hn; cbn [app split].
  - by rewrite bool_decide_eq_true_2.
  - apply not_elem_of_cons in Hn as [Hc Hn].
    by rewrite bool_decide_eq_false_2, IH by (done || by intros ->).
Qed.
(** Splitting inverts joining. *)
Lemma split_join sep l : l <> [] -> Forall (fun s => sep ∉ s) l -> split sep (join [sep] l) = l.
Proof.
  induction l as [|s l IH]; intros Hne H; [done|]. apply Forall_cons in H as [Hs Hl].
  destruct l as [|t l]; [by apply split_absent|].
  change (join [sep] (s :: t :: l)) with (s ++ [sep] ++ join [sep] (t :: l)).
  cbn [app]. rewrite split_app by done. by rewrite IH.
Qed.

Lemma IndexByte_absent s c : c ∉ s -> IndexByte s c = -1.
Proof.
  induction s as [|b s IH]; intros Hn; [done|]. apply not_elem_of_cons in Hn as [Hb Hn].
  cbn [IndexByte]. by rewrite bool_decide_eq_false_2, IH by (done || by intros ->).
Qed.
Lemma IndexByte_app s c t : c ∉ s -> IndexByte (s ++ c :: t) c = len s.
Proof.
  induction s as [|b s IH]; intros Hn; cbn [app IndexByte].
  - by rewrite bool_decide_eq_true_2.
  - apply not_elem_of_cons in Hn as [Hb Hn].
    rewrite bool_decide_eq_false_2, IH, len_cons by (done || by intros ->).
    pose proof (len_nonneg s). cbv zeta. rewrite (proj2 (Z.ltb_ge _ _)) by lia. lia.
Qed.

Lemma before_app s t : before (s ++ t) (len s) = s.
Proof. unfold before, len. by rewrite Nat2Z.id, take_app_length. Qed.
Lemma after_app s t : after (s ++ t) (len s) = t.
Proof. unfold after, len. by rewrite Nat2Z.id, drop_app_length. Qed.
Lemma after_app_byte s c t : after (s ++ c :: t) (len s + 1) = t.
Proof.
  unfold after, len. rewrite Z2Nat.inj_add, Nat2Z.id by lia. rewrite <- drop_drop, drop_app_length. done.
Qed.

(** No element of [cut] starts with [c]. *)
Definition startsNone (cut : list bytes) (c : byte) : bool :=
  forallb (fun p => match p with b :: _ => negb (bool_decide (b = c)) | [] => true end) cut.
Lemma cutLength_none cut c s : startsNone cut c = true -> cutLength cut (c :: s) = O.
Proof.
  unfold startsNone. induction cut as [|p cut IH]; intros H; [done|]. cbn [forallb] in H.
  apply andb_prop in H as [Hp H]. cbn [cutLength]. destruct p as [|b p]; [done|]. cbn [hasPrefix].
  apply negb_true_iff, bool_decide_eq_false in Hp. rewrite bool_decide_eq_false_2 by done. by apply IH.
Qed.
Lemma trimLeft_id cut c s : startsNone cut c = true -> trimLeft cut (c :: s) = c :: s.
Proof. intros H. unfold trimLeft. cbn [length trimFuel]. by rewrite cutLength_none. Qed.
Lemma trimLeft_nil cut : trimLeft cut [] = [].
Proof. done. Qed.

Lemma digit_no_space c : isDigit c = true -> startsNone spaces c = true.
Proof. by destruct c. Qed.

(** Text that neither starts nor ends with white space. *)
Definition trimmed (s : gostring) : bool :=
  match s with
  | [] => true
  | c :: _ => startsNone spaces c && startsNone (map reverse spaces) (List.last s c)
  end.
Lemma trimRight_id s c :
  startsNone (map reverse spaces) (List.last (c :: s) c) = true -> trimRight spaces (c :: s) = c :: s.
Proof.
  intros H. unfold trimRight. destruct (@exists_last _ (c :: s) ltac:(done)) as (l & d & E). rewrite E in *.
  rewrite last_last in H. rewrite reverse_app, reverse_singleton. cbn [app]. rewrite trimLeft_id by done.
  by rewrite reverse_cons, reverse_involutive.
Qed.
Lemma TrimSpace_id s : trimmed s = true -> TrimSpace s = s.
Proof.
  destruct s as [|c s]; [done|]. intros [H1 H2]%andb_prop. unfold TrimSpace.
  rewrite trimLeft_id by done. by apply trimRight_id.
Qed.
Lemma TrimSpace_space s : trimmed s = true -> TrimSpace (z2b 32 :: s) = s.
Proof. intros H. rewrite <- (TrimSpace_id s H) at 2. done. Qed.
Lemma last_app_nonempty {A} (s t : list A) d d' : t <> [] -> List.last (s ++ t) d = List.last t d'.
Proof.
  intros Ht. destruct (exists_last Ht) as (l & x & ->). by rewrite app_assoc, !last_last.
Qed.
(** Text is trimmed when its first part and its last part are. *)
Lemma trimmed_app s m t :
  s <> [] -> t <> [] -> trimmed s = true -> trimmed t = true -> trimmed (s ++ m ++ t) = true.
Proof.
  destruct s as [|c s], t as [|d t]; [done..|]. intros _ _ Hs Ht. cbn [trimmed app] in *.
  apply andb_prop in Hs as [-> _]. apply andb_prop in Ht as [_ Ht].
  change (c :: s ++ m ++ d :: t) with ((c :: s) ++ m ++ d :: t).
  rewrite (last_app_nonempty (c :: s) (m ++ d :: t) c c) by by destruct m.
  by rewrite (last_app_nonempty m (d :: t) c d).
Qed.
Lemma digits_trimmed l : forallb isDigit l = true -> trimmed l = true.
Proof.
  destruct l as [|c l]; [done|]. intros H. rewrite forallb_forall in H. cbn [trimmed].
  assert (forall b, isDigit b = true -> startsNone spaces b && startsNone (map reverse spaces) b = true) as Hd
    by by intros [].
  pose proof (Hd c (H c ltac:(by left))) as [-> _]%andb_prop.
  destruct (@exists_last _ (c :: l) ltac:(done)) as (k & d & E). rewrite E in *. rewrite last_last.
  by pose proof (Hd d (H d ltac:(apply in_or_app; right; by left))) as [_ ->]%andb_prop.
Qed.

(** The fields of text that starts with a word. *)
Lemma fieldsFuel_word n f w s :
  Forall (fun c => startsNone spaces c = true) w ->
  fieldsFuel (length w + n) f (w ++ s) = fieldsFuel n (f ++ w) s.
Proof.
  intros Hw. revert f. induction Hw as [|c w Hc Hw IH]; intros f; [by rewrite app_nil_r|].
  cbn [length app Nat.add fieldsFuel]. rewrite cutLength_none by done. rewrite IH.
  by rewrite <- app_assoc.
Qed.
Lemma Fields_two a b :
  a <> [] -> b <> [] ->
  Forall (fun c => startsNone spaces c = true) a -> Forall (fun c => startsNone spaces c = true) b ->
  Fields (a ++ z2b 32 :: b) = [a; b].
Proof.
  intros Ha Hb Fa Fb. unfold Fields. rewrite length_app. cbn [length].
  rewrite fieldsFuel_word by done. cbn [app fieldsFuel].
  change (cutLength spaces (z2b 32 :: b)) with 1%nat. cbv iota.
  rewrite bool_decide_eq_false_2 by done.
  change (drop 1 (z2b 32 :: b)) with b. cbn [app].
  pose proof (fieldsFuel_word 0 [] b [] Fb) as E. rewrite app_nil_r, Nat.add_0_r in E. rewrite E.
  cbn [app]. destruct b as [|c b]; [done|]. cbn [fieldsFuel]. by rewrite bool_decide_eq_false_2.
Qed.

Lemma digits_nonempty z : digits z <> [].
Proof.
  unfold digits. cbn [digitsFuel]. rewrite digitsFuel_app. destruct (z <? 10); [done|].
  intros [_ E]%app_eq_nil. done.
Qed.
Lemma length_digits n z : 0 <= z < 2 ^ Z.of_nat n -> (0 < n)%nat -> (length (digits z) <= n)%nat.
Proof.
  intros Hz Hn. assert (forall fuel z, (length (digitsFuel fuel z []) <= fuel)%nat) as Hl.
  { clear. induction fuel as [|fuel IH]; intros z; [done|]. cbn [digitsFuel]. destruct (z <? 10); [cbn; lia|].
    rewrite digitsFuel_app, length_app. cbn. specialize (IH (z / 10)). lia. }
  unfold digits. etransitivity; [apply Hl|]. destruct (Z.eqb_spec z 0) as [->|Hne]; [cbn; lia|].
  assert (Z.log2 z < Z.of_nat n) by (apply Z.log2_lt_pow2; lia). pose proof (Z.log2_nonneg z). lia.
Qed.
Lemma digits_forallb z : 0 <= z -> forallb isDigit (digits z) = true.
Proof.
  intros Hz. apply forallb_forall. intros c Hc%list_elem_of_In.
  pose proof (proj2 (digits_spec z Hz)) as H. rewrite Forall_forall in H. by apply H.
Qed.
Lemma ParseUint_digits z : 0 <= z < 2 ^ 64 -> ParseUint (digits z) = Some z.
Proof.
  intros Hz. unfold ParseUint. rewrite bool_decide_eq_false_2 by apply digits_nonempty.
  rewrite digits_forallb, (proj1 (digits_spec z ltac:(lia))) by lia.
  by rewrite (proj2 (Z.leb_gt _ _)) by lia.
Qed.
(** Reading an integer that was printed. *)
Lemma Atoi_FormatInt z : - 2 ^ 63 <= z < 2 ^ 63 -> Atoi (FormatInt z) = Some z.
Proof.
  intros Hz. unfold FormatInt, Atoi. destruct (Z.ltb_spec z 0).
  - cbn [signOf]. rewrite bool_decide_eq_true_2 by done.
    rewrite ParseUint_digits by lia. cbn. by rewrite (proj2 (Z.ltb_ge _ _)), Z.opp_involutive by lia.
  - assert (signOf (digits z) = (false, digits z)) as ->.
    { pose proof (digits_nonempty z). pose proof (digits_forallb z ltac:(lia)) as Hd.
      destruct (digits z) as [|c l]; [done|]. cbn in Hd. apply andb_prop in Hd as [Hc _].
      by destruct c. }
    rewrite ParseUint_digits by lia. cbn. by rewrite (proj2 (Z.leb_gt _ _)) by lia.
Qed.
