(* ===== verification/Shard.v ===== *)
(** The shards of the receiver ([internal/receiver/shard/{queue,runtime,types}.go],
    with [internal/atomics]): buckets of message fragments, the queue of the
    keys of filled buckets, and the deadline watcher.

    This file has the operations as the code runs them under the shard's
    mutex; [ShardSystem] interleaves them. *)
From S2P Require Import Prelude Registry Context Consts Size Fragmentation.

(* ------------------------------------------------------------------ *)
(** * Times and counters                                                *)
(* ------------------------------------------------------------------ *)

(** [Time.Sub] saturates; [Time.UnixNano] wraps. *)
Definition timeSub (t u : gotime) : Z := Z.max (- 2 ^ 63) (Z.min (2 ^ 63 - 1) (t - u)).
Definition UnixNano (t : gotime) : Z := wrapS 64 t.

(** [atomic.Uint64.Add]. *)
Definition atomicAdd (source value : Z) : Z := wrapU 64 (source + value).

(** [atomics.Subtract]: [loads] are the values the retries read, with whether
    the compare-and-swap that follows succeeds; the result is the value
    stored, if any, and the success flag. *)
Fixpoint Subtract (loads : list (Z * bool)) (value : Z) (maxRetries : nat)
  : option Z * bool :=
  match maxRetries, loads with
  | O, _ | _, [] => (None, false)
  | S n, (current, swapped) :: loads =>
      if current =? 0 then (None, true)
      else
        let newValue := if current <=? value then 0 else current - value in
        if swapped then (Some newValue, true) else Subtract loads value n
  end.

(** Without contention. *)
Definition subtractOnce (source value : Z) : Z :=
  default source (Subtract [(source, true)] value 1).1.

Lemma subtractOnce_eq source value :
  0 <= source -> 0 <= value -> subtractOnce source value = Z.max 0 (source - value).
Proof.
  intros Hs Hv. unfold subtractOnce. cbn [Subtract].
  destruct (Z.eqb_spec source 0) as [->|]; cbn; [lia|].
  destruct (Z.leb_spec source value); lia.
Qed.

Lemma subtractOnce_range source value :
  0 <= source < 2 ^ 64 -> 0 <= value -> 0 <= subtractOnce source value < 2 ^ 64.
Proof. intros. rewrite subtractOnce_eq by lia. lia. Qed.

(* ------------------------------------------------------------------ *)
(** * State                                                             *)
(* ------------------------------------------------------------------ *)

Record Bucket := mkBucket {
  filled : bool;
  Fragments : gmap Z Payload;
  maxSeq : Z;
  lastProcessStartTime : gotime
}.

Record MetricStorage := mkMetrics {
  Bytes : Z;
  TotalBuckets : Z;
  WaitingBuckets : Z;
  TimedOutBuckets : Z;
  SumFragmentTimeSpacing : Z;
  PushCount : Z;
  PopCount : Z
}.

(** [buffer] is the capacity of the channel [keyQueue]. *)
Record Instance := mkInstance {
  Buckets : gmap gostring Bucket;
  keyQueue : list gostring;
  buffer : Z;
  packetDeadline : Z;
  InShutdown : bool;
  Metrics : MetricStorage
}.

Definition setBuckets (q : Instance) (b : gmap gostring Bucket) : Instance :=
  mkInstance b (keyQueue q) (buffer q) (packetDeadline q) (InShutdown q) (Metrics q).
Definition setKeyQueue (q : Instance) (ks : list gostring) : Instance :=
  mkInstance (Buckets q) ks (buffer q) (packetDeadline q) (InShutdown q) (Metrics q).
Definition setMetrics (q : Instance) (m : MetricStorage) : Instance :=
  mkInstance (Buckets q) (keyQueue q) (buffer q) (packetDeadline q) (InShutdown q) m.

Definition addBytes (n : Z) (q : Instance) : Instance := let m := Metrics q in
  setMetrics q (mkMetrics (atomicAdd (Bytes m) n) (TotalBuckets m) (WaitingBuckets m)
    (TimedOutBuckets m) (SumFragmentTimeSpacing m) (PushCount m) (PopCount m)).
Definition subBytes (n : Z) (q : Instance) : Instance := let m := Metrics q in
  setMetrics q (mkMetrics (subtractOnce (Bytes m) n) (TotalBuckets m) (WaitingBuckets m)
    (TimedOutBuckets m) (SumFragmentTimeSpacing m) (PushCount m) (PopCount m)).
Definition incTotal (q : Instance) : Instance := let m := Metrics q in
  setMetrics q (mkMetrics (Bytes m) (atomicAdd (TotalBuckets m) 1) (WaitingBuckets m)
    (TimedOutBuckets m) (SumFragmentTimeSpacing m) (PushCount m) (PopCount m)).
Definition decTotal (q : Instance) : Instance := let m := Metrics q in
  setMetrics q (mkMetrics (Bytes m) (subtractOnce (TotalBuckets m) 1) (WaitingBuckets m)
    (TimedOutBuckets m) (SumFragmentTimeSpacing m) (PushCount m) (PopCount m)).
Definition incWaiting (q : Instance) : Instance := let m := Metrics q in
  setMetrics q (mkMetrics (Bytes m) (TotalBuckets m) (atomicAdd (WaitingBuckets m) 1)
    (TimedOutBuckets m) (SumFragmentTimeSpacing m) (PushCount m) (PopCount m)).
Definition decWaiting (q : Instance) : Instance := let m := Metrics q in
  setMetrics q (mkMetrics (Bytes m) (TotalBuckets m) (subtractOnce (WaitingBuckets m) 1)
    (TimedOutBuckets m) (SumFragmentTimeSpacing m) (PushCount m) (PopCount m)).
Definition incTimedOut (q : Instance) : Instance := let m := Metrics q in
  setMetrics q (mkMetrics (Bytes m) (TotalBuckets m) (WaitingBuckets m)
    (atomicAdd (TimedOutBuckets m) 1) (SumFragmentTimeSpacing m) (PushCount m) (PopCount m)).
Definition addSpacing (n : Z) (q : Instance) : Instance := let m := Metrics q in
  setMetrics q (mkMetrics (Bytes m) (TotalBuckets m) (WaitingBuckets m) (TimedOutBuckets m)
    (atomicAdd (SumFragmentTimeSpacing m) n) (PushCount m) (PopCount m)).
Definition incPush (q : Instance) : Instance := let m := Metrics q in
  setMetrics q (mkMetrics (Bytes m) (TotalBuckets m) (WaitingBuckets m) (TimedOutBuckets m)
    (SumFragmentTimeSpacing m) (atomicAdd (PushCount m) 1) (PopCount m)).
Definition incPop (q : Instance) : Instance := let m := Metrics q in
  setMetrics q (mkMetrics (Bytes m) (TotalBuckets m) (WaitingBuckets m) (TimedOutBuckets m)
    (SumFragmentTimeSpacing m) (PushCount m) (atomicAdd (PopCount m) 1)).

Definition New (buffer deadline : Z) : Instance :=
  mkInstance ∅ [] buffer deadline false (mkMetrics 0 0 0 0 0 0 0).

(* ------------------------------------------------------------------ *)
(** * Operations                                                        *)
(* ------------------------------------------------------------------ *)

Section shard.
(** Size estimate of custom values of unsupported types. *)
Context (other : Z).

(** What [push] still has to do when it comes to its [select], holding the
    mutex: send a key, counting a time-out if the fragment was late. *)
Inductive wakeup :=
  | NoWakeup
  | Wakeup (bucketKey : gostring) (late : bool).

(** From the time spacing to the end, for a bucket that takes the fragment. *)
Definition storeFragment (queue : Instance) (bucketKey : gostring) (bucket : Bucket)
    (fragment : Payload) (processingStartTime : gotime) : Instance * wakeup :=
  let elapsed :=
    if UnixNano (lastProcessStartTime bucket) <=? 0 then 0
    else timeSub processingStartTime (lastProcessStartTime bucket) in
  let queue := if 0 <? elapsed then addSpacing elapsed queue else queue in
  if packetDeadline queue <? elapsed then
    let bucket := mkBucket true (Fragments bucket) (maxSeq bucket)
                    (lastProcessStartTime bucket) in
    (setBuckets queue (<[bucketKey := bucket]> (Buckets queue)), Wakeup bucketKey true)
  else
    let fragments := <[MessageSeq fragment := fragment]> (Fragments bucket) in
    let queue := addBytes (PayloadSize other fragment) queue in
    let complete := Z.of_nat (size fragments) =? maxSeq bucket + 1 in
    let bucket := mkBucket (filled bucket || complete) fragments (maxSeq bucket)
                    processingStartTime in
    (setBuckets queue (<[bucketKey := bucket]> (Buckets queue)),
     if complete then Wakeup bucketKey false else NoWakeup).

(** [push] up to its [select]. *)
Definition pushLocked (queue : Instance) (bucketKey : gostring) (fragment : Payload)
    (processingStartTime : gotime) : Instance * wakeup :=
  let queue := incPush queue in
  match Buckets queue !! bucketKey with
  | None =>
      let bucket := mkBucket false ∅ (MessageSeqMax fragment) zeroTime in
      let queue := incTotal (setBuckets queue (<[bucketKey := bucket]> (Buckets queue))) in
      storeFragment queue bucketKey bucket fragment processingStartTime
  | Some bucket =>
      if filled bucket then (queue, NoWakeup)
      else if negb (maxSeq bucket =? MessageSeqMax fragment) then (queue, NoWakeup)
      else storeFragment queue bucketKey bucket fragment processingStartTime
  end.

(** A send on the channel, when it has room. *)
Definition chanSend (queue : Instance) (key : gostring) : option Instance :=
  if len (keyQueue queue) <? buffer queue
  then Some (setKeyQueue queue (keyQueue queue ++ [key])) else None.

(** The send case of [push]'s [select], with the counters after it. *)
Definition wake (queue : Instance) (bucketKey : gostring) (late : bool) : option Instance :=
  queue ← chanSend queue bucketKey;
  let queue := incWaiting queue in
  Some (if late then incTimedOut queue else queue).

(** [push] as a whole; [cancelled] when the [select] takes the case of the
    cancelled context. [None]: it waits for room, holding the mutex. *)
Definition push (cancelled : bool) (queue : Instance) (bucketKey : gostring)
    (fragment : Payload) (processingStartTime : gotime) : option Instance :=
  match pushLocked queue bucketKey fragment processingStartTime with
  | (queue, NoWakeup) => Some queue
  | (queue, Wakeup key late) => if cancelled then Some queue else wake queue key late
  end.

(** [PopKey], in the two parts between which it waits for the mutex.
    [None]: it waits for a key. *)
Definition recvKey (queue : Instance) : option (gostring * Instance) :=
  match keyQueue queue with
  | [] => None
  | key :: keys => Some (key, setKeyQueue queue keys)
  end.
Definition PopKey (queue : Instance) : option (gostring * Instance) :=
  '(key, queue) ← recvKey (incPop queue);
  Some (key, decWaiting queue).

(** [DrainBucket]. On a missing bucket the mutex is unlocked by hand and then
    again by the deferred call, which ends the process. *)
Definition DrainBucket (queue : Instance) (key : gostring) : res (Bucket * Instance) :=
  match Buckets queue !! key with
  | None => Panic
  | Some bucket =>
      let queue := setBuckets queue (delete key (Buckets queue)) in
      let size := foldl (fun n kf => n + PayloadSize other kf.2) 0
                    (map_to_list (Fragments bucket)) in
      Ok (bucket, decTotal (subBytes (wrapU 64 size) queue))
  end.

(** The watcher's loop over the buckets, in the order of its iteration:
    expired buckets are marked and their keys collected. *)
Definition expired (deadline : Z) (now : gotime) (bucket : Bucket) : bool :=
  negb (filled bucket) && (deadline <? timeSub now (lastProcessStartTime bucket)).
Definition markFilled (bucket : Bucket) : Bucket :=
  mkBucket true (Fragments bucket) (maxSeq bucket) (lastProcessStartTime bucket).
Fixpoint scanBuckets (deadline : Z) (now : gotime) (order : list gostring)
    (queue : Instance) : Instance * list gostring :=
  match order with
  | [] => (queue, [])
  | key :: order =>
      match Buckets queue !! key with
      | None => scanBuckets deadline now order queue
      | Some bucket =>
          if expired deadline now bucket then
            let queue := incTimedOut
              (setBuckets queue (<[key := markFilled bucket]> (Buckets queue))) in
            let '(queue, keys) := scanBuckets deadline now order queue in
            (queue, key :: keys)
          else scanBuckets deadline now order queue
      end
  end.

(** One round of the assembler ([assembler/worker.go]) up to its output: it
    waits, or the process dies, or the fragments of the bucket, in the order
    [visit] of the map's iteration, were assembled (a panic is recovered: the
    bucket is gone all the same). *)
Inductive round :=
  | Waits
  | Fatal
  | Assembled (finalMsg : res Payload) (queue : Instance).
Definition assembleNext {SS : SeqSort} (visit : gmap Z Payload -> list Payload)
    (queue : Instance) : round :=
  match PopKey queue with
  | None => Waits
  | Some (bucketKey, queue) =>
      match DrainBucket queue bucketKey with
      | Ok (bucket, queue) => Assembled (Defragment (visit (Fragments bucket))) queue
      | _ => Fatal
      end
  end.
End shard.

(* ------------------------------------------------------------------ *)
(** * A push on one bucket                                              *)
(* ------------------------------------------------------------------ *)

Definition elapsedSince (last now : gotime) : Z :=
  if UnixNano last <=? 0 then 0 else timeSub now last.

(** What a push does to the bucket of its key, and whether it announces the
    key (and if so, as late). *)
Definition pushBucket (deadline : Z) (bucket : option Bucket) (fragment : Payload)
    (now : gotime) : Bucket * option bool :=
  let b := default (mkBucket false ∅ (MessageSeqMax fragment) zeroTime) bucket in
  if filled b || negb (maxSeq b =? MessageSeqMax fragment) then (b, None)
  else if deadline <? elapsedSince (lastProcessStartTime b) now then (markFilled b, Some true)
  else
    let fragments := <[MessageSeq fragment := fragment]> (Fragments b) in
    let complete := Z.of_nat (size fragments) =? maxSeq b + 1 in
    (mkBucket complete fragments (maxSeq b) now, if complete then Some false else None).

(** All of an instance but its buckets and counters. *)
Definition sameFrame (q q' : Instance) : Prop :=
  keyQueue q' = keyQueue q /\ buffer q' = buffer q /\
  packetDeadline q' = packetDeadline q /\ InShutdown q' = InShutdown q.

Section facts.
Context (other : Z).

Lemma storeFragment_spec q k b f t :
  filled b = false -> maxSeq b = MessageSeqMax f ->
  let '(q', w) := storeFragment other q k b f t in
  let '(b', late) := pushBucket (packetDeadline q) (Some b) f t in
  Buckets q' = <[k := b']> (Buckets q) /\
  w = match late with Some l => Wakeup k l | None => NoWakeup end /\
  sameFrame q q' /\
  TotalBuckets (Metrics q') = TotalBuckets (Metrics q) /\
  WaitingBuckets (Metrics q') = WaitingBuckets (Metrics q).
Proof.
  intros Hf Hm. unfold storeFragment, pushBucket. cbn [from_option id].
  rewrite Hf, Hm, Z.eqb_refl. cbn [orb negb]. fold (elapsedSince (lastProcessStartTime b) t).
  set (e := elapsedSince _ _).
  set (q1 := if 0 <? e then addSpacing e q else q).
  assert (sameFrame q q1 /\ Buckets q1 = Buckets q /\
          TotalBuckets (Metrics q1) = TotalBuckets (Metrics q) /\
          WaitingBuckets (Metrics q1) = WaitingBuckets (Metrics q)) as ((H1&H2&H3&H4)&HB&HT&HW)
    by (subst q1; by destruct (0 <? e)).
  rewrite H3. destruct (packetDeadline q <? e); cbn.
  - rewrite HB. unfold markFilled. by rewrite Hm.
  - rewrite HB. split_and!; try done. by destruct (_ =? _).
Qed.

Lemma pushLocked_spec q k f t :
  let '(q', w) := pushLocked other q k f t in
  let '(b, late) := pushBucket (packetDeadline q) (Buckets q !! k) f t in
  Buckets q' = <[k := b]> (Buckets q) /\
  w = match late with Some l => Wakeup k l | None => NoWakeup end /\
  sameFrame q q' /\
  TotalBuckets (Metrics q') =
    (if decide (Buckets q !! k = None) then atomicAdd (TotalBuckets (Metrics q)) 1
     else TotalBuckets (Metrics q)) /\
  WaitingBuckets (Metrics q') = WaitingBuckets (Metrics q).
Proof.
  unfold pushLocked. change (Buckets (incPush q)) with (Buckets q).
  destruct (Buckets q !! k) as [b|] eqn:Hk.
  - rewrite decide_False by done.
    destruct (filled b) eqn:Hf; [|destruct (Z.eqb_spec (maxSeq b) (MessageSeqMax f)) as [Hm|Hm]].
    + unfold pushBucket. cbn [from_option id]. rewrite Hf. cbn. by rewrite insert_id.
    + cbn [negb]. exact (storeFragment_spec (incPush q) k b f t Hf Hm).
    + unfold pushBucket. cbn [from_option id]. rewrite Hf, (proj2 (Z.eqb_neq _ _) Hm). cbn.
      by rewrite insert_id.
  - rewrite decide_True by done.
    set (b := mkBucket false ∅ (MessageSeqMax f) zeroTime).
    set (q1 := incTotal _).
    pose proof (storeFragment_spec q1 k b f t eq_refl eq_refl) as H.
    destruct (storeFragment _ _ _ _ _ _) as [q' w]. change (packetDeadline q1) with (packetDeadline q) in H.
    change (pushBucket _ None f t) with (pushBucket (packetDeadline q) (Some b) f t).
    destruct (pushBucket _ _ _ _) as [b' late]. destruct H as (HB & -> & HF & HT & HW).
    split_and!; try done. rewrite HB. apply insert_insert_eq.
Qed.

Lemma pushBucket_wakes d b f t b' late :
  pushBucket d b f t = (b', late) ->
  match late with
  | Some _ => (filled <$> b) <> Some true /\ filled b' = true
  | None => filled b' = default false (filled <$> b)
  end.
Proof.
  unfold pushBucket. set (b0 := default _ b).
  assert (filled b0 = default false (filled <$> b)) as H0 by (subst b0; by destruct b).
  destruct (filled b0) eqn:Hf.
  { intros [= <- <-]. by rewrite Hf. }
  assert ((filled <$> b) <> Some true) as Hn by (destruct b; cbn in *; congruence).
  cbn [orb]. destruct (negb _); [intros [= <- <-]; by rewrite Hf|].
  destruct (_ <? _); [by intros [= <- <-]|].
  destruct (_ =? _); intros [= <- <-]; [done|]. by rewrite <- H0.
Qed.

(** The announced keys, in order. *)
Lemma push_spec q k f t q' :
  push other false q k f t = Some q' ->
  let '(b, late) := pushBucket (packetDeadline q) (Buckets q !! k) f t in
  Buckets q' = <[k := b]> (Buckets q) /\
  keyQueue q' = keyQueue q ++ match late with Some _ => [k] | None => [] end /\
  packetDeadline q' = packetDeadline q.
Proof.
  unfold push. pose proof (pushLocked_spec q k f t) as H.
  destruct (pushLocked other q k f t) as [q1 w].
  destruct (pushBucket _ _ _ _) as [b late]. destruct H as (HB & -> & (Hk & _ & Hd & _) & _).
  destruct late as [l|].
  - unfold wake, chanSend. destruct (_ <? _); [|done]. cbn. intros [= <-].
    destruct l; cbn; by rewrite HB, Hk.
  - intros [= <-]. by rewrite HB, Hk, app_nil_r.
Qed.

(** Cancelled or not, a push leaves a bucket of its key. *)
Lemma push_bucket c q k f t q' :
  push other c q k f t = Some q' ->
  (exists b, Buckets q' = <[k := b]> (Buckets q)) /\ InShutdown q' = InShutdown q.
Proof.
  unfold push. pose proof (pushLocked_spec q k f t) as H.
  destruct (pushLocked other q k f t) as [q1 w].
  destruct (pushBucket _ _ _ _) as [b late]. destruct H as (HB & -> & (_ & _ & _ & Hs) & _).
  intros Hp. assert (Buckets q' = Buckets q1 /\ InShutdown q' = InShutdown q1) as [-> ->];
    [|split; [by exists b|done]].
  destruct late as [l|]; [destruct c|]; [by injection Hp as <-| |by injection Hp as <-].
  revert Hp. unfold wake, chanSend. destruct (_ <? _); [|done]. cbn. intros [= <-]. by destruct l.
Qed.

(** A sequence of pushes, none of which finds the channel full. *)
Record event := mkEvent { evKey : gostring; evFragment : Payload; evTime : gotime }.
Fixpoint pushAll (q : Instance) (evs : list event) : option Instance :=
  match evs with
  | [] => Some q
  | e :: evs =>
      q ← push other false q (evKey e) (evFragment e) (evTime e);
      pushAll q evs
  end.

Definition ofKey (k : gostring) (evs : list event) : list event :=
  filter (fun e => evKey e = k) evs.
Definition countKey (k : gostring) (q : Instance) : nat :=
  length (filter (eq k) (keyQueue q)).

(** The pushes of other keys do not matter. *)
Fixpoint pushBuckets (d : Z) (b : option Bucket) (evs : list event) : option Bucket * nat :=
  match evs with
  | [] => (b, 0%nat)
  | e :: evs =>
      let '(b, late) := pushBucket d b (evFragment e) (evTime e) in
      let '(b, n) := pushBuckets d (Some b) evs in
      (b, match late with Some _ => S n | None => n end)
  end.

Lemma pushAll_spec q evs q' k :
  pushAll q evs = Some q' ->
  let '(b, n) := pushBuckets (packetDeadline q) (Buckets q !! k) (ofKey k evs) in
  Buckets q' !! k = b /\ countKey k q' = (countKey k q + n)%nat.
Proof.
  revert q. induction evs as [|e evs IH]; intros q; cbn [pushAll].
  - intros [= <-]. cbn. split; [done|lia].
  - intros (q1 & Hp & H)%bind_Some. apply IH in H. apply push_spec in Hp.
    destruct (pushBucket _ _ _ _) as [b late] eqn:Eb. destruct Hp as (HB & HK & HD).
    rewrite HD, HB in H. unfold ofKey, countKey in *. rewrite HK, filter_app, length_app in H.
    rewrite filter_cons. case_decide as Ek.
    + subst k. rewrite lookup_insert_eq in H. cbn [pushBuckets]. rewrite Eb.
      destruct (pushBuckets _ _ _) as [b' n]. destruct H as [-> ->]. split; [done|].
      destruct late; [rewrite filter_cons_True by done|]; rewrite filter_nil; cbn; lia.
    + rewrite lookup_insert_ne in H by done.
      destruct (pushBuckets _ _ _) as [b' n]. destruct H as [-> ->]. split; [done|].
      destruct late; [rewrite filter_cons_False by done|]; rewrite filter_nil; cbn; lia.
Qed.

(** The fragments that arrived so far, by sequence number. *)
Definition stored (fs : list Payload) : gmap Z Payload :=
  foldl (fun m f => <[MessageSeq f := f]> m) ∅ fs.

Lemma stored_snoc fs f : stored (fs ++ [f]) = <[MessageSeq f := f]> (stored fs).
Proof. unfold stored. by rewrite foldl_app. Qed.

Lemma stored_spec fs :
  NoDup (map MessageSeq fs) ->
  map_to_list (stored fs) ≡ₚ map (fun f => (MessageSeq f, f)) fs.
Proof.
  induction fs as [|f fs IH] using rev_ind; intros Hnd.
  - unfold stored. cbn. by rewrite map_to_list_empty.
  - rewrite map_app in Hnd. apply NoDup_app in Hnd as (Hnd & Hf & _).
    rewrite stored_snoc, map_to_list_insert, (IH Hnd), map_app; [apply Permutation_cons_append|].
    destruct (stored fs !! MessageSeq f) as [g|] eqn:E; [exfalso|done].
    apply elem_of_map_to_list in E. rewrite IH in E by done.
    apply list_elem_of_In, in_map_iff in E as (g' & [= Hs _] & Hin%list_elem_of_In).
    apply (Hf (MessageSeq f)); [|by left].
    rewrite <- Hs. by apply (list_elem_of_fmap_2 MessageSeq).
Qed.

Lemma stored_size fs : NoDup (map MessageSeq fs) -> size (stored fs) = length fs.
Proof.
  intros H. by rewrite <- length_map_to_list, (stored_spec fs H), length_map.
Qed.

Lemma elapsedSince_zero t : elapsedSince zeroTime t = 0.
Proof. unfold elapsedSince. by vm_compute. Qed.

Lemma elapsedSince_le d last now : 0 <= d -> now - last <= d -> elapsedSince last now <= d.
Proof. intros. unfold elapsedSince, timeSub. destruct (_ <=? 0); lia. Qed.

(** No two consecutive fragments are further apart than the deadline. *)
Fixpoint inTime (d : Z) (last : gotime) (evs : list event) : Prop :=
  match evs with
  | [] => True
  | e :: evs => elapsedSince last (evTime e) <= d /\ inTime d (evTime e) evs
  end.

Lemma pushBuckets_collect d m last got evs :
  NoDup (map MessageSeq (got ++ map evFragment evs)) ->
  (forall e, e ∈ evs -> MessageSeqMax (evFragment e) = m) ->
  len got + len evs = m + 1 -> evs <> [] -> inTime d last evs ->
  exists t, pushBuckets d (Some (mkBucket false (stored got) m last)) evs =
    (Some (mkBucket true (stored (got ++ map evFragment evs)) m t), 1%nat).
Proof.
  revert got last. induction evs as [|e evs IH]; intros got last Hnd Hm Hlen Hne Ht; [done|].
  destruct Ht as [Ht Hin]. cbn [pushBuckets map]. unfold pushBucket. cbn [from_option id filled maxSeq orb].
  rewrite Hm, Z.eqb_refl by (by left). cbn [negb lastProcessStartTime Fragments].
  rewrite (proj2 (Z.ltb_ge _ _) Ht), <- stored_snoc.
  cbn [map] in Hnd. rewrite cons_middle, app_assoc in Hnd.
  rewrite (cons_middle (evFragment e) got (map evFragment evs)), app_assoc.
  assert (NoDup (map MessageSeq (got ++ [evFragment e]))) as Hnd1.
  { rewrite map_app in Hnd. by apply NoDup_app in Hnd as (? & _). }
  rewrite stored_size by done. rewrite len_cons in Hlen.
  destruct evs as [|e' evs].
  - assert ((Z.of_nat (length (got ++ [evFragment e])) =? m + 1) = true) as ->.
    { apply Z.eqb_eq. fold (len (got ++ [evFragment e])).
      rewrite len_app. rewrite len_nil in Hlen. change (len [evFragment e]) with 1. lia. }
    cbn. rewrite app_nil_r. by eexists.
  - assert ((Z.of_nat (length (got ++ [evFragment e])) =? m + 1) = false) as ->.
    { apply Z.eqb_neq. fold (len (got ++ [evFragment e])).
      rewrite len_app. rewrite len_cons in Hlen. pose proof (len_nonneg evs).
      change (len [evFragment e]) with 1. lia. }
    destruct (IH (got ++ [evFragment e]) (evTime e)) as [t Eb]; [done| | |done|done|].
    { intros e1 He1. apply Hm. by right. }
    { rewrite len_app. change (len [evFragment e]) with 1. lia. }
    rewrite Eb. by exists t.
Qed.

Lemma inTime_sorted d last evs :
  0 <= d -> (forall e, head evs = Some e -> elapsedSince last (evTime e) <= d) ->
  Sorted (fun a b => b - a <= d) (map evTime evs) -> inTime d last evs.
Proof.
  intros Hd. revert last. induction evs as [|e evs IH]; intros last Hh Hs; [done|].
  inversion Hs as [|? ? Hs' Hr]; subst. split; [by apply Hh|]. apply IH; [|done].
  intros e' He'. destruct evs as [|e1 evs]; [done|]. injection He' as ->.
  inversion Hr; subst. by apply elapsedSince_le.
Qed.

(** The bucket of a message all of whose fragments arrived. *)
Lemma shard_collects q evs q' k fs :
  Buckets q !! k = None -> 0 <= packetDeadline q -> pushAll q evs = Some q' ->
  map evFragment (ofKey k evs) ≡ₚ fs -> fs <> [] -> NoDup (map MessageSeq fs) ->
  (forall f, f ∈ fs -> MessageSeqMax f = len fs - 1) ->
  Sorted (fun a b => b - a <= packetDeadline q) (map evTime (ofKey k evs)) ->
  countKey k q' = S (countKey k q) /\
  exists b, Buckets q' !! k = Some b /\ filled b = true /\
    map snd (map_to_list (Fragments b)) ≡ₚ fs.
Proof.
  intros Hk Hd Hrun Hp Hne Hnd Hm Hs. pose proof (pushAll_spec q evs q' k Hrun) as H.
  set (mine := ofKey k evs) in *. rewrite Hk in H.
  assert (mine <> []) as Hmine by (intros E; rewrite E in Hp; by apply Permutation_nil_l in Hp).
  assert (forall e, e ∈ mine -> MessageSeqMax (evFragment e) = len fs - 1) as Hmax.
  { intros e He. apply Hm. rewrite <- Hp. by apply list_elem_of_fmap_2. }
  assert (NoDup (map MessageSeq (map evFragment mine))) as Hnd1 by by rewrite Hp.
  destruct (pushBuckets_collect (packetDeadline q) (len fs - 1) zeroTime [] mine)
    as [t Ht]; [done|done| |done| |].
  { apply Permutation_length in Hp. rewrite length_map in Hp. unfold len. cbn [length]. lia. }
  { apply inTime_sorted; [done| |done]. intros. by rewrite elapsedSince_zero. }
  assert (pushBuckets (packetDeadline q) None mine =
          (Some (mkBucket true (stored (map evFragment mine)) (len fs - 1) t), 1%nat)) as Hb.
  { etransitivity; [|exact Ht]. destruct mine as [|e mine]; [done|]. cbn [pushBuckets].
    rewrite <- (Hmax e) by (by left). done. }
  rewrite Hb in H. destruct H as [Hb' Hc]. split; [lia|]. eexists. split; [exact Hb'|].
  split; [done|]. cbn [Fragments]. rewrite (stored_spec _ Hnd1), map_map. cbn. by rewrite map_id.
Qed.
(** Pushes of one key find room if there is room for one: the key is
    announced at most once. *)
Lemma pushAll_filled q evs k b :
  (forall e, e ∈ evs -> evKey e = k) -> Buckets q !! k = Some b -> filled b = true ->
  is_Some (pushAll q evs).
Proof.
  revert q. induction evs as [|e evs IH]; intros q He Hb Hf; [by eexists|]. cbn [pushAll].
  rewrite (He e) by by left. unfold push, pushLocked.
  change (Buckets (incPush q)) with (Buckets q). rewrite Hb, Hf. cbn.
  apply IH; [|done..]. intros e' He'. apply He. by right.
Qed.
Lemma pushAll_room q evs k :
  (forall e, e ∈ evs -> evKey e = k) -> len (keyQueue q) < buffer q -> is_Some (pushAll q evs).
Proof.
  revert q. induction evs as [|e evs IH]; intros q He Hr; [by eexists|]. cbn [pushAll].
  rewrite (He e) by by left.
  assert (forall e, e ∈ evs -> evKey e = k) as He' by (intros; apply He; by right).
  pose proof (pushLocked_spec q k (evFragment e) (evTime e)) as Hl. unfold push.
  destruct (pushLocked other q k _ _) as [q1 w].
  destruct (pushBucket _ _ _ _) as [b late] eqn:Eb. destruct Hl as (HB & -> & (Hk & Hbuf & _) & _).
  apply pushBucket_wakes in Eb. destruct late as [l|].
  - unfold wake, chanSend. rewrite Hk, Hbuf, (proj2 (Z.ltb_lt _ _)) by done. cbn.
    apply (pushAll_filled _ evs k b); [done| |by destruct Eb].
    destruct l; cbn; by rewrite HB, lookup_insert_eq.
  - cbn. apply IH; [done|]. by rewrite Hk, Hbuf.
Qed.
End facts.

Section delivery.
Context (other : Z) {SS : SeqSort}.

Lemma numbered_NoDup fs :
  (forall i f, fs !! i = Some f -> MessageSeq f = Z.of_nat i) -> NoDup (map MessageSeq fs).
Proof.
  intros Hfs. apply NoDup_alt. intros i j s Hi Hj. rewrite list_lookup_fmap in Hi, Hj.
  apply fmap_Some in Hi as (f & Hi%Hfs & ->), Hj as (g & Hj%Hfs & Hfg). lia.
Qed.

(** A round of the assembler on a bucket that holds a whole message. *)
Lemma bucket_assembles q k b ref fs :
  Buckets q !! k = Some b -> map snd (map_to_list (Fragments b)) ≡ₚ fs -> fs <> [] ->
  (forall i f, fs !! i = Some f ->
     same_message ref f /\ MessageSeqMax f = len fs - 1 /\ MessageSeq f = Z.of_nat i) ->
  length fs = 1%nat \/ fields_comparable (CustomFields ref) ->
  forall visit keys, (forall m, visit m ≡ₚ map snd (map_to_list m)) ->
    exists q2, assembleNext other visit (setKeyQueue q (k :: keys)) =
        Assembled (Ok (reassembled ref (concat (map Data fs)))) q2 /\
      Buckets q2 !! k = None /\ keyQueue q2 = keys.
Proof.
  intros Hb Hfrag Hne Hfs Hc visit keys Hv. unfold assembleNext, PopKey, recvKey, DrainBucket.
  cbn. rewrite Hb. eexists. split.
  - f_equal. apply Defragment_complete; try done. by rewrite Hv.
  - split; [apply lookup_delete_eq|done].
Qed.

(** When all fragments of a message reach a shard that has no bucket for
    it, in any order, among any other traffic and never further apart than
    the deadline, the key of its bucket is announced exactly once; when it has
    become the first of the queue, the assembler's round removes the bucket
    and, in whatever order the map yields the fragments, outputs the
    message. *)
Theorem shard_delivers q evs q' k ref fs :
  Buckets q !! k = None -> 0 <= packetDeadline q -> pushAll other q evs = Some q' ->
  map evFragment (ofKey k evs) ≡ₚ fs -> fs <> [] ->
  (forall i f, fs !! i = Some f ->
     same_message ref f /\ MessageSeqMax f = len fs - 1 /\ MessageSeq f = Z.of_nat i) ->
  length fs = 1%nat \/ fields_comparable (CustomFields ref) ->
  Sorted (fun a b => b - a <= packetDeadline q) (map evTime (ofKey k evs)) ->
  countKey k q' = S (countKey k q) /\
  forall visit keys, (forall m, visit m ≡ₚ map snd (map_to_list m)) ->
    exists q2, assembleNext other visit (setKeyQueue q' (k :: keys)) =
        Assembled (Ok (reassembled ref (concat (map Data fs)))) q2 /\
      Buckets q2 !! k = None /\ keyQueue q2 = keys.
Proof.
  intros Hk Hd Hrun Hp Hne Hfs Hc Hs.
  destruct (shard_collects other q evs q' k fs) as (Hn & b & Hb & _ & Hfrag); try done.
  { apply numbered_NoDup. intros i f Hi. by destruct (Hfs _ _ Hi) as (_ & _ & ?). }
  { intros f [i Hi]%list_elem_of_lookup. by destruct (Hfs _ _ Hi) as (_ & ? & _). }
  split; [done|]. by eapply bucket_assembles.
Qed.
End delivery.

(** Two fragments of a message, out of order, with a whole message of another
    key between them. *)
Definition examplePart (seq m : Z) (d : string) : Payload :=
  mkPayload AddrZero 1 1 seq m 0 (str "web1") 0 [] ∅ (str d) 10.
Definition exampleEvents : list event :=
  [mkEvent (str "k") (examplePart 1 1 "world") 1000;
   mkEvent (str "other") (examplePart 0 0 "x") 1001;
   mkEvent (str "k") (examplePart 0 1 "hello ") 2000].

Definition exampleShard : Instance :=
  default (New 1024 200000000) (pushAll 0 (New 1024 200000000) exampleEvents).

Definition visitInOrder (m : gmap Z Payload) : list Payload := map snd (map_to_list m).

Lemma shard_delivers_witness :
  countKey (str "k") exampleShard = 1%nat /\
  exists q2, @assembleNext 0 stableSort visitInOrder (setKeyQueue exampleShard [str "k"]) =
    Assembled (Ok (reassembled (examplePart 0 0 "") (str "hello world"))) q2.
Proof.
  destruct (@shard_delivers 0 stableSort (New 1024 200000000) exampleEvents exampleShard (str "k")
              (examplePart 0 0 "") [examplePart 0 1 "hello "; examplePart 1 1 "world"]) as [Hc Hm].
  - done.
  - done.
  - by vm_compute.
  - change (map evFragment (ofKey (str "k") exampleEvents))
      with [examplePart 1 1 "world"; examplePart 0 1 "hello "]. apply Permutation_swap.
  - done.
  - intros [|[|i]] f Hi; [..|done]; injection Hi as <-; by repeat split.
  - right. apply map_Forall_empty.
  - change (map evTime (ofKey (str "k") exampleEvents)) with [1000; 2000].
    by repeat constructor.
  - split; [exact Hc|]. destruct (Hm visitInOrder []) as (q2 & Hq & _); [done|]. by exists q2.
Defined.
