(* ===== verification/ShardSystem.v ===== *)
(** A shard at work: any number of processors pushing fragments, the deadline
    watcher and the assembler, interleaved at their lock and channel
    operations ([internal/receiver/shard], [internal/receiver/assembler]).

    The mutex is held across a step only by a push that waits for room in the
    channel; every other critical section is one step. *)
From S2P Require Import Prelude Registry Context Consts Size Fragmentation Shard.

(** The assembler between receiving a key and draining its bucket. *)
Inductive asmState :=
  | AsmIdle
  | AsmReceived (key : gostring)
  | AsmPopped (key : gostring).

Record Sys := mkSys {
  inst : Instance;
  pushing : option (gostring * bool);   (** a push in its [select], with the mutex *)
  toSend : list gostring;               (** the watcher's [keysToSend] *)
  adding : bool;                        (** the watcher has sent but not yet counted *)
  asm : asmState;
  cancelled : bool;                     (** some context was cancelled *)
  crashed : bool                        (** a mutex was unlocked twice *)
}.

Definition init (buffer deadline : Z) : Sys :=
  mkSys (New buffer deadline) None [] false AsmIdle false false.

Inductive action :=
  | PushStart (key : gostring) (fragment : Payload) (now : gotime)
  | PushSend
  | PushCancel
  | WatchScan (deadline : Z) (now : gotime) (order : list gostring)
  | WatchSend
  | WatchCount
  | WatchCancel
  | AsmRecv
  | AsmCount
  | AsmDrain
  | SetDeadline (deadline : Z)
  | SetShutdown.

Lemma submseteq_NoDup {A} (l k : list A) : l ⊆+ k -> NoDup k -> NoDup l.
Proof. intros [x ->]%submseteq_Permutation Hk. by apply NoDup_app in Hk as (? & _). Qed.

(** A guard of a step. *)
Definition require (b : bool) : option unit := if b then Some tt else None.
Lemma require_bind {A} b (m : option A) a : (require b ;; m) = Some a -> b = true /\ m = Some a.
Proof. by destruct b. Qed.

Section system.
Context (other : Z).

Definition withInst (s : Sys) (q : Instance) : Sys :=
  mkSys q (pushing s) (toSend s) (adding s) (asm s) (cancelled s) (crashed s).

(** The mutex is free. *)
Definition unlocked (s : Sys) : bool := bool_decide (pushing s = None).

(** One step; [None] when the action is not enabled. A machine holds fewer
    than [2 ^ 63] buckets. *)
Definition exec (a : action) (s : Sys) : option Sys :=
  let q := inst s in
  match a with
  | PushStart key fragment now =>
      require (unlocked s) ;;
      require (Z.of_nat (size (Buckets q)) <? 2 ^ 63) ;;
      let '(q, w) := pushLocked other q key fragment now in
      Some (mkSys q (match w with Wakeup k late => Some (k, late) | NoWakeup => None end)
              (toSend s) (adding s) (asm s) (cancelled s) (crashed s))
  | PushSend =>
      '(key, late) ← pushing s;
      q ← wake q key late;
      Some (mkSys q None (toSend s) (adding s) (asm s) (cancelled s) (crashed s))
  | PushCancel =>
      _ ← pushing s;
      Some (mkSys q None (toSend s) (adding s) (asm s) true (crashed s))
  | WatchScan deadline now order =>
      require (unlocked s) ;;
      require (bool_decide (toSend s = [] /\ adding s = false)) ;;
      require (bool_decide (NoDup order /\ list_to_set order = dom (Buckets q))) ;;
      let '(q, keys) := scanBuckets deadline now order q in
      Some (mkSys q (pushing s) keys (adding s) (asm s) (cancelled s) (crashed s))
  | WatchSend =>
      require (negb (adding s)) ;;
      match toSend s with
      | [] => None
      | key :: keys =>
          q ← chanSend q key;
          Some (mkSys q (pushing s) keys true (asm s) (cancelled s) (crashed s))
      end
  | WatchCount =>
      require (adding s) ;;
      Some (mkSys (incWaiting q) (pushing s) (toSend s) false (asm s) (cancelled s) (crashed s))
  | WatchCancel =>
      require (negb (adding s)) ;;
      Some (mkSys q (pushing s) [] false (asm s) true (crashed s))
  | AsmRecv =>
      match asm s with
      | AsmIdle =>
          '(key, q) ← recvKey (incPop q);
          Some (mkSys q (pushing s) (toSend s) (adding s) (AsmReceived key) (cancelled s)
                  (crashed s))
      | _ => None
      end
  | AsmCount =>
      require (unlocked s) ;;
      match asm s with
      | AsmReceived key =>
          Some (mkSys (decWaiting q) (pushing s) (toSend s) (adding s) (AsmPopped key)
                  (cancelled s) (crashed s))
      | _ => None
      end
  | AsmDrain =>
      require (unlocked s) ;;
      match asm s with
      | AsmPopped key =>
          match DrainBucket other q key with
          | Ok (_, q) =>
              Some (mkSys q (pushing s) (toSend s) (adding s) AsmIdle (cancelled s) (crashed s))
          | _ => Some (mkSys q (pushing s) (toSend s) (adding s) AsmIdle (cancelled s) true)
          end
      | _ => None
      end
  | SetDeadline d =>
      Some (withInst s (mkInstance (Buckets q) (keyQueue q) (buffer q) d (InShutdown q) (Metrics q)))
  | SetShutdown =>
      Some (withInst s (mkInstance (Buckets q) (keyQueue q) (buffer q) (packetDeadline q) true (Metrics q)))
  end.

Definition step (s s' : Sys) : Prop := exists a, exec a s = Some s'.
Definition reachable (buffer deadline : Z) (s : Sys) : Prop := rtc step (init buffer deadline) s.

Fixpoint execAll (as_ : list action) (s : Sys) : option Sys :=
  match as_ with
  | [] => Some s
  | a :: as_ => s ← exec a s; execAll as_ s
  end.

Lemma execAll_rtc as_ s s' : execAll as_ s = Some s' -> rtc step s s'.
Proof.
  revert s. induction as_ as [|a as_ IH]; intros s; cbn; [by intros [= ->]|].
  intros (s1 & H1 & H2)%bind_Some. eapply rtc_l; [by exists a|auto].
Qed.

(** The keys of filled buckets on their way to the assembler. *)
Definition asmKey (a : asmState) : list gostring :=
  match a with AsmIdle => [] | AsmReceived k | AsmPopped k => [k] end.
Definition pushKey (p : option (gostring * bool)) : list gostring :=
  match p with Some (k, _) => [k] | None => [] end.
Definition announced (s : Sys) : list gostring :=
  asmKey (asm s) ++ keyQueue (inst s) ++ toSend s ++ pushKey (pushing s).

Definition isFilled (q : Instance) (k : gostring) : Prop :=
  exists b, Buckets q !! k = Some b /\ filled b = true.

(** The invariant of the system. *)
Record inv (s : Sys) : Prop := mkInv {
  inv_alive : crashed s = false;
  inv_nodup : NoDup (announced s);
  inv_sound : forall k, k ∈ announced s -> isFilled (inst s) k;
  inv_complete : cancelled s = false -> forall k, isFilled (inst s) k -> k ∈ announced s;
  inv_total : TotalBuckets (Metrics (inst s)) = Z.of_nat (size (Buckets (inst s)));
  inv_size : Z.of_nat (size (Buckets (inst s))) <= 2 ^ 63
}.

Lemma inv_init buffer deadline : inv (init buffer deadline).
Proof.
  constructor; try done.
  - apply NoDup_nil_2.
  - by intros k Hk%not_elem_of_nil.
  - intros _ k (b & Hb & _). cbn in Hb. by rewrite lookup_empty in Hb.
Qed.

(* ------------------------------------------------------------------ *)
(** * Preservation                                                      *)
(* ------------------------------------------------------------------ *)

Lemma scanBuckets_spec d now order q :
  NoDup order ->
  let '(q', keys) := scanBuckets d now order q in
  sameFrame q q' /\ NoDup keys /\ (forall k, k ∈ keys -> k ∈ order) /\
  TotalBuckets (Metrics q') = TotalBuckets (Metrics q) /\
  dom (Buckets q') = dom (Buckets q) /\
  (forall k, k ∈ keys -> ~ isFilled q k /\ isFilled q' k) /\
  (forall k, k ∉ keys -> Buckets q' !! k = Buckets q !! k).
Proof.
  revert q. induction order as [|k order IH]; intros q Hnd; cbn [scanBuckets].
  { split_and!; try done; try apply NoDup_nil_2; by intros k Hk%not_elem_of_nil. }
  apply NoDup_cons in Hnd as [Hk Hnd].
  assert (forall q1, let '(q', keys) := scanBuckets d now order q1 in k ∉ keys) as Hnew.
  { intros q1. specialize (IH q1 Hnd). destruct (scanBuckets _ _ _ _) as [q' keys].
    intros Hin. by apply Hk, IH. }
  destruct (Buckets q !! k) as [b|] eqn:Eb; [destruct (expired d now b) eqn:Ex|].
  2, 3: specialize (IH q Hnd); destruct (scanBuckets _ _ _ _) as [q' keys];
    destruct IH as (?&?&Hin&?&?&?&?); split_and!; try done; intros k' Hk'; right; by apply Hin.
  set (q1 := incTimedOut _). specialize (IH q1 Hnd). specialize (Hnew q1).
  destruct (scanBuckets _ _ _ _) as [q' keys].
  destruct IH as (HF & Hnd' & Hin & HT & HD & HY & HN).
  assert (Buckets q1 = <[k := markFilled b]> (Buckets q)) as HB by done.
  assert (forall k', k' ∈ keys -> k' <> k) as Hne by (intros k' Hk' ->; done).
  assert (sameFrame q q') as HF' by (destruct HF as (?&?&?&?); done).
  split_and!; try done.
  - by apply NoDup_cons.
  - intros k' [->|Hk']%elem_of_cons; [left|right; by apply Hin].
  - rewrite HD, HB. rewrite dom_insert_L. assert (k ∈ dom (Buckets q)) by by eapply elem_of_dom_2.
    by apply subseteq_union_1_L, singleton_subseteq_l.
  - intros k' [->|Hk']%elem_of_cons.
    + split.
      * intros (b' & Hb' & Hf). rewrite Eb in Hb'. injection Hb' as ->.
        unfold expired in Ex. by rewrite Hf in Ex.
      * exists (markFilled b). split; [|done]. rewrite (HN k), HB by done. apply lookup_insert_eq.
    + destruct (HY k' Hk') as [H1 H2]. split; [|done]. intros H3. apply H1.
      unfold isFilled in *. by rewrite HB, lookup_insert_ne by (by apply not_eq_sym, Hne).
  - intros k' [Hk1 Hk2]%not_elem_of_cons. by rewrite (HN k'), HB, lookup_insert_ne.
Qed.

(** Steps that keep the buckets and at most drop announced keys. *)
Lemma inv_keep s s' :
  inv s -> Buckets (inst s') = Buckets (inst s) ->
  TotalBuckets (Metrics (inst s')) = TotalBuckets (Metrics (inst s)) ->
  announced s' ⊆+ announced s -> crashed s' = crashed s ->
  (cancelled s' = false -> cancelled s = false /\ announced s ⊆+ announced s') -> inv s'.
Proof.
  intros [H1 H2 H3 H4 H5 H6] HB HT Ha Hc Hx. constructor.
  - by rewrite Hc.
  - by eapply submseteq_NoDup.
  - intros k Hk. unfold isFilled. rewrite HB. apply H3. by eapply elem_of_submseteq.
  - intros [Hc' Ha']%Hx k Hk. unfold isFilled in Hk. rewrite HB in Hk.
    eapply elem_of_submseteq; [|done]. by apply H4.
  - by rewrite HT, HB.
  - by rewrite HB.
Qed.

Lemma inv_keep_perm s s' :
  inv s -> Buckets (inst s') = Buckets (inst s) ->
  TotalBuckets (Metrics (inst s')) = TotalBuckets (Metrics (inst s)) ->
  announced s' ≡ₚ announced s -> crashed s' = crashed s -> cancelled s' = cancelled s -> inv s'.
Proof.
  intros Hi HB HT Ha Hc Hx. eapply inv_keep; try done.
  - by rewrite Ha.
  - rewrite Hx. intros. split; [done|]. by rewrite Ha.
Qed.

Lemma chanSend_spec q k q' :
  chanSend q k = Some q' -> q' = setKeyQueue q (keyQueue q ++ [k]) /\ len (keyQueue q) < buffer q.
Proof. unfold chanSend. destruct (Z.ltb_spec (len (keyQueue q)) (buffer q)); by intros [= <-]. Qed.

Lemma wake_spec q k late q' :
  wake q k late = Some q' ->
  keyQueue q' = keyQueue q ++ [k] /\ Buckets q' = Buckets q /\
  TotalBuckets (Metrics q') = TotalBuckets (Metrics q) /\
  buffer q' = buffer q /\ len (keyQueue q) < buffer q.
Proof.
  unfold wake. intros (q1 & [-> ?]%chanSend_spec & [= <-])%bind_Some. by destruct late.
Qed.

(** Steps that fill some buckets and announce exactly their keys. *)
Lemma inv_announce s s' new :
  inv s -> NoDup new -> announced s' ≡ₚ new ++ announced s ->
  (forall k, k ∈ new -> ~ isFilled (inst s) k /\ isFilled (inst s') k) ->
  (forall k, k ∉ new -> isFilled (inst s') k <-> isFilled (inst s) k) ->
  TotalBuckets (Metrics (inst s')) = Z.of_nat (size (Buckets (inst s'))) ->
  Z.of_nat (size (Buckets (inst s'))) <= 2 ^ 63 ->
  crashed s' = crashed s -> cancelled s' = cancelled s -> inv s'.
Proof.
  intros [H1 H2 H3 H4 _ _] Hnd Ha Hnew Hold HT HS Hc Hx.
  assert (forall k, k ∈ new -> k ∉ announced s) as Hfresh.
  { intros k Hk Hin. by apply (Hnew k Hk), H3. }
  constructor; [congruence| | | |done|done].
  - rewrite Ha. by apply NoDup_app.
  - intros k. rewrite Ha, elem_of_app. intros [Hk|Hk]; [by apply Hnew|].
    apply Hold; [|by apply H3]. intros Hk'. by apply (Hfresh k).
  - rewrite Hx. intros Hcan k Hk. rewrite Ha, elem_of_app.
    destruct (decide (k ∈ new)) as [|Hn]; [by left|right]. by apply H4, Hold.
Qed.

Lemma inv_PushStart s k f t s' :
  inv s -> exec (PushStart k f t) s = Some s' -> inv s'.
Proof.
  intros Hi. cbn [exec]. unfold unlocked.
  intros [Hu%bool_decide_eq_true [Hs%Z.ltb_lt H]%require_bind]%require_bind. pose proof (pushLocked_spec other (inst s) k f t) as Hp.
  destruct (pushLocked _ _ _ _ _) as [q w].
  destruct (pushBucket _ _ _ _) as [b late] eqn:Eb.
  destruct Hp as (HB & -> & (HK & _) & HT & _). apply pushBucket_wakes in Eb. injection H as <-.
  assert (isFilled q k <-> filled b = true) as Hk.
  { unfold isFilled. rewrite HB, lookup_insert_eq. split; [by intros (? & [= <-] & ?)|eauto]. }
  assert (isFilled (inst s) k <-> filled <$> Buckets (inst s) !! k = Some true) as Hk0.
  { unfold isFilled. rewrite fmap_Some. by split; intros (b' & ? & ?); exists b'. }
  eapply (inv_announce s _ (if late is Some _ then [k] else [])); try done.
  - destruct late; [apply NoDup_singleton|apply NoDup_nil_2].
  - unfold announced. cbn. rewrite HK, Hu, app_nil_r. destruct late; cbn [pushKey].
    + rewrite !app_assoc. by rewrite <- Permutation_cons_append.
    + by rewrite app_nil_r.
  - destruct late; intros k' Hk'; [|by apply not_elem_of_nil in Hk'].
    apply list_elem_of_singleton in Hk' as ->. cbn [inst]. rewrite Hk, Hk0. exact Eb.
  - intros k' Hk'. cbn [inst]. destruct (decide (k' = k)) as [->|Hne].
    + destruct late; [by destruct Hk'; left|]. rewrite Hk, Hk0, Eb.
      by destruct (filled <$> _) as [[]|].
    + unfold isFilled. by rewrite HB, lookup_insert_ne.
  - cbn [inst]. rewrite HT, HB, map_size_insert, (inv_total _ Hi). unfold atomicAdd.
    destruct (Buckets (inst s) !! k); [by rewrite decide_False|rewrite decide_True by done].
    rewrite wrapU_small; lia.
  - cbn [inst]. rewrite HB, map_size_insert. destruct (Buckets (inst s) !! k); unfold id; lia.
Qed.

Lemma inv_WatchScan s d now order s' :
  inv s -> exec (WatchScan d now order) s = Some s' -> inv s'.
Proof.
  intros Hi. cbn [exec].
  intros [_ [Hw%bool_decide_eq_true [Ho%bool_decide_eq_true H]%require_bind]%require_bind]
    %require_bind.
  destruct Hw as [Hw _], Ho as [Ho _]. pose proof (scanBuckets_spec d now order (inst s) Ho) as Hsc.
  destruct (scanBuckets _ _ _ _) as [q keys]. injection H as <-.
  destruct Hsc as ((HK & _) & Hnd & _ & HT & HD & HY & HN).
  assert (size (Buckets q) = size (Buckets (inst s))) as Hsz.
  { by rewrite <- !size_dom, HD. }
  eapply (inv_announce s _ keys); try done; cbn [inst].
  - unfold announced. cbn. rewrite HK, Hw. cbn [app]. solve_Permutation.
  - intros k Hk. unfold isFilled. by rewrite (HN k Hk).
  - by rewrite HT, Hsz, (inv_total _ Hi).
  - rewrite Hsz. apply Hi.
Qed.

Lemma inv_AsmDrain s s' : inv s -> exec AsmDrain s = Some s' -> inv s'.
Proof.
  intros [H1 H2 H3 H4 H5 H6]. cbn [exec]. intros [_ H]%require_bind.
  destruct (asm s) as [| |key] eqn:Ea; [done..|]. unfold announced in *. rewrite Ea in *.
  cbn [asmKey app] in *. apply NoDup_cons in H2 as [Hnew Hnd].
  destruct (H3 key) as (b & Hb & _); [by left|].
  unfold DrainBucket in H. rewrite Hb in H. injection H as <-.
  assert (size (Buckets (inst s)) = S (size (delete key (Buckets (inst s))))) as Hsz.
  { rewrite <- (insert_delete_id (Buckets (inst s)) key b Hb) at 1.
    by rewrite map_size_insert, lookup_delete_eq. }
  assert (forall k, k <> key -> Buckets (inst s) !! k = delete key (Buckets (inst s)) !! k) as Hne.
  { intros k Hk. by rewrite lookup_delete_ne. }
  constructor; unfold announced, isFilled; cbn; try done.
  - intros k Hk. rewrite <- Hne by (by intros ->). apply H3. by right.
  - intros Hc k (b' & Hb' & Hf). assert (k <> key) as Hk.
    { intros ->. by rewrite lookup_delete_eq in Hb'. }
    rewrite <- Hne in Hb' by done. assert (k ∈ key :: keyQueue (inst s) ++ toSend s ++ pushKey (pushing s)) as [|]%elem_of_cons
      by (apply (H4 Hc); by exists b'); done.
  - rewrite subtractOnce_eq by lia. lia.
  - lia.
Qed.

Lemma inv_step s s' : inv s -> step s s' -> inv s'.
Proof.
  intros Hi [[k f t| | |d now order| | | | | | |d|] H].
  - by eapply inv_PushStart.
  - cbn [exec] in H. apply bind_Some in H as ([k late] & Hp & (q & Hw & [= <-])%bind_Some).
    apply wake_spec in Hw as (HK & HB & HT & _). eapply inv_keep_perm; try done.
    unfold announced. cbn. rewrite HK, Hp. cbn. solve_Permutation.
  - cbn [exec] in H. apply bind_Some in H as ([k late] & Hp & [= <-]).
    eapply inv_keep; try done. unfold announced. cbn. rewrite Hp. cbn. rewrite app_nil_r.
    rewrite !app_assoc. apply submseteq_inserts_r, reflexivity.
  - by eapply inv_WatchScan.
  - cbn [exec] in H. apply require_bind in H as [_ H].
    destruct (toSend s) as [|k ks] eqn:Hw; [done|].
    apply bind_Some in H as (q & [-> _]%chanSend_spec & [= <-]). eapply inv_keep_perm; try done.
    unfold announced. cbn. rewrite Hw. solve_Permutation.
  - cbn [exec] in H. apply require_bind in H as [_ [= <-]]. by eapply inv_keep_perm.
  - cbn [exec] in H. apply require_bind in H as [_ [= <-]].
    eapply inv_keep; try done. unfold announced. cbn. by apply submseteq_skips_l, submseteq_skips_l, submseteq_inserts_l.
  - cbn [exec] in H. destruct (asm s) eqn:Ea; [|done..].
    apply bind_Some in H as ([k q] & Hr & [= <-]). unfold recvKey in Hr. cbn in Hr.
    destruct (keyQueue (inst s)) as [|k' ks] eqn:Eq; [done|]. injection Hr as <- <-.
    eapply inv_keep_perm; try done. unfold announced. cbn. by rewrite Ea, Eq.
  - cbn [exec] in H. apply require_bind in H as [_ H]. destruct (asm s) eqn:Ea; [done| |done].
    injection H as <-. eapply inv_keep_perm; try done. unfold announced. cbn. by rewrite Ea.
  - by eapply inv_AsmDrain.
  - injection H as <-. by eapply inv_keep_perm.
  - injection H as <-. by eapply inv_keep_perm.
Qed.

Lemma reachable_inv buffer deadline s : reachable buffer deadline s -> inv s.
Proof.
  intros H. unfold reachable in H. remember (init buffer deadline) as s0 eqn:E.
  assert (inv s0) as Hi by (subst; apply inv_init). clear E.
  induction H; [done|]. by eauto using inv_step.
Qed.

(** The channel keeps its capacity and never exceeds it. *)
Definition roomy (buf : Z) (s : Sys) : Prop :=
  buffer (inst s) = buf /\ len (keyQueue (inst s)) <= buf.

Lemma roomy_step buf s s' : roomy buf s -> step s s' -> roomy buf s'.
Proof.
  intros [Hb Hl] [a H]. unfold roomy. destruct a; cbn [exec] in H.
  - apply require_bind in H as [_ [_ H]%require_bind].
    pose proof (pushLocked_spec other (inst s) key fragment now) as Hp.
    destruct (pushLocked _ _ _ _ _) as [q w]. destruct (pushBucket _ _ _ _) as [b late].
    destruct Hp as (_ & _ & (HK & HF & _) & _). injection H as <-. cbn. by rewrite HK, HF.
  - apply bind_Some in H as ([k late] & _ & (q & Hw & [= <-])%bind_Some).
    apply wake_spec in Hw as (HK & _ & _ & HF & Hr). cbn. rewrite HK, HF, len_app.
    change (len [k]) with 1. split; [done|lia].
  - by apply bind_Some in H as ([k late] & _ & [= <-]).
  - apply require_bind in H as [_ [_ [Ho%bool_decide_eq_true H]%require_bind]%require_bind].
    pose proof (scanBuckets_spec deadline now order (inst s) (proj1 Ho)) as Hsc.
    destruct (scanBuckets _ _ _ _) as [q keys]. destruct Hsc as ((HK & HF & _) & _).
    injection H as <-. cbn. by rewrite HK, HF.
  - apply require_bind in H as [_ H]. destruct (toSend s) as [|k ks]; [done|].
    apply bind_Some in H as (q & [-> ?]%chanSend_spec & [= <-]). cbn. rewrite len_app.
    change (len [k]) with 1. split; [done|lia].
  - by apply require_bind in H as [_ [= <-]].
  - by apply require_bind in H as [_ [= <-]].
  - destruct (asm s); [|done..]. apply bind_Some in H as ([k q] & Hr & [= <-]).
    unfold recvKey in Hr. cbn in Hr. destruct (keyQueue (inst s)) as [|k' ks] eqn:Eq; [done|].
    injection Hr as <- <-. cbn. rewrite len_cons in Hl. split; [done|lia].
  - apply require_bind in H as [_ H]. destruct (asm s); [done| |done]. by injection H as <-.
  - apply require_bind in H as [_ H]. destruct (asm s); [done..|].
    unfold DrainBucket in H. by destruct (Buckets (inst s) !! key); injection H as <-.
  - by injection H as <-.
  - by injection H as <-.
Qed.

Lemma reachable_roomy buf d s : 0 <= buf -> reachable buf d s -> roomy buf s.
Proof.
  intros Hbuf H. unfold reachable in H. remember (init buf d) as s0 eqn:E.
  assert (roomy buf s0) as Hi by (subst; done). clear E.
  induction H; [done|]. by eauto using roomy_step.
Qed.

(** C10: whatever the interleaving of pushes, watcher, assembler and
    cancellations: draining never finds its bucket missing (which would
    unlock the mutex twice and end the process); every key on its way to the
    assembler is there once and names a filled bucket; unless something was
    cancelled every filled bucket is on its way; and the bucket counter that
    shutdown waits for is the number of buckets. *)
Theorem announced_exactly_once buf d s :
  reachable buf d s ->
  crashed s = false /\ NoDup (announced s) /\
  (forall k, k ∈ announced s -> isFilled (inst s) k) /\
  (cancelled s = false -> forall k, isFilled (inst s) k -> k ∈ announced s) /\
  TotalBuckets (Metrics (inst s)) = Z.of_nat (size (Buckets (inst s))).
Proof. intros [] %reachable_inv. done. Qed.

(* ------------------------------------------------------------------ *)
(** * Progress                                                          *)
(* ------------------------------------------------------------------ *)

(** What runs by itself once no fragment arrives and the watcher rests. *)
Definition internal (a : action) : Prop :=
  a = PushSend \/ a = AsmRecv \/ a = AsmCount \/ a = AsmDrain.
Definition internalStep (s s' : Sys) : Prop := exists a, internal a /\ exec a s = Some s'.

(** Not the deadlock: a push that waits for room while the assembler waits
    for the mutex. *)
Definition unblocked (s : Sys) : Prop :=
  pushing s = None \/ asm s = AsmIdle \/ len (keyQueue (inst s)) < buffer (inst s).

Definition work (s : Sys) : nat :=
  4 * length (pushKey (pushing s)) + 3 * length (keyQueue (inst s)) +
  match asm s with AsmIdle => 0 | AsmReceived _ => 2 | AsmPopped _ => 1 end.

Lemma internal_step_spec buf s s' :
  roomy buf s -> inv s -> toSend s = [] -> unblocked s -> internalStep s s' ->
  toSend s' = [] /\ unblocked s' /\ (work s' < work s)%nat /\
  (forall k, Buckets (inst s) !! k = None -> Buckets (inst s') !! k = None) /\
  (forall k, k ∈ announced s -> k ∈ announced s' \/ Buckets (inst s') !! k = None).
Proof.
  intros [Hb Hl] Hi Hw Hu (a & [-> | [-> | [-> | ->]]] & H); cbn [exec] in H.
  - apply bind_Some in H as ([k late] & Hp & (q & Hk & [= <-])%bind_Some).
    apply wake_spec in Hk as (HK & HB & _). unfold announced, work, unblocked.
    cbn. rewrite HK, HB, Hp, Hw, length_app. cbn. split_and!; try done; [by left|lia|].
    intros k'. rewrite !elem_of_app. left. tauto.
  - destruct (asm s) eqn:Ea; [|done..]. apply bind_Some in H as ([k q] & Hr & [= <-]).
    unfold recvKey in Hr. cbn in Hr. destruct (keyQueue (inst s)) as [|k' ks] eqn:Eq; [done|].
    injection Hr as <- <-. unfold announced, work, unblocked. cbn. rewrite Ea, Eq. cbn.
    rewrite len_cons in Hl. split_and!; try done; [right; right; lia|lia|by left].
  - apply require_bind in H as [Hl'%bool_decide_eq_true H].
    destruct (asm s) eqn:Ea; [done| |done]. injection H as <-.
    unfold announced, work, unblocked. cbn. rewrite Ea. split_and!; try done; [by left|lia|by left].
  - apply require_bind in H as [Hl'%bool_decide_eq_true H].
    destruct (asm s) as [| |key] eqn:Ea; [done..|]. unfold DrainBucket in H.
    destruct (inv_sound _ Hi key) as (b & Hk & _); [unfold announced; rewrite Ea; by left|].
    rewrite Hk in H. injection H as <-. unfold announced, work, unblocked. cbn. rewrite Ea.
    split_and!; try done; [by left|lia| |].
    + intros k Hn. by apply lookup_delete_None; right.
    + intros k [->|Hin]%elem_of_cons; [right; apply lookup_delete_eq|by left].
Qed.

Lemma internal_progress buf s :
  1 <= buf -> roomy buf s -> inv s -> toSend s = [] -> unblocked s -> announced s <> [] ->
  exists s', internalStep s s'.
Proof.
  intros Hbuf [Hb Hl] Hi Hw Hu Hne. unfold announced in Hne. rewrite Hw in Hne.
  destruct (pushing s) as [[k late]|] eqn:Ep.
  - destruct (decide (len (keyQueue (inst s)) < buffer (inst s))) as [Hr|Hr].
    + eexists. exists PushSend. split; [by left|]. cbn [exec]. rewrite Ep. cbn.
      unfold wake, chanSend. rewrite (proj2 (Z.ltb_lt _ _) Hr). done.
    + unfold unblocked in Hu. rewrite Ep in Hu. destruct Hu as [|[Ha|]]; [done| |done].
      destruct (keyQueue (inst s)) as [|k' ks] eqn:Eq; [rewrite Hb, len_nil in Hr; lia|].
      eexists. exists AsmRecv. split; [by right; left|].
      cbn [exec]. rewrite Ha. unfold recvKey. cbn. by rewrite Eq.
  - cbn [pushKey] in Hne. rewrite app_nil_r in Hne. destruct (asm s) as [|k|k] eqn:Ea.
    + destruct (keyQueue (inst s)) as [|k' ks] eqn:Eq; [by destruct Hne|].
      eexists. exists AsmRecv. split; [by right; left|].
      cbn [exec]. rewrite Ea. unfold recvKey. cbn. by rewrite Eq.
    + eexists. exists AsmCount. split; [by right; right; left|].
      cbn [exec]. unfold unlocked. by rewrite Ep, Ea.
    + destruct (inv_sound _ Hi k) as (b & Hk & _); [unfold announced; rewrite Ea; by left|].
      eexists. exists AsmDrain. split; [by right; right; right|].
      cbn [exec]. unfold unlocked, DrainBucket. by rewrite Ep, Ea, Hk.
Qed.

Lemma internalStep_step s s' : internalStep s s' -> step s s'.
Proof. intros (a & _ & H). by exists a. Qed.

Lemma internal_run buf s s' :
  roomy buf s -> inv s -> toSend s = [] -> unblocked s -> rtc internalStep s s' ->
  roomy buf s' /\ inv s' /\ toSend s' = [] /\ unblocked s' /\
  forall k, k ∈ announced s \/ Buckets (inst s) !! k = None ->
    k ∈ announced s' \/ Buckets (inst s') !! k = None.
Proof.
  intros Hr Hi Hw Hu H. induction H as [s|s s1 s2 H _ IH]; [done|].
  destruct (internal_step_spec buf s s1) as (Hw1 & Hu1 & _ & HN & HA); [done..|].
  apply internalStep_step in H.
  destruct IH as (?&?&?&?&HI); [by eapply roomy_step|by eapply inv_step|done|done|].
  split_and!; try done. intros k [Hk|Hk]; apply HI; [by apply HA|right; by apply HN].
Qed.

(** C33: once the watcher has nothing to send, and outside the deadlock of
    [deadlock_reachable], the shard drains by itself: what remains to be done
    is bounded, and when no push, key or bucket can move any more every
    announced bucket was handed to the assembler, whatever the schedule. *)
Theorem shard_drains buf d s :
  1 <= buf -> reachable buf d s -> toSend s = [] -> unblocked s ->
  (forall n s', nsteps internalStep n s s' -> (n <= work s)%nat) /\
  (forall s', rtc internalStep s s' -> (forall s2, ~ internalStep s' s2) ->
     announced s' = [] /\ forall k, k ∈ announced s -> Buckets (inst s') !! k = None).
Proof.
  intros Hbuf Hreach Hw Hu. assert (roomy buf s) as Hr by (eapply reachable_roomy; [lia|done]).
  assert (inv s) as Hi by by eapply reachable_inv. split.
  - intros n. revert s Hreach Hw Hu Hr Hi.
    induction n as [|n IH]; intros s Hreach Hw Hu Hr Hi s' H; [lia|].
    inversion H as [|? ? s1 ? H1 Hn]; subst.
    destruct (internal_step_spec buf s s1) as (Hw1 & Hu1 & Hlt & _); [done..|].
    apply internalStep_step in H1.
    enough (n <= work s1)%nat by lia. eapply (IH s1); try done; [by eapply rtc_r| |].
    + by eapply roomy_step.
    + by eapply inv_step.
  - intros s' Hrun Hstop. destruct (internal_run buf s s') as (?&?&?&?&HA); [done..|].
    destruct (decide (announced s' = [])) as [E|E].
    + split; [done|]. intros k Hk. destruct (HA k) as [Hin|]; [by left| |done].
      rewrite E in Hin. by apply not_elem_of_nil in Hin.
    + exfalso. destruct (internal_progress buf s') as [s2 Hs2]; [done..|]. by apply (Hstop s2).
Qed.

(** Cancellations and settings come from outside the shard. *)
Definition environment (a : action) : Prop :=
  match a with PushCancel | WatchCancel | SetDeadline _ | SetShutdown => True | _ => False end.

Lemma deadlock_stuck s :
  pushing s <> None -> asm s <> AsmIdle -> adding s = false -> toSend s = [] ->
  len (keyQueue (inst s)) = buffer (inst s) ->
  forall a s', exec a s = Some s' -> environment a.
Proof.
  intros Hp Ha Had Hw Hfull a s' H.
  assert (unlocked s = false) as Hu by by apply bool_decide_eq_false_2.
  destruct a; cbn [exec environment] in *; rewrite ?Hu, ?Had, ?Hw in H; try done.
  - apply bind_Some in H as ([k late] & _ & (q & Hk & _)%bind_Some).
    apply wake_spec in Hk as (_ & _ & _ & _ & Hlt). lia.
  - by destruct (asm s).
Qed.
End system.

(* ------------------------------------------------------------------ *)
(** * Two races                                                         *)
(* ------------------------------------------------------------------ *)

(** Messages by number: the [n]th bucket key and a fragment of a message of
    [m + 1] fragments. *)
Definition exampleKey (n : Z) : gostring := be_encode 4 n.
Definition exampleFragment (seq m : Z) : Payload :=
  mkPayload AddrZero 1 1 seq m 0 (str "web1") 0 [] ∅ (str "x") 10.

(** A message of two fragments loses one and expires; before the watcher has
    sent its key, [n] complete messages fill the channel and one more waits
    for room, holding the mutex. The assembler takes one key and then waits
    for the mutex; the watcher's key takes the room. *)
Definition deadlockRun (n : nat) (d : Z) : list action :=
  PushStart (exampleKey 0) (exampleFragment 0 1) 1 ::
  WatchScan d (d + 2) [exampleKey 0] ::
  concat (map (fun i => [PushStart (exampleKey (Z.of_nat i)) (exampleFragment 0 0) 1; PushSend])
            (seq 1 n)) ++
  [PushStart (exampleKey (Z.of_nat (S n))) (exampleFragment 0 0) 1; AsmRecv; WatchSend; WatchCount].

Definition isDeadlock (s : Sys) : bool :=
  negb (bool_decide (pushing s = None)) &&
  match asm s with AsmReceived _ => true | _ => false end &&
  negb (adding s) && bool_decide (toSend s = []) &&
  (len (keyQueue (inst s)) =? buffer (inst s)) && negb (cancelled s).

Lemma isDeadlock_spec s : isDeadlock s = true ->
  pushing s <> None /\ asm s <> AsmIdle /\ adding s = false /\ toSend s = [] /\
  len (keyQueue (inst s)) = buffer (inst s) /\ cancelled s = false.
Proof.
  unfold isDeadlock. rewrite !andb_true_iff, !negb_true_iff, bool_decide_eq_false,
    bool_decide_eq_true, Z.eqb_eq. intros (((((? & Ha) & ?) & ?) & ?) & ?).
  split_and!; try done. by destruct (asm s).
Qed.

(** C39: with the channel of 1024 keys of the receiver and a deadline of
    200 ms a shard can deadlock: a push holds the mutex while it waits for
    room in the full channel, the assembler, which alone makes room, waits
    for the mutex, and nothing but the cancellation of a context can happen
    any more. *)
Theorem deadlock_reachable other :
  exists s, reachable other 1024 200000000 s /\ cancelled s = false /\
    announced s <> [] /\
    forall a s', exec other a s = Some s' -> environment a.
Proof.
  assert (option_map isDeadlock
            (execAll other (deadlockRun 1024 200000000) (init 1024 200000000)) = Some true) as H
    by (vm_compute; reflexivity).
  destruct (execAll _ _ _) as [s|] eqn:E; [|discriminate H].
  apply execAll_rtc in E as Hreach. clear E.
  injection H as (Hp & Ha & Had & Hw & Hfull & Hc)%isDeadlock_spec.
  exists s. split; [exact Hreach|]. split; [done|]. split.
  - unfold announced. by destruct (asm s).
  - by apply deadlock_stuck.
Qed.

(** At rest: nothing is stored, announced or being done. *)
Definition atRest (s : Sys) : bool :=
  bool_decide (Buckets (inst s) = ∅) && bool_decide (announced s = []) &&
  negb (adding s) && negb (cancelled s).

(** The assembler takes the key of an expired bucket before the watcher has
    counted it: the decrement finds zero and does nothing. *)
Definition waitingRun (d : Z) : list action :=
  [PushStart (exampleKey 0) (exampleFragment 0 1) 1; WatchScan d (d + 2) [exampleKey 0];
   WatchSend; AsmRecv; AsmCount; AsmDrain; WatchCount].
(** A fragment that arrives twice is stored once and counted twice. *)
Definition bytesRun : list action :=
  [PushStart (exampleKey 0) (exampleFragment 0 1) 1;
   PushStart (exampleKey 0) (exampleFragment 0 1) 1;
   PushStart (exampleKey 0) (exampleFragment 1 1) 1; PushSend; AsmRecv; AsmCount; AsmDrain].

(** Counters drift: at rest a shard can report a waiting bucket, which
    makes its removal wait until the time-out and report a lost message, and
    can report bytes that it does not hold. *)
Theorem counters_drift other :
  (exists s, reachable other 1024 200000000 s /\ atRest s = true /\
     WaitingBuckets (Metrics (inst s)) = 1) /\
  (exists s, reachable other 1024 200000000 s /\ atRest s = true /\
     Bytes (Metrics (inst s)) = PayloadSize other (exampleFragment 0 1)).
Proof.
  split.
  - destruct (execAll other (waitingRun 200000000) (init 1024 200000000)) as [s|] eqn:E;
      [|by vm_compute in E].
    exists s. split; [by eapply execAll_rtc|]. vm_compute in E. injection E as <-. by vm_compute.
  - destruct (execAll other bytesRun (init 1024 200000000)) as [s|] eqn:E; [|by vm_compute in E].
    exists s. split; [by eapply execAll_rtc|]. vm_compute in E. injection E as <-. by vm_compute.
Qed.

(* ------------------------------------------------------------------ *)
(** * Examples                                                          *)
(* ------------------------------------------------------------------ *)

(** An expired bucket with the watcher, a filled one in the channel. *)
Definition exampleRun : list action :=
  [PushStart (exampleKey 0) (exampleFragment 0 1) 1;
   PushStart (exampleKey 1) (exampleFragment 0 0) 1; PushSend;
   WatchScan 200000000 200000002 [exampleKey 0; exampleKey 1]].
Definition stateAfter (run : list action) : Sys :=
  default (init 1024 200000000) (execAll 0 run (init 1024 200000000)).

Lemma announced_exactly_once_witness :
  NoDup [exampleKey 1; exampleKey 0] /\ crashed (stateAfter exampleRun) = false.
Proof.
  destruct (announced_exactly_once 0 1024 200000000 (stateAfter exampleRun)) as (H1 & H2 & _).
  - apply (execAll_rtc 0 exampleRun). by vm_compute.
  - split; [exact H2|exact H1].
Defined.

Lemma shard_drains_witness :
  work (stateAfter (exampleRun ++ [WatchSend; WatchCount])) = 6%nat /\
  forall s', rtc (internalStep 0) (stateAfter (exampleRun ++ [WatchSend; WatchCount])) s' ->
    (forall s2, ~ internalStep 0 s' s2) -> Buckets (inst s') !! exampleKey 0 = None.
Proof.
  split; [by vm_compute|]. intros s' Hrun Hstop.
  destruct (shard_drains 0 1024 200000000
              (stateAfter (exampleRun ++ [WatchSend; WatchCount]))) as [_ H].
  - done.
  - apply (execAll_rtc 0 (exampleRun ++ [WatchSend; WatchCount])). by vm_compute.
  - by vm_compute.
  - left. by vm_compute.
  - destruct (H s' Hrun Hstop) as [_ Hk]. apply Hk. apply list_elem_of_In. vm_compute. by right; left.
Defined.
