(* ===== verification/FiprRouting.v ===== *)
(** Handing a fragment to another process
    ([internal/receiver/shard/fiprsend/send.go],
    [internal/receiver/shard/fiprrecv/receive.go]): both ends of a FIPR
    connection, around the message protocol's own serialization. *)
From S2P Require Import Prelude Text Registry Wrappers Context Consts Inner Fragmentation Payload Packets ToyCrypto.
From S2P Require Import Sha256 Fipr FiprSession NetAddr.

Section fipr_routing.
Context `{!Prims}.

(* ------------------------------------------------------------------ *)
(** * The sending end                                                   *)
(* ------------------------------------------------------------------ *)

(** The exchange of [RouteFragment] over a session: whether to reroute
    locally, and the caller's fragment afterwards, which [ConstructPayload]
    changes. *)
Definition routeSession (rand : nat -> bytes) (messageID remoteAddress : gostring)
    (fragment : Payload) (session : Session) : res bool * Payload * Session :=
  match clientChecks messageID remoteAddress session with
  | (Ok (draining, msgExists), session) =>
      if negb msgExists && draining then (Ok true, fragment, session)
      else
        let '(fragment', rawPayload) := ConstructPayload fragment (SignatureID fragment) in
        let '(r, session) :=
          (rawPayload ← liftRes (wrap rawPayload);
           payload ← liftRes (wrap (ConstructInnerPayload rand rawPayload));
           SendFragment payload ;;
           mret false) session in
        (r, fragment', session)
  | (Err e, session) => (Err e, fragment, session)
  | (Panic, session) => (Panic, fragment, session)
  end.

(** [RouteFragment]: [dial] is the result of connecting, [closeErr] of
    closing the connection. A panic is recovered into an error. *)
Definition fiprRouteFragment (env : CryptoEnv) (dial : Conn + err) (closeErr : option err)
    (rand : nat -> bytes) (messageID : gostring) (remoteAddress : Addr) (fragment : Payload)
  : res bool * Payload :=
  match dial with
  | inr e => (Err (EWrap e), fragment)
  | inl conn =>
      match (secret ← GetSharedSecret env; wrap (Fipr.New (Some conn) secret)) with
      | Ok session =>
          let '(r, fragment, _) :=
            routeSession rand messageID (AddrString remoteAddress) fragment session in
          (match r, closeErr with
           | Ok _, Some e => Err (EWrap e)
           | Panic, _ => Err EMsg
           | r, _ => r
           end, fragment)
      | Err e => (Err e, fragment)
      | Panic => (Err EMsg, fragment)
      end
  end.

(* ------------------------------------------------------------------ *)
(** * The receiving end                                                 *)
(* ------------------------------------------------------------------ *)

(** How a connection ends without an error of its own. *)
Inductive handled :=
  | Ended
  | Rejected
  | Accepted (origAddr : Addr) (fragment : Payload).

(** [handleConnection] over a session: [view] is the [BucketExistsAnywhere]
    of the local routing view, if there is one, and [route] what
    [shard.RouteFragment] answers. An error is logged and ends the
    connection. *)
Definition handleSession (env : CryptoEnv) (view : option (gostring -> bool))
    (route : Addr -> Payload -> bool) : SM handled :=
  WaitStart ;;
  WaitOnBehalfOf ;;
  session ← getS;
  match ParseAddr (OriginalSender session) with
  | None => raise (EWrap EMsg)
  | Some origAddr =>
      WaitShardCheck ;;
      match view with
      | None => SendShardStatus false false ;; mret Ended
      | Some bucketExistsAnywhere =>
          SendShardStatus true true ;;
          WaitMessageCheck ;;
          session ← getS;
          SendMessageStatus (bucketExistsAnywhere (MessageID session)) ;;
          r ← attempt WaitFragment;
          match r with
          | inr e => if errIs ErrTransportWasClosed e then mret Ended else raise e
          | inl rawFragment =>
              match (payload ← DeconstructInnerPayload rawFragment;
                     DeconstructPayload env payload) with
              | Panic => liftRes Panic
              | Err _ => attempt SendReject ;; mret Rejected
              | Ok fragment =>
                  if route origAddr fragment
                  then attempt SendAccept ;; mret (Accepted origAddr fragment)
                  else attempt SendReject ;; mret Rejected
              end
          end
      end
  end.

Definition handleConnection (env : CryptoEnv) (hmacSecret : bytes) (conn : Conn)
    (view : option (gostring -> bool)) (route : Addr -> Payload -> bool) : res handled :=
  session ← wrap (Fipr.New (Some conn) hmacSecret);
  (handleSession env view route session).1.
End fipr_routing.

Section facts.
Context {P : Prims}.

Lemma routeSession_run k c messageID addr f f' w bs rand :
  fresh k c (serverStream k (statusByte true true) (existsByte true)) ->
  ConstructPayload f (SignatureID f) = (f', Ok w) -> ConstructInnerPayload rand w = Ok bs ->
  messageID <> [] -> len messageID <= maxPayload -> len addr <= maxPayload ->
  len bs <= maxPayload ->
  exists c', routeSession rand messageID addr f c = (Ok false, f', c') /\
    ready k c' stateClosed 15 None None [] (clientStream k messageID addr bs).
Proof.
  intros Hc Hw Hi Hid L1 L2 L3. unfold routeSession.
  destruct (client_checks_run k c messageID addr true true true _ Hc) as (c1 & E1 & R1); [done..|].
  rewrite E1. cbn [negb andb]. rewrite Hw. rewrite SM_bind_eq. cbn [liftRes wrap].
  rewrite SM_bind_eq. unfold liftRes at 1. rewrite Hi. cbn [wrap].
  unfold serverEnd in R1. rewrite <- (app_nil_r (frameWire k 14 opAccepted [])) in R1.
  destruct (ready_SendFragment k c1 12 None None [] _ bs R1) as (c2 & E2 & R2); [done..|].
  rewrite SM_bind_eq, E2. by exists c2.
Qed.

(** The remote end has no bucket of the message: the fragment stays here. *)
Lemma routeSession_reroutes k c messageID addr f rand inp :
  fresh k c (serverPrefix k (statusByte true true) (existsByte false) ++ inp) ->
  messageID <> [] -> len messageID <= maxPayload -> len addr <= maxPayload ->
  exists c', routeSession rand messageID addr f c = (Ok true, f, c') /\
    ready k c' stateStarted 12 None None inp (clientPrefix k messageID addr).
Proof.
  intros Hc Hid L1 L2. unfold routeSession.
  destruct (client_checks_run k c messageID addr true true false _ Hc) as (c1 & E1 & R1); [done..|].
  rewrite E1. by exists c1.
Qed.

Lemma handleSession_run k s messageID addr a bs w g env exists_ route :
  fresh k s (clientStream k messageID addr bs) ->
  messageID <> [] -> addr <> [] -> bs <> [] ->
  len messageID <= maxPayload -> len addr <= maxPayload -> len bs <= maxPayload ->
  ParseAddr addr = Some a -> DeconstructInnerPayload bs = Ok w ->
  DeconstructPayload env w = Ok g -> route a g = true -> exists_ messageID = true ->
  exists s', handleSession env (Some exists_) route s = (Ok (Accepted a g), s') /\
    ready k s' stateClosed 15 (Some messageID) (Some addr) []
      (serverStream k (statusByte true true) (existsByte true)).
Proof.
  intros Hs N1 N2 N3 L1 L2 L3 Ha Hdi Hdp Hroute Hex. unfold handleSession.
  destruct (server_checks_run k s messageID addr true true true _ Hs)
    as (s1 & s2 & s3 & s4 & s5 & s6 & E1 & E2 & E3 & E4 & E5 & E6 & Eo & Ei & R); [done..|].
  rewrite SM_bind_eq, E1, SM_bind_eq, E2, SM_bind_eq. cbn [getS].
  unfold OriginalSender. rewrite Eo. cbn [from_option id]. rewrite Ha.
  rewrite SM_bind_eq, E3, SM_bind_eq, E4, SM_bind_eq, E5, SM_bind_eq. cbn [getS].
  unfold MessageID. rewrite Ei. cbn [from_option id]. rewrite Hex, SM_bind_eq, E6.
  rewrite <- (app_nil_r (frameWire k 12 opFrgRoute bs)) in R.
  destruct (ready_WaitFragment k s6 12 _ _ [] _ bs R) as (s7 & E7 & R7); [done..|].
  rewrite SM_bind_eq, (attempt_Ok _ _ _ _ E7), Hdi. cbn [mbind res_bind].
  rewrite Hdp, Hroute.
  destruct (ready_SendAccept k s7 14 _ _ _ _ R7) as (s8 & E8 & R8); [done|].
  rewrite SM_bind_eq, (attempt_Ok _ _ _ _ E8). exists s8. split; [done|].
  rewrite <- !app_assoc in R8. exact R8.
Qed.

Lemma SM_bind_inv {A B} (m : SM A) (f : A -> SM B) s b s' :
  (m ≫= f) s = (Ok b, s') -> exists a s1, m s = (Ok a, s1) /\ f a s1 = (Ok b, s').
Proof. rewrite SM_bind_eq. destruct (m s) as [[a|e|] s1]; [|done..]. eauto. Qed.

(** What a connection hands to the shards was decoded from a payload. *)
Lemma handleSession_Accepted env view route s a g s' :
  handleSession env view route s = (Ok (Accepted a g), s') ->
  exists w, DeconstructPayload env w = Ok g /\ route a g = true.
Proof.
  unfold handleSession. intros H. do 3 apply SM_bind_inv in H as (? & ? & _ & H).
  destruct (ParseAddr _) as [a'|]; [|done]. apply SM_bind_inv in H as (? & ? & _ & H).
  destruct view as [v|].
  2: { by apply SM_bind_inv in H as (? & ? & _ & [=]). }
  do 4 apply SM_bind_inv in H as (? & ? & _ & H).
  apply SM_bind_inv in H as ([raw|e] & ? & _ & H); [|by destruct (errIs _ e)].
  destruct (DeconstructInnerPayload raw) as [w|e|] eqn:Ew; cbn [mbind res_bind] in H; [| |done].
  2: { by apply SM_bind_inv in H as (? & ? & _ & [=]). }
  destruct (DeconstructPayload env w) as [g'|e|] eqn:Eg; [| |done].
  2: { by apply SM_bind_inv in H as (? & ? & _ & [=]). }
  destruct (route a' g') eqn:Er; apply SM_bind_inv in H as (? & ? & _ & [=]); subst. eauto.
Qed.

Lemma DeconstructPayload_RemoteIP env w g :
  DeconstructPayload env w = Ok g -> RemoteIP g = AddrZero.
Proof.
  unfold DeconstructPayload. intros H. repeat (case_match; [done|]).
  apply bind_inv in H as (h & _ & H). apply bind_inv in H as (fs & _ & H).
  repeat (case_match; [done|]). by injection H as <-.
Qed.
End facts.

(* ------------------------------------------------------------------ *)
(** * Theorems                                                          *)
(* ------------------------------------------------------------------ *)

Section theorems.
Context {P : Prims}.

(** C32: a fragment arrives in another process as the protocol carries it.
    Over a connection on which each end reads what the other writes, cut into
    reads in any way, [RouteFragment] reports that the fragment was taken, and
    the other process, which has a bucket for the message, routes it, with the
    original sender's address next to it: a fragment with the identifiers, the
    position, the data, the padding length and the signature it had, its time
    to the millisecond, its fields as they travel and the name that the
    receiving side's own check of the sender gives; but the fragment itself
    has lost its address, so that it never becomes part of a message with
    fragments that have theirs ([routed_fragment_not_reassembled]). Both
    sessions end closed. *)
Theorem routed_fragment_arrives env rand k c s a messageID f f' w bs name exists_ route :
  (forall n, length (rand n) = n) -> 0 <= SignatureID f ->
  ids_ok f -> fields_ok (CustomFields f) -> host_ok (Hostname f) ->
  ConstructPayload f (SignatureID f) = (f', Ok w) -> ConstructInnerPayload rand w = Ok bs ->
  checkSender env w (cleanHost (Hostname f)) = Ok name ->
  messageID <> [] -> len messageID <= maxPayload -> len (AddrString a) <= maxPayload ->
  len bs <= maxPayload -> ParseAddr (AddrString a) = Some a ->
  route a (received f (SignatureID f) (wSignature w) name) = true -> exists_ messageID = true ->
  fresh k c (serverStream k (statusByte true true) (existsByte true)) ->
  fresh k s (clientStream k messageID (AddrString a) bs) ->
  exists c' s' g,
    routeSession rand messageID (AddrString a) f c = (Ok false, f', c') /\
    handleSession env (Some exists_) route s = (Ok (Accepted a g), s') /\
    (HostID g = HostID f /\ MsgID g = MsgID f /\ MessageSeq g = MessageSeq f /\
     MessageSeqMax g = MessageSeqMax f /\ Data g = Data f /\ PaddingLen g = PaddingLen f /\
     SignatureID g = SignatureID f /\ Signature g = (if SignatureID f =? 0 then [] else Signature f) /\
     Timestamp g = fromUnixMilli (UnixMilli (Timestamp f)) /\
     CustomFields g = sentFields (CustomFields f) /\ Hostname g = name /\ RemoteIP g = AddrZero) /\
    written (conn c') = clientStream k messageID (AddrString a) bs /\
    written (conn s') = serverStream k (statusByte true true) (existsByte true) /\
    state c' = stateClosed /\ state s' = stateClosed.
Proof.
  intros Hr Hsig Hids Hf Hh Hw Hi Hname N L1 L2 L3 Ha Hroute Hex Hc Hs.
  destruct (fragment_transit env rand (SignatureID f) f f' w bs name) as (Hmin & Hdi & Hdp);
    [done..|].
  destruct (routeSession_run k c messageID (AddrString a) f f' w bs rand) as (c' & Ec & Rc);
    [done..|].
  destruct (handleSession_run k s messageID (AddrString a) a bs w
              (received f (SignatureID f) (wSignature w) name) env exists_ route Hs)
    as (s' & Es & Rs); try done.
  { intros E. by rewrite E in Ha. }
  { intros ->. by vm_compute in Hmin. }
  exists c', s', (received f (SignatureID f) (wSignature w) name). destruct Rc, Rs. split_and!; try done.
  cbn [received Signature]. apply ConstructPayload_inv in Hw as (_ & _ & _ & _ & _ & sig & fs & Hs' & _ & ->).
  by apply constructSignature_inv in Hs' as [[-> ->]|(-> & _ & -> & _)].
Qed.

Lemma Defragment_RemoteIP `{!SeqSort} ps p q r :
  Defragment ps = Ok r -> p ∈ ps -> q ∈ ps -> RemoteIP p = RemoteIP q.
Proof.
  unfold Defragment. case_bool_decide; [done|]. intros Hok.
  apply bind_inv in Hok as (b & Hall & Hok). destruct b; [|done].
  destruct ps as [|ref ps]; [done|]. cbn [allFieldsEqual] in Hall.
  assert (forall x, x ∈ ref :: ps -> RemoteIP x = RemoteIP ref) as Hx; [|].
  { intros x [->|Hx]%elem_of_cons; [done|]. clear Hok. revert Hx Hall.
    induction ps as [|y ps IH]; [by intros Hx%not_elem_of_nil|].
    cbn [allEqualTo]. intros Hx Hall. apply bind_inv in Hall as (e & He & Hall).
    destruct e; [|done]. apply EqualTo_true in He as (He & _).
    apply elem_of_cons in Hx as [->|Hx]; [done|]. by apply IH. }
  intros Hp Hq. by rewrite (Hx p Hp), (Hx q Hq).
Qed.

(** A fragment taken over from another process never becomes part of a
    message that a local fragment started: it carries no address, the local
    fragments carry the sender's, and reassembly refuses fragments whose
    addresses differ. *)
Theorem routed_fragment_not_reassembled `{!SeqSort} env view route s a g s' l ps :
  handleSession env view route s = (Ok (Accepted a g), s') ->
  RemoteIP l <> AddrZero -> l ∈ ps -> g ∈ ps ->
  RemoteIP g = AddrZero /\ forall r, Defragment ps <> Ok r.
Proof.
  intros (w & Hw & _)%handleSession_Accepted Hl Hil Hig.
  apply DeconstructPayload_RemoteIP in Hw as Hz. split; [done|]. intros r Hr.
  apply Hl. rewrite <- Hz. by eapply Defragment_RemoteIP.
Qed.
End theorems.

(* ------------------------------------------------------------------ *)
(** * Examples                                                          *)
(* ------------------------------------------------------------------ *)

(** The fragments of the example message, as the processor that received
    them passes them on. *)
Definition exampleAddr : Addr := AddrV4 (z2b 10) (z2b 0) (z2b 0) (z2b 7).
Definition exampleReceived (i : nat) : Payload :=
  match extractPacket exampleReceiver (nth i examplePackets []) with
  | Ok p => setRemoteIP p exampleAddr
  | _ => newMessage exampleRandomness exampleMessage 0 0 []
  end.
Definition exampleWire : innerWireFormat :=
  match (ConstructPayload (exampleReceived 1) 1).2 with
  | Ok w => w
  | _ => mkInner 0 0 0 0 0 [] 0 [] [] [] 0
  end.
Definition exampleInnerBytes : bytes :=
  match ConstructInnerPayload (repeat Byte.x00) exampleWire with Ok bs => bs | _ => [] end.
Definition exampleClient : Session :=
  exampleSession stateInit 0 (serverStream exampleSecret (statusByte true true) (existsByte true)).
Definition exampleServer : Session :=
  exampleSession stateInit 0
    (clientStream exampleSecret (str "10.0.0.7-77-16909060") (AddrString exampleAddr)
       exampleInnerBytes).

Lemma routed_fragment_arrives_witness :
  exists c' s' g,
    routeSession (repeat Byte.x00) (str "10.0.0.7-77-16909060") (AddrString exampleAddr)
      (exampleReceived 1) exampleClient = (Ok false, exampleReceived 1, c') /\
    handleSession exampleReceiver (Some (fun _ => true)) (fun _ _ => true) exampleServer =
      (Ok (Accepted exampleAddr g), s') /\
    setRemoteIP g exampleAddr = exampleReceived 1.
Proof.
  destruct (routed_fragment_arrives exampleReceiver (repeat Byte.x00) exampleSecret
    exampleClient exampleServer exampleAddr (str "10.0.0.7-77-16909060") (exampleReceived 1)
    (exampleReceived 1) exampleWire exampleInnerBytes (str "web1") (fun _ => true)
    (fun _ _ => true)) as (c' & s' & g & H1 & H2 & (G1 & G2 & G3 & G4 & G5 & G6 & G7 & G8 & G9 & G10 & G11 & G12) & _).
  - intros. apply repeat_length.
  - by vm_compute.
  - by vm_compute.
  - split; [|by vm_compute; repeat constructor; set_solver].
    change (CustomFields (exampleReceived 1)) with ({[ str "pid" := VInt64 42 ]} : gmap gostring goval).
    apply map_Forall_singleton. by vm_compute.
  - by vm_compute.
  - by vm_compute.
  - by vm_compute.
  - by vm_compute.
  - done.
  - by vm_compute.
  - by vm_compute.
  - by vm_compute.
  - by vm_compute.
  - done.
  - done.
  - apply fresh_example.
  - apply fresh_example.
  - exists c', s', g. split; [exact H1|]. split; [exact H2|]. unfold setRemoteIP.
    rewrite G1, G2, G3, G4, G5, G6, G7, G8, G9, G10, G11. by vm_compute.
Defined.

Lemma routed_fragment_not_reassembled_witness :
  exists g, RemoteIP g = AddrZero /\
    forall r, @Defragment stableSort [exampleReceived 0; g] <> Ok r.
Proof.
  destruct (handleSession_run exampleSecret exampleServer (str "10.0.0.7-77-16909060")
    (AddrString exampleAddr) exampleAddr exampleInnerBytes exampleWire
    (setRemoteIP (exampleReceived 1) AddrZero) exampleReceiver (fun _ => true) (fun _ _ => true))
    as (s' & H & _); [apply fresh_example|by vm_compute..|].
  exists (setRemoteIP (exampleReceived 1) AddrZero).
  apply (@routed_fragment_not_reassembled _ stableSort exampleReceiver _ _ _ _ _ _
           (exampleReceived 0) [exampleReceived 0; setRemoteIP (exampleReceived 1) AddrZero] H).
  - by vm_compute.
  - by left.
  - by right; left.
Defined.
