(* ===== verification/Routing.v ===== *)
(** Choosing the shard or process that takes a fragment
    ([internal/receiver/shard/routing.go],
    [internal/receiver/shard/fiprsend/discovery.go]). *)
From S2P Require Import Prelude Text Registry Wrappers Context Consts Inner Fragmentation Payload.
From S2P Require Import Sha256 Fipr FiprSession NetAddr FiprRouting.

(* ------------------------------------------------------------------ *)
(** * Keys and candidates                                               *)
(* ------------------------------------------------------------------ *)

(** The key of the bucket of a message, as built by [RouteFragment]. *)
Definition bucketKey (remoteAddress : Addr) (fragment : Payload) : gostring :=
  AddrString remoteAddress ++ [z2b 45] ++ FormatInt (HostID fragment) ++ [z2b 45] ++
  FormatInt (MsgID fragment).

(** [routeSelect]: the candidate that the key hashes to and the one after
    it. *)
Definition routeSelect (key : gostring) (candidates : list gostring) : gostring * gostring :=
  match candidates with
  | [] => ([], [])
  | [c] => (c, c)
  | _ =>
      let candidateNum := len candidates in
      let h := be_decode (take 8 (Sha256.hash key)) mod candidateNum in
      let idx := h mod candidateNum in
      (nth (Z.to_nat idx) candidates [],
       nth (Z.to_nat ((idx + 1) mod candidateNum)) candidates [])
  end.

(** An entry of a directory: its name and the kind that its type bits say. *)
Inductive fileKind :=
  | KRegular
  | KDir
  | KOther.
Definition isSocketKind (k : fileKind) : bool := match k with KOther => true | _ => false end.
Record DirEntry := mkEntry { entryName : gostring; entryKind : fileKind }.

(** What [os.ReadDir] fails with: [missing] stands for [os.IsNotExist] or
    [os.IsPermission] of the error. *)
Record dirError := mkDirError { missing : bool; dirErr : err }.

Definition SocketFileNamePrefix : gostring := str "proc_".
Definition SocketFileNameSuffix : gostring := str ".sock".

(** [GetSocketFileList] *)
Definition isPeerSocket (selfSocketFile : gostring) (entry : DirEntry) : bool :=
  isSocketKind (entryKind entry) &&
  hasSuffix SocketFileNameSuffix (entryName entry) &&
  hasPrefix SocketFileNamePrefix (entryName entry) &&
  negb (bool_decide (entryName entry = selfSocketFile)).
Definition GetSocketFileList (entries : list DirEntry + dirError) (selfID : Z)
  : res (list gostring) :=
  match entries with
  | inr e => if missing e then Ok [] else Err (EWrap (dirErr e))
  | inl entries =>
      let selfSocketFile := SocketFileNamePrefix ++ FormatInt selfID ++ SocketFileNameSuffix in
      Ok (sortStrings (map entryName (filter (fun e => isPeerSocket selfSocketFile e = true) entries)))
  end.

(* ------------------------------------------------------------------ *)
(** * The view of the shards                                            *)
(* ------------------------------------------------------------------ *)

(** [RoutingView], and what else routing does to its surroundings: pushing to
    a shard, listing the sockets and connecting to one of them. [W] is the
    state of the surroundings; a call may find changes made by other
    goroutines since the last one. [pushShard] is [None] when the push waits
    for ever. [Dial] gives the connection, the error of closing it and the
    random bytes drawn during the exchange. *)
Class RoutingView (W Shard : Type) := {
  GetAllIDs : W -> list gostring * W;
  GetNonDrainingIDs : W -> list gostring * W;
  BucketExists : gostring -> gostring -> W -> bool * W;
  GetShard : gostring -> W -> option Shard * W;
  IsShardShutdown : gostring -> W -> bool * W;
  BucketExistsAnywhere : gostring -> W -> bool * W;
  IsFIPRRunning : W -> bool * W;
  SocketDir : W -> gostring * W;
  pushShard : Shard -> gostring -> Payload -> gotime -> W -> option W;
  ReadDir : gostring -> W -> (list DirEntry + dirError) * W;
  Getpid : W -> Z * W;
  Dial : gostring -> gostring -> W -> (Conn + err) * option err * (nat -> bytes) * W
}.

(** Computations over the surroundings; [None] is waiting for ever. *)
Definition RT (W A : Type) : Type := W -> option (A * W).
#[export] Instance RT_ret W : MRet (RT W) := fun A a w => Some (a, w).
#[export] Instance RT_bind W : MBind (RT W) := fun A B f m w =>
  match m w with Some (a, w) => f a w | None => None end.
Definition call {W A} (f : W -> A * W) : RT W A := fun w => Some (f w).

Definition act {W} (f : W -> option W) : RT W unit := fun w => w ← f w; Some (tt, w).

Lemma RT_bind_call {W A B} (f : W -> A * W) (g : A -> RT W B) w :
  (call f ≫= g) w = g (f w).1 (f w).2.
Proof. unfold mbind, RT_bind, call. by destruct (f w). Qed.

Lemma RT_bind_act {W B} (f : W -> option W) (g : unit -> RT W B) w :
  (act f ≫= g) w = match f w with Some w => g tt w | None => None end.
Proof. unfold mbind at 1, RT_bind, act. by destruct (f w). Qed.

Lemma RT_bind_inv {W A B} (m : RT W A) (g : A -> RT W B) w b w' :
  (m ≫= g) w = Some (b, w') -> exists a w1, m w = Some (a, w1) /\ g a w1 = Some (b, w').
Proof. unfold mbind, RT_bind. destruct (m w) as [[a w1]|]; [|done]. eauto. Qed.

Section routing.
Context `{!Prims} {W Shard : Type} `{!RoutingView W Shard}.

(** Gets the shard of an identifier and pushes; [gone] when it disappeared. *)
Definition pushTo (id key : gostring) (fragment : Payload) (start : gotime)
    (gone : RT W bool) : RT W bool :=
  shard ← call (GetShard id);
  match shard with
  | None => gone
  | Some shard => act (pushShard shard key fragment start) ;; mret true
  end.

(** The retry loop. *)
Fixpoint routeLoop (retries : nat) (env : CryptoEnv) (remoteAddress : Addr) (key : gostring)
    (start : gotime) (remoteShards : list gostring) (fragment : Payload) : RT W bool :=
  match retries with
  | O => mret false
  | S retries =>
      let again := routeLoop retries env remoteAddress key start in
      shardList ← call GetAllIDs;
      if bool_decide (shardList = []) then mret false
      else
        let '(primary, secondary) := routeSelect key shardList in
        down ← call (IsShardShutdown primary);
        if negb down then pushTo primary key fragment start (again remoteShards fragment)
        else
          exists_ ← call (BucketExists primary key);
          if (exists_ : bool) then pushTo primary key fragment start (again remoteShards fragment)
          else if negb (bool_decide (remoteShards = [])) then
            let '(primarySocket, _) := routeSelect key remoteShards in
            dir ← call SocketDir;
            '(conn, closeErr, rand) ← call (Dial dir primarySocket);
            let '(r, fragment) :=
              fiprRouteFragment env conn closeErr rand key remoteAddress fragment in
            match r with
            | Ok false => mret true
            | _ => again [] fragment
            end
          else if bool_decide (secondary = []) then mret false
          else pushTo secondary key fragment start (again remoteShards fragment)
  end.

Definition retryLimit : nat := 3.

(** [RouteFragment] *)
Definition RouteFragment (env : CryptoEnv) (remoteAddress : Addr) (fragment : Payload)
    (processingStartTime : gotime) : RT W bool :=
  let key := bucketKey remoteAddress fragment in
  if MessageSeqMax fragment =? 0 then
    nonDrainingIDs ← call GetNonDrainingIDs;
    match nonDrainingIDs with
    | [] => mret false
    | [id] => pushTo id key fragment processingStartTime (mret false)
    | ids => pushTo (routeSelect key ids).1 key fragment processingStartTime (mret false)
    end
  else
    running ← call IsFIPRRunning;
    let route := fun remoteShards =>
      routeLoop retryLimit env remoteAddress key processingStartTime remoteShards fragment in
    if (running : bool) then
      dir ← call SocketDir;
      entries ← call (ReadDir dir);
      pid ← call Getpid;
      match GetSocketFileList entries pid with
      | Ok remoteShards => route remoteShards
      | _ => mret false
      end
    else route [].
End routing.

(* ------------------------------------------------------------------ *)
(** * Facts                                                             *)
(* ------------------------------------------------------------------ *)

(** Messages share a bucket only if sender, host and message agree. *)
Lemma bucketKey_inj a a' f f' :
  0 <= HostID f -> 0 <= MsgID f -> 0 <= HostID f' -> 0 <= MsgID f' ->
  bucketKey a f = bucketKey a' f' ->
  AddrString a = AddrString a' /\ HostID f = HostID f' /\ MsgID f = MsgID f'.
Proof.
  intros H1 H2 H3 H4. unfold bucketKey. rewrite !FormatInt_digits by done. intros E.
  set (x := digits (HostID f)) in E. set (x' := digits (HostID f')) in E.
  set (y := digits (MsgID f)) in E. set (y' := digits (MsgID f')) in E.
  assert ((AddrString a ++ [z2b 45] ++ x) ++ z2b 45 :: y =
          (AddrString a' ++ [z2b 45] ++ x') ++ z2b 45 :: y') as E'.
  { rewrite <- !app_assoc. exact E. }
  apply last_separator in E' as [E1 E2]; [|by apply digits_without..].
  apply (last_separator (z2b 45)) in E1 as [E0 E1]; [|by apply digits_without..].
  subst x x' y y'. apply digits_inj in E1, E2; done.
Qed.

Lemma routeSelect_elem key c cs :
  (routeSelect key (c :: cs)).1 ∈ c :: cs /\ (routeSelect key (c :: cs)).2 ∈ c :: cs.
Proof.
  unfold routeSelect. destruct cs as [|d cs]; [split; by left|]. cbv zeta.
  set (l := c :: d :: cs). set (h := be_decode _ mod len l).
  assert (0 < len l) as Hl by (subst l; rewrite !len_cons; pose proof (len_nonneg cs); lia).
  assert (forall n, nth (Z.to_nat (n mod len l)) l [] ∈ l) as Hn.
  { intros n. apply list_elem_of_In, nth_In. pose proof (Z.mod_pos_bound n (len l) Hl).
    unfold len in *. lia. }
  split; [apply (Hn h)|apply (Hn (h mod len l + 1))].
Qed.

(** With at least two distinct candidates the fallback is not the primary. *)
Lemma routeSelect_fallback key c d cs :
  NoDup (c :: d :: cs) -> (routeSelect key (c :: d :: cs)).1 <> (routeSelect key (c :: d :: cs)).2.
Proof.
  intros Hnd. unfold routeSelect. cbv zeta.
  set (l := c :: d :: cs) in *. set (h := be_decode _ mod len l).
  assert (2 <= len l) as Hl by (subst l; rewrite !len_cons; pose proof (len_nonneg cs); lia).
  pose proof (Z.mod_pos_bound h (len l) ltac:(lia)) as Hi.
  pose proof (Z.mod_pos_bound (h mod len l + 1) (len l) ltac:(lia)) as Hj.
  cbn [fst snd]. intros E. apply (NoDup_nth l []) in E; [|by apply NoDup_ListNoDup|unfold len in *; lia..].
  apply Z2Nat.inj in E; [|lia..].
  assert (h mod len l = len l - 1 \/ h mod len l < len l - 1) as [Hlast|Hlast] by lia.
  - rewrite Hlast in E. replace (len l - 1 + 1) with (len l) in E by lia.
    rewrite Z.mod_same in E; lia.
  - rewrite (Z.mod_small (h mod len l + 1)) in E by lia. lia.
Qed.

(** The sockets of the other processes, each once for each entry, sorted. *)
Lemma GetSocketFileList_spec entries selfID l :
  GetSocketFileList (inl entries) selfID = Ok l ->
  StronglySorted bytesLe l /\
  forall n, n ∈ l <-> exists e, e ∈ entries /\ entryName e = n /\ entryKind e = KOther /\
    hasPrefix SocketFileNamePrefix n = true /\ hasSuffix SocketFileNameSuffix n = true /\
    n <> SocketFileNamePrefix ++ FormatInt selfID ++ SocketFileNameSuffix.
Proof.
  unfold GetSocketFileList. intros [= <-]. split; [apply sortStrings_sorted|].
  intros n. rewrite sortStrings_perm, list_elem_of_fmap. unfold isPeerSocket.
  split.
  - intros (e & -> & (H & He)%list_elem_of_filter). apply andb_prop in H as [H H4].
    apply andb_prop in H as [H H3]. apply andb_prop in H as [H1 H2].
    apply negb_true_iff, bool_decide_eq_false in H4.
    exists e. split_and!; try done. by destruct (entryKind e).
  - intros (e & He & <- & Hk & H3 & H2 & H4). exists e. split; [done|].
    apply list_elem_of_filter. split; [|done].
    by rewrite Hk, H2, H3, bool_decide_eq_false_2.
Qed.

Example socket_files :
  GetSocketFileList (inl [mkEntry (str "proc_12.sock") KOther; mkEntry (str "proc_9.sock") KOther;
    mkEntry (str "proc_77.sock") KOther; mkEntry (str "proc_5.sock") KRegular;
    mkEntry (str "other.sock") KOther]) 77 = Ok [str "proc_12.sock"; str "proc_9.sock"].
Proof. by vm_compute. Qed.
