(* ===== verification/Listener.v ===== *)
(** The receiver's first stage, the listener
    ([internal/receiver/listener/{worker,replayprotection,manager}.go]): the
    check of a packet before it is queued, and the cache of public keys that
    refuses repeated packets. *)
From S2P Require Import Prelude Registry Wrappers Context Consts.

(* ------------------------------------------------------------------ *)
(** * The replay cache                                                  *)
(* ------------------------------------------------------------------ *)

(** [replayCacheShard] and [replayCache]: per shard, when a key was seen, in
    seconds. *)
Abbreviation replayCacheShard := (gmap bytes Z) (only parsing).
Record replayCache := mkCache { shards : list replayCacheShard; ttl : Z }.

Definition newReplayCacheWithShards (numShards : nat) (ttlSeconds : Z) : replayCache :=
  mkCache (replicate numShards ∅) ttlSeconds.

(** FNV-1a, [hash/fnv]. *)
Definition fnv32a (data : bytes) : Z :=
  foldl (fun h b => wrapU 32 (Z.lxor h (b2z b) * 16777619)) 2166136261 data.

(** [getShard]: the index of the shard; a division by zero without shards. *)
Definition getShard (cache : replayCache) (publicKey : bytes) : res nat :=
  let shardNum := wrapU 32 (len (shards cache)) in
  if shardNum =? 0 then Panic else Ok (Z.to_nat (fnv32a publicKey mod shardNum)).

(** [isReplayed], the part under the mutex; [now] was read before. *)
Definition isReplayed (now : Z) (pubKey : bytes) (cache : replayCache) : res (bool * replayCache) :=
  shard ← getShard cache pubKey;
  match shards cache !! shard with
  | None => Panic
  | Some store =>
      let replay := match store !! pubKey with
                    | Some seenTime => wrapS 64 (now - seenTime) <? ttl cache
                    | None => false
                    end in
      if replay then Ok (true, cache)
      else Ok (false, mkCache (<[shard := <[pubKey := now]> store]> (shards cache)) (ttl cache))
  end.

(** [cleanupShard] *)
Definition stale (now ttl seenTime : Z) : bool := ttl <=? wrapS 64 (now - seenTime).
Definition cleanupShard (now : Z) (shard : nat) (cache : replayCache) : replayCache :=
  mkCache (alter (fun store : replayCacheShard =>
                    filter (fun '(_, seenTime) => stale now (ttl cache) seenTime = false) store)
             shard (shards cache)) (ttl cache).

(** What the workers and the cleaner do to the cache, each under the mutex of
    a shard, with the time it has read. *)
Inductive cacheEvent :=
  | Check_ (now : Z) (pubKey : bytes)
  | Cleanup (now : Z) (shard : nat).
Definition evNow (e : cacheEvent) : Z := match e with Check_ now _ | Cleanup now _ => now end.

(** The verdicts of the checks. *)
Fixpoint runCache (evs : list cacheEvent) (cache : replayCache) : res (list bool * replayCache) :=
  match evs with
  | [] => Ok ([], cache)
  | Check_ now pubKey :: evs =>
      '(replay, cache) ← isReplayed now pubKey cache;
      '(replays, cache) ← runCache evs cache;
      Ok (replay :: replays, cache)
  | Cleanup now shard :: evs => runCache evs (cleanupShard now shard cache)
  end.

(** What the cache is for: a check is a replay if the same key was accepted
    less than [ttl] seconds ago. *)
Definition seenWithin (ttl now : Z) (pubKey : bytes) (accepted : list (Z * bytes)) : bool :=
  existsb (fun a => bool_decide (a.2 = pubKey) && (now - a.1 <? ttl)) accepted.
Fixpoint reference (ttl : Z) (accepted : list (Z * bytes)) (evs : list cacheEvent) : list bool :=
  match evs with
  | [] => []
  | Check_ now pubKey :: evs =>
      let replay := seenWithin ttl now pubKey accepted in
      replay :: reference ttl (if replay then accepted else (now, pubKey) :: accepted) evs
  | Cleanup _ _ :: evs => reference ttl accepted evs
  end.

(* ------------------------------------------------------------------ *)
(** * The worker                                                        *)
(* ------------------------------------------------------------------ *)

(** [Container] with its [Metadata]. *)
Record Container := mkContainer { cData : bytes; cRemoteIP : Addr }.

Record MetricStorage := mkMetrics { ValidPackets : Z; InvalidPackets : Z; Dropped : Z }.
Definition addValid (m : MetricStorage) : MetricStorage :=
  mkMetrics (wrapU 64 (ValidPackets m + 1)) (InvalidPackets m) (Dropped m).
Definition addInvalid (m : MetricStorage) : MetricStorage :=
  mkMetrics (ValidPackets m) (wrapU 64 (InvalidPackets m + 1)) (Dropped m).
Definition addDropped (m : MetricStorage) : MetricStorage :=
  mkMetrics (ValidPackets m) (InvalidPackets m) (wrapU 64 (Dropped m + 1)).

(** The size that a packet counts with in the queue. *)
Definition netipAddrSize : Z := 24.
Definition entrySize (e : Container) : Z := len (cData e) + netipAddrSize.

(** What a round of [run] does with what it read. *)
Inductive verdict :=
  | Ignored
  | Invalid
  | Replayed
  | Accepted (newQueueEntry : Container).

Section worker.
Context `{!Prims}.

Definition publicKey (suiteInfo : SuiteInfo) (payload : bytes) : res bytes :=
  goSlice payload SuiteIDLen (SuiteIDLen + KeySize suiteInfo).

(** From the packet's end of reading to the queue. *)
Definition inspect (now : Z) (payload : bytes) (remoteAddr : Addr) (cache : replayCache)
  : res (verdict * replayCache) :=
  if len payload =? 0 then Ok (Ignored, cache)
  else
    first ← goIndex payload 0;
    match GetSuiteInfo (b2z first) with
    | None => Ok (Invalid, cache)
    | Some suiteInfo =>
        if len payload <? MinOuterPayloadLen then Ok (Invalid, cache)
        else
          pubKey ← publicKey suiteInfo payload;
          '(replay, cache) ← isReplayed now pubKey cache;
          if (replay : bool) then Ok (Replayed, cache)
          else Ok (Accepted (mkContainer payload remoteAddr), cache)
    end.

(** A round of [run]: [pushed] tells whether the queue takes the packet within
    its four tries. A panic is recovered and the round is over. *)
Definition listen (pushed : bool) (now : Z) (payload : bytes) (remoteAddr : Addr)
    (st : replayCache * MetricStorage) : option Container * (replayCache * MetricStorage) :=
  let '(cache, m) := st in
  match inspect now payload remoteAddr cache with
  | Ok (Ignored, cache) => (None, (cache, m))
  | Ok (Invalid, cache) | Ok (Replayed, cache) => (None, (cache, addInvalid m))
  | Ok (Accepted e, cache) =>
      if pushed then (Some e, (cache, addValid m)) else (None, (cache, addDropped m))
  | Err _ | Panic => (None, st)
  end.

(** What happens at the listener: a packet is read, at a time in seconds, or
    the cleaner visits a shard. *)
Inductive listenerEvent :=
  | Arrival (pushed : bool) (now : Z) (payload : bytes) (remoteAddr : Addr)
  | Cleaning (now : Z) (shard : nat).
Definition eventNow (e : listenerEvent) : Z :=
  match e with Arrival _ now _ _ | Cleaning now _ => now end.

(** The rounds of the workers, one after the other; the entries they queue,
    each with the time of its packet. *)
Fixpoint listenAll (evs : list listenerEvent) (st : replayCache * MetricStorage)
  : list (Z * Container) * (replayCache * MetricStorage) :=
  match evs with
  | [] => ([], st)
  | Arrival pushed now payload remoteAddr :: evs =>
      let '(e, st) := listen pushed now payload remoteAddr st in
      let '(es, st) := listenAll evs st in
      (option_list (pair now <$> e) ++ es, st)
  | Cleaning now shard :: evs => listenAll evs (cleanupShard now shard st.1, st.2)
  end.
End worker.

(* ------------------------------------------------------------------ *)
(** * The manager                                                       *)
(* ------------------------------------------------------------------ *)

Record ManagerConfig := mkConfig {
  MinInstanceCount : Z;
  MaxInstanceCount : Z;
  hasListenSocket : bool;
  ReplayProtectionWindow : Z;
  replayCleanInterval : Z
}.

(** Whether [validate] finds no error. *)
Definition validate (config : ManagerConfig) : bool :=
  negb ((MinInstanceCount config =? 0) || (MaxInstanceCount config =? 0) ||
        (MaxInstanceCount config <=? MinInstanceCount config) ||
        negb (hasListenSocket config) || (ReplayProtectionWindow config =? 0) ||
        (replayCleanInterval config =? 0)).

(** [int64(d.Seconds())], exact for durations below [2^22] seconds. *)
Definition wholeSeconds (d : Z) : Z := Z.quot d (10 ^ 9).

(** [NewManager] up to the cache; the cleaner it starts ends the process when
    its interval is not positive ([time.NewTicker]). *)
Definition NewManager (config : ManagerConfig) : res replayCache :=
  let interval := Z.quot (ReplayProtectionWindow config) 2 in
  let config := mkConfig (MinInstanceCount config) (MaxInstanceCount config)
                  (hasListenSocket config) (ReplayProtectionWindow config) interval in
  if negb (validate config) then Err (EWrap EMsg)
  else if interval <=? 0 then Panic
  else Ok (newReplayCacheWithShards (Z.to_nat (MaxInstanceCount config))
             (wholeSeconds (ReplayProtectionWindow config))).

(* ------------------------------------------------------------------ *)
(** * Verdicts                                                          *)
(* ------------------------------------------------------------------ *)

(** When a key was seen, whatever shard it is in. *)
Definition seenAt (cache : replayCache) (pubKey : bytes) : option Z :=
  match getShard cache pubKey with
  | Ok shard => shards cache !! shard ≫= (.!! pubKey)
  | _ => None
  end.

Definition shardable (cache : replayCache) : Prop := 0 < len (shards cache) < 2 ^ 32.

Lemma getShard_lt cache k :
  shardable cache -> exists shard store, getShard cache k = Ok shard /\
    shards cache !! shard = Some store.
Proof.
  intros H. unfold getShard. rewrite wrapU_small by (unfold shardable in H; lia).
  rewrite (proj2 (Z.eqb_neq _ 0)) by (unfold shardable in H; lia).
  assert (0 <= fnv32a k mod len (shards cache) < len (shards cache)) as Hb
    by (apply Z.mod_pos_bound; apply H).
  destruct (lookup_lt_is_Some_2 (shards cache) (Z.to_nat (fnv32a k mod len (shards cache))))
    as [store Hs]; [unfold len in *; lia|]. eauto.
Qed.

Lemma getShard_length cache cache' k :
  length (shards cache') = length (shards cache) -> getShard cache' k = getShard cache k.
Proof. intros H. unfold getShard, len. by rewrite H. Qed.

Lemma seenAt_insert cache shard store k k' now :
  getShard cache k = Ok shard -> shards cache !! shard = Some store ->
  seenAt (mkCache (<[shard := <[k := now]> store]> (shards cache)) (ttl cache)) k' =
    if bool_decide (k' = k) then Some now else seenAt cache k'.
Proof.
  intros Hk Hs. unfold seenAt.
  rewrite (getShard_length cache) by (cbn; apply length_insert). cbn [shards].
  case_bool_decide as E.
  - subst k'. rewrite Hk, list_lookup_insert_eq by by eapply lookup_lt_Some. cbn.
    by rewrite lookup_insert_eq.
  - destruct (getShard cache k') as [shard'| |]; [|done..].
    destruct (decide (shard' = shard)) as [->|Hne].
    + rewrite list_lookup_insert_eq, Hs by by eapply lookup_lt_Some. cbn.
      by rewrite lookup_insert_ne.
    + by rewrite list_lookup_insert_ne.
Qed.

(** A cleaning only forgets stale keys. *)
Lemma seenAt_cleanup cache now shard k :
  let cache' := cleanupShard now shard cache in
  seenAt cache' k = seenAt cache k \/
  exists t, seenAt cache k = Some t /\ stale now (ttl cache) t = true /\ seenAt cache' k = None.
Proof.
  cbv zeta. unfold seenAt. rewrite (getShard_length cache) by (cbn; apply length_alter).
  destruct (getShard cache k) as [shard'| |]; [|by left..].
  destruct (decide (shard' = shard)) as [->|Hne].
  - unfold cleanupShard. cbn [shards].
    rewrite list_lookup_alter_eq. destruct (shards cache !! shard) as [store|]; [|by left]. cbn.
    rewrite map_lookup_filter. destruct (store !! k) as [t|]; [|by left]. cbn.
    case_guard as G; [by left|]. right. exists t. by destruct (stale now (ttl cache) t).
  - left. unfold cleanupShard. cbn [shards]. by rewrite list_lookup_alter_ne.
Qed.

Lemma isReplayed_spec now k cache :
  shardable cache ->
  let replay := match seenAt cache k with
                | Some t => wrapS 64 (now - t) <? ttl cache
                | None => false
                end in
  exists cache', isReplayed now k cache = Ok (replay, cache') /\
    ttl cache' = ttl cache /\ length (shards cache') = length (shards cache) /\
    forall k', seenAt cache' k' =
      if bool_decide (k' = k) && negb replay then Some now else seenAt cache k'.
Proof.
  intros Hc. destruct (getShard_lt cache k Hc) as (shard & store & Hk & Hs).
  unfold isReplayed. rewrite Hk. cbn [mbind res_bind]. rewrite Hs.
  assert (seenAt cache k = store !! k) as E by (unfold seenAt; by rewrite Hk, Hs).
  rewrite <- E. set (replay := match seenAt cache k with Some _ => _ | None => _ end).
  destruct replay; eexists; (split; [done|]).
  - split_and!; [done..|]. intros k'. by rewrite andb_false_r.
  - split_and!; [done|cbn; apply length_insert|]. intros k'. rewrite andb_true_r.
    by apply seenAt_insert.
Qed.

(** The cache at time [now] and the keys accepted so far: a key that is
    missing was accepted too long ago to matter. *)
Record tracks (now : Z) (cache : replayCache) (accepted : list (Z * bytes)) : Prop := {
  tr_shards : shardable cache;
  tr_now : 0 <= now;
  tr_times t k : (t, k) ∈ accepted -> 0 <= t <= now;
  tr_seen k t : seenAt cache k = Some t ->
    (t, k) ∈ accepted /\ forall t', (t', k) ∈ accepted -> t' <= t;
  tr_gone k t : seenAt cache k = None -> (t, k) ∈ accepted -> ttl cache <= now - t
}.

Lemma difference_small now t : 0 <= t <= now -> now < 2 ^ 63 -> wrapS 64 (now - t) = now - t.
Proof. intros. apply wrapS_small; lia. Qed.

Lemma seenWithin_spec ttl now k accepted :
  seenWithin ttl now k accepted = true <-> exists t, (t, k) ∈ accepted /\ now - t < ttl.
Proof.
  unfold seenWithin. rewrite existsb_exists. split.
  - intros ([t k'] & Hin & [H1 H2]%andb_prop). apply bool_decide_eq_true in H1. cbn in *. subst k'.
    exists t. split; [by apply list_elem_of_In|lia].
  - intros (t & Hin & Ht). exists (t, k). split; [by apply list_elem_of_In|]. cbn.
    rewrite bool_decide_eq_true_2 by done. apply Z.ltb_lt. lia.
Qed.

Lemma tracks_later now now' cache accepted :
  now <= now' -> tracks now cache accepted -> tracks now' cache accepted.
Proof.
  intros Hle [H1 H2 H3 H4 H5]. split; [done|lia| |done|].
  - intros t k Hin%H3. lia.
  - intros k t Hn Hin. specialize (H5 k t Hn Hin). lia.
Qed.

Lemma tracks_verdict now cache accepted k :
  now < 2 ^ 63 -> tracks now cache accepted ->
  match seenAt cache k with
  | Some t => wrapS 64 (now - t) <? ttl cache
  | None => false
  end = seenWithin (ttl cache) now k accepted.
Proof.
  intros Hn [H1 H2 H3 H4 H5]. apply eq_true_iff_eq. rewrite seenWithin_spec.
  destruct (seenAt cache k) as [t|] eqn:E.
  - destruct (H4 _ _ E) as [Hin Hmax]. rewrite difference_small, Z.ltb_lt by (specialize (H3 _ _ Hin); lia).
    split; [by exists t|]. intros (t' & Hin' & Ht'). specialize (Hmax _ Hin'). lia.
  - split; [done|]. intros (t & Hin & Ht). specialize (H5 _ _ E Hin). lia.
Qed.

Lemma tracks_cleanup now shard cache accepted :
  now < 2 ^ 63 -> tracks now cache accepted -> tracks now (cleanupShard now shard cache) accepted.
Proof.
  intros Hn [H1 H2 H3 H4 H5]. split; [|done|done|..].
  - unfold shardable, len, cleanupShard in *. cbn. by rewrite length_alter.
  - intros k t E. destruct (seenAt_cleanup cache now shard k) as [E'|(t' & _ & _ & E')]; [|congruence].
    apply H4. congruence.
  - intros k t E Hin. cbn [ttl cleanupShard].
    destruct (seenAt_cleanup cache now shard k) as [E'|(t' & Es & Hst & _)].
    + apply (H5 k); [congruence|done].
    + destruct (H4 _ _ Es) as [Hin' Hmax]. specialize (Hmax _ Hin).
      unfold stale in Hst. rewrite difference_small in Hst by (specialize (H3 _ _ Hin'); lia). lia.
Qed.

Lemma tracks_check now k cache accepted :
  now < 2 ^ 63 -> tracks now cache accepted ->
  let replay := seenWithin (ttl cache) now k accepted in
  exists cache', isReplayed now k cache = Ok (replay, cache') /\ ttl cache' = ttl cache /\
    tracks now cache' (if replay then accepted else (now, k) :: accepted).
Proof.
  intros Hn Ht. pose proof (tracks_verdict now cache accepted k Hn Ht) as Hv.
  destruct Ht as [H1 H2 H3 H4 H5].
  destruct (isReplayed_spec now k cache H1) as (cache' & Hr & Httl & Hl & Hs).
  rewrite Hv in Hr, Hs. exists cache'. split; [done|]. split; [done|].
  assert (shardable cache') as Hc by (unfold shardable, len in *; by rewrite Hl).
  destruct (seenWithin _ _ _ _) eqn:E.
  - split; [done..| |]; intros k' t; rewrite Hs, andb_false_r; [apply H4|].
    rewrite Httl. apply H5.
  - split; [done|done|..].
    + intros t k' [[= -> ->]|Hin]%elem_of_cons; [lia|by eapply H3].
    + intros k' t. rewrite Hs, andb_true_r. case_bool_decide as Ek.
      * intros [= <-]. subst k'. split; [by left|].
        intros t' [[= ->]|Hin]%elem_of_cons; [lia|]. by apply H3 in Hin as [_ ?].
      * intros Es. destruct (H4 _ _ Es) as [Hin Hm]. split; [by right|].
        intros t' [[= -> ->]|Hin']%elem_of_cons; [done|by apply Hm].
    + intros k' t. rewrite Hs, andb_true_r, Httl. case_bool_decide as Ek; [done|].
      intros Es [[= -> ->]|Hin]%elem_of_cons; [done|by eapply H5].
Qed.

Lemma seenAt_new n ttl k : seenAt (newReplayCacheWithShards n ttl) k = None.
Proof.
  unfold seenAt. destruct (getShard _ _); [|done..]. cbn.
  destruct (replicate n ∅ !! _) as [store|] eqn:E; [|done].
  apply lookup_replicate in E as [-> _]. cbn. by rewrite lookup_empty.
Qed.
Lemma tracks_new n ttl now : (0 < n)%nat -> Z.of_nat n < 2 ^ 32 -> 0 <= now ->
  tracks now (newReplayCacheWithShards n ttl) [].
Proof.
  intros Hn Hn' H0. split; [|done|by intros ? ? ?%not_elem_of_nil| |by intros ? ? _ ?%not_elem_of_nil].
  - unfold shardable, len, newReplayCacheWithShards. cbn. rewrite length_replicate. lia.
  - intros k t. by rewrite seenAt_new.
Qed.

(** Times that no clock step turned back, within the range of 63 bits. *)
Fixpoint clocked (now : Z) (evs : list cacheEvent) : Prop :=
  match evs with
  | [] => True
  | e :: evs => now <= evNow e < 2 ^ 63 /\ clocked (evNow e) evs
  end.

Lemma runCache_reference now evs cache accepted :
  tracks now cache accepted -> clocked now evs ->
  exists cache', runCache evs cache = Ok (reference (ttl cache) accepted evs, cache').
Proof.
  revert now cache accepted.
  induction evs as [|[now' k|now' i] evs IH]; intros now cache accepted Ht; cbn [clocked runCache reference].
  - intros _. by exists cache.
  - cbn [evNow]. intros [Hle Hc]. apply (tracks_later now now') in Ht; [|lia].
    destruct (tracks_check now' k cache accepted) as (cache1 & -> & Httl & Ht1); [lia|done|].
    destruct (IH _ _ _ Ht1 Hc) as (cache2 & H2). cbn [mbind res_bind].
    rewrite H2, Httl. by exists cache2.
  - cbn [evNow]. intros [Hle Hc]. apply (tracks_later now now') in Ht; [|lia].
    eapply (tracks_cleanup _ i) in Ht; [|lia]. exact (IH _ _ _ Ht Hc).
Qed.

(** C12: the cache does its job: from empty shards, however many there are and
    whichever a key falls in, whenever the cleaner visits which shard, a check
    answers "replayed" exactly when the same key was accepted less than the
    time to live ago. The clock must not step back. *)
Theorem replay_verdicts n ttl evs :
  (0 < n)%nat -> Z.of_nat n < 2 ^ 32 -> clocked 0 evs ->
  exists cache', runCache evs (newReplayCacheWithShards n ttl) = Ok (reference ttl [] evs, cache').
Proof. intros Hn Hn' Hc. by eapply (runCache_reference 0); [apply tracks_new|]. Qed.

Lemma replay_verdicts_witness :
  exists cache',
    runCache [Check_ 100 (str "k1"); Check_ 101 (str "k2"); Cleanup 105 0; Check_ 109 (str "k1");
              Cleanup 110 2; Check_ 110 (str "k1"); Check_ 111 (str "k1")]
      (newReplayCacheWithShards 3 10) = Ok ([false; false; true; false; true], cache').
Proof. apply (replay_verdicts 3 10); [lia|done|]. by repeat split. Defined.

(** A window below one second protects nothing. *)
Example short_window :
  (cache ← NewManager (mkConfig 1 4 true 999999999 0);
   '(verdicts, _) ← runCache [Check_ 100 (str "k"); Check_ 100 (str "k")] cache;
   Ok verdicts) = Ok [false; false].
Proof. by vm_compute. Qed.

(** A negative window is not refused. *)
Example negative_window : NewManager (mkConfig 1 4 true (-1000000000) 0) = Panic.
Proof. done. Qed.

(* ------------------------------------------------------------------ *)
(** * Packets                                                           *)
(* ------------------------------------------------------------------ *)

Section packets.
Context {prims : Prims}.

(** The key of a packet, when it has one. *)
Definition packetKey (payload : bytes) : option bytes :=
  match payload with
  | [] => None
  | first :: _ =>
      suiteInfo ← GetSuiteInfo (b2z first);
      if len payload <? MinOuterPayloadLen then None
      else Some (slice payload SuiteIDLen (SuiteIDLen + KeySize suiteInfo))
  end.

(** What becomes of a packet: the check never panics. *)
Lemma inspect_spec now payload a cache :
  shardable cache ->
  match packetKey payload with
  | None => inspect now payload a cache = Ok (if len payload =? 0 then Ignored else Invalid, cache)
  | Some k => exists replay cache', isReplayed now k cache = Ok (replay, cache') /\
      inspect now payload a cache =
        Ok (if replay then Replayed else Accepted (mkContainer payload a), cache')
  end.
Proof.
  intros Hc. unfold packetKey, inspect. destruct payload as [|b l]; [done|].
  set (payload := b :: l). assert ((len payload =? 0) = false) as ->.
  { subst payload. rewrite len_cons. pose proof (len_nonneg l). lia. }
  change (goIndex payload 0) with (Ok b). cbn [mbind res_bind].
  destruct (GetSuiteInfo (b2z b)) as [s|] eqn:Hs; [|done]. cbn.
  destruct (Z.ltb_spec (len payload) MinOuterPayloadLen) as [|Hl]; [done|].
  unfold publicKey. rewrite goSlice_ok.
  - cbn [mbind res_bind]. destruct (isReplayed_spec now (slice payload SuiteIDLen
      (SuiteIDLen + KeySize s)) cache Hc) as (cache' & Hr & _).
    revert Hr. generalize (match seenAt cache (slice payload SuiteIDLen (SuiteIDLen + KeySize s))
      with Some t => wrapS 64 (now - t) <? ttl cache | None => false end).
    intros replay Hr. exists replay, cache'. split; [done|]. rewrite Hr. by destruct replay.
  - change SuiteIDLen with 1. apply GetSuiteInfo_Some in Hs as [[_ ->]|[_ ->]]; by cbn.
  - change MinOuterPayloadLen with 42 in Hl. change SuiteIDLen with 1.
    apply GetSuiteInfo_Some in Hs as [[_ ->]|[_ ->]]; cbn [KeySize testSuite x25519Suite];
      [change (len testEphPub) with 6|change (Z.of_nat ScalarSize) with 32]; lia.
Qed.

(** Packets with keys of their own all get through. *)
Lemma listenAll_fresh (arrivals : list (Z * bytes)) a cache m :
  shardable cache ->
  (forall now pkt, (now, pkt) ∈ arrivals ->
     exists k, packetKey pkt = Some k /\ seenAt cache k = None) ->
  NoDup (map (fun x => packetKey x.2) arrivals) ->
  (listenAll (map (fun '(now, pkt) => Arrival true now pkt a) arrivals) (cache, m)).1 =
    map (fun '(now, pkt) => (now, mkContainer pkt a)) arrivals.
Proof.
  revert cache m. induction arrivals as [|[now pkt] arrivals IH]; intros cache m Hc Hk Hnd; [done|].
  cbn [map listenAll]. destruct (Hk now pkt) as (k & Ek & Es); [by left|].
  pose proof (inspect_spec now pkt a cache Hc) as H. rewrite Ek in H.
  destruct H as (replay & cache1 & Hr & Hi).
  destruct (isReplayed_spec now k cache Hc) as (cache2 & Hr2 & _ & Hl & Hs).
  rewrite Es in Hr2, Hs. rewrite Hr in Hr2. injection Hr2 as -> <-.
  unfold listen. rewrite Hi. cbn [fmap option_fmap option_map option_list app].
  apply NoDup_cons in Hnd as [Hn Hnd].
  rewrite (surjective_pairing (listenAll _ _)). cbn [fst]. f_equal. apply IH; [|intros now' pkt' Hin|done].
  - unfold shardable, len in *. by rewrite Hl.
  - destruct (Hk now' pkt') as (k' & Ek' & Es'); [by right|]. exists k'. split; [done|].
    rewrite Hs. rewrite bool_decide_eq_false_2; [done|]. intros ->. apply Hn.
    cbn [snd]. rewrite Ek, <- Ek'. by apply (list_elem_of_fmap_2 (fun x => packetKey x.2) _ (now', pkt')).
Qed.

Fixpoint ticking (now : Z) (evs : list listenerEvent) : Prop :=
  match evs with
  | [] => True
  | e :: evs => now <= eventNow e < 2 ^ 63 /\ ticking (eventNow e) evs
  end.

(** Of two entries with the same key, the later came [ttl] after the other. *)
Definition spaced (ttl : Z) (x y : Z * Container) : Prop :=
  packetKey (cData x.2) = packetKey (cData y.2) -> ttl <= y.1 - x.1.

Lemma listen_tracks now pushed pkt a cache m accepted e st :
  now < 2 ^ 63 -> tracks now cache accepted -> listen pushed now pkt a (cache, m) = (e, st) ->
  exists accepted', tracks now st.1 accepted' /\ ttl st.1 = ttl cache /\
    (forall x, x ∈ accepted -> x ∈ accepted') /\
    forall c, e = Some c -> cData c = pkt /\ exists k, packetKey pkt = Some k /\ (now, k) ∈ accepted' /\
      forall t, (t, k) ∈ accepted -> ttl cache <= now - t.
Proof.
  intros Hn Ht. pose proof (inspect_spec now pkt a cache (tr_shards _ _ _ Ht)) as H. unfold listen.
  destruct (packetKey pkt) as [k|].
  - destruct H as (replay & cache1 & Hr & ->).
    destruct (tracks_check now k cache accepted Hn Ht) as (cache2 & Hr2 & Httl & Ht2).
    rewrite Hr in Hr2. injection Hr2 as -> <-. destruct (seenWithin _ _ _ _) eqn:Es.
    + intros [= <- <-]. exists accepted. by split_and!.
    + intros H. exists ((now, k) :: accepted).
      assert (st.1 = cache1) as -> by (by destruct pushed; injection H as _ <-).
      split_and!; [done|done|by intros; right|].
      intros c ->. destruct pushed; [|done]. injection H as <- _. split; [done|]. exists k.
      split_and!; [done|by left|]. intros t Hin. apply Z.nlt_ge. intros Hlt.
      assert (seenWithin (ttl cache) now k accepted = true) as E by (apply seenWithin_spec; by exists t).
      congruence.
  - rewrite H. intros E. exists accepted.
    assert (st.1 = cache /\ e = None) as [-> ->] by (by destruct (len pkt =? 0); injection E as <- <-).
    by split_and!.
Qed.

Lemma listenAll_spaced now cache m accepted evs es st :
  tracks now cache accepted -> ticking now evs -> listenAll evs (cache, m) = (es, st) ->
  StronglySorted (spaced (ttl cache)) es /\
  forall x, x ∈ es -> exists k, packetKey (cData x.2) = Some k /\
    forall t, (t, k) ∈ accepted -> ttl cache <= x.1 - t.
Proof.
  revert now cache m accepted es. induction evs as [|ev evs IH]; intros now cache m accepted es Ht;
    cbn [ticking listenAll].
  { intros _ [= <- <-]. split; [constructor|by intros ? ?%not_elem_of_nil]. }
  intros [Hle Hc]. apply (tracks_later _ (eventNow ev)) in Ht; [|lia].
  destruct ev as [pushed now' pkt a|now' i]; cbn [eventNow] in *.
  - destruct (listen pushed now' pkt a (cache, m)) as [e [cache1 m1]] eqn:El.
    destruct (listen_tracks _ _ _ _ _ _ _ _ _ (proj2 Hle) Ht El)
      as (accepted1 & Ht1 & Httl & Hsub & He). cbn [fst] in *.
    destruct (listenAll evs (cache1, m1)) as [es1 st1] eqn:E1. intros [= <- <-].
    destruct (IH _ _ _ _ _ Ht1 Hc E1) as [IH1 IH2]. rewrite Httl in IH1, IH2.
    destruct e as [c|]; cbn [fmap option_fmap option_map option_list app].
    + destruct (He c eq_refl) as (Ec & k & Ek & Hin & Hk). split.
      * constructor; [done|]. apply Forall_forall. intros x Hx Hkey.
        destruct (IH2 x Hx) as (k' & Ek' & Hk'). cbn [fst snd] in *.
        rewrite Ec, Ek, Ek' in Hkey. injection Hkey as <-. by apply Hk'.
      * intros x [->|Hx]%elem_of_cons; cbn [fst snd]; [exists k; by rewrite Ec|].
        destruct (IH2 x Hx) as (k' & Ek' & Hk'). exists k'. auto.
    + split; [done|]. intros x Hx. destruct (IH2 x Hx) as (k' & Ek' & Hk'). exists k'. auto.
  - intros E. apply (tracks_cleanup _ i) in Ht; [|lia]. exact (IH _ _ _ _ _ Ht Hc E).
Qed.
End packets.
