(* ===== verification/Assembler.v ===== *)
(** The receiver's assembler manager
    ([internal/receiver/assembler/{manager,runtime,routing,types}.go]): its
    snapshot of running shards, adding and removing instances, and the view
    of them that routing uses ([RoutingView]). *)
From S2P Require Import Prelude Registry Wrappers Context Consts Fragmentation Fipr NetAddr.
From S2P Require Import ToyCrypto Shard FiprRouting Routing.

(* ------------------------------------------------------------------ *)
(** * The manager                                                       *)
(* ------------------------------------------------------------------ *)

Record ManagerConfig := mkConfig {
  MinInstanceCount : Z;
  MaxInstanceCount : Z;
  FIPRSocketDirectory : gostring;
  PacketDeadline : Z
}.

(** [instances] maps an identifier to the address of its shard. *)
Record routingSnapshot := mkSnapshot {
  instances : gmap gostring nat;
  ids : list gostring
}.

(** [shards] is the store of all shards ever made; [routingPtr] is the
    identity of the snapshot that the atomic pointer holds. *)
Record Manager := mkManager {
  Config : ManagerConfig;
  nextInstanceID : Z;
  routing : routingSnapshot;
  routingPtr : nat;
  shards : gmap nat Instance;
  FIPRRunning : bool
}.

Definition setRouting (m : Manager) (r : routingSnapshot) : Manager :=
  mkManager (Config m) (nextInstanceID m) r (S (routingPtr m)) (shards m) (FIPRRunning m).
Definition setShards (m : Manager) (s : gmap nat Instance) : Manager :=
  mkManager (Config m) (nextInstanceID m) (routing m) (routingPtr m) s (FIPRRunning m).
Definition setNextInstanceID (m : Manager) (n : Z) : Manager :=
  mkManager (Config m) n (routing m) (routingPtr m) (shards m) (FIPRRunning m).
Definition setFIPRRunning (m : Manager) (b : bool) : Manager :=
  mkManager (Config m) (nextInstanceID m) (routing m) (routingPtr m) (shards m) b.

(** Whether [validate] fails; a later check overwrites the error of an
    earlier one. *)
Definition validate (config : ManagerConfig) : bool :=
  negb ((MinInstanceCount config =? 0) || (MaxInstanceCount config =? 0) ||
        (MaxInstanceCount config <=? MinInstanceCount config) ||
        (PacketDeadline config =? 0) || bool_decide (FIPRSocketDirectory config = [])).

(** [global.DefaultMinPacketDeadline], 200 ms. *)
Definition DefaultMinPacketDeadline : Z := 200 * 10 ^ 6.

(** [NewManager]; [outbox] tells whether there is an output queue. The
    snapshot starts with as many empty identifiers as the minimum count. *)
Definition NewManager (config : ManagerConfig) (outbox : bool) : res Manager :=
  if negb outbox then Err EMsg
  else
    let config := mkConfig (MinInstanceCount config) (MaxInstanceCount config)
                    (FIPRSocketDirectory config) DefaultMinPacketDeadline in
    if negb (validate config) then Err (EWrap EMsg)
    else Ok (mkManager config 0
               (mkSnapshot ∅ (replicate (Z.to_nat (MinInstanceCount config)) [])) 0 ∅ false).

(** [AddInstance]; [order] is the order in which the loop meets the entries
    of the old map. *)
Definition AddInstance (order : list gostring) (m : Manager) : gostring * Manager :=
  let instanceID := FormatInt (nextInstanceID m) in
  match instances (routing m) !! instanceID with
  | Some _ => (instanceID, m)
  | None =>
      let m := setNextInstanceID m (wrapU 16 (nextInstanceID m + 1)) in
      let shard := fresh (dom (shards m)) in
      let m := setShards m (<[shard := New 1024 (PacketDeadline (Config m))]> (shards m)) in
      let newMap := <[instanceID := shard]> (instances (routing m)) in
      let newIDs := order ++ [instanceID] in
      (instanceID, setRouting m (mkSnapshot newMap newIDs))
  end.

(** The iteration orders of a map. *)
Definition isOrder (m : Manager) (order : list gostring) : Prop :=
  order ≡ₚ map fst (map_to_list (instances (routing m))).

(** [removeInstance] up to its waits: what it remembers of the snapshot, and
    the mark on the shard. *)
Record removal := mkRemoval { oldSnap : routingSnapshot; oldPtr : nat; removedID : gostring }.
Definition shutDown (q : Instance) : Instance :=
  mkInstance (Buckets q) (keyQueue q) (buffer q) (packetDeadline q) true (Metrics q).
Definition markShutdown (instanceID : gostring) (m : Manager) : option (removal * Manager) :=
  shard ← instances (routing m) !! instanceID;
  Some (mkRemoval (routing m) (routingPtr m) instanceID,
        setShards m (alter shutDown shard (shards m))).

(** The rest of [removeInstance]; [None]: the exchange fails and, tried again
    with the same old snapshot, fails for ever. *)
Definition dropInstance (r : removal) (m : Manager) : option Manager :=
  let newMap := delete (removedID r) (instances (oldSnap r)) in
  let newIDs := filter (fun id => id <> removedID r) (ids (oldSnap r)) in
  if (routingPtr m =? oldPtr r)%nat then Some (setRouting m (mkSnapshot newMap newIDs)) else None.

(** [RemoveOldestInstance] up to the waits; [None] in the first component
    when there is nothing to remove. *)
Definition RemoveOldestInstance (m : Manager) : gostring * option removal * Manager :=
  match ids (routing m) with
  | [] => ([], None, m)
  | id :: _ =>
      match markShutdown id m with
      | Some (r, m) => (id, Some r, m)
      | None => (id, None, m)
      end
  end.

(* ------------------------------------------------------------------ *)
(** * Reading the view                                                  *)
(* ------------------------------------------------------------------ *)

Definition shardAt (m : Manager) (shardID : gostring) : option nat :=
  instances (routing m) !! shardID.
Definition bucketAt (m : Manager) (shard : nat) (bucketKey : gostring) : bool :=
  match shards m !! shard with
  | Some q => bool_decide (is_Some (Buckets q !! bucketKey))
  | None => false
  end.
Definition inShutdown (m : Manager) (shard : nat) : bool :=
  match shards m !! shard with Some q => InShutdown q | None => true end.

Definition bucketExists (shardID bucketKey : gostring) (m : Manager) : bool :=
  match shardAt m shardID with Some s => bucketAt m s bucketKey | None => false end.
Definition isShardShutdown (shardID : gostring) (m : Manager) : bool :=
  match shardAt m shardID with Some s => inShutdown m s | None => true end.

(** The rest of the surroundings of routing: the iteration order over a map,
    the socket directory's content, the process, connections, whether a push
    is cancelled and the size estimate of unsupported values. *)
Record Surroundings := mkSurroundings {
  visit : gmap gostring nat -> list gostring;
  listing : list DirEntry + dirError;
  pid : Z;
  connect : gostring -> gostring -> (Conn + err) * option err * (nat -> bytes);
  cancelled : bool;
  otherSize : Z
}.

(** A manager, and what the other goroutines do to it before each of the
    following accesses. *)
Definition Observed : Type := Manager * (nat -> Manager -> Manager).
Definition interfere (w : Observed) : Observed := (w.2 O w.1, fun i => w.2 (S i)).
Definition observe {A} (f : Manager -> A) (w : Observed) : A * Observed :=
  let w := interfere w in (f w.1, w).

(** [GetNonDrainingIDs] and [BucketExistsAnywhere] look at one shard after
    the other, the second in a snapshot loaded anew for each. *)
Fixpoint nonDraining (l : list (gostring * nat)) (w : Observed) : list gostring * Observed :=
  match l with
  | [] => ([], w)
  | (id, s) :: l =>
      let '(down, w) := observe (fun m => inShutdown m s) w in
      let '(availShardIDs, w) := nonDraining l w in
      (if down then availShardIDs else id :: availShardIDs, w)
  end.
Fixpoint anyBucket (bucketKey : gostring) (l : list gostring) (w : Observed) : bool * Observed :=
  match l with
  | [] => (false, w)
  | id :: l =>
      let '(present, w) := observe (bucketExists id bucketKey) w in
      if (present : bool) then (true, w) else anyBucket bucketKey l w
  end.

(** A push to a shard, with the mutex held. *)
Definition pushAt (s : Surroundings) (shard : nat) (key : gostring) (fragment : Payload)
    (start : gotime) (m : Manager) : option Manager :=
  q ← shards m !! shard;
  q ← push (otherSize s) (cancelled s) q key fragment start;
  Some (setShards m (<[shard := q]> (shards m))).

Definition entriesOf (s : Surroundings) (m : Manager) : list (gostring * nat) :=
  omap (fun id => (fun h => (id, h)) <$> shardAt m id) (visit s (instances (routing m))).

(** [RoutingState] *)
Definition RoutingState (s : Surroundings) : RoutingView Observed nat := {|
  GetAllIDs := observe (fun m => ids (routing m));
  GetNonDrainingIDs := fun w => let '(l, w) := observe (entriesOf s) w in nonDraining l w;
  BucketExists := fun shardID bucketKey => observe (bucketExists shardID bucketKey);
  GetShard := fun shardID => observe (fun m => shardAt m shardID);
  IsShardShutdown := fun shardID => observe (isShardShutdown shardID);
  BucketExistsAnywhere := fun bucketKey w =>
    let '(l, w) := observe (fun m => visit s (instances (routing m))) w in
    anyBucket bucketKey l w;
  IsFIPRRunning := observe FIPRRunning;
  SocketDir := observe (fun m => FIPRSocketDirectory (Config m));
  pushShard := fun shard key fragment start w =>
    let w := interfere w in
    m ← pushAt s shard key fragment start w.1; Some (m, w.2);
  ReadDir := fun _ => observe (fun _ => listing s);
  Getpid := observe (fun _ => pid s);
  Dial := fun dir name => observe (fun _ => connect s dir name)
|}.
#[export] Existing Instance RoutingState.

(* ------------------------------------------------------------------ *)
(** * The snapshot's invariant                                          *)
(* ------------------------------------------------------------------ *)

(** Every identifier names one shard that exists, no two the same. *)
Record wf_instances (m : Manager) : Prop := {
  wf_shards id s : shardAt m id = Some s -> is_Some (shards m !! s);
  wf_distinct id id' s : shardAt m id = Some s -> shardAt m id' = Some s -> id = id'
}.
Record wf (m : Manager) : Prop := {
  wf_base : wf_instances m;
  wf_ids : ids (routing m) ≡ₚ map fst (map_to_list (instances (routing m)))
}.

Lemma wf_ids_elem m id : wf m -> id ∈ ids (routing m) <-> is_Some (shardAt m id).
Proof.
  intros [_ Hp]. rewrite Hp, list_elem_of_fmap. unfold shardAt. split.
  - intros ([id' s] & -> & Hin%elem_of_map_to_list). by exists s.
  - intros [s Hs%elem_of_map_to_list]. by exists (id, s).
Qed.
Lemma wf_ids_NoDup m : wf m -> NoDup (ids (routing m)).
Proof. intros [_ ->]. apply NoDup_fst_map_to_list. Qed.

Lemma NewManager_wf config m : NewManager config true = Ok m -> wf_instances m.
Proof.
  unfold NewManager. destruct (validate _); [|done]. intros [= <-].
  by split; intros ?; unfold shardAt; cbn; rewrite lookup_empty.
Qed.

(** A new instance brings the list of identifiers back in step with the map,
    whatever it was. *)
Lemma AddInstance_wf order m id m' :
  isOrder m order -> wf_instances m -> shardAt m (FormatInt (nextInstanceID m)) = None ->
  AddInstance order m = (id, m') ->
  wf m' /\ shardAt m' id = Some (fresh (dom (shards m))) /\
  forall id', id' <> id -> shardAt m' id' = shardAt m id'.
Proof.
  intros Ho [Hs Hd] Hnone. unfold AddInstance, shardAt in *. rewrite Hnone. intros [= <- <-].
  set (id := FormatInt (nextInstanceID m)) in *. set (new := fresh (dom (shards m))).
  assert (shards m !! new = None) as Hnew by (apply not_elem_of_dom, is_fresh).
  assert (forall id' s, instances (routing m) !! id' = Some s -> s <> new) as Hold.
  { intros id' s Hi ->. apply Hs in Hi. rewrite Hnew in Hi. by destruct Hi. }
  cbn. split_and!.
  - split; [split|]; unfold shardAt; cbn.
    + intros id' s. rewrite lookup_insert_Some. intros [[<- <-]|[Hne Hi]].
      * by rewrite lookup_insert_eq.
      * rewrite lookup_insert_ne by (intros E; by apply (Hold id' s)). by eapply Hs.
    + intros id1 id2 s. rewrite !lookup_insert_Some.
      intros [[<- <-]|[Hne1 Hi1]] [[<- H]|[Hne2 Hi2]]; [done|..].
      * by apply Hold in Hi2.
      * subst s. by apply Hold in Hi1.
      * by eapply Hd.
    + rewrite Ho, map_to_list_insert by done. cbn [map fst]. by rewrite Permutation_app_comm.
  - by rewrite lookup_insert_eq.
  - intros id' Hne. by rewrite lookup_insert_ne.
Qed.

Lemma markShutdown_wf id m r m' : wf m -> markShutdown id m = Some (r, m') -> wf m'.
Proof.
  intros [[Hs Hd] Hids] (s & Hi & [= <- <-])%bind_Some. split; [split|]; cbn; [|done..].
  intros id' s' Hi'. unfold shardAt in *. cbn in *. rewrite lookup_alter_is_Some. by eapply Hs.
Qed.

Lemma filter_keys {A} (k : gostring) (m : gmap gostring A) :
  filter (fun id => id <> k) (map fst (map_to_list m)) ≡ₚ map fst (map_to_list (delete k m)).
Proof.
  apply NoDup_Permutation.
  - apply NoDup_filter, NoDup_fst_map_to_list.
  - apply NoDup_fst_map_to_list.
  - intros id. rewrite list_elem_of_filter, !list_elem_of_fmap. split.
    + intros (Hne & [id' x] & -> & Hx%elem_of_map_to_list). exists (id', x). split; [done|].
      by apply elem_of_map_to_list, lookup_delete_Some.
    + intros ([id' x] & -> & (Hne & Hx)%elem_of_map_to_list%lookup_delete_Some). split; [done|].
      exists (id', x). split; [done|]. by apply elem_of_map_to_list.
Qed.

(** Removing what is removed from the snapshot that is still there. *)
Lemma dropInstance_wf r m m' :
  wf m -> routing m = oldSnap r -> dropInstance r m = Some m' ->
  wf m' /\ shardAt m' (removedID r) = None /\
  forall id, id <> removedID r -> shardAt m' id = shardAt m id.
Proof.
  intros [[Hs Hd] Hids] E. unfold dropInstance. destruct (_ =? _)%nat; [|done]. intros [= <-].
  rewrite <- E. unfold shardAt in *. cbn. set (id := removedID r). split_and!.
  - split; [split|]; unfold shardAt; cbn.
    + intros id' s [_ Hi]%lookup_delete_Some. by eapply Hs.
    + intros id1 id2 s [_ H1]%lookup_delete_Some [_ H2]%lookup_delete_Some. by eapply Hd.
    + rewrite Hids. apply filter_keys.
  - by rewrite lookup_delete_eq.
  - intros id' Hne. by rewrite lookup_delete_ne.
Qed.

(** When another snapshot was installed during the waits, the removal never
    ends. *)
Lemma dropInstance_stuck r m : routingPtr m <> oldPtr r -> dropInstance r m = None.
Proof. intros H. unfold dropInstance. by rewrite (proj2 (Nat.eqb_neq _ _) H). Qed.

(* ------------------------------------------------------------------ *)
(** * A message stays on one shard                                      *)
(* ------------------------------------------------------------------ *)

Lemma observe_eq {A} (f : Manager -> A) w : observe f w = (f (interfere w).1, interfere w).
Proof. done. Qed.

(** A push makes a bucket on its shard and changes nothing else of what
    routing looks at. *)
Lemma pushAt_spec s h key f t m m' :
  pushAt s h key f t m = Some m' ->
  routing m' = routing m /\ FIPRRunning m' = FIPRRunning m /\
  (forall h', bucketAt m' h' key = bool_decide (h' = h) || bucketAt m h' key) /\
  (forall id, isShardShutdown id m' = isShardShutdown id m).
Proof.
  unfold pushAt. intros (q & Hq & (q' & [[b Hb] Hs]%push_bucket & [= <-])%bind_Some)%bind_Some.
  split_and!; [done|done|..].
  - intros h'. unfold bucketAt. cbn [setShards shards]. destruct (decide (h' = h)) as [->|E].
    + rewrite lookup_insert_eq, Hb, lookup_insert_eq, (bool_decide_eq_true_2 (h = h)) by done.
      apply bool_decide_eq_true_2. by eexists.
    + by rewrite lookup_insert_ne, (bool_decide_eq_false_2 (h' = h)).
  - intros id. unfold isShardShutdown, shardAt, inShutdown. cbn.
    destruct (instances (routing m) !! id) as [h'|]; [|done].
    destruct (decide (h = h')) as [->|Hne].
    + by rewrite lookup_insert_eq, Hq, Hs.
    + by rewrite lookup_insert_ne.
Qed.

Section one_shard.
Context {prims : Prims} (s : Surroundings) (key : gostring).

(** What other goroutines may do meanwhile: anything but change the
    snapshot, start FIPR, make a bucket of the key (they may announce it,
    drain it or let it time out) or take back a shutdown mark. *)
Record rely (m m' : Manager) : Prop := {
  rely_routing : routing m' = routing m;
  rely_fipr : FIPRRunning m' = FIPRRunning m;
  rely_buckets h : bucketAt m' h key = true -> bucketAt m h key = true;
  rely_shutdown id : isShardShutdown id m = true -> isShardShutdown id m' = true
}.
Definition guarded (w : Observed) : Prop := forall i m, rely m (w.2 i m).

Definition primary (r : routingSnapshot) : gostring := (routeSelect key (ids r)).1.
Definition secondary (r : routingSnapshot) : gostring := (routeSelect key (ids r)).2.

(** Where buckets of the key may be. *)
Definition placed (r : routingSnapshot) (m : Manager) : Prop :=
  routing m = r /\ FIPRRunning m = false /\
  ((forall h, bucketAt m h key = true -> shardAt m (primary r) = Some h) \/
   (isShardShutdown (primary r) m = true /\
    forall h, bucketAt m h key = true -> shardAt m (secondary r) = Some h)).

Definition stable (Q : Manager -> Prop) : Prop := forall m m', rely m m' -> Q m -> Q m'.

Lemma stable_interfere Q w :
  stable Q -> guarded w -> Q w.1 -> Q (interfere w).1 /\ guarded (interfere w).
Proof. intros HQ Hw Hq. split; [exact (HQ _ _ (Hw O w.1) Hq)|]. intros i m. apply Hw. Qed.

Lemma rely_shardAt m m' id : rely m m' -> shardAt m' id = shardAt m id.
Proof. intros H. unfold shardAt. by rewrite (rely_routing _ _ H). Qed.

Lemma stable_placed r : stable (placed r).
Proof.
  intros m m' H (Hr & Hf & Hp). split; [by rewrite (rely_routing _ _ H)|].
  split; [by rewrite (rely_fipr _ _ H)|].
  destruct Hp as [Hp|[Hd Hp]]; [left|right; split; [by apply (rely_shutdown _ _ H)|]];
    intros h Hh%(rely_buckets _ _ H); rewrite (rely_shardAt _ _ _ H); by apply Hp.
Qed.
Lemma stable_placed_down r :
  stable (fun m => placed r m /\ isShardShutdown (primary r) m = true).
Proof.
  intros m m' H [Hp Hd]. split; [by eapply stable_placed|by apply (rely_shutdown _ _ H)].
Qed.
(** The primary takes no new message and has no bucket of this one. *)
Definition diverted (r : routingSnapshot) (m : Manager) : Prop :=
  placed r m /\ isShardShutdown (primary r) m = true /\
  forall h, shardAt m (primary r) = Some h -> bucketAt m h key = false.
Lemma stable_diverted r : stable (diverted r).
Proof.
  intros m m' H (Hp & Hd & Hn).
  destruct (stable_placed_down r m m' H (conj Hp Hd)) as [Hp' Hd']. split_and!; [done..|].
  intros h. rewrite (rely_shardAt _ _ _ H). intros Hh. apply not_true_iff_false. intros Hb%(rely_buckets _ _ H).
  by rewrite (Hn h Hh) in Hb.
Qed.

(** The shard named [id] may take the fragment. *)
Definition target (r : routingSnapshot) (id : gostring) (m : Manager) : Prop :=
  routing m = r /\ FIPRRunning m = false /\
  ((id = primary r /\ forall h, bucketAt m h key = true -> shardAt m (primary r) = Some h) \/
   (isShardShutdown (primary r) m = true /\
    (forall h, bucketAt m h key = true -> shardAt m (secondary r) = Some h) /\
    forall h, shardAt m id = Some h -> shardAt m (secondary r) = Some h)).

Lemma stable_target r id : stable (target r id).
Proof.
  intros m m' H (Hr & Hf & Hp). split; [by rewrite (rely_routing _ _ H)|].
  split; [by rewrite (rely_fipr _ _ H)|].
  destruct Hp as [[Hid Hp]|(Hd & Hp & Hq)]; [left|right]; split_and?; try done;
    try (intros h; rewrite !(rely_shardAt _ _ _ H); intros Hh; try apply (rely_buckets _ _ H) in Hh; auto).
  by apply (rely_shutdown _ _ H).
Qed.

Lemma target_placed r id m : target r id m -> placed r m.
Proof.
  intros (Hr & Hf & [[_ Hp]|(Hd & Hp & _)]); (split_and!; [done..|]); [by left|by right].
Qed.

Lemma target_primary r m :
  placed r m ->
  (isShardShutdown (primary r) m = true -> bucketExists (primary r) key m = true) ->
  target r (primary r) m.
Proof.
  intros (Hr & Hf & [Hp|[Hd Hp]]) He; (split_and!; [done..|]); [by left|right].
  split_and!; try done. intros h Hh. specialize (He Hd). unfold bucketExists in He.
  rewrite Hh in He. by apply Hp.
Qed.

Lemma target_secondary r m : diverted r m -> target r (secondary r) m.
Proof.
  intros ((Hr & Hf & Hp) & Hd & Hn). split_and!; [done..|]. right. split_and!; [done| |done].
  intros h Hh. destruct Hp as [Hp|[_ Hp]]; [|by apply Hp].
  rewrite (Hn h) in Hh by auto. done.
Qed.

Lemma target_push r id h f t m m' :
  target r id m -> shardAt m id = Some h -> pushAt s h key f t m = Some m' -> placed r m'.
Proof.
  intros (Hr & Hf & Hp) Hid (HR & HF & HB & HS)%pushAt_spec.
  assert (forall id, shardAt m' id = shardAt m id) as Hat by (intros; unfold shardAt; by rewrite HR).
  split; [by rewrite HR|]. split; [by rewrite HF|].
  destruct Hp as [[-> Hp]|(Hd & Hp & Hq)]; [left|right; split; [by rewrite HS|]];
    intros h'; rewrite HB, Hat; (destruct (decide (h' = h)) as [->|Hne];
      [by auto|rewrite bool_decide_eq_false_2 by done; apply Hp]).
Qed.

(** ** The calls *)
Definition kept (r : routingSnapshot) (w : Observed) : Prop := placed r w.1 /\ guarded w.

Lemma pushTo_kept r id f t gone w b w' :
  target r id w.1 -> guarded w ->
  (forall w b w', kept r w -> gone w = Some (b, w') -> kept r w') ->
  pushTo (RoutingView0 := RoutingState s) id key f t gone w = Some (b, w') -> kept r w'.
Proof.
  intros Ht Hw Hgone. unfold pushTo. rewrite RT_bind_call. cbn [GetShard RoutingState].
  rewrite observe_eq. cbn [fst snd].
  destruct (stable_interfere _ w (stable_target r id) Hw Ht) as [Ht1 Hw1].
  destruct (shardAt (interfere w).1 id) as [h|] eqn:Hid.
  2: { apply Hgone. split; [by eapply target_placed|done]. }
  destruct (stable_interfere _ _ (stable_target r id) Hw1 Ht1) as [Ht2 Hw2].
  rewrite <- (rely_shardAt _ _ id (Hw1 O (interfere w).1)) in Hid.
  rewrite RT_bind_act. cbn [pushShard RoutingState].
  destruct (pushAt s h key f t _) as [m'|] eqn:Hp; [|done].
  intros [= <- <-]. split; [|done].
  by eapply target_push.
Qed.

(** Steps over an access to the view: [H] is kept by it and by what happens
    before it. *)
Ltac access w H Hw S :=
  rewrite RT_bind_call;
  cbn [GetAllIDs IsShardShutdown BucketExists IsFIPRRunning RoutingState];
  rewrite observe_eq; cbn [fst snd];
  let H1 := fresh in let Hw1 := fresh in
  destruct (stable_interfere _ w S Hw H) as [H1 Hw1];
  revert H1 Hw1; generalize (interfere w); clear w H Hw; intros w H Hw.

Lemma routeLoop_kept n env a t r f w b w' :
  kept r w ->
  routeLoop (RoutingView0 := RoutingState s) n env a key t [] f w = Some (b, w') -> kept r w'.
Proof.
  revert w b w'. induction n as [|n IH]; intros w b w' [Hp Hw]; cbn [routeLoop].
  { intros [= <- <-]. done. }
  access w Hp Hw (stable_placed r). case_bool_decide as Hids. { by intros [= <- <-]. }
  clear Hids. pose proof (proj1 Hp) as Hr. rewrite Hr, (surjective_pairing (routeSelect _ _)).
  fold (primary r) (secondary r). clear Hr.
  access w Hp Hw (stable_placed r).
  destruct (isShardShutdown (primary r) w.1) eqn:Hd; cbn [negb].
  2: { apply pushTo_kept; [apply target_primary; [done|congruence]|done|]. intros; by eapply IH. }
  pose proof (conj Hp Hd) as Hpd. clear Hp Hd.
  access w Hpd Hw (stable_placed_down r). destruct Hpd as [Hp Hd].
  destruct (bucketExists (primary r) key w.1) eqn:He.
  { apply pushTo_kept; [by apply target_primary|done|]. intros; by eapply IH. }
  rewrite bool_decide_eq_true_2 by done. cbn [negb].
  case_bool_decide. { by intros [= <- <-]. }
  apply pushTo_kept; [|done|intros; by eapply IH]. apply target_secondary. split_and!; [done..|].
  intros h Hh. unfold bucketExists in He. by rewrite Hh in He.
Qed.

Lemma RouteFragment_kept env a t r f w b w' :
  bucketKey a f = key -> MessageSeqMax f <> 0 -> kept r w ->
  RouteFragment (RoutingView0 := RoutingState s) env a f t w = Some (b, w') -> kept r w'.
Proof.
  intros Hk Hf [Hp Hw]. unfold RouteFragment. rewrite Hk, (proj2 (Z.eqb_neq _ _) Hf).
  access w Hp Hw (stable_placed r). rewrite (proj1 (proj2 Hp)). by apply routeLoop_kept.
Qed.
End one_shard.

(** ** Routing when nothing else happens *)

Definition calm (m : Manager) : Observed := (m, fun _ m => m).
Lemma observe_calm {A} (f : Manager -> A) m : observe f (calm m) = (f m, calm m).
Proof. done. Qed.

(** The shard a fragment of a longer message goes to, and the shards that a
    single fragment chooses from. *)
Definition destination (key : gostring) (m : Manager) : gostring :=
  let '(primary, secondary) := routeSelect key (ids (routing m)) in
  if isShardShutdown primary m && negb (bucketExists primary key m) then secondary else primary.
Definition active (s : Surroundings) (m : Manager) : list gostring :=
  map fst (filter (fun p => inShutdown m p.2 = false) (entriesOf s m)).

Lemma nonDraining_calm l m :
  nonDraining l (calm m) = (map fst (filter (fun p => inShutdown m p.2 = false) l), calm m).
Proof.
  induction l as [|[id h] l IH]; cbn [nonDraining]; [done|]. rewrite observe_calm, IH.
  destruct (inShutdown m h) eqn:E.
  - by rewrite filter_cons_False by (cbn; congruence).
  - by rewrite filter_cons_True by done.
Qed.

Lemma pushTo_calm `{!Prims} s id key f t gone m h :
  shardAt m id = Some h ->
  pushTo (RoutingView0 := RoutingState s) id key f t gone (calm m) =
  (fun m => (true, calm m)) <$> pushAt s h key f t m.
Proof.
  intros Hid. unfold pushTo. rewrite RT_bind_call. cbn [GetShard RoutingState].
  rewrite observe_calm. cbn [fst snd]. rewrite Hid, RT_bind_act. cbn [pushShard RoutingState].
  change (interfere (calm m)) with (calm m). cbn [calm fst snd].
  by destruct (pushAt s h key f t m).
Qed.

(** A fragment of a longer message is pushed to its destination. *)
Lemma RouteFragment_calm `{!Prims} s env a f t m :
  wf m -> ids (routing m) <> [] -> (forall id, id ∈ ids (routing m) -> id <> []) ->
  FIPRRunning m = false -> MessageSeqMax f <> 0 ->
  exists h, shardAt m (destination (bucketKey a f) m) = Some h /\
  RouteFragment (RoutingView0 := RoutingState s) env a f t (calm m) =
  (fun m => (true, calm m)) <$> pushAt s h (bucketKey a f) f t m.
Proof.
  intros Hwf Hids Hne HF Hm. unfold RouteFragment, retryLimit. rewrite (proj2 (Z.eqb_neq _ _) Hm).
  set (key := bucketKey a f).
  rewrite RT_bind_call. cbn [IsFIPRRunning RoutingState]. rewrite observe_calm. cbn [fst snd].
  rewrite HF. cbn [routeLoop].
  rewrite RT_bind_call. cbn [GetAllIDs RoutingState]. rewrite observe_calm. cbn [fst snd].
  rewrite bool_decide_eq_false_2 by done. unfold destination.
  assert (forall id, id ∈ ids (routing m) -> exists h, shardAt m id = Some h) as Hat.
  { intros id Hid. by apply wf_ids_elem in Hid as [h Hh]; [exists h|]. }
  destruct (ids (routing m)) as [|c cs] eqn:E; [done|].
  destruct (routeSelect_elem key c cs) as [Hp Hs].
  destruct (routeSelect key (c :: cs)) as [primary secondary]. cbn [fst snd] in Hp, Hs.
  rewrite RT_bind_call. cbn [IsShardShutdown RoutingState]. rewrite observe_calm. cbn [fst snd].
  destruct (Hat _ Hp) as [hp Hhp], (Hat _ Hs) as [hs Hhs].
  destruct (isShardShutdown primary m); cbn [negb andb].
  2: { exists hp. by rewrite (pushTo_calm _ _ _ _ _ _ _ hp). }
  rewrite RT_bind_call. cbn [BucketExists RoutingState]. rewrite observe_calm. cbn [fst snd].
  destruct (bucketExists primary key m); cbn [negb].
  { exists hp. by rewrite (pushTo_calm _ _ _ _ _ _ _ hp). }
  rewrite bool_decide_eq_true_2 by done. cbn [negb].
  rewrite bool_decide_eq_false_2 by by apply Hne.
  exists hs. by rewrite (pushTo_calm _ _ _ _ _ _ _ hs).
Qed.

(** A message of one fragment goes to one of the shards that are not being
    removed; without one it is dropped. *)
Lemma RouteFragment_single_calm `{!Prims} s env a f t m :
  MessageSeqMax f = 0 ->
  match active s m with
  | [] => RouteFragment (RoutingView0 := RoutingState s) env a f t (calm m) = Some (false, calm m)
  | ids =>
      exists id h, id ∈ ids /\ shardAt m id = Some h /\ inShutdown m h = false /\
      RouteFragment (RoutingView0 := RoutingState s) env a f t (calm m) =
      (fun m => (true, calm m)) <$> pushAt s h (bucketKey a f) f t m
  end.
Proof.
  intros Hm. unfold RouteFragment. rewrite Hm. cbn [Z.eqb].
  set (key := bucketKey a f). rewrite RT_bind_call. cbn [GetNonDrainingIDs RoutingState].
  rewrite observe_calm, nonDraining_calm. cbn [fst snd].
  assert (forall id, id ∈ active s m -> exists h, shardAt m id = Some h /\ inShutdown m h = false)
    as Hat.
  { intros id ([id' h] & -> & (Hd & Hin)%list_elem_of_filter)%list_elem_of_fmap.
    apply list_elem_of_omap in Hin as (id2 & _ & (h2 & Hh2 & [= <- <-])%fmap_Some). by exists h. }
  fold (active s m). destruct (active s m) as [|c cs]; [done|].
  assert (exists id, id ∈ c :: cs /\ match cs with
    | [] => pushTo (RoutingView0 := RoutingState s) c key f t (mret false)
    | _ => pushTo (RoutingView0 := RoutingState s) (routeSelect key (c :: cs)).1 key f t (mret false)
    end = pushTo (RoutingView0 := RoutingState s) id key f t (mret false)) as (id & Hid & E).
  { destruct cs as [|d cs]; [exists c; split; [by left|done]|].
    exists (routeSelect key (c :: d :: cs)).1. split; [apply (routeSelect_elem key)|reflexivity]. }
  destruct (Hat _ Hid) as (h & Hh & Hd). exists id, h. split_and!; [done..|].
  replace (match cs with [] => _ | _ => _ end) with
    (pushTo (RoutingView0 := RoutingState s) id key f t (mret false)) by (by destruct cs).
  by apply pushTo_calm.
Qed.

(** Routes fragments one after the other. *)
Fixpoint routeAll `{!Prims} {W Shard} `{!RoutingView W Shard} (env : CryptoEnv)
    (l : list (Addr * Payload * gotime)) : RT W (list bool) :=
  match l with
  | [] => mret []
  | (a, f, t) :: l =>
      b ← RouteFragment env a f t;
      bs ← routeAll env l;
      mret (b :: bs)
  end.

Section theorems.
Context {prims : Prims}.

(** C7: the fragments of a message are never on two shards at once, if they
    are routed one after the other, FIPR is off and the set of shards does not
    change. Before each access to the view other goroutines may push other
    messages, announce or drain any bucket, also this message's, and mark
    shards for removal, but not route a fragment of this message; however the
    pushes end and whichever tries fail, after any number of fragments all
    buckets of the message's key are on one shard. Two fragments that are
    routed at the same time can be split ([shutdown_splits_message]), and so
    can a message when an instance is added ([scale_up_splits_message]). *)
Theorem message_on_one_shard s env key l w bs w' :
  (forall a f t, (a, f, t) ∈ l -> bucketKey a f = key /\ MessageSeqMax f <> 0) ->
  (forall h, bucketAt w.1 h key = false) -> FIPRRunning w.1 = false -> guarded key w ->
  routeAll (RoutingView0 := RoutingState s) env l w = Some (bs, w') ->
  forall h h', bucketAt w'.1 h key = true -> bucketAt w'.1 h' key = true -> h = h'.
Proof.
  intros Hl Hnone Hf Hw Hrun.
  assert (kept key (routing w.1) w) as Hk.
  { split; [|done]. split_and!; [done..|]. left. intros h Hh. by rewrite Hnone in Hh. }
  revert Hk. generalize (routing w.1). intros r Hk. clear Hnone Hf Hw.
  assert (kept key r w') as [(_ & _ & [Hp|[_ Hp]]) _].
  2,3: intros h h' H1%Hp H2%Hp; congruence.
  revert w bs Hk Hrun. induction l as [|[[a f] t] l IH]; intros w bs Hk; cbn [routeAll].
  { by intros [= <- <-]. }
  intros (b & w1 & E & (bs1 & w2 & E2 & [= <- <-])%RT_bind_inv)%RT_bind_inv.
  destruct (Hl a f t) as [Hkey Hm]; [by left|].
  eapply IH; [|by eapply RouteFragment_kept|exact E2]. intros; eapply Hl. by right.
Qed.
End theorems.

(* ------------------------------------------------------------------ *)
(** * Examples                                                          *)
(* ------------------------------------------------------------------ *)

Definition exampleSurroundings : Surroundings :=
  mkSurroundings (fun m => map fst (map_to_list m)) (inl []) 1
    (fun _ _ => (inr EMsg, None, repeat Byte.x00)) false 0.

Definition addInstance (m : Manager) : Manager :=
  (AddInstance (map fst (map_to_list (instances (routing m)))) m).2.
Definition exampleManager : Manager :=
  match NewManager (mkConfig 1 8 (str "/run/sdsyslog") 0) true with
  | Ok m => addInstance (addInstance m)
  | _ => mkManager (mkConfig 0 0 [] 0) 0 (mkSnapshot ∅ []) 0 ∅ false
  end.
Definition exampleOrigin : Addr := AddrV4 (z2b 10) (z2b 0) (z2b 0) (z2b 7).
Definition exampleFragment (msg seq : Z) : Payload :=
  mkPayload exampleOrigin 77 msg seq 1 0 (str "web1") 0 [] ∅ (str "part") 10.
Definition exampleKey (msg : Z) : gostring := bucketKey exampleOrigin (exampleFragment msg 0).
Definition emptyEnv : CryptoEnv := initEnv.

Definition routeOne `{!Prims} (msg seq : Z) (m : Manager) : option (bool * Manager) :=
  '(b, w) ← RouteFragment (RoutingView0 := RoutingState exampleSurroundings) emptyEnv exampleOrigin
              (exampleFragment msg seq) (1000 * seq) (calm m);
  Some (b, w.1).

(** How many fragments of a message each shard has collected. *)
Definition collected (key : gostring) (m : Manager) : list (nat * nat) :=
  omap (fun '(h, q) => (fun b => (h, size (Fragments b))) <$> Buckets q !! key)
    (map_to_list (shards m)).

Lemma two_calls {M L} (r : option (bool * M)) (f : M -> option (bool * M)) (g : M -> L) b b' x :
  ('(b1, m1) ← r; '(b2, m2) ← f m1; Some (b1, b2, g m2)) = Some (b, b', x) ->
  exists m1 m2, r = Some (b, m1) /\ f m1 = Some (b', m2) /\ g m2 = x.
Proof.
  intros ([b1 m1] & -> & ([b2 m2] & E2 & [= <- <- <-])%bind_Some)%bind_Some. by exists m1, m2.
Qed.

(** Adding an instance while a message is under way splits it: the
    fragment before goes to one shard, the fragment after to another, both
    calls report success and neither shard ever has the whole message. *)
Theorem scale_up_splits_message `{!Prims} :
  exists m1 m2 h h',
    routeOne 1 0 exampleManager = Some (true, m1) /\
    routeOne 1 1 (addInstance m1) = Some (true, m2) /\
    h <> h' /\ collected (exampleKey 1) m2 = [(h, 1%nat); (h', 1%nat)].
Proof.
  assert (('(b1, m1) ← routeOne 1 0 exampleManager; '(b2, m2) ← routeOne 1 1 (addInstance m1);
          Some (b1, b2, collected (exampleKey 1) m2)) =
          Some (true, true, [(2, 1); (0, 1)]%nat)) as E by by vm_compute.
  destruct (two_calls (routeOne 1 0 exampleManager) (fun m => routeOne 1 1 (addInstance m))
              (collected (exampleKey 1)) true true _ E) as (m1 & m2 & H1 & H2 & H3).
  exists m1, m2, 2%nat, 0%nat. split; [exact H1|]. split; [exact H2|]. split; [discriminate|exact H3].
Qed.

(** Two fragments at once: between the look at the shutdown mark and the push
    of the first, the scaler marks the shard and the second is routed. *)
Definition overtaken `{!Prims} : nat -> Manager -> Manager := fun i m =>
  if (i =? 3)%nat then
    match markShutdown (str "0") m with
    | Some (_, m) => match routeOne 1 1 m with Some (_, m) => m | None => m end
    | None => m
    end
  else m.
Example shutdown_splits_message `{!Prims} :
  ((fun r => (r.1, collected (exampleKey 1) r.2.1)) <$>
    RouteFragment (RoutingView0 := RoutingState exampleSurroundings) emptyEnv exampleOrigin
      (exampleFragment 1 0) 0 (exampleManager, overtaken)) =
  Some (true, [(1, 1); (0, 1)]%nat).
Proof. by vm_compute. Qed.

Lemma message_on_one_shard_witness :
  exists w' : Observed,
    collected (exampleKey 1) w'.1 = [(0, 2)]%nat /\
    forall h h', bucketAt w'.1 h (exampleKey 1) = true ->
                 bucketAt w'.1 h' (exampleKey 1) = true -> h = h'.
Proof.
  set (l := [(exampleOrigin, exampleFragment 1 0, 0); (exampleOrigin, exampleFragment 1 1, 1000)]).
  destruct (routeAll (RoutingView0 := RoutingState exampleSurroundings) emptyEnv l
              (calm exampleManager)) as [[bs w']|] eqn:E.
  - exists w'. split.
    + enough (('(_, w) ← routeAll (RoutingView0 := RoutingState exampleSurroundings) emptyEnv l
                  (calm exampleManager); Some (collected (exampleKey 1) w.1)) =
              Some [(0, 2)]%nat) as Hc; [|by vm_compute].
      rewrite E in Hc. by injection Hc.
    + refine (message_on_one_shard exampleSurroundings emptyEnv (exampleKey 1) l
                (calm exampleManager) bs w' _ _ _ _ E).
      * clear E. intros a f t [[= -> -> ->]|[[= -> -> ->]|[]%not_elem_of_nil]%elem_of_cons]%elem_of_cons;
          by vm_compute.
      * clear E. intros h. unfold bucketAt. change (calm exampleManager).1 with exampleManager.
        destruct (shards exampleManager !! h) as [q|] eqn:Hq; [|done].
        assert (map_Forall (fun _ q => bool_decide (is_Some (Buckets q !! exampleKey 1)) = false)
                  (shards exampleManager)) as Hall
          by (apply (bool_decide_unpack _); by vm_compute).
        exact (Hall _ _ Hq).
      * clear E. by vm_compute.
      * clear E. intros i m. by split.
  - exfalso. assert (match routeAll (RoutingView0 := RoutingState exampleSurroundings) emptyEnv l
              (calm exampleManager) with Some _ => true | None => false end = true) as Hs
      by by vm_compute.
    rewrite E in Hs. discriminate.
Defined.
