(* ===== verification/Processor.v ===== *)
(** The receiver's second stage, the processor
    ([internal/receiver/processor/worker.go]), and the way of a message from
    its packets to the shard that assembles it. *)
From S2P Require Import Prelude Text Registry Wrappers Context Consts Inner Fragmentation Payload Packets.
From S2P Require Import ToyCrypto Shard NetAddr FiprRouting Routing Listener Assembler.

(* ------------------------------------------------------------------ *)
(** * The worker                                                        *)
(* ------------------------------------------------------------------ *)

Record MetricStorage := mkMetrics { ValidPayloads : Z; InvalidPayloads : Z; Dropped : Z }.

(** [pastTimestampLimit] and [futureTimestampLimit], in nanoseconds. *)
Record Limits := mkLimits { pastTimestampLimit : Z; futureTimestampLimit : Z }.

(** How a round of [run] ends. *)
Inductive outcome :=
  | InvalidPayload
  | Routed
  | NotRouted
  | Recovered.

Section worker.
Context `{!Prims} {W Shard : Type} `{!RoutingView W Shard}.

(** From the queue's entry to the fragment that is routed. *)
Definition decodeEntry (env : CryptoEnv) (limits : Limits) (processingStartTime : gotime)
    (queueEntry : Container) : res Payload :=
  innerPayload ← DeconstructOuterPayload env (cData queueEntry);
  payload ← DeconstructInnerPayload innerPayload;
  msg ← DeconstructPayload env payload;
  let msg := setRemoteIP msg (cRemoteIP queueEntry) in
  if processingStartTime + futureTimestampLimit limits <? Timestamp msg then Err EMsg
  else if Timestamp msg <? processingStartTime + wrapS 64 (- pastTimestampLimit limits)
  then Err EMsg
  else Ok msg.

(** A round of [run] on an entry of the queue. *)
Definition processEntry (env : CryptoEnv) (limits : Limits) (processingStartTime : gotime)
    (queueEntry : Container) : RT W outcome :=
  match decodeEntry env limits processingStartTime queueEntry with
  | Ok msg =>
      success ← RouteFragment env (cRemoteIP queueEntry) msg processingStartTime;
      mret (if (success : bool) then Routed else NotRouted)
  | Err _ => mret InvalidPayload
  | Panic => mret Recovered
  end.

(** What a round adds to the counters. *)
Definition countOutcome (o : outcome) (m : MetricStorage) : MetricStorage :=
  match o with
  | InvalidPayload => mkMetrics (ValidPayloads m) (wrapU 64 (InvalidPayloads m + 1)) (Dropped m)
  | Routed => mkMetrics (wrapU 64 (ValidPayloads m + 1)) (InvalidPayloads m) (Dropped m)
  | NotRouted =>
      mkMetrics (wrapU 64 (ValidPayloads m + 1)) (InvalidPayloads m) (wrapU 64 (Dropped m + 1))
  | Recovered => m
  end.

(** Rounds one after the other, each with the time it starts. *)
Fixpoint processAll (env : CryptoEnv) (limits : Limits) (work : list (Container * gotime))
  : RT W (list outcome) :=
  match work with
  | [] => mret []
  | (e, start) :: work =>
      o ← processEntry env limits start e;
      os ← processAll env limits work;
      mret (o :: os)
  end.
End worker.

(* ------------------------------------------------------------------ *)
(** * The validity window                                               *)
(* ------------------------------------------------------------------ *)

Definition inWindow (limits : Limits) (start t : gotime) : Prop :=
  start - pastTimestampLimit limits <= t <= start + futureTimestampLimit limits.

Definition limits_ok (limits : Limits) : Prop := - 2 ^ 63 < pastTimestampLimit limits < 2 ^ 63.

Section facts.
Context {prims : Prims}.

Lemma decodeEntry_spec env limits start e :
  limits_ok limits ->
  decodeEntry env limits start e =
    (msg ← (innerPayload ← DeconstructOuterPayload env (cData e);
            payload ← DeconstructInnerPayload innerPayload; DeconstructPayload env payload);
     if bool_decide (inWindow limits start (Timestamp msg))
     then Ok (setRemoteIP msg (cRemoteIP e)) else Err EMsg).
Proof.
  intros Hl. unfold decodeEntry.
  destruct (DeconstructOuterPayload _ _) as [i| |]; [|done..]. cbn [mbind res_bind].
  destruct (DeconstructInnerPayload i) as [w| |]; [|done..]. cbn [mbind res_bind].
  destruct (DeconstructPayload env w) as [m| |]; [|done..]. cbn [mbind res_bind setRemoteIP Timestamp].
  assert (wrapS 64 (- pastTimestampLimit limits) = - pastTimestampLimit limits) as ->
    by (apply wrapS_small; [done|unfold limits_ok in Hl; lia]).
  unfold inWindow. case_bool_decide as Hw.
  - rewrite (proj2 (Z.ltb_ge _ _)), (proj2 (Z.ltb_ge _ _)) by lia. done.
  - destruct (Z.ltb_spec (start + futureTimestampLimit limits) (Timestamp m)); [done|].
    rewrite (proj2 (Z.ltb_lt _ _)) by lia. done.
Qed.

(** The three steps of decoding succeed together with [extractPacket]. *)
Lemma extractPacket_steps env pkt m :
  extractPacket env pkt = Ok m ->
  (innerPayload ← DeconstructOuterPayload env pkt;
   payload ← DeconstructInnerPayload innerPayload; DeconstructPayload env payload) = Ok m.
Proof.
  unfold extractPacket. intros (i & Hi%wrap_inv & H)%bind_inv.
  apply bind_inv in H as (w & Hw%wrap_inv & H%wrap_inv).
  rewrite Hi. cbn. by rewrite Hw.
Qed.

Lemma decodeEntry_Ok env limits start e m :
  limits_ok limits -> decodeEntry env limits start e = Ok m ->
  inWindow limits start (Timestamp m) /\ RemoteIP m = cRemoteIP e /\
  exists m0, Timestamp m0 = Timestamp m /\
    (innerPayload ← DeconstructOuterPayload env (cData e);
     payload ← DeconstructInnerPayload innerPayload; DeconstructPayload env payload) = Ok m0.
Proof.
  intros Hl. rewrite decodeEntry_spec by done. intros (m0 & H0 & H)%bind_inv.
  case_bool_decide as Hw; [|done]. injection H as <-. split; [done|]. split; [done|]. by exists m0.
Qed.

(** C11: a packet is routed at most once in all its life: when the replay
    window covers both validity windows, the longest time that a packet waits
    for a processor and two seconds of rounding, then of two entries of the
    queue with the same bytes, whenever they arrived, only one can be within
    the validity window when it is processed. *)
Theorem packet_routed_once env limits n ttl delay m evs es st i j ti tj e e' start start' msg :
  limits_ok limits -> (0 < n)%nat -> Z.of_nat n < 2 ^ 32 -> ticking 0 evs ->
  listenAll evs (newReplayCacheWithShards n ttl, m) = (es, st) ->
  pastTimestampLimit limits + futureTimestampLimit limits + delay + 2 * 10 ^ 9 <= ttl * 10 ^ 9 ->
  (i < j)%nat -> es !! i = Some (ti, e) -> es !! j = Some (tj, e') -> cData e' = cData e ->
  start < (ti + 1) * 10 ^ 9 + delay -> tj * 10 ^ 9 <= start' ->
  decodeEntry env limits start e = Ok msg -> decodeEntry env limits start' e' = Err EMsg.
Proof.
  intros Hl Hn Hn' Hc Hrun Hw Hij Hi Hj Hd Hs Hs' H.
  destruct (listenAll_spaced 0 _ _ [] _ _ _ (tracks_new n ttl 0 Hn Hn' ltac:(lia)) Hc Hrun) as [Hsp _].
  assert (ttl <= tj - ti) as Ht.
  { apply (StronglySorted_lookup _ _ _ _ _ _ Hsp Hij Hi Hj). cbn [snd]. by rewrite Hd. }
  apply decodeEntry_Ok in H as ([_ Hwin] & _ & m0 & Em & H0); [|done].
  rewrite decodeEntry_spec, Hd, H0 by done. cbn [mbind res_bind].
  rewrite bool_decide_eq_false_2; [done|]. unfold inWindow. lia.
Qed.
End facts.

(* ------------------------------------------------------------------ *)
(** * Processing the fragments of one message                           *)
(* ------------------------------------------------------------------ *)

(** A manager at work: some shards, none of which is going away. *)
Record steady (m : Manager) : Prop := {
  st_wf : wf m;
  st_ids : ids (routing m) <> [];
  st_named id : id ∈ ids (routing m) -> id <> [];
  st_fipr : FIPRRunning m = false;
  st_up id : id ∈ ids (routing m) -> isShardShutdown id m = false
}.

Lemma pushAt_shards s h key f t m m' :
  pushAt s h key f t m = Some m' ->
  exists q q', shards m !! h = Some q /\ push (otherSize s) (cancelled s) q key f t = Some q' /\
    m' = setShards m (<[h := q']> (shards m)).
Proof.
  unfold pushAt. intros (q & Hq & (q' & Hp & [= <-])%bind_Some)%bind_Some. by exists q, q'.
Qed.

Lemma pushAt_steady s h key f t m m' : pushAt s h key f t m = Some m' -> steady m -> steady m'.
Proof.
  intros Hp [[[Hs Hd] Hi] H2 H3 H4 H5]. pose proof (pushAt_spec _ _ _ _ _ _ _ Hp) as (HR & HF & _ & HS).
  apply pushAt_shards in Hp as (q & q' & Hq & _ & ->). split; rewrite ?HR, ?HF; try done.
  - split; [split|done]; [|exact Hd]. intros id h'. unfold shardAt. cbn. intros Hh'%Hs.
    by apply lookup_insert_is_Some'; right.
  - intros id Hid. rewrite HS. by apply H5.
Qed.

Definition primaryOf (key : gostring) (m : Manager) : gostring :=
  (routeSelect key (ids (routing m))).1.

Lemma steady_destination key m : steady m -> destination key m = primaryOf key m /\
  exists h, shardAt m (primaryOf key m) = Some h.
Proof.
  intros [Hwf H2 _ _ H5]. unfold destination, primaryOf.
  assert ((routeSelect key (ids (routing m))).1 ∈ ids (routing m)) as Hp.
  { destruct (ids (routing m)) as [|c cs]; [done|]. apply routeSelect_elem. }
  split; [|by apply wf_ids_elem in Hp as [h Hh]; [exists h|]].
  specialize (H5 _ Hp). destruct (routeSelect _ _) as [p sec]. cbn in *. by rewrite H5.
Qed.

(** What the processors make of the packets of a message, the entries being
    decoded to fragments of it, is a sequence of pushes on one shard. *)
Lemma processAll_pushes {prims : Prims} s env limits key work fs m h q q' :
  cancelled s = false -> steady m -> shardAt m (primaryOf key m) = Some h ->
  shards m !! h = Some q ->
  Forall2 (fun w f => decodeEntry env limits w.2 w.1 = Ok f /\
    bucketKey (cRemoteIP w.1) f = key /\ MessageSeqMax f <> 0) work fs ->
  pushAll (otherSize s) q (zip_with (fun w f => mkEvent key f w.2) work fs) = Some q' ->
  exists m', processAll (RoutingView0 := RoutingState s) env limits work (calm m) =
      Some (replicate (length work) Routed, calm m') /\
    steady m' /\ routing m' = routing m /\ shards m' !! h = Some q'.
Proof.
  intros Hc Hst Hh Hq Hw. revert m q Hst Hh Hq.
  induction Hw as [|[e t] f work fs (Hd & Hk & Hm) _ IH]; intros m q Hst Hh Hq; cbn [zip_with pushAll].
  { intros [= ->]. by exists m. }
  cbn [evKey evFragment evTime fst snd] in *. intros (q1 & Hp & Hrest)%bind_Some.
  destruct Hst as [Hwf H2 H3 H4 H5] eqn:Est. clear Est.
  destruct (RouteFragment_calm s env (cRemoteIP e) f t m Hwf H2 H3 H4 Hm) as (h' & Hh' & HR).
  rewrite Hk in Hh', HR. destruct (steady_destination key m Hst) as [Edest _].
  rewrite Edest, Hh in Hh'. injection Hh' as <-.
  assert (pushAt s h key f t m = Some (setShards m (<[h := q1]> (shards m)))) as Hpush.
  { unfold pushAt. rewrite Hq. cbn. by rewrite Hc, Hp. }
  rewrite Hpush in HR. cbn [fmap option_fmap option_map] in HR.
  pose proof (pushAt_steady _ _ _ _ _ _ _ Hpush Hst) as Hst1.
  destruct (IH _ q1 Hst1) as (m' & Hrun & Hst' & Er & Hq'); [done|cbn; by rewrite lookup_insert_eq|done|].
  exists m'. split_and!; [|done..]. cbn [processAll]. unfold processEntry. rewrite Hd.
  unfold mbind, RT_bind. unfold mbind, RT_bind in HR. rewrite HR.
  unfold mbind, RT_bind in Hrun. unfold mret, RT_ret. by rewrite Hrun.
Qed.

(* ------------------------------------------------------------------ *)
(** * From the packets to the assembled message                         *)
(* ------------------------------------------------------------------ *)

Lemma extractPacket_key {prims : Prims} env pkt m :
  extractPacket env pkt = Ok m -> is_Some (packetKey pkt).
Proof.
  unfold extractPacket. intros (i & Hi%wrap_inv & _)%bind_inv. revert Hi.
  unfold DeconstructOuterPayload, packetKey. destruct pkt as [|b l]; [done|].
  set (pkt := b :: l). destruct (len pkt <? 1); [done|].
  change (goIndex pkt 0) with (Ok b). cbn [mbind res_bind].
  destruct (GetSuiteInfo (b2z b)) as [suite|] eqn:Hs; [|done]. cbn.
  destruct (Z.ltb_spec (len pkt) MinOuterPayloadLen) as [Hl|]; [|by eexists].
  destruct (_ <? _) eqn:Hmin; [done|]. apply Z.ltb_ge in Hmin.
  assert (0 <= KeySize suite /\ 0 <= NonceSize suite /\ 0 <= CipherOverhead suite)
    by (apply GetSuiteInfo_Some in Hs as [[_ ->]|[_ ->]]; by cbv).
  rewrite !goSlice_ok by (change SuiteIDLen with 1 in *; lia). cbn [mbind res_bind].
  destruct (_ <? _) eqn:Hc; [done|]. apply Z.ltb_ge in Hc.
  rewrite (len_slice pkt) in Hc by (change SuiteIDLen with 1 in *; lia).
  change MinOuterPayloadLen with (SuiteIDLen + minInnerPayloadLen) in Hl. lia.
Qed.

(** The message as the receiver hands it to its outputs. *)
Definition delivered (r : Randomness) (m : Message) (hostID : Z) (name : gostring) (a : Addr)
  : Payload :=
  mkPayload a hostID (FourByte (rndID r)) 0 0 (fromUnixMilli (UnixMilli (mTimestamp m))) name
    0 [] (sentFields (mFields m)) (mData m) 0.

(** A shard that can take the message. *)
Definition takes (key : gostring) (d : Z) (q : Instance) : Prop :=
  Buckets q !! key = None /\ len (keyQueue q) < buffer q /\ packetDeadline q = d.

Lemma zip_events key (work : list (Container * gotime)) fs :
  length work = length fs ->
  let evs := zip_with (fun w f => mkEvent key f w.2) work fs in
  ofKey key evs = evs /\ map evFragment evs = fs /\ map evTime evs = map snd work /\
  forall e, e ∈ evs -> evKey e = key.
Proof.
  cbv zeta. revert fs. induction work as [|w work IH]; intros [|f fs] Hl; try done.
  { split_and!; try done. by intros e ?%not_elem_of_nil. }
  injection Hl as Hl. destruct (IH fs Hl) as (E1 & E2 & E3 & E4). cbn [zip_with map].
  unfold ofKey in *. rewrite filter_cons_True by done. rewrite E1, E2, E3. split_and!; try done.
  intros e [->|He]%elem_of_cons; auto.
Qed.

(** The fragments in the packets, after the processor has noted their origin. *)
Lemma fragments_delivered r m hostID ss sig name a ms :
  (forall i x, ms !! i = Some x ->
     same_message (received (newMessage r m hostID ss sig) ss sig name) x /\
     MessageSeqMax x = len ms - 1 /\ MessageSeq x = Z.of_nat i) ->
  forall i f, map (fun x => setRemoteIP x a) ms !! i = Some f ->
    same_message (delivered r m hostID name a) f /\
    MessageSeqMax f = len (map (fun x => setRemoteIP x a) ms) - 1 /\ MessageSeq f = Z.of_nat i.
Proof.
  intros H i f. rewrite list_lookup_fmap. intros (x & Hx & ->)%fmap_Some.
  destruct (H i x Hx) as ((_ & E1 & E2 & E3 & E4 & E5) & E6 & E7). unfold len.
  rewrite length_map. by split.
Qed.

Section delivery.
Context {prims : Prims} {HL : PrimLaws} {SS : SeqSort}.

(** The entries that the packets of a message become, and what the processors
    decode them to. *)
Lemma work_decodes env limits r m hostID name a pkts ms work :
  limits_ok limits ->
  Forall2 (fun pkt x => extractPacket env pkt = Ok x) pkts ms ->
  (forall x, x ∈ ms -> Timestamp x = Timestamp (delivered r m hostID name a)) ->
  map fst work ≡ₚ map (fun pkt => mkContainer pkt a) pkts ->
  (forall start, start ∈ map snd work ->
     inWindow limits start (Timestamp (delivered r m hostID name a))) ->
  exists fs, fs ≡ₚ map (fun x => setRemoteIP x a) ms /\
    Forall2 (fun w f => decodeEntry env limits w.2 w.1 = Ok f /\ cRemoteIP w.1 = a) work fs.
Proof.
  intros Hl Hms Ht Hp Hw.
  assert (Forall2 (fun e f => cRemoteIP e = a /\ forall start,
     inWindow limits start (Timestamp (delivered r m hostID name a)) ->
     decodeEntry env limits start e = Ok f)
     (map (fun pkt => mkContainer pkt a) pkts) (map (fun x => setRemoteIP x a) ms)) as H.
  { apply Forall2_fmap. apply Forall2_same_length_lookup_2; [by eapply Forall2_length|].
    intros i pkt x Hi Hx. pose proof (Forall2_lookup_lr _ _ _ _ _ _ Hms Hi Hx) as Hm.
    split; [done|]. intros start Hin. rewrite decodeEntry_spec by done. cbn [cData cRemoteIP].
    rewrite (extractPacket_steps _ _ _ Hm). cbn [mbind res_bind].
    rewrite Ht by by eapply list_elem_of_lookup_2. by rewrite bool_decide_eq_true_2. }
  destruct (Permutation_Forall2 (symmetry Hp) H) as (fs & Hfs & Hall). exists fs.
  split; [by symmetry|]. apply Forall2_fmap_l in Hall. clear -Hall Hw.
  induction Hall as [|[e t] f work fs [Ha Hd] _ IH]; constructor.
  - split; [|done]. apply Hd, Hw. by left.
  - apply IH. intros start Hin. apply Hw. by right.
Qed.

(** The entries that the listener makes of packets with new keys. *)
Lemma entries_of_packets env pkts ms (arrivals : list (Z * bytes)) a cache mx :
  Forall2 (fun pkt x => extractPacket env pkt = Ok x) pkts ms ->
  map snd arrivals ≡ₚ pkts -> NoDup (map packetKey pkts) -> shardable cache ->
  (forall pkt k, pkt ∈ pkts -> packetKey pkt = Some k -> seenAt cache k = None) ->
  map snd (listenAll (map (fun '(now, pkt) => Arrival true now pkt a) arrivals) (cache, mx)).1
    ≡ₚ map (fun pkt => mkContainer pkt a) pkts.
Proof.
  intros Hms Harr Hnd Hcache Hfresh. rewrite listenAll_fresh; [|done| |].
  - rewrite <- Harr, !map_map. erewrite map_ext; [done|]. by intros [].
  - intros now pkt Hin. assert (pkt ∈ pkts) as Hp.
    { rewrite <- Harr. by apply (list_elem_of_fmap_2 snd _ (now, pkt)). }
    apply list_elem_of_lookup in Hp as Hp'. destruct Hp' as [i Hi].
    destruct (Forall2_lookup_l _ _ _ _ _ Hms Hi) as (x & _ & [k Hk]%extractPacket_key).
    exists k. by eauto.
  - rewrite <- Harr, map_map in Hnd. exact Hnd.
Qed.

(** The fragments of a message, decoded in any order, end on one shard, which
    assembles the message. *)
Lemma fragments_assembled env limits s work gs fs msg a mgr d :
  let key := bucketKey a msg in
  Forall2 (fun w f => decodeEntry env limits w.2 w.1 = Ok f /\ cRemoteIP w.1 = a) work gs ->
  gs ≡ₚ fs -> 2 <= len fs -> fields_comparable (CustomFields msg) ->
  (forall i f, fs !! i = Some f ->
     same_message msg f /\ MessageSeqMax f = len fs - 1 /\ MessageSeq f = Z.of_nat i) ->
  cancelled s = false -> steady mgr -> 0 <= d ->
  (forall h q, Assembler.shards mgr !! h = Some q -> takes key d q) ->
  Sorted (fun t u => u - t <= d) (map snd work) ->
  exists mgr' h q q',
    processAll (RoutingView0 := RoutingState s) env limits work (calm mgr) =
      Some (replicate (length work) Routed, calm mgr') /\
    Assembler.shards mgr !! h = Some q /\ Assembler.shards mgr' !! h = Some q' /\
    countKey key q' = S (countKey key q) /\
    forall visit keys, (forall b, visit b ≡ₚ map snd (map_to_list b)) ->
      exists q2, assembleNext (otherSize s) visit (setKeyQueue q' (key :: keys)) =
        Assembled (Ok (reassembled msg (concat (map Data fs)))) q2.
Proof.
  intros key Hdec Hgs Hlen Hcmp Hfrags Hcan Hst Hd Htakes Hsorted.
  assert (fs <> []) as Hne by (intros ->; by cbn in Hlen).
  pose proof (Forall2_length _ _ _ Hdec) as Hwl.
  destruct (zip_events key work gs Hwl) as (E1 & E2 & E3 & E4).
  set (evs := zip_with _ work gs) in *.
  destruct (steady_destination key mgr Hst) as [_ [h Hh0]].
  destruct (wf_shards _ (wf_base _ (st_wf _ Hst)) _ _ Hh0) as [q Hq].
  destruct (Htakes _ _ Hq) as (Hb & Hroom & Hdl).
  destruct (pushAll_room (otherSize s) q evs key E4 Hroom) as [q' Hpush].
  destruct (processAll_pushes s env limits key work gs mgr h q q') as (mgr' & Hrun & _ & _ & Hq');
    [done..| |exact Hpush|].
  { apply Forall2_same_length_lookup_2; [done|]. intros i w g Hi Hg.
    destruct (Forall2_lookup_lr _ _ _ _ _ _ Hdec Hi Hg) as [Hdw Ha]. split; [done|].
    apply list_elem_of_lookup_2 in Hg. rewrite Hgs in Hg. apply list_elem_of_lookup in Hg as [j Hj].
    destruct (Hfrags _ _ Hj) as ((_ & E5 & E6 & _) & E7 & _). split; [|lia].
    subst key. unfold bucketKey. by rewrite Ha, <- E5, <- E6. }
  destruct (shard_collects (otherSize s) q evs q' key fs) as (Hn & b & Hb' & _ & Hfrag); try done.
  { by rewrite Hdl. }
  { by rewrite E1, E2. }
  { apply numbered_NoDup. intros i f Hi. by destruct (Hfrags _ _ Hi) as (_ & _ & ?). }
  { intros f [i Hi]%list_elem_of_lookup. by destruct (Hfrags _ _ Hi) as (_ & ? & _). }
  { by rewrite E1, E3, Hdl. }
  exists mgr', h, q, q'. split_and!; [done..|]. intros visit keys Hv.
  destruct (bucket_assembles (otherSize s) q' key b msg fs Hb' Hfrag Hne Hfrags (or_intror Hcmp)
    visit keys Hv) as (q2 & Hq2 & _). by exists q2.
Qed.

(** C2: a message arrives. Whatever packets [Create] makes of a message (at
    least two), when the network delivers each once, in any order, their keys
    are new to the listener and the processors start on the entries in any
    order, within the validity window and the deadline of the shards: every
    processor reports success, all fragments are on one shard, the key of the
    message is announced there once, and the round of the assembler that takes
    it outputs the message that was sent, with its data, fields, timestamp and
    sender, under the address it came from. No shard is being removed. *)
Theorem message_delivered snd rcv priv pub r m hostID max cs ss name pkts a arrivals cache mx
    limits work s mgr d :
  keyed snd rcv priv pub -> rnd_ok r cs -> knownAs snd rcv (mHostname m) ss name ->
  0 < hostID < 2 ^ 32 -> length (rndID r) = 4%nat -> FourByte (rndID r) <> 0 ->
  host_ok (mHostname m) -> fields_ok (mFields m) ->
  Create snd r m hostID max cs ss = Ok pkts -> 2 <= len pkts <= 2 ^ 16 ->
  fields_comparable (sentFields (mFields m)) ->
  map Datatypes.snd arrivals ≡ₚ pkts -> NoDup (map packetKey pkts) -> shardable cache ->
  (forall pkt k, pkt ∈ pkts -> packetKey pkt = Some k -> seenAt cache k = None) ->
  let entries :=
    (listenAll (map (fun '(now, pkt) => Arrival true now pkt a) arrivals) (cache, mx)).1 in
  let msg := delivered r m hostID name a in
  let key := bucketKey a msg in
  map fst work ≡ₚ map Datatypes.snd entries -> limits_ok limits ->
  (forall start, start ∈ map Datatypes.snd work -> inWindow limits start (Timestamp msg)) ->
  cancelled s = false -> steady mgr -> 0 <= d ->
  (forall h q, Assembler.shards mgr !! h = Some q -> takes key d q) ->
  Sorted (fun t u => u - t <= d) (map Datatypes.snd work) ->
  exists mgr' h q q',
    processAll (RoutingView0 := RoutingState s) rcv limits work (calm mgr) =
      Some (replicate (length pkts) Routed, calm mgr') /\
    Assembler.shards mgr !! h = Some q /\ Assembler.shards mgr' !! h = Some q' /\
    countKey key q' = S (countKey key q) /\
    forall visit keys, (forall b, visit b ≡ₚ map Datatypes.snd (map_to_list b)) ->
      exists q2, assembleNext (otherSize s) visit (setKeyQueue q' (key :: keys)) =
        Assembled (Ok msg) q2.
Proof.
  intros Hkey Hr Hkn Hhost Hid0 Hid Hh Hf Hcr Hlen Hcmp Harr Hnd Hcache Hfresh entries msg key
    Hwork Hlim Hwin Hcan Hst Hd Htakes Hsorted.
  destruct (Create_transit snd rcv priv pub r m hostID max cs ss name pkts)
    as (sig & ms & Hms & Hdata & Hall); [done..|lia|].
  pose proof (fragments_delivered r m hostID ss sig name a ms Hall) as Hfrags.
  set (fs := map (fun x => setRemoteIP x a) ms) in *.
  assert (concat (map Data fs) = mData m) as Ed by (rewrite <- Hdata; subst fs; by rewrite map_map).
  assert (map fst work ≡ₚ map (fun pkt => mkContainer pkt a) pkts) as Hw.
  { rewrite Hwork. by eapply entries_of_packets. }
  destruct (work_decodes rcv limits r m hostID name a pkts ms work) as (gs & Hgs & Hdec); try done.
  { intros x [i Hx]%list_elem_of_lookup. by destruct (Hall _ _ Hx) as ((_ & _ & _ & <- & _) & _). }
  destruct (fragments_assembled rcv limits s work gs fs msg a mgr d)
    as (mgr' & h & q & q' & Hrun & Hq & Hq' & Hn & Hasm); try done.
  { subst fs. unfold len in *. rewrite length_map, <- (Forall2_length _ _ _ Hms). lia. }
  exists mgr', h, q, q'. split_and!; [|done..|].
  - rewrite Hrun. do 3 f_equal. apply Permutation_length in Hw. by rewrite !length_map in Hw.
  - rewrite Ed in Hasm. exact Hasm.
Qed.
End delivery.

(* ------------------------------------------------------------------ *)
(** * Examples                                                          *)
(* ------------------------------------------------------------------ *)

(** Each fragment with a key pair of its own. *)
Definition freshRandomness : Randomness :=
  mkRandomness (rndID exampleRandomness) (rndDraw exampleRandomness) (rndPad exampleRandomness)
    (fun i => mkEntropy (toyKey (5 + Z.of_nat i)) (entNonce toyEntropy) (entFix toyEntropy)).
Definition freshPackets : list bytes :=
  match Create exampleSender freshRandomness exampleMessage 77 200 1 1 with
  | Ok pkts => pkts
  | _ => []
  end.
Definition packetAt (i : nat) : bytes := nth i freshPackets [].
Definition sentAt : gotime := mTimestamp exampleMessage.

(** The default windows: twelve and four hours, ten minutes. *)
Definition DefaultReplayWindow : Z := 10 * 60 * 10 ^ 9.
Definition DefaultPastValidityWindow : Z := 12 * 3600 * 10 ^ 9.
Definition DefaultFutureValidityWindow : Z := 4 * 3600 * 10 ^ 9.
Definition defaultLimits : Limits := mkLimits DefaultPastValidityWindow DefaultFutureValidityWindow.
Definition noMetrics : Listener.MetricStorage := Listener.mkMetrics 0 0 0.

(** With these windows a packet that someone has recorded is accepted again
    ten minutes later. *)
Definition replayRun : list (Z * Container) :=
  (listenAll [Arrival true 1700000000 (packetAt 0) exampleOrigin;
              Arrival true 1700000599 (packetAt 0) exampleOrigin;
              Arrival true 1700000600 (packetAt 0) exampleOrigin]
     (newReplayCacheWithShards 4 (wholeSeconds DefaultReplayWindow), noMetrics)).1.
Example default_windows_replay :
  map fst replayRun = [1700000000; 1700000600] /\
  match map (fun x => decodeEntry exampleReceiver defaultLimits (x.1 * 10 ^ 9) x.2) replayRun with
  | [Ok m; Ok m'] => bool_decide (MessageSeq m = MessageSeq m')
  | _ => false
  end = true.
Proof. by vm_compute. Qed.

(** A window that is wide enough: an hour each way, with two hours and a
    minute in the cache. *)
Definition narrowLimits : Limits := mkLimits (3600 * 10 ^ 9) (3600 * 10 ^ 9).
Definition wideEvents : list listenerEvent :=
  [Arrival true 1700000000 (packetAt 0) exampleOrigin; Cleaning 1700003630 0;
   Arrival true 1700007260 (packetAt 0) exampleOrigin].
Definition wideRun : list (Z * Container) * (replayCache * Listener.MetricStorage) :=
  listenAll wideEvents (newReplayCacheWithShards 4 7260, noMetrics).
Definition wideEntry : Container := mkContainer (packetAt 0) exampleOrigin.

Lemma packet_routed_once_witness :
  (exists msg, decodeEntry exampleReceiver narrowLimits (1700000000 * 10 ^ 9) wideEntry = Ok msg) /\
  decodeEntry exampleReceiver narrowLimits (1700007260 * 10 ^ 9) wideEntry = Err EMsg.
Proof.
  destruct (decodeEntry exampleReceiver narrowLimits (1700000000 * 10 ^ 9) wideEntry)
    as [msg| |] eqn:E; [|exfalso; by vm_compute in E..].
  split; [by exists msg|].
  refine (packet_routed_once exampleReceiver narrowLimits 4 7260 0 noMetrics wideEvents wideRun.1
           wideRun.2 0 1 1700000000 1700007260 wideEntry wideEntry (1700000000 * 10 ^ 9)
           (1700007260 * 10 ^ 9) msg _ _ _ _ _ _ _ _ _ _ _ _ E); clear E.
  - by split.
  - lia.
  - done.
  - by repeat split.
  - apply surjective_pairing.
  - by vm_compute.
  - lia.
  - by vm_compute.
  - by vm_compute.
  - done.
  - by vm_compute.
  - by vm_compute.
Defined.

(** Two shards, and the two packets of a message in the wrong order. *)
Definition startManager : Manager :=
  match NewManager (mkConfig 1 8 (str "/run/sdsyslog") 0) true with
  | Ok m => m
  | _ => exampleManager
  end.
Lemma addInstance_wf m :
  wf_instances m -> shardAt m (FormatInt (nextInstanceID m)) = None -> wf (addInstance m).
Proof.
  intros Hw Hn. unfold addInstance.
  destruct (AddInstance (map fst (map_to_list (instances (routing m)))) m) as [id m'] eqn:E.
  eapply AddInstance_wf in E as [H _]; [exact H|by unfold isOrder|exact Hw|exact Hn].
Qed.
Lemma exampleManager_steady : steady exampleManager.
Proof.
  change exampleManager with (addInstance (addInstance startManager)).
  assert (wf_instances startManager) as H0.
  { apply (NewManager_wf (mkConfig 1 8 (str "/run/sdsyslog") 0)). by vm_compute. }
  assert (wf (addInstance startManager)) as H1 by (apply addInstance_wf; [done|by vm_compute]).
  assert (wf (addInstance (addInstance startManager))) as H2
    by (apply addInstance_wf; [apply H1|by vm_compute]).
  assert (ids (routing (addInstance (addInstance startManager))) = [str "0"; str "1"]) as E
    by by vm_compute.
  split; [exact H2|by rewrite E| |by vm_compute|]; intros id; rewrite E;
    intros [->|[->|[]%not_elem_of_nil]%elem_of_cons]%elem_of_cons; by vm_compute.
Qed.

Definition exampleArrivals : list (Z * bytes) := [(1700000001, packetAt 1); (1700000002, packetAt 0)].
Definition exampleWork : list (Container * gotime) :=
  [(mkContainer (packetAt 0) exampleOrigin, 1700000003 * 10 ^ 9);
   (mkContainer (packetAt 1) exampleOrigin, 1700000003 * 10 ^ 9 + 1000)].
Definition exampleDelivered : Payload :=
  delivered freshRandomness exampleMessage 77 (str "web1") exampleOrigin.

Lemma message_delivered_witness :
  exists mgr' q' q2,
    processAll (RoutingView0 := RoutingState exampleSurroundings) exampleReceiver defaultLimits
      exampleWork (calm exampleManager) = Some ([Routed; Routed], calm mgr') /\
    @assembleNext 0 stableSort visitInOrder
      (setKeyQueue q' [bucketKey exampleOrigin exampleDelivered]) =
      Assembled (Ok exampleDelivered) q2 /\
    Data exampleDelivered = str "kernel: eth0: link is up".
Proof.
  destruct (message_delivered (SS := stableSort) exampleSender exampleReceiver (toyKey 9)
    (toyPub (toyKey 9)) freshRandomness exampleMessage 77 200 1 1 (str "web1") freshPackets
    exampleOrigin exampleArrivals (newReplayCacheWithShards 4 600) noMetrics defaultLimits
    exampleWork exampleSurroundings exampleManager DefaultMinPacketDeadline)
    as (mgr' & h & q & q' & Hrun & _ & _ & _ & Hasm).
  - by vm_compute.
  - constructor; cbn; [intros i m Hm; lia|intros; apply repeat_length|].
    intros i _. split; [|by vm_compute]. split_and!; by vm_compute.
  - apply (knownPinned _ _ _ toySigKey); by vm_compute.
  - done.
  - done.
  - by vm_compute.
  - by vm_compute.
  - split; [|by vm_compute; repeat constructor; set_solver].
    apply map_Forall_singleton. by vm_compute.
  - by vm_compute.
  - by vm_compute.
  - change (sentFields _) with ({[ str "pid" := VInt64 42 ]} : gmap gostring goval).
    by apply map_Forall_singleton.
  - assert (freshPackets = [packetAt 0; packetAt 1]) as -> by by vm_compute.
    apply Permutation_swap.
  - apply (bool_decide_unpack _). by vm_compute.
  - by vm_compute.
  - intros pkt k _ _. apply seenAt_new.
  - replace (listenAll _ _).1 with [(1700000001, mkContainer (packetAt 1) exampleOrigin);
      (1700000002, mkContainer (packetAt 0) exampleOrigin)] by by vm_compute.
    apply Permutation_swap.
  - by split.
  - apply Forall_forall. repeat constructor; by vm_compute.
  - done.
  - apply exampleManager_steady.
  - by vm_compute.
  - intros h q Hq.
    assert (map_Forall (fun _ q => Buckets q !! bucketKey exampleOrigin exampleDelivered = None /\
      len (keyQueue q) < buffer q /\ packetDeadline q = DefaultMinPacketDeadline)
      (Assembler.shards exampleManager)) as Hall by (apply (bool_decide_unpack _); by vm_compute).
    exact (Hall _ _ Hq).
  - by repeat constructor.
  - destruct (Hasm visitInOrder []) as (q2 & Hq2); [done|]. exists mgr', q', q2.
    split; [|split; [exact Hq2|done]]. rewrite Hrun. f_equal.
Defined.
