(* ===== verification/Output.v ===== *)
(** The receiver's last stage: the output worker
    ([internal/receiver/output/worker.go]), the file output with its buffer of
    lines ([internal/iomodules/file/write.go], [formatAsText] of [parsing.go])
    and the sending loop of the beats output. *)
From S2P Require Import Prelude Text Context Consts NetAddr GoStrings.

(* ------------------------------------------------------------------ *)
(** * The line of a message                                             *)
(* ------------------------------------------------------------------ *)

Definition CFfacility : gostring := str "Facility".
Definition CFseverity : gostring := str "Severity".
Definition CFprocessid : gostring := str "ProcessID".
Definition CFappname : gostring := str "ApplicationName".

(** The variables of the loop over the custom fields. *)
Record TextFields := mkFields {
  appname : gostring;
  processid : gostring;
  facility : gostring;
  severity : gostring;
  keyValString : list gostring
}.

(** [IsValid] *)
Definition addrValid (a : Addr) : bool := match a with AddrZero => false | _ => true end.

Section text.
(** The time in the process's zone, as RFC 3339 with nanoseconds, and the
    shortest text of a float. *)
Context (formatTime : gotime -> gostring) (formatFloat : Z -> Z -> gostring).

(** One round of the loop. *)
Definition addField (kv : gostring * goval) (t : TextFields) : TextFields :=
  let '(key, value) := kv in
  let fmtVal := FormatValue formatFloat value in
  if bool_decide (key = CFappname) then
    mkFields fmtVal (processid t) (facility t) (severity t) (keyValString t)
  else if bool_decide (key = CFprocessid) then
    mkFields (appname t) fmtVal (facility t) (severity t) (keyValString t)
  else if bool_decide (key = CFfacility) then
    mkFields (appname t) (processid t) fmtVal (severity t) (keyValString t)
  else if bool_decide (key = CFseverity) then
    mkFields (appname t) (processid t) (facility t) fmtVal (keyValString t)
  else if bool_decide (fmtVal = []) then t
  else mkFields (appname t) (processid t) (facility t) (severity t)
         (keyValString t ++ [key ++ str "=" ++ fmtVal]).
Fixpoint addFields (order : list (gostring * goval)) (t : TextFields) : TextFields :=
  match order with
  | [] => t
  | kv :: order => addFields order (addField kv t)
  end.

(** [formatAsText]; [order] is the order in which the loop meets the fields. *)
Definition formatAsText (order : list (gostring * goval)) (msg : Payload) : gostring :=
  let remoteID :=
    if addrValid (RemoteIP msg) && negb (bool_decide (Hostname msg = []))
    then AddrString (RemoteIP msg) ++ str "/" ++ Hostname msg
    else if negb (addrValid (RemoteIP msg)) then Hostname msg
    else AddrString (RemoteIP msg) in
  let t := addFields order (mkFields [] [] [] [] []) in
  let text := formatTime (Timestamp msg) ++ str " " ++ remoteID ++ str " " ++
    appname t ++ str "[" ++ processid t ++ str "]: " ++ facility t ++ str ": " ++
    str "[" ++ severity t ++ str "]: " ++ Data msg in
  if negb (bool_decide (keyValString t = []))
  then text ++ str " (" ++ join (str ";") (sortStrings (keyValString t)) ++ str ")"
  else text.

(** The result does not depend on the iteration order. *)
Definition sameText (t u : TextFields) : Prop :=
  appname t = appname u /\ processid t = processid u /\ facility t = facility u /\
  severity t = severity u /\ keyValString t ≡ₚ keyValString u.
#[local] Instance sameText_preorder : PreOrder sameText.
Proof.
  split; [by intros t|]. intros t u v (A1 & A2 & A3 & A4 & A5) (B1 & B2 & B3 & B4 & B5).
  split_and!; by etransitivity.
Qed.

Lemma addField_same kv t u : sameText t u -> sameText (addField kv t) (addField kv u).
Proof.
  destruct kv as [k v]. intros (A1 & A2 & A3 & A4 & A5). unfold addField.
  repeat case_bool_decide; split_and!; cbn; try done. by apply Permutation_app.
Qed.

Lemma addField_comm k v k' v' t :
  k <> k' -> sameText (addField (k, v) (addField (k', v') t)) (addField (k', v') (addField (k, v) t)).
Proof.
  intros Hk. unfold addField.
  repeat (case_bool_decide; try congruence); split_and!; cbn; try done.
  rewrite <- !app_assoc. apply Permutation_app_head, Permutation_app_comm.
Qed.

Lemma addFields_foldr order t : addFields order t = foldr addField t (reverse order).
Proof.
  revert t. induction order as [|kv order IH]; intros t; [done|]. cbn [addFields].
  by rewrite IH, reverse_cons, foldr_app.
Qed.

Lemma addFields_perm order order' t :
  NoDup order.*1 -> order ≡ₚ order' -> sameText (addFields order t) (addFields order' t).
Proof.
  intros Hnd Hp. rewrite !addFields_foldr.
  assert (reverse order ≡ₚ reverse order') as Hp' by (by rewrite !reverse_Permutation).
  assert (NoDup (reverse order).*1) as Hnd' by (by rewrite reverse_Permutation).
  clear Hnd Hp. revert Hnd'. induction Hp' as [|kv l l' _ IH|[k v] [k' v'] l|l l1 l2 H1 IH1 H2 IH2];
    cbn [foldr]; intros Hnd.
  - done.
  - apply NoDup_cons in Hnd as [_ Hnd]. by apply addField_same, IH.
  - apply addField_comm. cbn in Hnd. apply NoDup_cons in Hnd as [Hnd _]. set_solver.
  - transitivity (foldr addField t l1); [by apply IH1|]. apply IH2. by rewrite <- H1.
Qed.

Lemma formatAsText_perm order order' msg :
  NoDup order.*1 -> order ≡ₚ order' -> formatAsText order msg = formatAsText order' msg.
Proof.
  intros Hnd Hp. unfold formatAsText.
  destruct (addFields_perm order order' (mkFields [] [] [] [] []) Hnd Hp) as (-> & -> & -> & -> & H).
  assert (sortStrings (keyValString (addFields order (mkFields [] [] [] [] []))) =
          sortStrings (keyValString (addFields order' (mkFields [] [] [] [] [])))) as ->.
  { apply (StronglySorted_unique bytesLe); [apply sortStrings_sorted..|].
    by rewrite !sortStrings_perm. }
  erewrite (bool_decide_ext (keyValString (addFields order _) = [])); [done|].
  split; intros E; rewrite E in H; [by apply Permutation_nil_l in H|by apply Permutation_nil_r in H].
Qed.
End text.

(* ------------------------------------------------------------------ *)
(** * The file output                                                   *)
(* ------------------------------------------------------------------ *)

(** The file: its content, and how the next writes go: [None] takes all,
    [Some k] takes [k] bytes and fails. A write without an entry takes all. *)
Record Sink := mkSink { content : bytes; faults : list (option nat) }.

Definition sinkWrite (data : bytes) (sink : Sink) : bool * Sink :=
  match faults sink with
  | Some k :: rest => (false, mkSink (content sink ++ take k data) rest)
  | None :: rest => (true, mkSink (content sink ++ data) rest)
  | [] => (true, mkSink (content sink ++ data) [])
  end.

(** A sorting function for lines by the time at their front ([sort.Slice] may
    exchange lines of one time). *)
Class LineSort := {
  lineTime : gostring -> gotime;
  sortLines : list gostring -> list gostring;
  sortLines_perm l : sortLines l ≡ₚ l;
  sortLines_sorted l : Sorted (fun a b => lineTime a <= lineTime b) (sortLines l)
}.

Record OutModule := mkOut { sink : Sink; batchSize : Z; batchBuffer : list gostring }.

(** The write loop of [FlushBuffer]: lines written, and whether all were. An
    [os.File] takes all bytes of a write or fails. *)
Fixpoint flushLines (lines : list gostring) (s : Sink) : Z * bool * Sink :=
  match lines with
  | [] => (0, true, s)
  | line :: lines =>
      match sinkWrite line s with
      | (false, s) => (0, false, s)
      | (true, s) => let '(n, ok, s) := flushLines lines s in (n + 1, ok, s)
      end
  end.

Section file.
Context {LS : LineSort}.

(** [FlushBuffer]: the count, whether it succeeded, and the module. *)
Definition FlushBuffer (m : OutModule) : Z * bool * OutModule :=
  match batchBuffer m with
  | [] => (0, true, m)
  | _ =>
      let lines := sortLines (batchBuffer m) in
      let '(n, ok, s) := flushLines lines (sink m) in
      (n, ok, mkOut s (batchSize m) (if ok then [] else lines))
  end.

(** [Write] of a formatted entry. *)
Definition withNewline (newEntry : gostring) : gostring :=
  if hasSuffix [z2b 10] newEntry then newEntry else newEntry ++ [z2b 10].
Definition Write (newEntry : gostring) (m : OutModule) : Z * bool * OutModule :=
  let m := mkOut (sink m) (batchSize m) (batchBuffer m ++ [withNewline newEntry]) in
  if batchSize m <? len (batchBuffer m) then FlushBuffer m else (0, true, m).
End file.

(* ------------------------------------------------------------------ *)
(** * The beats output's sending loop                                   *)
(* ------------------------------------------------------------------ *)

(** What [Send] of the client library returns, and, when it is asked, whether
    reconnecting succeeds: the number of events sent, and for an error whether
    the code takes it as retryable. *)
Inductive sendResult :=
  | Sent (n : Z)
  | Retryable (n : Z) (reconnected : bool)
  | FatalError (n : Z).

(** The loop of [Write]: the count and whether there was no error; [logsSent]
    is the variable's value so far. *)
Fixpoint beatsWrite (maxSendRetries : nat) (results : nat -> sendResult) (logsSent : Z) : Z * bool :=
  match maxSendRetries with
  | O => (logsSent, true)
  | S maxSendRetries =>
      match results O with
      | Sent n => (n, true)
      | Retryable n true => beatsWrite maxSendRetries (fun i => results (S i)) n
      | Retryable n false | FatalError n => (n, false)
      end
  end.

(** A message that could not be sent in any of the six tries is lost without
    an error. *)
Example beats_gives_up : beatsWrite 6 (fun _ => Retryable 0 true) 0 = (0, true).
Proof. done. Qed.

(* ------------------------------------------------------------------ *)
(** * The worker                                                        *)
(* ------------------------------------------------------------------ *)

Record failureTracker := mkTracker {
  consecutiveCount : Z;
  deadline : gotime;
  maximumDuration : Z
}.

Record MetricStorage := mkMetrics {
  ReceivedMessages : Z;
  SuccessfulFileWrites : Z;
  Dropped : Z
}.

(** [signals] counts the SIGTERMs that the process has sent to itself. *)
Record Instance := mkInstance {
  fileMod : option OutModule;
  failures : failureTracker;
  Metrics : MetricStorage;
  signals : nat
}.

(** The end of a round: the failure tracker, whether the message counts as
    dropped and whether the process is signalled. [now] and [now'] are the
    two readings of the clock. *)
Definition trackFailures (totalWritten : Z) (now now' : gotime) (f : failureTracker)
  : failureTracker * bool * bool :=
  let f1 :=
    if totalWritten =? 0 then
      mkTracker (consecutiveCount f + 1)
        (if consecutiveCount f =? 0 then now + maximumDuration f else deadline f)
        (maximumDuration f)
    else if 0 <? consecutiveCount f then mkTracker 0 (deadline f) (maximumDuration f)
    else f in
  (f1, totalWritten =? 0, (0 <? consecutiveCount f1) && (deadline f1 <? now')).

(** What the worker's [select] takes: the flush timer, or a message, with its
    line and what the other four outputs return for it. *)
Inductive workEvent :=
  | Tick
  | Message (newEntry : gostring) (written : list Z) (now now' : gotime).

Section worker.
Context {LS : LineSort}.

Definition writeFile (newEntry : gostring) (m : option OutModule) : Z * option OutModule :=
  match m with
  | None => (0, None)
  | Some m => let '(n, _, m) := Write newEntry m in (n, Some m)
  end.

(** A round of [run]. *)
Definition round (e : workEvent) (i : Instance) : Instance :=
  match e with
  | Tick =>
      mkInstance ((fun m => (FlushBuffer m).2) <$> fileMod i) (failures i) (Metrics i) (signals i)
  | Message newEntry written now now' =>
      let '(n1, m) := writeFile newEntry (fileMod i) in
      let totalWritten := n1 + foldr Z.add 0 written in
      let '(f, dropped, kill) := trackFailures totalWritten now now' (failures i) in
      mkInstance m f
        (mkMetrics (wrapU 64 (ReceivedMessages (Metrics i) + 1))
           (wrapU 64 (SuccessfulFileWrites (Metrics i) + n1))
           (if (dropped : bool) then wrapU 64 (Dropped (Metrics i) + 1)
            else Dropped (Metrics i)))
        (if (kill : bool) then S (signals i) else signals i)
  end.
Definition runRounds (evs : list workEvent) (i : Instance) : Instance :=
  foldl (fun i e => round e i) i evs.

(* ------------------------------------------------------------------ *)
(** ** What reaches the file                                            *)
(* ------------------------------------------------------------------ *)

(** A call of [Write] ([Some]) or of [FlushBuffer]. *)
Definition fileOp (op : option gostring) (m : OutModule) : OutModule :=
  match op with
  | Some newEntry => (Write newEntry m).2
  | None => (FlushBuffer m).2
  end.
Definition fileOps (ops : list (option gostring)) (m : OutModule) : OutModule :=
  foldl (fun m op => fileOp op m) m ops.
Definition linesOf (ops : list (option gostring)) : list gostring :=
  map withNewline (omap id ops).

Definition healthy (s : Sink) : Prop := Forall (fun f => f = None) (faults s).

(** The file holds [chunks] after [before], each a whole line or the beginning
    of one; no line of [lines] is missing from both file and buffer. *)
Record holds (before : bytes) (lines chunks : list gostring) (m : OutModule) : Prop := {
  h_content : content (sink m) = before ++ concat chunks;
  h_kept l : l ∈ lines -> l ∈ chunks \/ l ∈ batchBuffer m;
  h_whole l : l ∈ batchBuffer m -> l ∈ lines;
  h_torn c : c ∈ chunks -> exists l n, l ∈ lines /\ c = take n l
}.

Lemma flushLines_spec lines s :
  let '(n, ok, s') := flushLines lines s in
  exists chunks, content s' = content s ++ concat chunks /\
    (ok = true -> chunks = lines /\ n = len lines) /\
    (forall c, c ∈ chunks -> exists l k, l ∈ lines /\ c = take k l) /\
    (healthy s -> ok = true /\ healthy s').
Proof.
  revert s. induction lines as [|line lines IH]; intros s; cbn [flushLines].
  { exists []. rewrite app_nil_r. split_and!; [done|done| |done]. by intros c ?%not_elem_of_nil. }
  unfold sinkWrite. destruct (faults s) as [|[k|] rest] eqn:Ef.
  2: { exists [take k line]. cbn [content concat]. rewrite app_nil_r. split_and!; [done..| |].
       - intros c ->%list_elem_of_singleton. exists line, k. split; [by left|done].
       - unfold healthy. rewrite Ef. by intros [? _]%Forall_cons. }
  all: set (s1 := mkSink _ _); specialize (IH s1); destruct (flushLines lines s1) as [[n ok] s2].
  all: destruct IH as (chunks & Hc & Hok & Htorn & Hh); exists (line :: chunks).
  all: subst s1; cbn [content concat] in *; rewrite Hc, <- app_assoc.
  all: split_and!; [done| | |].
  1, 4: intros E; destruct (Hok E) as [-> ->]; split; [done|by rewrite len_cons, Z.add_comm].
  1, 3: intros c [->|Hin]%elem_of_cons;
    [exists line, (length line); split; [by left|by rewrite firstn_all]|];
    destruct (Htorn c Hin) as (l & k & Hl & ->); exists l, k; split; [by right|done].
  all: intros H; apply Hh; unfold healthy in *; rewrite Ef in H; cbn; first [exact H|exact (Forall_inv_tail H)].
Qed.

Lemma FlushBuffer_spec before lines chunks m :
  holds before lines chunks m ->
  let '(n, ok, m') := FlushBuffer m in
  exists more, holds before lines (chunks ++ more) m' /\ batchSize m' = batchSize m /\
    (healthy (sink m) -> healthy (sink m') /\ batchBuffer m' = [] /\ n = len (batchBuffer m) /\
       more = sortLines (batchBuffer m)).
Proof.
  intros [H1 H2 H3 H4]. unfold FlushBuffer.
  destruct (batchBuffer m) as [|b bs] eqn:Eb.
  { exists []. rewrite app_nil_r. split; [split; try done; by rewrite Eb|]. split; [done|].
    intros Hh. split_and!; try done. symmetry. apply Permutation_nil_r, sortLines_perm. }
  set (buf := b :: bs) in *. pose proof (flushLines_spec (sortLines buf) (sink m)) as H.
  destruct (flushLines _ _) as [[n ok] s]. destruct H as (more & Hc & Hok & Htorn & Hh).
  exists more. split; [|split; [done|]].
  - split; cbn [sink batchBuffer].
    + by rewrite Hc, H1, concat_app, <- app_assoc.
    + intros l [Hl|Hl]%H2; [left; set_solver|]. rewrite <- (sortLines_perm buf) in Hl.
      destruct ok; [|by right]. destruct (Hok eq_refl) as [-> _]. left. set_solver.
    + intros l Hl. apply H3. destruct ok; [by apply not_elem_of_nil in Hl|]. by rewrite sortLines_perm in Hl.
    + intros c [Hin|Hin]%elem_of_app; [by apply H4|].
      destruct (Htorn c Hin) as (l & k & Hl & ->). exists l, k. split; [|done].
      apply H3. by rewrite sortLines_perm in Hl.
  - intros [-> Hs]%Hh. destruct (Hok eq_refl) as [-> ->]. split_and!; [done|done| |done].
    unfold len. by rewrite sortLines_perm.
Qed.

Lemma holds_add before lines chunks m l :
  holds before lines chunks m ->
  holds before (lines ++ [l]) chunks (mkOut (sink m) (batchSize m) (batchBuffer m ++ [l])).
Proof.
  intros [H1 H2 H3 H4]. split; cbn [sink batchBuffer].
  - done.
  - intros x [[?|?]%H2| ->%list_elem_of_singleton]%elem_of_app; set_solver.
  - set_solver.
  - intros c Hin. destruct (H4 c Hin) as (x & k & Hx & ->). exists x, k. set_solver.
Qed.

(** What an operation does to the count of lines and to a healthy file. *)
Lemma fileOp_spec before lines chunks m op :
  holds before lines chunks m ->
  exists more, holds before (lines ++ linesOf [op]) (chunks ++ more) (fileOp op m) /\
    batchSize (fileOp op m) = batchSize m /\
    (healthy (sink m) -> chunks ++ batchBuffer m ≡ₚ lines ->
       healthy (sink (fileOp op m)) /\
       (chunks ++ more) ++ batchBuffer (fileOp op m) ≡ₚ lines ++ linesOf [op] /\
       (op = None -> batchBuffer (fileOp op m) = []) /\
       (0 <= batchSize m -> len (batchBuffer m) <= batchSize m ->
          len (batchBuffer (fileOp op m)) <= batchSize m)).
Proof.
  intros H. destruct op as [newEntry|]; cbn [fileOp].
  - change (linesOf [Some newEntry]) with [withNewline newEntry]. apply (holds_add _ _ _ _ (withNewline newEntry)) in H. unfold Write.
    set (m1 := mkOut _ _ _) in *.
    assert (chunks ++ batchBuffer m ≡ₚ lines ->
            chunks ++ batchBuffer m1 ≡ₚ lines ++ [withNewline newEntry]) as Hp.
    { intros E. subst m1. cbn [batchBuffer]. by rewrite app_assoc, E. }
    change (batchSize m1) with (batchSize m). destruct (Z.ltb_spec (batchSize m) (len (batchBuffer m1))) as [Hl|Hl].
    + pose proof (FlushBuffer_spec _ _ _ _ H) as Hf.
      destruct (FlushBuffer m1) as [[n ok] m']. destruct Hf as (more & Hh & Hb & Hok).
      exists more. cbn [snd]. split; [done|]. split; [done|].
      intros (Hs & He & _ & ->)%Hok E%Hp. rewrite He. split_and!; try done.
      by rewrite app_nil_r, sortLines_perm.
    + exists []. cbn [snd]. rewrite app_nil_r. split; [done|]. split; [done|].
      intros Hs E%Hp. by split_and!.
  - pose proof (FlushBuffer_spec _ _ _ _ H) as Hf.
    change (linesOf [None]) with (@nil gostring). rewrite !app_nil_r.
    destruct (FlushBuffer m) as [[n ok] m']. destruct Hf as (more & Hh & Hb & Hok).
    exists more. cbn [snd]. split; [done|]. split; [done|].
    intros (Hs & He & _ & ->)%Hok E. rewrite He. split_and!; try done.
    by rewrite app_nil_r, sortLines_perm.
Qed.

Lemma linesOf_app ops ops' : linesOf (ops ++ ops') = linesOf ops ++ linesOf ops'.
Proof. unfold linesOf. by rewrite omap_app, map_app. Qed.

Lemma fileOps_spec ops m :
  batchBuffer m = [] ->
  exists chunks, holds (content (sink m)) (linesOf ops) chunks (fileOps ops m) /\
    batchSize (fileOps ops m) = batchSize m /\
    (healthy (sink m) -> healthy (sink (fileOps ops m)) /\
       chunks ++ batchBuffer (fileOps ops m) ≡ₚ linesOf ops /\
       (0 <= batchSize m -> len (batchBuffer (fileOps ops m)) <= batchSize m)).
Proof.
  intros Hb. induction ops as [|op ops IH] using rev_ind.
  - exists []. cbn. rewrite Hb. split; [|by split_and!].
    split; cbn; [by rewrite app_nil_r|..]; rewrite ?Hb; set_solver.
  - destruct IH as (chunks & Hh & Hs & Hok). unfold fileOps in *. rewrite foldl_app. cbn [foldl].
    set (m1 := foldl _ m ops) in *.
    destruct (fileOp_spec _ _ _ _ op Hh) as (more & Hh' & Hs' & Hok').
    exists (chunks ++ more). rewrite linesOf_app. split; [done|]. split; [by rewrite Hs'|].
    intros (H1 & H2 & H3)%Hok. destruct (Hok' H1 H2) as (G1 & G2 & _ & G4).
    split_and!; [done..|]. intros H0. rewrite Hs in G4. by apply G4, H3.
Qed.

(** C40: the file output writes every line. On a healthy file the lines given
    to [Write] are in the file, exactly once each, or in the buffer, which
    never holds more than a batch, and in batches sorted by time; a flush
    leaves none in the buffer. When writes fail no line is lost either: each
    is in the file as a whole or still in the buffer, and the file holds
    nothing but lines and beginnings of lines. *)
Theorem file_output_complete ops m :
  batchBuffer m = [] ->
  let m' := fileOps ops m in
  exists chunks, content (sink m') = content (sink m) ++ concat chunks /\
    (forall l, l ∈ linesOf ops -> l ∈ chunks \/ l ∈ batchBuffer m') /\
    (forall c, c ∈ chunks -> exists l n, l ∈ linesOf ops /\ c = take n l) /\
    (healthy (sink m) ->
       chunks ++ batchBuffer m' ≡ₚ linesOf ops /\
       (0 <= batchSize m -> len (batchBuffer m') <= batchSize m) /\
       batchBuffer (FlushBuffer m').2 = []).
Proof.
  intros Hb. destruct (fileOps_spec ops m Hb) as (chunks & H & Hs & Hok). cbv zeta.
  exists chunks. destruct H as [H1 H2 H3 H4] eqn:E. clear E. split_and!; [done..|].
  intros (G1 & G2 & G3)%Hok. split_and!; [done..|].
  pose proof (FlushBuffer_spec _ _ _ _ H) as Hf. destruct (FlushBuffer _) as [[n ok] m'].
  destruct Hf as (more & _ & _ & Hf). by destruct (Hf G1) as (_ & ? & _).
Qed.

(* ------------------------------------------------------------------ *)
(** ** The failure tracker                                              *)
(* ------------------------------------------------------------------ *)

Definition opsOf (evs : list workEvent) : list (option gostring) :=
  map (fun e => match e with Tick => None | Message newEntry _ _ _ => Some newEntry end) evs.
Definition clockOf (evs : list workEvent) : list gotime :=
  omap (fun e => match e with Tick => None | Message _ _ _ now' => Some now' end) evs.

(** Only the file output is configured, and between two ticks of the timer
    come at most as many messages as the buffer holds. *)
Fixpoint quiet (size used : Z) (evs : list workEvent) : Prop :=
  match evs with
  | [] => True
  | Tick :: evs => quiet size 0 evs
  | Message _ written _ _ :: evs =>
      foldr Z.add 0 written = 0 /\ used + 1 <= size /\ quiet size (used + 1) evs
  end.

Lemma runRounds_file evs i : fileMod (runRounds evs i) = fileOps (opsOf evs) <$> fileMod i.
Proof.
  revert i. induction evs as [|e evs IH]; intros i.
  { change (runRounds [] i) with i. by destruct (fileMod i). }
  change (runRounds (e :: evs) i) with (runRounds evs (round e i)). rewrite IH.
  destruct e as [|newEntry written now now']; cbn [round].
  - cbn [fileMod]. by destruct (fileMod i).
  - destruct (fileMod i) as [m|]; cbn [writeFile].
    + destruct (Write newEntry m) as [[n ok] m1] eqn:E.
      destruct (trackFailures _ _ _ _) as [[f d] k]. cbn. unfold fileOps. cbn. by rewrite E.
    + by destruct (trackFailures _ _ _ _) as [[f d] k].
Qed.

(** A quiet round while all outputs seem to fail. *)
Lemma quiet_message newEntry written now now' i m :
  fileMod i = Some m -> foldr Z.add 0 written = 0 -> len (batchBuffer m) + 1 <= batchSize m ->
  0 <= consecutiveCount (failures i) ->
  let f := failures i in
  let D := if consecutiveCount f =? 0 then now + maximumDuration f else deadline f in
  let i' := round (Message newEntry written now now') i in
  fileMod i' = Some (mkOut (sink m) (batchSize m) (batchBuffer m ++ [withNewline newEntry])) /\
  failures i' = mkTracker (consecutiveCount f + 1) D (maximumDuration f) /\
  signals i' = if D <? now' then S (signals i) else signals i.
Proof.
  intros Hm Hw Hl Hc. cbv zeta. cbn [round]. rewrite Hm. cbn [writeFile]. unfold Write.
  cbn [batchSize batchBuffer]. rewrite len_app. change (len [withNewline newEntry]) with 1.
  rewrite (proj2 (Z.ltb_ge _ _)) by lia. rewrite Hw. unfold trackFailures.
  change (0 + 0 =? 0) with true. cbn [fileMod failures signals consecutiveCount deadline].
  rewrite (proj2 (Z.ltb_lt 0 (consecutiveCount (failures i) + 1))) by lia. cbn [andb].
  by destruct (_ <? now').
Qed.

Lemma outage evs i m :
  fileMod i = Some m -> healthy (sink m) -> 0 < consecutiveCount (failures i) ->
  quiet (batchSize m) (len (batchBuffer m)) evs ->
  signals (runRounds evs i) =
    (signals i + length (filter (fun t => (deadline (failures i) < t)%Z) (clockOf evs)))%nat.
Proof.
  revert i m. induction evs as [|e evs IH]; intros i m Hm Hh Hc; [cbn; lia|].
  change (runRounds (e :: evs) i) with (runRounds evs (round e i)).
  destruct e as [|newEntry written now now']; cbn [quiet].
  - intros Hq. assert (holds (content (sink m)) (batchBuffer m) [] m) as H.
    { split; [by rewrite app_nil_r|by right|done|by intros c ?%not_elem_of_nil]. }
    pose proof (FlushBuffer_spec _ _ _ _ H) as Hf.
    rewrite (IH (round Tick i) (FlushBuffer m).2); [done|cbn [round fileMod]; by rewrite Hm|..];
      destruct (FlushBuffer m) as [[n ok] m']; destruct Hf as (more & _ & Hs & Hf);
      destruct (Hf Hh) as (H1 & H2 & _); cbn [snd]; [done|done|].
    by rewrite Hs, H2.
  - intros (Hw & Hl & Hq).
    destruct (quiet_message newEntry written now now' i m Hm Hw Hl) as (Em & Ef & Es); [lia|].
    rewrite (proj2 (Z.eqb_neq _ _)) in Ef, Es by lia.
    erewrite IH; [|exact Em|done|rewrite Ef; cbn; lia|cbn [batchSize batchBuffer]; by rewrite len_app].
    rewrite Ef, Es. cbn [clockOf omap list_omap deadline]. rewrite filter_cons.
    destruct (Z.ltb_spec (deadline (failures i)) now'), (decide (deadline (failures i) < now'));
      cbn [length]; unfold clockOf; lia.
Qed.

(** A receiver that only writes to a file, and writes every line to it,
    stops itself. When no more than a batch of messages comes between two
    flushes, no message counts as written: from the first message on the
    worker sees an outage, and for every message later than the configured
    duration after the first it signals the process to end. *)
Theorem healthy_file_output_stops_program evs i m newEntry written now now' :
  fileMod i = Some m -> batchBuffer m = [] -> healthy (sink m) ->
  consecutiveCount (failures i) = 0 -> now' <= now + maximumDuration (failures i) ->
  let all := Message newEntry written now now' :: evs in
  quiet (batchSize m) 0 all ->
  let i' := runRounds all i in
  signals i' = (signals i +
    length (filter (fun t => (now + maximumDuration (failures i) < t)%Z) (clockOf evs)))%nat /\
  exists m' chunks, fileMod i' = Some m' /\
    content (sink m') = content (sink m) ++ concat chunks /\
    chunks ++ batchBuffer m' ≡ₚ linesOf (opsOf all).
Proof.
  intros Hm Hb Hh Hc Hn all Hq i'. split.
  - destruct Hq as (Hw & Hl & Hq).
    destruct (quiet_message newEntry written now now' i m Hm Hw) as (Em & Ef & Es);
      [by rewrite Hb|lia|].
    rewrite Hc in Ef, Es. cbn [Z.eqb] in Ef, Es. rewrite (proj2 (Z.ltb_ge _ _)) in Es by lia.
    subst i' all. change (runRounds (?e :: evs) i) with (runRounds evs (round e i)).
    erewrite outage; [|exact Em|done|by rewrite Ef|].
    + by rewrite Ef, Es.
    + cbn [batchSize batchBuffer]. rewrite Hb. exact Hq.
  - subst i'. rewrite runRounds_file, Hm.
    destruct (fileOps_spec (opsOf all) m Hb) as (chunks & H & _ & Hok).
    destruct (Hok Hh) as (_ & Hp & _). exists (fileOps (opsOf all) m), chunks.
    split_and!; [done|apply H|exact Hp].
Qed.
End worker.

(* ------------------------------------------------------------------ *)
(** * Examples                                                          *)
(* ------------------------------------------------------------------ *)

(** Lines whose time is their first byte. *)
Definition firstByte (l : gostring) : gotime := match l with [] => 0 | b :: _ => b2z b end.
Definition byTime (a b : gostring) : Prop := firstByte a <= firstByte b.
#[export] Instance byTime_dec : RelDecision byTime.
Proof. intros a b. unfold byTime. apply _. Defined.
#[export] Instance byTime_total : Total byTime.
Proof. intros a b. unfold byTime. lia. Qed.
#[export] Instance exampleSort : LineSort := {|
  lineTime := firstByte;
  sortLines := merge_sort byTime;
  sortLines_perm := merge_sort_Permutation byTime;
  sortLines_sorted := Sorted_merge_sort byTime
|}.

Definition exampleFile : OutModule := mkOut (mkSink [] []) 2 [].
Definition exampleOps : list (option gostring) :=
  [Some (str "3 c"); Some (str "1 a"); Some (str "2 b"); Some (str "4 d")].
Lemma file_output_complete_witness :
  exists chunks, content (sink (fileOps exampleOps exampleFile)) = concat chunks /\
    chunks ++ batchBuffer (fileOps exampleOps exampleFile) ≡ₚ
      map withNewline [str "3 c"; str "1 a"; str "2 b"; str "4 d"].
Proof.
  destruct (file_output_complete exampleOps exampleFile) as (chunks & Hc & _ & _ & H); [done|].
  exists chunks. split; [exact Hc|]. apply H. constructor.
Defined.

(** When the disk fills up in the middle of a batch, lines come twice. *)
Example failed_flush_duplicates :
  content (sink (fileOps [Some (str "1 a"); Some (str "2 b"); Some (str "3 c"); None]
    (mkOut (mkSink [] [None; Some 2%nat]) 2 []))) =
  withNewline (str "1 a") ++ str "2 " ++
  concat (map withNewline [str "1 a"; str "2 b"; str "3 c"]).
Proof. by vm_compute. Qed.

(** A message every minute, with flushes between them, and the default of ten
    minutes. *)
Definition minute : Z := 60 * 10 ^ 9.
Definition DefaultOutputFailureDuration : Z := 10 * minute.
Definition everyMinute (n : Z) : list workEvent :=
  [Message (str "1 all is well") [0; 0; 0; 0] (n * minute) (n * minute); Tick].
Definition steadyTraffic : list workEvent := concat (map everyMinute (seqZ 1 12)).
Definition exampleWorker : Instance :=
  mkInstance (Some (mkOut (mkSink [] []) 20 [])) (mkTracker 0 zeroTime DefaultOutputFailureDuration)
    (mkMetrics 0 0 0) 0.
Lemma healthy_file_output_stops_program_witness :
  signals (runRounds (Message (str "1 all is well") [0; 0; 0; 0] 0 0 :: Tick :: steadyTraffic)
             exampleWorker) = 2%nat.
Proof.
  destruct (healthy_file_output_stops_program (Tick :: steadyTraffic) exampleWorker
    (mkOut (mkSink [] []) 20 []) (str "1 all is well") [0; 0; 0; 0] 0 0) as [Hs _].
  - done.
  - done.
  - constructor.
  - done.
  - by vm_compute.
  - vm_compute. by repeat split.
  - etransitivity; [exact Hs|]. by vm_compute.
Defined.
