(* ===== verification/Mpmc.v ===== *)
(** The queues between the stages of the pipelines
    ([internal/queue/mpmc/{entry,types}.go]): a lock-free ring for several
    producers and consumers, and its replacement by a ring of another size
    while both sides go on using it.

    Every call of [Push], [Pop] or [mutateSize] is a sequence of steps, one
    for each atomic access, and a state holds any number of calls under way;
    a run interleaves their steps in any way. Of the counters only the depth
    and the bytes are represented; an [atomics.Subtract] is one step. *)
From S2P Require Import Prelude Shard.

Section mpmc.
(** The type of the elements, with its zero value. *)
Context {V : Type} (zero : V).

(* ------------------------------------------------------------------ *)
(** * State                                                             *)
(* ------------------------------------------------------------------ *)

Record cell := mkCell { seq : Z; size : Z; data : V }.

(** [notEmpty] is a channel with room for one signal. *)
Record QueueInst := mkQueue {
  Size : Z;
  mask : Z;
  buf : list cell;
  head : Z;
  tail : Z;
  notEmpty : bool;
  draining : bool;
  Depth : Z;
  QBytes : Z
}.

(** [newQueueInst]; [None] is the error. *)
Definition newQueueInst (capacity : Z) : option QueueInst :=
  if negb (Z.land capacity (capacity - 1) =? 0) then None
  else if capacity <? 2 then None
  else
    let buf := map (fun i => mkCell (Z.of_nat i) 0 zero) (List.seq 0 (Z.to_nat capacity)) in
    Some (mkQueue capacity (capacity - 1) buf 0 0 false false 0 0).

Definition setBuf (Q : QueueInst) (b : list cell) : QueueInst :=
  mkQueue (Size Q) (mask Q) b (head Q) (tail Q) (notEmpty Q) (draining Q) (Depth Q) (QBytes Q).
Definition setHead (Q : QueueInst) (h : Z) : QueueInst :=
  mkQueue (Size Q) (mask Q) (buf Q) h (tail Q) (notEmpty Q) (draining Q) (Depth Q) (QBytes Q).
Definition setTail (Q : QueueInst) (t : Z) : QueueInst :=
  mkQueue (Size Q) (mask Q) (buf Q) (head Q) t (notEmpty Q) (draining Q) (Depth Q) (QBytes Q).
Definition setNotEmpty (Q : QueueInst) (b : bool) : QueueInst :=
  mkQueue (Size Q) (mask Q) (buf Q) (head Q) (tail Q) b (draining Q) (Depth Q) (QBytes Q).
Definition setDraining (Q : QueueInst) : QueueInst :=
  mkQueue (Size Q) (mask Q) (buf Q) (head Q) (tail Q) (notEmpty Q) true (Depth Q) (QBytes Q).
Definition setDepth (Q : QueueInst) (d : Z) : QueueInst :=
  mkQueue (Size Q) (mask Q) (buf Q) (head Q) (tail Q) (notEmpty Q) (draining Q) d (QBytes Q).
Definition setQBytes (Q : QueueInst) (n : Z) : QueueInst :=
  mkQueue (Size Q) (mask Q) (buf Q) (head Q) (tail Q) (notEmpty Q) (draining Q) (Depth Q) n.

Definition index (Q : QueueInst) (pos : Z) : nat := Z.to_nat (Z.land pos (mask Q)).
Definition cellAt (Q : QueueInst) (pos : Z) : option cell := buf Q !! index Q pos.
Definition modifyCell (Q : QueueInst) (pos : Z) (f : cell -> cell) : QueueInst :=
  setBuf Q (alter f (index Q pos) (buf Q)).
Definition setSeq (n : Z) (c : cell) : cell := mkCell n (size c) (data c).
Definition setSize (n : Z) (c : cell) : cell := mkCell (seq c) n (data c).
Definition setData (v : V) (c : cell) : cell := mkCell (seq c) (size c) v.

(** How a call ends. *)
Inductive outcome :=
  | Pushed
  | Full
  | Popped (out : V)
  | Cancelled
  | Mutated.

(** Where a call is: the access it does next, with its local variables.
    [q] is the address of a queue instance, [c] of a migration channel. *)
Inductive pc :=
  (* Push *)
  | PushLoad (v : V) (sz : Z)
  | PushDraining (v : V) (sz : Z) (q : nat)
  | PushTail (v : V) (sz : Z) (q : nat)
  | PushSeq (v : V) (sz : Z) (q : nat) (pos : Z)
  | PushTry (v : V) (sz : Z) (q : nat) (pos sq : Z)
  | PushData (v : V) (sz : Z) (q : nat) (pos : Z)
  | PushPublish (v : V) (sz : Z) (q : nat) (pos : Z)
  | PushSize (sz : Z) (q : nat) (pos : Z)
  | PushDepth (sz : Z) (q : nat)
  | PushBytes (sz : Z) (q : nat)
  | PushNotify (q : nat)
  (* Pop *)
  | PopLoad
  | PopHead (q : nat)
  | PopSeq (q : nat) (pos : Z)
  | PopTry (q : nat) (pos sq : Z)
  | PopData (q : nat) (pos : Z)
  | PopRelease (q : nat) (pos : Z) (out : V)
  | PopDepth (q : nat) (pos : Z) (out : V)
  | PopSize (q : nat) (pos : Z) (out : V)
  | PopBytes (q : nat) (out : V) (sz : Z)
  | PopDraining (q : nat) (out : V)
  | PopCheckHead (q : nat) (out : V)
  | PopCheckTail (q : nat) (out : V) (h : Z)
  | PopMigrate (out : V)
  | PopSignal (out : V) (c : nat)
  | PopChannel (q : nat)
  | PopWait (q c : nat)
  | PopFlip
  | PopFlipTo (q : nat)
  (* mutateSize *)
  | MutRead (newCapacity : Z)
  | MutWrite (newCapacity : Z) (r : nat)
  | MutNew (newCapacity : Z)
  | MutChannel (q : nat)
  | MutActive (q : nat)
  | MutDrain (q old : nat)
  | MutStore (q : nat)
  | Returned (r : outcome).

(** What is remembered of a run: the claims of positions for writing and for
    reading, and what was read, each with its call. *)
Inductive event :=
  | EPush (i q : nat) (pos : Z) (v : V)
  | EPop (i q : nat) (pos : Z)
  | EGot (i q : nat) (pos : Z) (v : V).

Record State := mkState {
  ActiveWrite : nat;
  ActiveRead : nat;
  migrateCh : nat;
  queues : list QueueInst;
  channels : list bool;
  calls : list pc;
  trace : list event
}.

Definition goto (s : State) (i : nat) (p : pc) : State :=
  mkState (ActiveWrite s) (ActiveRead s) (migrateCh s) (queues s) (channels s)
    (<[i := p]> (calls s)) (trace s).
Definition setQueue (s : State) (q : nat) (Q : QueueInst) : State :=
  mkState (ActiveWrite s) (ActiveRead s) (migrateCh s) (<[q := Q]> (queues s)) (channels s)
    (calls s) (trace s).
Definition setChannel (s : State) (c : nat) (b : bool) : State :=
  mkState (ActiveWrite s) (ActiveRead s) (migrateCh s) (queues s) (<[c := b]> (channels s))
    (calls s) (trace s).
Definition addQueue (s : State) (Q : QueueInst) : State :=
  mkState (ActiveWrite s) (ActiveRead s) (migrateCh s) (queues s ++ [Q]) (channels s)
    (calls s) (trace s).
Definition newMigrateCh (s : State) : State :=
  mkState (ActiveWrite s) (ActiveRead s) (length (channels s)) (queues s)
    (channels s ++ [false]) (calls s) (trace s).
Definition setActiveWrite (s : State) (q : nat) : State :=
  mkState q (ActiveRead s) (migrateCh s) (queues s) (channels s) (calls s) (trace s).
Definition setActiveRead (s : State) (q : nat) : State :=
  mkState (ActiveWrite s) q (migrateCh s) (queues s) (channels s) (calls s) (trace s).
Definition record (s : State) (e : event) : State :=
  mkState (ActiveWrite s) (ActiveRead s) (migrateCh s) (queues s) (channels s) (calls s)
    (trace s ++ [e]).

(** [New], with calls that have not started. *)
Definition New (initialCapacity : Z) (calls : list pc) : option State :=
  Q ← newQueueInst initialCapacity;
  Some (mkState 0 0 0 [Q] [false] calls []).

(* ------------------------------------------------------------------ *)
(** * Steps                                                             *)
(* ------------------------------------------------------------------ *)

(** Which case of its [select] a waiting [Pop] takes. *)
Inductive choice :=
  | OnNotEmpty
  | OnMigrate
  | OnDone.

(** A step of [Push]. *)
Definition pushStep (s : State) (i : nat) (p : pc) : option State :=
  match p with
  | PushLoad v sz => Some (goto s i (PushDraining v sz (ActiveWrite s)))
  | PushDraining v sz q =>
      Q ← queues s !! q;
      Some (goto s i (if draining Q then PushLoad v sz else PushTail v sz q))
  | PushTail v sz q => Q ← queues s !! q; Some (goto s i (PushSeq v sz q (tail Q)))
  | PushSeq v sz q pos =>
      Q ← queues s !! q; c ← cellAt Q pos; Some (goto s i (PushTry v sz q pos (seq c)))
  | PushTry v sz q pos sq =>
      if sq =? pos then
        Q ← queues s !! q;
        if tail Q =? pos
        then Some (goto (record (setQueue s q (setTail Q (wrapU 64 (pos + 1)))) (EPush i q pos v))
                     i (PushData v sz q pos))
        else Some (goto s i (PushTail v sz q))
      else if sq <? pos then Some (goto s i (Returned Full))
      else Some (goto s i (PushTail v sz q))
  | PushData v sz q pos =>
      Q ← queues s !! q;
      Some (goto (setQueue s q (modifyCell Q pos (setData v))) i (PushPublish v sz q pos))
  | PushPublish v sz q pos =>
      Q ← queues s !! q;
      Some (goto (setQueue s q (modifyCell Q pos (setSeq (wrapU 64 (pos + 1))))) i
              (PushSize sz q pos))
  | PushSize sz q pos =>
      Q ← queues s !! q;
      Some (goto (setQueue s q (modifyCell Q pos (setSize sz))) i (PushDepth sz q))
  | PushDepth sz q =>
      Q ← queues s !! q;
      Some (goto (setQueue s q (setDepth Q (atomicAdd (Depth Q) 1))) i (PushBytes sz q))
  | PushBytes sz q =>
      Q ← queues s !! q;
      Some (goto (setQueue s q (setQBytes Q (atomicAdd (QBytes Q) sz))) i (PushNotify q))
  | PushNotify q =>
      Q ← queues s !! q; Some (goto (setQueue s q (setNotEmpty Q true)) i (Returned Pushed))
  | _ => None
  end.

(** A step of [Pop] up to its claim, or while it waits. *)
Definition popStep (s : State) (i : nat) (ch : choice) (p : pc) : option State :=
  match p with
  | PopLoad => Some (goto s i (PopHead (ActiveRead s)))
  | PopHead q => Q ← queues s !! q; Some (goto s i (PopSeq q (head Q)))
  | PopSeq q pos =>
      Q ← queues s !! q; c ← cellAt Q pos; Some (goto s i (PopTry q pos (seq c)))
  | PopTry q pos sq =>
      let readySeq := wrapU 64 (pos + 1) in
      if sq =? readySeq then
        Q ← queues s !! q;
        if head Q =? pos
        then Some (goto (record (setQueue s q (setHead Q (wrapU 64 (pos + 1)))) (EPop i q pos))
                     i (PopData q pos))
        else Some (goto s i PopLoad)
      else if sq <? readySeq then Some (goto s i (PopChannel q))
      else Some (goto s i PopLoad)
  | PopChannel q => Some (goto s i (PopWait q (migrateCh s)))
  | PopWait q c =>
      match ch with
      | OnDone => Some (goto s i (Returned Cancelled))
      | OnNotEmpty =>
          Q ← queues s !! q;
          if notEmpty Q then Some (goto (setQueue s q (setNotEmpty Q false)) i PopLoad) else None
      | OnMigrate =>
          signal ← channels s !! c;
          if (signal : bool) then Some (goto (setChannel s c false) i PopFlip) else None
      end
  | PopFlip => Some (goto s i (PopFlipTo (ActiveWrite s)))
  | PopFlipTo q => Some (goto (setActiveRead s q) i PopLoad)
  | _ => None
  end.

(** A step of [Pop] after its claim. *)
Definition takeStep (s : State) (i : nat) (p : pc) : option State :=
  match p with
  | PopData q pos =>
      Q ← queues s !! q; c ← cellAt Q pos;
      Some (goto (record s (EGot i q pos (data c))) i (PopRelease q pos (data c)))
  | PopRelease q pos out =>
      Q ← queues s !! q;
      Some (goto (setQueue s q (modifyCell Q pos (setSeq (wrapU 64 (pos + mask Q + 1))))) i
              (PopDepth q pos out))
  | PopDepth q pos out =>
      Q ← queues s !! q;
      Some (goto (setQueue s q (setDepth Q (subtractOnce (Depth Q) 1))) i (PopSize q pos out))
  | PopSize q pos out =>
      Q ← queues s !! q; c ← cellAt Q pos;
      Some (goto (setQueue s q (modifyCell Q pos (setSize 0))) i (PopBytes q out (size c)))
  | PopBytes q out sz =>
      Q ← queues s !! q;
      Some (goto (setQueue s q (setQBytes Q (subtractOnce (QBytes Q) sz))) i (PopDraining q out))
  | PopDraining q out =>
      Q ← queues s !! q;
      Some (goto s i (if draining Q then PopCheckHead q out else Returned (Popped out)))
  | PopCheckHead q out => Q ← queues s !! q; Some (goto s i (PopCheckTail q out (head Q)))
  | PopCheckTail q out h =>
      Q ← queues s !! q;
      Some (goto s i (if h =? tail Q then PopMigrate out else Returned (Popped out)))
  | PopMigrate out => Some (goto s i (PopSignal out (migrateCh s)))
  | PopSignal out c =>
      _ ← channels s !! c; Some (goto (setChannel s c true) i (Returned (Popped out)))
  | _ => None
  end.

(** A step of [mutateSize]. *)
Definition mutateStep (s : State) (i : nat) (p : pc) : option State :=
  match p with
  | MutRead n => Some (goto s i (MutWrite n (ActiveRead s)))
  | MutWrite n r =>
      Some (goto s i (if (r =? ActiveWrite s)%nat then MutNew n else Returned Mutated))
  | MutNew n =>
      match newQueueInst n with
      | None => Some (goto s i (Returned Mutated))
      | Some Q => Some (goto (addQueue s Q) i (MutChannel (length (queues s))))
      end
  | MutChannel q => Some (goto (newMigrateCh s) i (MutActive q))
  | MutActive q => Some (goto s i (MutDrain q (ActiveWrite s)))
  | MutDrain q old =>
      Q ← queues s !! old; Some (goto (setQueue s old (setDraining Q)) i (MutStore q))
  | MutStore q => Some (goto (setActiveWrite s q) i (Returned Mutated))
  | _ => None
  end.

(** One step of call [i]; [None] when it has returned or must wait. *)
Definition exec (i : nat) (ch : choice) (s : State) : option State :=
  p ← calls s !! i;
  match pushStep s i p with
  | Some s => Some s
  | None =>
      match popStep s i ch p with
      | Some s => Some s
      | None =>
          match takeStep s i p with
          | Some s => Some s
          | None => mutateStep s i p
          end
      end
  end.

Fixpoint execAll (l : list (nat * choice)) (s : State) : option State :=
  match l with
  | [] => Some s
  | (i, ch) :: l => s ← exec i ch s; execAll l s
  end.
End mpmc.
