(* ===== verification/MpmcRing.v ===== *)
(** What one ring of [Mpmc] guarantees: positions are claimed in order, each
    cell belongs to at most one call at a time, and what is taken from a
    position is what was put there. *)
From S2P Require Import Prelude Shard Mpmc.

(* ------------------------------------------------------------------ *)
(** * Powers of two                                                     *)
(* ------------------------------------------------------------------ *)

Lemma land_pred_pow2 c : 0 < c -> Z.land c (c - 1) = 0 -> exists k, 0 <= k /\ c = 2 ^ k.
Proof.
  intros Hc Hl. exists (Z.log2 c). split; [apply Z.log2_nonneg|].
  destruct (Z.log2_spec c Hc) as [Hlo Hhi].
  destruct (decide (c = 2 ^ Z.log2 c)) as [|Hne]; [done|].
  assert (Z.log2 (c - 1) = Z.log2 c) as E.
  { apply Z.log2_unique; [apply Z.log2_nonneg|lia]. }
  assert (Z.testbit (Z.land c (c - 1)) (Z.log2 c) = true) as Ht.
  { rewrite Z.land_spec, Z.bit_log2 by done. rewrite <- E, Z.bit_log2; [done|].
    assert (0 < 2 ^ Z.log2 c) by (apply Z.pow_pos_nonneg; [lia|apply Z.log2_nonneg]). lia. }
  by rewrite Hl, Z.bits_0 in Ht.
Qed.

Lemma land_mask p k : 0 <= k -> Z.land p (2 ^ k - 1) = p mod 2 ^ k.
Proof. intros. rewrite <- Z.land_ones by done. f_equal. rewrite Z.ones_equiv. lia. Qed.

(** Two positions of one cell that are less than a ring apart. *)
Lemma mod_eq_window n p q : 0 < n -> p mod n = q mod n -> Z.abs (p - q) < n -> p = q.
Proof.
  intros Hn E Hd. pose proof (Z_div_mod_eq_full p n). pose proof (Z_div_mod_eq_full q n).
  assert (p / n = q / n \/ p / n - q / n <= -1 \/ 1 <= p / n - q / n) as [|[|]] by lia; nia.
Qed.
Lemma mod_shift n p : 0 < n -> (p + n) mod n = p mod n.
Proof. intros. rewrite <- (Z.mul_1_l n) at 1. apply Z.mod_add. lia. Qed.

(** Positions of one cell are not neighbours. *)
Lemma mod_neighbours n w d :
  2 <= n -> w mod n = (w + d) mod n -> d = 0 \/ d = 1 \/ d = n - 1 \/ d = -1 -> d = 0.
Proof.
  intros Hn E Hd. pose proof (Z_div_mod_eq_full w n). pose proof (Z_div_mod_eq_full (w + d) n).
  assert (d = n * ((w + d) / n - w / n)) as Ed by lia.
  revert Ed. generalize ((w + d) / n - w / n). intros z Ed.
  assert (z <= -1 \/ z = 0 \/ z = 1 \/ 2 <= z) as [|[->|[->|]]] by lia; [nia|lia|lia|nia].
Qed.

Section ring.
Context {V : Type} (zero : V).

Abbreviation QueueInst := (@QueueInst V).
Abbreviation pc := (@pc V).
Abbreviation State := (@State V).
Abbreviation event := (@event V).

(* ------------------------------------------------------------------ *)
(** * The invariant of a ring                                           *)
(* ------------------------------------------------------------------ *)

Definition seqAt (Q : QueueInst) (p : Z) : Z := from_option seq (-1) (cellAt Q p).
Definition dataAt (Q : QueueInst) (p : Z) : option V := data <$> cellAt Q p.

(** [log] is the list of the values whose positions were claimed. The last
    [Size] positions claimed are in one of four situations: being written,
    written, being read (as written, but before the head), or released. *)
Record ring (log : list V) (Q : QueueInst) : Prop := {
  ring_size : exists k, 1 <= k /\ Size Q = 2 ^ k;
  ring_mask : mask Q = Size Q - 1;
  ring_buf : len (buf Q) = Size Q;
  ring_head : 0 <= head Q <= tail Q;
  ring_tail : tail Q <= head Q + Size Q;
  ring_log : len log = tail Q;
  ring_window p : tail Q - Size Q <= p < tail Q ->
    (seqAt Q p = p /\ head Q <= p) \/
    (seqAt Q p = p + 1 /\ 0 <= p /\ dataAt Q p = log !! Z.to_nat p) \/
    (seqAt Q p = p + Size Q /\ p < head Q)
}.

Lemma ring_size_2 log Q : ring log Q -> 2 <= Size Q.
Proof.
  intros [(k & Hk & ->) _ _ _ _ _ _]. change 2 with (2 ^ 1) at 1. apply Z.pow_le_mono_r; lia.
Qed.

Lemma index_mod log Q p : ring log Q -> index Q p = Z.to_nat (p mod Size Q).
Proof.
  intros [(k & Hk & E) Hm _ _ _ _ _]. unfold index. rewrite Hm, E, land_mask by lia. done.
Qed.

Lemma index_lt log Q p : ring log Q -> (index Q p < length (buf Q))%nat.
Proof.
  intros H. rewrite (index_mod _ _ _ H). pose proof (ring_size_2 _ _ H).
  pose proof (ring_buf _ _ H). pose proof (Z.mod_pos_bound p (Size Q)). unfold len in *. lia.
Qed.

Lemma index_inj log Q p p' : ring log Q -> index Q p = index Q p' -> p mod Size Q = p' mod Size Q.
Proof.
  intros H. rewrite !(index_mod _ _ _ H). pose proof (ring_size_2 _ _ H).
  pose proof (Z.mod_pos_bound p (Size Q)). pose proof (Z.mod_pos_bound p' (Size Q)). lia.
Qed.

Lemma cellAt_mod log Q p p' :
  ring log Q -> p mod Size Q = p' mod Size Q -> cellAt Q p = cellAt Q p'.
Proof. intros H E. unfold cellAt. by rewrite !(index_mod _ _ _ H), E. Qed.
Lemma seqAt_mod log Q p p' :
  ring log Q -> p mod Size Q = p' mod Size Q -> seqAt Q p = seqAt Q p'.
Proof. intros H E. unfold seqAt. by rewrite (cellAt_mod _ _ _ _ H E). Qed.

Lemma cellAt_Some log Q p : ring log Q -> exists c, cellAt Q p = Some c.
Proof. intros H. apply lookup_lt_is_Some, (index_lt _ _ _ H). Qed.

(** The position of the window that shares the cell of [p]. *)
Lemma window_position log Q p :
  ring log Q -> exists w, tail Q - Size Q <= w < tail Q /\ w mod Size Q = p mod Size Q.
Proof.
  intros H. pose proof (ring_size_2 _ _ H) as Hs.
  exists (tail Q - Size Q + (p - (tail Q - Size Q)) mod Size Q).
  pose proof (Z.mod_pos_bound (p - (tail Q - Size Q)) (Size Q)). split; [lia|].
  rewrite Zplus_mod_idemp_r. f_equal. lia.
Qed.

(** ** The three situations, seen from a cell *)

(** A cell ready for the next position to be written. *)
Lemma ring_free log Q :
  ring log Q -> tail Q <= seqAt Q (tail Q) ->
  seqAt Q (tail Q) = tail Q /\ tail Q - Size Q < head Q /\
  seqAt Q (tail Q - Size Q) = tail Q.
Proof.
  intros H Hle. pose proof (ring_size_2 _ _ H).
  assert (seqAt Q (tail Q) = seqAt Q (tail Q - Size Q)) as E.
  { apply (seqAt_mod _ _ _ _ H). rewrite <- (mod_shift _ (tail Q - Size Q)) by lia. f_equal. lia. }
  destruct (ring_window _ _ H (tail Q - Size Q)) as [[E1 _]|[[E1 _]|[E1 Hh]]]; lia.
Qed.

(** A cell ready for the next position to be read. *)
Lemma ring_ready log Q :
  ring log Q -> head Q + 1 <= seqAt Q (head Q) ->
  head Q < tail Q /\ seqAt Q (head Q) = head Q + 1 /\ dataAt Q (head Q) = log !! Z.to_nat (head Q).
Proof.
  intros H Hle. pose proof (ring_size_2 _ _ H). pose proof (ring_head _ _ H).
  pose proof (ring_tail _ _ H).
  destruct (decide (head Q = tail Q)) as [E|Hne].
  - destruct (ring_free _ _ H) as (E1 & _ & _); [rewrite <- E; lia|]. rewrite E in Hle. lia.
  - destruct (ring_window _ _ H (head Q)) as [[E1 _]|[(E1 & _ & Hd)|[E1 Hh]]]; [lia|lia| |lia].
    split_and!; [lia|done|done].
Qed.

(** A claimed position is in the window. *)
Lemma ring_writing log Q p :
  ring log Q -> p < tail Q -> seqAt Q p = p -> tail Q - Size Q <= p /\ head Q <= p.
Proof.
  intros H Hp Hs. pose proof (ring_size_2 _ _ H) as H2.
  destruct (window_position _ _ p H) as (w & Hw & Em).
  rewrite <- (seqAt_mod _ _ _ _ H Em) in Hs.
  destruct (ring_window _ _ H w Hw) as [[E1 Hh]|[[E1 _]|[E1 Hh]]]; rewrite E1 in Hs; subst p; [lia|..].
  - assert (1 = 0); [|lia]. apply (mod_neighbours (Size Q) w); [done..|lia].
  - lia.
Qed.

Lemma ring_reading log Q p :
  ring log Q -> p < tail Q -> seqAt Q p = p + 1 -> tail Q - Size Q <= p /\ 0 <= p /\
  dataAt Q p = log !! Z.to_nat p.
Proof.
  intros H Hp Hs. pose proof (ring_size_2 _ _ H) as H2.
  destruct (window_position _ _ p H) as (w & Hw & Em).
  rewrite <- (seqAt_mod _ _ _ _ H Em) in Hs.
  assert (p - w = 0 \/ p - w = 1 \/ p - w = Size Q - 1 \/ p - w = -1 -> p - w = 0) as Hd.
  { intros Hd. apply (mod_neighbours (Size Q) w); [done| |done]. rewrite Em. f_equal. lia. }
  destruct (ring_window _ _ H w Hw) as [[E1 Hh]|[(E1 & H0 & Hda)|[E1 Hh]]].
  - lia.
  - assert (p = w) as -> by lia. split_and!; [lia|lia|exact Hda].
  - lia.
Qed.

(* ------------------------------------------------------------------ *)
(** * Operations on a ring                                              *)
(* ------------------------------------------------------------------ *)

Lemma cellAt_modify log Q pos f p :
  ring log Q ->
  cellAt (modifyCell Q pos f) p =
  if decide (p mod Size Q = pos mod Size Q) then f <$> cellAt Q p else cellAt Q p.
Proof.
  intros H. unfold cellAt. change (index (modifyCell Q pos f) p) with (index Q p).
  unfold modifyCell. cbn [buf setBuf]. destruct (decide _) as [E|Hne].
  - assert (index Q p = index Q pos) as -> by by rewrite !(index_mod _ _ _ H), E.
    apply list_lookup_alter_eq.
  - apply list_lookup_alter_ne. intros E. by apply Hne, (index_inj _ _ _ _ H).
Qed.

(** What a step may change for the other calls: the cell of one position at
    most, and otherwise only forward. *)
Record evolves (y : option Z) (log : list V) (Q : QueueInst) (log' : list V) (Q' : QueueInst)
  : Prop := {
  ev_size : Size Q' = Size Q;
  ev_head : head Q <= head Q';
  ev_tail : tail Q <= tail Q';
  ev_log : exists k, log' = log ++ k;
  ev_seq p : seqAt Q p <= seqAt Q' p;
  ev_same p : (forall z, y = Some z -> p mod Size Q <> z mod Size Q) ->
    seqAt Q' p = seqAt Q p /\ dataAt Q' p = dataAt Q p
}.

(** Only counters and flags differ. *)
Record sameRing (Q Q' : QueueInst) : Prop := {
  same_size : Size Q' = Size Q;
  same_mask : mask Q' = mask Q;
  same_len : len (buf Q') = len (buf Q);
  same_head : head Q' = head Q;
  same_tail : tail Q' = tail Q;
  same_seq p : seqAt Q' p = seqAt Q p;
  same_data p : dataAt Q' p = dataAt Q p
}.

Lemma sameRing_ring log Q Q' : sameRing Q Q' -> ring log Q -> ring log Q'.
Proof.
  intros [Es Em El Eh Et Eq Ed] [H1 H2 H3 H4 H5 H6 H7].
  split; rewrite ?Es, ?Em, ?El, ?Eh, ?Et; try done.
  intros p Hp. rewrite Eq, Ed. by apply H7.
Qed.
Lemma sameRing_evolves log Q Q' : sameRing Q Q' -> evolves None log Q log Q'.
Proof.
  intros [Es Em El Eh Et Eq Ed]. split; rewrite ?Es, ?Eh, ?Et; try done.
  - exists []. by rewrite app_nil_r.
  - intros p. by rewrite Eq.
Qed.

Lemma sameRing_refl Q : sameRing Q Q.
Proof. by split. Qed.
Lemma sameRing_setNotEmpty Q b : sameRing Q (setNotEmpty Q b).
Proof. by split. Qed.
Lemma sameRing_setDraining Q : sameRing Q (setDraining Q).
Proof. by split. Qed.
Lemma sameRing_setDepth Q d : sameRing Q (setDepth Q d).
Proof. by split. Qed.
Lemma sameRing_setQBytes Q d : sameRing Q (setQBytes Q d).
Proof. by split. Qed.
Lemma sameRing_setSize log Q pos n : ring log Q -> sameRing Q (modifyCell Q pos (setSize n)).
Proof.
  intros H. split; try done.
  - unfold len. cbn. by rewrite length_alter.
  - intros p. unfold seqAt. rewrite (cellAt_modify _ _ _ _ _ H). destruct (decide _); [|done].
    by destruct (cellAt Q p).
  - intros p. unfold dataAt. rewrite (cellAt_modify _ _ _ _ _ H). destruct (decide _); [|done].
    by destruct (cellAt Q p).
Qed.

(** Changing the cell of a position of the window. *)
Definition situation (log : list V) (Q : QueueInst) (p : Z) (c : cell) : Prop :=
  (seq c = p /\ head Q <= p) \/
  (seq c = p + 1 /\ 0 <= p /\ Some (data c) = log !! Z.to_nat p) \/
  (seq c = p + Size Q /\ p < head Q).

Lemma ring_modify log Q pos f c :
  ring log Q -> tail Q - Size Q <= pos < tail Q -> cellAt Q pos = Some c -> seq c <= seq (f c) ->
  situation log Q pos (f c) ->
  ring log (modifyCell Q pos f) /\ evolves (Some pos) log Q log (modifyCell Q pos f) /\
  cellAt (modifyCell Q pos f) pos = Some (f c).
Proof.
  intros H Hpos Hc Hle Hs. pose proof (ring_size_2 _ _ H) as H2.
  pose proof (fun p => cellAt_modify _ _ pos f p H) as Hm.
  assert (forall p, p mod Size Q = pos mod Size Q -> cellAt Q p = Some c) as Hcp.
  { intros p E. by rewrite (cellAt_mod _ _ _ _ H E). }
  destruct H as [B1 B2 B3 B4 B5 B6 B7]. split_and!.
  - split; try done.
    + unfold len. cbn. by rewrite length_alter.
    + cbn [tail Size setBuf modifyCell]. intros p Hp. unfold seqAt, dataAt. rewrite Hm.
      destruct (decide _) as [E|Hne]; [|by apply B7].
      rewrite (Hcp _ E). cbn.
      assert (p = pos) as -> by (apply (mod_eq_window (Size Q)); [lia|done|lia]). exact Hs.
  - split; try done.
    + exists []. by rewrite app_nil_r.
    + intros p. unfold seqAt. rewrite Hm. destruct (decide _) as [E|Hne]; [|done].
      by rewrite (Hcp _ E).
    + intros p Hne. unfold seqAt, dataAt. rewrite Hm. destruct (decide _) as [E|]; [|done].
      by destruct (Hne pos).
  - rewrite Hm, decide_True by done. by rewrite Hc.
Qed.

Lemma seqAt_cell Q p n : seqAt Q p = n -> 0 <= n -> exists c, cellAt Q p = Some c /\ seq c = n.
Proof. unfold seqAt. destruct (cellAt Q p) as [c|]; cbn; [|lia]. by exists c. Qed.

(** Claiming the next position to write. *)
Lemma ring_claim log Q v :
  ring log Q -> tail Q + 1 < 2 ^ 64 -> tail Q <= seqAt Q (tail Q) ->
  let Q' := setTail Q (wrapU 64 (tail Q + 1)) in
  ring (log ++ [v]) Q' /\ evolves None log Q (log ++ [v]) Q' /\ tail Q' = tail Q + 1 /\
  seqAt Q' (tail Q) = tail Q.
Proof.
  intros H Hb Hle Q'. pose proof (ring_size_2 _ _ H) as H2.
  destruct (ring_free _ _ H Hle) as (E1 & E2 & E3).
  pose proof (ring_head _ _ H).
  assert (tail Q' = tail Q + 1) as Et by (apply wrapU_small; lia).
  destruct H as [B1 B2 B3 B4 B5 B6 B7]. split_and!; [|..|done].
  - split; try done; rewrite ?Et; cbn [head Size setTail Q'].
    + lia.
    + lia.
    + rewrite len_app. cbn. unfold len at 2. cbn. lia.
    + intros p Hp. change (seqAt Q' p) with (seqAt Q p). change (dataAt Q' p) with (dataAt Q p).
      destruct (decide (p = tail Q)) as [->|Hne]; [left; by split; [|lia]|].
      destruct (B7 p) as [?|[(? & ? & Hd)|?]]; [lia|by left| |by right; right].
      right; left. split_and!; [done..|]. rewrite lookup_app_l; [done|].
      unfold len in B6. lia.
  - split; try done; [by rewrite Et; lia|by exists [v]].
  - done.
Qed.

(** Writing and publishing the value. *)
Lemma ring_write log Q pos v :
  ring log Q -> 0 <= pos < tail Q -> seqAt Q pos = pos ->
  let Q' := modifyCell Q pos (setData v) in
  ring log Q' /\ evolves (Some pos) log Q log Q' /\ seqAt Q' pos = pos /\ dataAt Q' pos = Some v.
Proof.
  intros H Hp Hs Q'. subst Q'. destruct (ring_writing _ _ _ H (proj2 Hp) Hs) as [Hw Hh].
  destruct (seqAt_cell _ _ _ Hs) as (c & Hc & Hsc); [lia|].
  destruct (ring_modify log Q pos (setData v) c H) as (H1 & H3 & H4); [lia|done|done|by left|].
  split_and!; try done; unfold seqAt, dataAt; by rewrite H4.
Qed.
Lemma ring_publish log Q pos v :
  ring log Q -> 0 <= pos < tail Q -> tail Q < 2 ^ 64 -> seqAt Q pos = pos ->
  dataAt Q pos = Some v -> log !! Z.to_nat pos = Some v ->
  let Q' := modifyCell Q pos (setSeq (wrapU 64 (pos + 1))) in
  ring log Q' /\ evolves (Some pos) log Q log Q' /\ seqAt Q' pos = pos + 1 /\ head Q <= pos.
Proof.
  intros H Hp Hb Hs Hd Hl Q'. destruct (ring_writing _ _ _ H (proj2 Hp) Hs) as [Hw Hh].
  destruct (seqAt_cell _ _ _ Hs) as (c & Hc & Hsc); [lia|].
  assert (wrapU 64 (pos + 1) = pos + 1) as E by (apply wrapU_small; lia).
  subst Q'. rewrite E.
  destruct (ring_modify log Q pos (setSeq (pos + 1)) c H) as (H1 & H3 & H4);
    [lia|done|cbn; lia| |].
  { right; left. cbn. split_and!; [done|lia|]. unfold dataAt in Hd. rewrite Hc in Hd.
    by rewrite Hl, <- Hd. }
  split_and!; try done; unfold seqAt; by rewrite H4.
Qed.

(** Claiming the next position to read. *)
Lemma ring_take log Q :
  ring log Q -> tail Q < 2 ^ 64 -> head Q + 1 <= seqAt Q (head Q) ->
  let Q' := setHead Q (wrapU 64 (head Q + 1)) in
  ring log Q' /\ evolves None log Q log Q' /\ head Q' = head Q + 1 /\ head Q < tail Q /\
  seqAt Q' (head Q) = head Q + 1 /\ dataAt Q' (head Q) = log !! Z.to_nat (head Q).
Proof.
  intros H Hb Hle Q'. destruct (ring_ready _ _ H Hle) as (E1 & E2 & E3).
  pose proof (ring_head _ _ H). pose proof (ring_size_2 _ _ H).
  assert (head Q' = head Q + 1) as Eh by (apply wrapU_small; lia).
  destruct H as [B1 B2 B3 B4 B5 B6 B7]. split_and!; try done.
  - split; try done; rewrite ?Eh; cbn [tail Size setHead Q']; [lia|lia|].
    intros p Hp. change (seqAt Q' p) with (seqAt Q p). change (dataAt Q' p) with (dataAt Q p).
    destruct (B7 p Hp) as [[Hs Hh]|[?|[? ?]]]; [|by right; left|right; right; split; [done|lia]].
    left. split; [done|]. destruct (decide (p = head Q)) as [->|]; [|lia]. lia.
  - split; try done; [by rewrite Eh; lia|]. exists []. by rewrite app_nil_r.
Qed.

(** Giving a cell back. *)
Lemma ring_release log Q pos :
  ring log Q -> 0 <= pos < head Q -> tail Q + Size Q < 2 ^ 64 -> seqAt Q pos = pos + 1 ->
  let Q' := modifyCell Q pos (setSeq (wrapU 64 (pos + mask Q + 1))) in
  ring log Q' /\ evolves (Some pos) log Q log Q' /\ seqAt Q' pos = pos + Size Q.
Proof.
  intros H Hp Hb Hs Q'. pose proof (ring_head _ _ H) as Hh. pose proof (ring_size_2 _ _ H) as H2.
  destruct (ring_reading _ _ pos H) as (Hw & _); [lia|done|].
  destruct (seqAt_cell _ _ _ Hs) as (c & Hc & Hsc); [lia|].
  assert (wrapU 64 (pos + mask Q + 1) = pos + Size Q) as E.
  { rewrite wrapU_small; rewrite (ring_mask _ _ H); lia. }
  subst Q'. rewrite E.
  destruct (ring_modify log Q pos (setSeq (pos + Size Q)) c H) as (H1 & H3 & H4);
    [lia|done|cbn; lia|right; right; by split; [|lia]|].
  split_and!; try done. unfold seqAt. by rewrite H4.
Qed.

(** A new ring. *)
Lemma newQueueInst_ring n Q :
  newQueueInst zero n = Some Q -> ring [] Q /\ head Q = 0 /\ tail Q = 0 /\ Size Q = n.
Proof.
  unfold newQueueInst. destruct (Z.eqb_spec (Z.land n (n - 1)) 0) as [E|]; [|done].
  destruct (Z.ltb_spec n 2) as [|H2]; [done|]. cbn [negb]. intros [= <-].
  destruct (land_pred_pow2 n) as (k & Hk & En); [lia|done|].
  split; [|done]. split; cbn [Size mask buf head tail]; try done; try lia.
  - exists k. split; [|done]. destruct (decide (k = 0)) as [->|]; [cbn in En|]; lia.
  - unfold len. rewrite length_map, length_seq. lia.
  - intros p Hp. right; right. split; [|lia]. unfold seqAt, cellAt, index. cbn [buf mask].
    rewrite En, land_mask by lia. rewrite <- En.
    rewrite <- (Z.mod_add _ 1) by lia. rewrite Z.mul_1_l, Z.mod_small by lia.
    rewrite list_lookup_fmap. rewrite (lookup_seq_lt 0 (Z.to_nat n) (Z.to_nat (p + n))) by lia.
    cbn. lia.
Qed.
End ring.
