(* ===== verification/MpmcSystem.v ===== *)
(** Calls on [Mpmc]'s queues, interleaved: invariants of every run, and what
    a change of capacity does to calls that wait. *)
From S2P Require Import Prelude Shard Mpmc MpmcRing.

Section system.
Context {V : Type} (zero : V).

Abbreviation QueueInst := (@QueueInst V).
Abbreviation pc := (@pc V).
Abbreviation State := (@State V).
Abbreviation event := (@event V).

(* ------------------------------------------------------------------ *)
(** * The invariant of calls and rings                                  *)
(* ------------------------------------------------------------------ *)

(** The values whose positions in queue [q] were claimed, in order. *)
Definition pushedTo (q : nat) (tr : list event) : list V :=
  omap (fun e => match e with
                 | EPush _ q' _ v => if decide (q' = q) then Some v else None
                 | _ => None
                 end) tr.
Lemma pushedTo_app q tr tr' : pushedTo q (tr ++ tr') = pushedTo q tr ++ pushedTo q tr'.
Proof. apply omap_app. Qed.

(** The queue, and the position it owns, of a call that knows a position. *)
Definition posQueue (p : pc) : option nat :=
  match p with
  | PushSeq _ _ q _ | PushTry _ _ q _ _ | PushData _ _ q _ | PushPublish _ _ q _
  | PopSeq q _ | PopTry q _ _ | PopData q _ | PopRelease q _ _ => Some q
  | _ => None
  end.
Definition claim (p : pc) : option Z :=
  match p with
  | PushData _ _ _ pos | PushPublish _ _ _ pos | PopData _ pos | PopRelease _ pos _ => Some pos
  | _ => None
  end.

(** What a call knows of its queue. *)
Definition callAt (log : list V) (Q : QueueInst) (p : pc) : Prop :=
  match p with
  | PushSeq _ _ _ pos => 0 <= pos <= tail Q
  | PushTry _ _ _ pos sq => 0 <= pos <= tail Q /\ sq <= seqAt Q pos
  | PushData v _ _ pos => 0 <= pos < tail Q /\ seqAt Q pos = pos /\ log !! Z.to_nat pos = Some v
  | PushPublish v _ _ pos =>
      0 <= pos < tail Q /\ seqAt Q pos = pos /\ log !! Z.to_nat pos = Some v /\
      dataAt Q pos = Some v
  | PopSeq _ pos => 0 <= pos <= head Q
  | PopTry _ pos sq => 0 <= pos <= head Q /\ sq <= seqAt Q pos
  | PopData _ pos => 0 <= pos < head Q /\ seqAt Q pos = pos + 1
  | PopRelease _ pos out =>
      0 <= pos < head Q /\ seqAt Q pos = pos + 1 /\ log !! Z.to_nat pos = Some out
  | _ => True
  end.

Record Inv (s : State) : Prop := {
  inv_ring q Q : queues s !! q = Some Q -> ring (pushedTo q (trace s)) Q;
  inv_call i p q : calls s !! i = Some p -> posQueue p = Some q ->
    exists Q, queues s !! q = Some Q /\ callAt (pushedTo q (trace s)) Q p;
  inv_distinct i j p p' q w : calls s !! i = Some p -> calls s !! j = Some p' ->
    posQueue p = Some q -> posQueue p' = Some q -> claim p = Some w -> claim p' = Some w -> i = j;
  inv_new q : queues s !! q = None -> pushedTo q (trace s) = []
}.

Lemma claim_window log Q p w :
  ring log Q -> callAt log Q p -> claim p = Some w -> tail Q - Size Q <= w < tail Q.
Proof.
  intros H Hc Hw. pose proof (ring_head _ _ H). destruct p; simplify_eq/=; destruct_and!.
  1,2: destruct (ring_writing _ _ w H); [lia|done|lia].
  all: destruct (ring_reading _ _ w H); [lia|done|lia].
Qed.

(** What a call knows stays true when another one moves. *)
Lemma evolves_call y log Q log' Q' p :
  ring log Q -> evolves y log Q log' Q' -> callAt log Q p ->
  (forall z w, y = Some z -> claim p = Some w -> z <> w /\ tail Q - Size Q <= z < tail Q) ->
  callAt log' Q' p.
Proof.
  intros H [Es Eh Et [k ->] Eq Ed] Hc Hy.
  assert (forall w, claim p = Some w -> seqAt Q' w = seqAt Q w /\ dataAt Q' w = dataAt Q w) as Hs.
  { intros w Hw. apply Ed. intros z Hz E. destruct (Hy z w Hz Hw) as [Hne Hin].
    pose proof (claim_window _ _ _ _ H Hc Hw). pose proof (ring_size_2 _ _ H).
    apply Hne. symmetry. apply (mod_eq_window (Size Q)); [lia|done|lia]. }
  assert (forall w v, log !! w = Some v -> (log ++ k) !! w = Some v) as Hl
    by (intros; by apply lookup_app_l_Some).
  destruct p; cbn in *; try done; try lia;
    try (pose proof (Eq pos); lia);
    destruct (Hs pos eq_refl) as [Hs1 Hs2]; rewrite ?Hs1, ?Hs2; destruct_and!; split_and?; auto; lia.
Qed.

(** A step of call [i] on queue [q]. *)
Lemma ring_inv_step s s' i p p' q Q Q' es y :
  Inv s -> calls s !! i = Some p -> queues s !! q = Some Q ->
  queues s' = <[q := Q']> (queues s) -> calls s' = <[i := p']> (calls s) ->
  trace s' = trace s ++ es -> (forall q', q' <> q -> pushedTo q' es = []) ->
  let log := pushedTo q (trace s) in let log' := pushedTo q (trace s') in
  ring log' Q' -> evolves y log Q log' Q' ->
  (forall z, y = Some z -> claim p = Some z /\ posQueue p = Some q) ->
  (forall q', posQueue p' = Some q' -> q' = q /\ callAt log' Q' p') ->
  (forall w, claim p' = Some w ->
    (claim p = Some w /\ posQueue p = Some q) \/
    forall pj, callAt log Q pj -> claim pj <> Some w) ->
  Inv s'.
Proof.
  intros [I1 I2 I3 I4] Hi HQ Eq Ec Et Hes log log' Hring Hev Hy Hp' Hcl.
  pose proof (lookup_lt_Some _ _ _ HQ) as Hq.
  assert (forall q', q' <> q -> pushedTo q' (trace s') = pushedTo q' (trace s)) as Hother.
  { intros q' Hne. by rewrite Et, pushedTo_app, Hes, app_nil_r. }
  assert (forall j pj, calls s' !! j = Some pj -> j = i /\ pj = p' \/ j <> i /\ calls s !! j = Some pj)
    as Hcalls.
  { intros j pj. rewrite Ec. intros [(-> & <- & _)|[? ?]]%list_lookup_insert_Some; [by left|right].
    by split; [apply not_eq_sym|]. }
  assert (forall j pj w, j <> i -> calls s !! j = Some pj -> posQueue pj = Some q ->
            claim pj = Some w -> claim p' = Some w -> False) as Hdiff.
  { intros j pj w Hne Hj Hpq Hw Hw'. destruct (I2 _ _ _ Hj Hpq) as (Q0 & HQ0 & Hat).
    rewrite HQ in HQ0. injection HQ0 as <-.
    destruct (Hcl w Hw') as [[Hpw Hpp]|Hn]; [|by eapply Hn].
    by apply Hne, (I3 _ _ _ _ _ _ Hj Hi Hpq Hpp Hw Hpw). }
  split.
  - intros q' Q0. rewrite Eq. intros [(-> & <- & _)|[Hne ?]]%list_lookup_insert_Some; [done|].
    rewrite Hother by done. by apply I1.
  - intros j pj q' [[-> ->]|[Hne Hj]]%Hcalls Hpq.
    { destruct (Hp' q' Hpq) as [-> ?]. exists Q'. split; [|done]. rewrite Eq.
      by apply list_lookup_insert_eq. }
    destruct (I2 _ _ _ Hj Hpq) as (Q0 & HQ0 & Hat). rewrite Eq. destruct (decide (q' = q)) as [->|Hnq].
    + rewrite HQ in HQ0. injection HQ0 as <-. exists Q'. split; [by apply list_lookup_insert_eq|].
      eapply evolves_call; [by apply I1|done|done|]. intros z w Hz Hw.
      destruct (Hy z Hz) as [Hpz Hpp]. split.
      * intros ->. by apply Hne, (I3 _ _ _ _ _ _ Hj Hi Hpq Hpp Hw Hpz).
      * destruct (I2 _ _ _ Hi Hpp) as (Q1 & HQ1 & Hat1). rewrite HQ in HQ1. injection HQ1 as <-.
        by apply (claim_window _ _ _ _ (I1 _ _ HQ) Hat1).
    + exists Q0. rewrite list_lookup_insert_ne by done. split; [done|]. by rewrite Hother.
  - intros j j' pj pj' q' w [[-> ->]|[Hne Hj]]%Hcalls [[-> ->]|[Hne' Hj']]%Hcalls Hpq Hpq' Hw Hw'.
    + done.
    + destruct (Hp' q' Hpq) as [-> _]. exfalso. by apply (Hdiff j' pj' w).
    + destruct (Hp' q' Hpq') as [-> _]. exfalso. by apply (Hdiff j pj w).
    + by eapply I3.
  - intros q'. rewrite Eq. destruct (decide (q' = q)) as [->|Hne].
    + by rewrite list_lookup_insert_eq.
    + rewrite list_lookup_insert_ne by done. rewrite Hother by done. apply I4.
Qed.

(** A step that touches no ring, to a place that knows no position. *)
Lemma inv_goto s s' i p' :
  Inv s -> queues s' = queues s -> calls s' = <[i := p']> (calls s) -> trace s' = trace s ->
  posQueue p' = None -> Inv s'.
Proof.
  intros [I1 I2 I3 I4] Eq Ec Et Hp'.
  assert (forall j pj q, calls s' !! j = Some pj -> posQueue pj = Some q -> calls s !! j = Some pj)
    as Hcalls.
  { intros j pj q. rewrite Ec. intros [(_ & <- & _)|[_ ?]]%list_lookup_insert_Some Hpq; [|done].
    by rewrite Hp' in Hpq. }
  split.
  - intros q Q. rewrite Eq, Et. apply I1.
  - intros j pj q Hj Hpq. rewrite Eq, Et. by eapply I2; [eapply Hcalls|].
  - intros j j' pj pj' q w Hj Hj' Hpq Hpq'. by eapply I3; [eapply Hcalls..| |].
  - intros q. rewrite Eq, Et. apply I4.
Qed.

(** A step that changes counters or flags of a queue at most. *)
Lemma inv_same s s' i p p' q Q Q' :
  Inv s -> calls s !! i = Some p -> queues s !! q = Some Q ->
  queues s' = <[q := Q']> (queues s) -> calls s' = <[i := p']> (calls s) ->
  trace s' = trace s -> sameRing Q Q' ->
  (forall q', posQueue p' = Some q' -> q' = q /\ callAt (pushedTo q (trace s)) Q' p') ->
  claim p' = None -> Inv s'.
Proof.
  intros HI Hi HQ Eq Ec Et Hs Hp' Hcl.
  eapply (ring_inv_step s s' i p p' q Q Q' [] None); rewrite ?Et, ?app_nil_r; try done.
  - eapply sameRing_ring; [done|by apply HI].
  - by apply sameRing_evolves.
  - intros w. by rewrite Hcl.
Qed.

(** A step that only reads the queue. *)
Lemma inv_read s i p p' q Q :
  Inv s -> calls s !! i = Some p -> queues s !! q = Some Q ->
  (forall q', posQueue p' = Some q' -> q' = q /\ callAt (pushedTo q (trace s)) Q p') ->
  claim p' = None -> Inv (goto s i p').
Proof.
  intros HI Hi HQ Hp' Hcl.
  apply (inv_same s _ i p p' q Q Q); try done.
  cbn [queues goto].
  symmetry. by apply list_insert_id.
Qed.

(** No position reaches the end of the 64-bit integers. *)
Definition bounded (s : State) : Prop :=
  forall q Q, queues s !! q = Some Q -> len (pushedTo q (trace s)) + Size Q < 2 ^ 64.

Lemma bounded_tail s q Q :
  bounded s -> Inv s -> queues s !! q = Some Q -> tail Q + Size Q < 2 ^ 64.
Proof.
  intros Hb HI HQ. pose proof (Hb _ _ HQ). by rewrite (ring_log _ _ (inv_ring _ HI _ _ HQ)) in *.
Qed.

Lemma seqAt_eq (Q : QueueInst) pos c : cellAt Q pos = Some c -> seqAt Q pos = seq c.
Proof. unfold seqAt. by intros ->. Qed.

(** Inverts the option binds of a step. *)
Ltac step_inv :=
  repeat match goal with
  | H : mbind _ _ = Some _ |- _ => apply bind_Some in H as (? & ? & H)
  | H : Some _ = Some _ |- _ => injection H as <-
  | H : None = Some _ |- _ => discriminate H
  | H : (if ?b then _ else _) = Some _ |- _ => destruct b eqn:?
  end.

(** What the moving call [Hi] knows, of the queue it has just looked up. *)
Ltac caller HI Hi Q HQ Hat :=
  destruct (inv_call _ HI _ _ _ Hi eq_refl) as (Q & HQ & Hat);
  repeat match goal with
  | H : queues _ !! _ = Some ?x |- _ =>
      assert_fails (constr_eq x Q); rewrite HQ in H; injection H as <-
  end; cbn in Hat; destruct_and?.

Ltac same Hi := eapply inv_same; [eassumption|exact Hi|eassumption|reflexivity..| |done|done].

Lemma pushStep_inv s i p s' :
  bounded s -> Inv s -> calls s !! i = Some p -> pushStep s i p = Some s' -> Inv s'.
Proof.
  intros Hb HI Hi Hstep. destruct p; cbn [pushStep] in Hstep; try discriminate; step_inv.
  - by eapply inv_goto.
  - eapply inv_read; try done; by destruct (draining _).
  - eapply inv_read; try done. intros q' [= ->]. split; [done|]. cbn.
    destruct (ring_head _ _ (inv_ring _ HI _ _ H)). lia.
  - caller HI Hi Q HQ Hat.
    eapply inv_read; try done. intros q' [= ->]. split; [done|]. cbn in *.
    match goal with H : cellAt _ _ = Some _ |- _ => rewrite (seqAt_eq _ _ _ H) end. lia.
  - apply Z.eqb_eq in Heqb, Heqb0. subst.
    caller HI Hi Q HQ Hat.
    destruct (ring_claim _ _ v (inv_ring _ HI _ _ HQ)) as (R1 & R2 & R3 & R4); [|done|].
    { pose proof (bounded_tail _ _ _ Hb HI HQ). pose proof (ring_size_2 _ _ (inv_ring _ HI _ _ HQ)).
      lia. }
    assert (pushedTo q [EPush i q (tail Q) v] = [v]) as E by (cbn; by rewrite decide_True).
    eapply (ring_inv_step s _ i _ _ q Q _ [EPush i q (tail Q) v] None); try done.
    + intros q' Hne. cbn. by rewrite decide_False.
    + cbn [trace goto record]. by rewrite pushedTo_app, E.
    + cbn [trace goto record]. by rewrite pushedTo_app, E.
    + intros q' [= <-]. split; [done|]. cbn [trace goto record callAt].
      rewrite pushedTo_app, E. split_and!; [lia|lia|done|].
      rewrite lookup_app_r; rewrite <- (ring_log _ _ (inv_ring _ HI _ _ HQ)); unfold len; rewrite Nat2Z.id; [|done].
      by rewrite Nat.sub_diag.
    + intros w [= <-]. right. intros pj Hat Hcl.
      pose proof (claim_window _ _ _ _ (inv_ring _ HI _ _ HQ) Hat Hcl). lia.
  - eapply inv_read; done.
  - by eapply inv_goto.
  - by eapply inv_goto.
  - caller HI Hi Q HQ Hat.
    destruct (ring_write _ _ pos v (inv_ring _ HI _ _ HQ)) as (R1 & R2 & R3 & R4); [done..|].
    eapply (ring_inv_step s _ i _ _ q Q _ [] (Some pos)); rewrite ?app_nil_r; try done.
    + by intros z [= <-].
    + intros w [= <-]. by left.
  - caller HI Hi Q HQ Hat.
    pose proof (bounded_tail _ _ _ Hb HI HQ). pose proof (ring_size_2 _ _ (inv_ring _ HI _ _ HQ)).
    destruct (ring_publish _ _ pos v (inv_ring _ HI _ _ HQ)) as (R1 & R2 & R3 & R4); [done|lia|done..|].
    eapply (ring_inv_step s _ i _ _ q Q _ [] (Some pos)); rewrite ?app_nil_r; try done.
  - same Hi. eapply sameRing_setSize, (inv_ring _ HI), H.
  - same Hi. done.
  - same Hi. done.
  - same Hi. done.
Qed.

Lemma popStep_inv s i ch p s' :
  bounded s -> Inv s -> calls s !! i = Some p -> popStep s i ch p = Some s' -> Inv s'.
Proof.
  intros Hb HI Hi Hstep. destruct p; cbn [popStep] in Hstep; try discriminate; step_inv.
  - by eapply inv_goto.
  - eapply inv_read; try done. intros q' [= ->]. split; [done|]. cbn.
    destruct (ring_head _ _ (inv_ring _ HI _ _ H)). lia.
  - caller HI Hi Q HQ Hat.
    eapply inv_read; try done. intros q' [= ->]. split; [done|]. cbn in *.
    match goal with H : cellAt _ _ = Some _ |- _ => rewrite (seqAt_eq _ _ _ H) end. lia.
  - apply Z.eqb_eq in Heqb, Heqb0. subst. caller HI Hi Q HQ Hat.
    pose proof (bounded_tail _ _ _ Hb HI HQ) as Hbt.
    pose proof (ring_size_2 _ _ (inv_ring _ HI _ _ HQ)).
    pose proof (ring_head _ _ (inv_ring _ HI _ _ HQ)).
    rewrite wrapU_small in * by lia.
    destruct (ring_take _ _ (inv_ring _ HI _ _ HQ)) as (R1 & R2 & R3 & R4 & R5 & R6); [lia|done|].
    rewrite wrapU_small in R1, R2, R3, R5, R6 by lia.
    assert (pushedTo q (trace s ++ [EPop i q (head Q)]) = pushedTo q (trace s)) as E
      by (rewrite pushedTo_app; apply app_nil_r).
    eapply (ring_inv_step s _ i _ _ q Q _ [EPop i q (head Q)] None); cbn [trace goto record setQueue];
      rewrite ?E; try done.
    + intros q' [= <-]. split; [done|]. cbn [callAt]. split; [lia|done].
    + intros w [= <-]. right. intros pj Hat Hcl.
      destruct pj; try discriminate Hcl; injection Hcl as ->; cbn in Hat; destruct_and?; lia.
  - by eapply inv_goto.
  - by eapply inv_goto.
  - by eapply inv_goto.
  - by eapply inv_goto.
  - destruct ch; step_inv.
    + same Hi. done.
    + by eapply inv_goto.
    + by eapply inv_goto.
  - by eapply inv_goto.
  - by eapply inv_goto.
Qed.

Lemma takeStep_inv s i p s' :
  bounded s -> Inv s -> calls s !! i = Some p -> takeStep s i p = Some s' -> Inv s'.
Proof.
  intros Hb HI Hi Hstep. destruct p; cbn [takeStep] in Hstep; try discriminate; step_inv.
  - caller HI Hi Q HQ Hat. pose proof (ring_head _ _ (inv_ring _ HI _ _ HQ)).
    assert (pushedTo q (trace s ++ [EGot i q pos (data x0)]) = pushedTo q (trace s)) as E
      by (rewrite pushedTo_app; apply app_nil_r).
    eapply (ring_inv_step s _ i _ _ q Q Q [EGot i q pos (data x0)] None); cbn [trace goto record queues];
      rewrite ?E; try done.
    + symmetry. by apply list_insert_id.
    + by apply (inv_ring _ HI).
    + apply sameRing_evolves, sameRing_refl.
    + intros q' [= <-]. split; [done|]. cbn [callAt]. split_and!; [done..|].
      destruct (ring_reading _ _ pos (inv_ring _ HI _ _ HQ)) as (_ & _ & Hd); [lia|done|].
      rewrite <- Hd. unfold dataAt.
      match goal with H : cellAt _ _ = Some _ |- _ => by rewrite H end.
    + intros w [= <-]. by left.
  - caller HI Hi Q HQ Hat.
    pose proof (bounded_tail _ _ _ Hb HI HQ) as Hbt.
    destruct (ring_release _ _ pos (inv_ring _ HI _ _ HQ)) as (R1 & R2 & R3); [done..|].
    eapply (ring_inv_step s _ i _ _ q Q _ [] (Some pos)); rewrite ?app_nil_r; try done.
  - same Hi. done.
  - same Hi. eapply sameRing_setSize, (inv_ring _ HI), H.
  - same Hi. done.
  - eapply inv_read; try done; by destruct (draining _).
  - by eapply inv_read.
  - eapply inv_read; try done; by destruct (_ =? _).
  - by eapply inv_goto.
  - by eapply inv_goto.
Qed.

Lemma mutateStep_inv s i p s' :
  Inv s -> calls s !! i = Some p -> mutateStep zero s i p = Some s' -> Inv s'.
Proof.
  intros HI Hi Hstep. destruct p; cbn [mutateStep] in Hstep; try discriminate; step_inv.
  - by eapply inv_goto.
  - eapply inv_goto; try done. by destruct (_ =? _)%nat.
  - destruct (newQueueInst zero newCapacity) as [Q|] eqn:E; step_inv; [|by eapply inv_goto].
    destruct (newQueueInst_ring _ _ _ E) as (Hr & _).
    apply (inv_goto (addQueue s Q) _ i (MutChannel (length (queues s)))); try done.
    destruct HI as [I1 I2 I3 I4]. split; cbn [queues calls trace addQueue].
    + intros q Q0 [Hq|[Hlen Hq]]%lookup_app_Some; [by apply I1|].
      destruct (q - length (queues s))%nat as [|[|]] eqn:En; [|done..]. injection Hq as <-.
      rewrite I4; [done|]. by apply lookup_ge_None.
    + intros j pj q Hj Hpq. destruct (I2 _ _ _ Hj Hpq) as (Q0 & HQ0 & Hat). exists Q0.
      split; [by apply lookup_app_l_Some|done].
    + apply I3.
    + intros q Hq%lookup_ge_None. apply I4, lookup_ge_None. rewrite length_app in Hq. lia.
  - by eapply inv_goto.
  - by eapply inv_goto.
  - same Hi. done.
  - by eapply inv_goto.
Qed.

Lemma exec_cases i ch s s' :
  exec zero i ch s = Some s' -> exists p, calls s !! i = Some p /\
    (pushStep s i p = Some s' \/ popStep s i ch p = Some s' \/ takeStep s i p = Some s' \/
     mutateStep zero s i p = Some s').
Proof.
  unfold exec. intros (p & Hi & H)%bind_Some. exists p. split; [done|].
  destruct (pushStep s i p); [by left|]. destruct (popStep s i ch p); [by right; left|].
  destruct (takeStep s i p); [by right; right; left|by right; right; right].
Qed.

Lemma exec_inv i ch s s' : bounded s -> Inv s -> exec zero i ch s = Some s' -> Inv s'.
Proof.
  intros Hb HI (p & Hi & [H|[H|[H|H]]])%exec_cases.
  - by eapply pushStep_inv.
  - by eapply popStep_inv.
  - by eapply takeStep_inv.
  - by eapply mutateStep_inv.
Qed.

(* ------------------------------------------------------------------ *)
(** * The invariant of the trace                                        *)
(* ------------------------------------------------------------------ *)

Definition eventQueue (e : event) : nat :=
  match e with EPush _ q _ _ | EPop _ q _ | EGot _ q _ _ => q end.
Definition eventsOf (q : nat) (tr : list event) : list event :=
  filter (fun e => eventQueue e = q) tr.
Definition pushPos (evs : list event) : list Z :=
  omap (fun e => match e with EPush _ _ pos _ => Some pos | _ => None end) evs.
Definition popPos (evs : list event) : list Z :=
  omap (fun e => match e with EPop _ _ pos => Some pos | _ => None end) evs.
Definition gotPos (evs : list event) : list Z :=
  omap (fun e => match e with EGot _ _ pos _ => Some pos | _ => None end) evs.

Definition owns (q : nat) (pos : Z) (p : pc) : Prop := posQueue p = Some q /\ claim p = Some pos.

(** The history [evs] of queue [q]: positions are claimed in order on both
    sides, every position claimed for reading is read once or about to be,
    and a position claimed for writing is written or about to be. *)
Record traceAt (q : nat) (log : list V) (evs : list event) (Q : QueueInst) (cs : list pc)
  : Prop := {
  ta_push : pushPos evs = seqZ 0 (tail Q);
  ta_pop : popPos evs = seqZ 0 (head Q);
  ta_got i pos v : EGot i q pos v ∈ evs -> 0 <= pos < head Q /\ log !! Z.to_nat pos = Some v;
  ta_once : NoDup (gotPos evs);
  ta_reading i pos : cs !! i = Some (PopData q pos) -> pos ∉ gotPos evs;
  ta_taken pos : 0 <= pos < head Q ->
    pos ∈ gotPos evs \/ exists i, cs !! i = Some (PopData q pos);
  ta_written pos : head Q <= pos < tail Q -> seqAt Q pos = pos ->
    exists i p, cs !! i = Some p /\ owns q pos p
}.

Definition Traced (s : State) : Prop :=
  forall q,
    match queues s !! q with
    | Some Q => traceAt q (pushedTo q (trace s)) (eventsOf q (trace s)) Q (calls s)
    | None => eventsOf q (trace s) = []
    end.

Lemma lookup_moved (cs : list pc) i p p' j pj :
  cs !! i = Some p -> <[i := p']> cs !! j = Some pj ->
  (j = i /\ pj = p') \/ (j <> i /\ cs !! j = Some pj).
Proof.
  intros Hi [(-> & <- & _)|[? ?]]%list_lookup_insert_Some; [by left|right].
  split; [by apply not_eq_sym|done].
Qed.
Lemma lookup_other (cs : list pc) i p p' j pj :
  cs !! i = Some p -> cs !! j = Some pj -> pj <> p -> <[i := p']> cs !! j = Some pj.
Proof.
  intros Hi Hj Hne. rewrite list_lookup_insert_ne; [done|]. intros ->. congruence.
Qed.

(** A move that claims, publishes and reads nothing. *)
Lemma traceAt_frame q log evs Q Q' cs i p p' :
  traceAt q log evs Q cs -> cs !! i = Some p -> head Q' = head Q -> tail Q' = tail Q ->
  (forall pos, head Q <= pos < tail Q -> seqAt Q' pos = pos ->
     seqAt Q pos = pos /\ (owns q pos p -> owns q pos p')) ->
  (forall pos, p <> PopData q pos) -> (forall pos, p' <> PopData q pos) ->
  traceAt q log evs Q' (<[i := p']> cs).
Proof.
  intros [T1 T2 T3 T4 T5 T6 T7] Hi Eh Et Hs Hp Hp'.
  split; rewrite ?Eh, ?Et; try done.
  - intros j pos [[-> E]|[_ Hj]]%(lookup_moved _ _ _ _ _ _ Hi); [by destruct (Hp' pos)|by eapply T5].
  - intros pos [|[j Hj]]%T6; [by left|right]. exists j. eapply lookup_other; [done..|by apply not_eq_sym].
  - intros pos Hpos Hseq. destruct (Hs pos Hpos Hseq) as [Hseq' Hown].
    destruct (T7 pos Hpos Hseq') as (j & pj & Hj & Hpj). destruct (decide (j = i)) as [->|Hne].
    + exists i, p'. rewrite Hi in Hj. injection Hj as <-. split; [|by apply Hown].
      apply list_lookup_insert_eq. by eapply lookup_lt_Some.
    + exists j, pj. by rewrite list_lookup_insert_ne by (by apply not_eq_sym).
Qed.

Lemma eventsOf_app q tr tr' : eventsOf q (tr ++ tr') = eventsOf q tr ++ eventsOf q tr'.
Proof. apply filter_app. Qed.

(** A move on queue [q]: the other queues see nothing. *)
Lemma traced_step s s' i p p' q Q Q' es :
  Traced s -> calls s !! i = Some p -> queues s !! q = Some Q ->
  queues s' = <[q := Q']> (queues s) -> calls s' = <[i := p']> (calls s) ->
  trace s' = trace s ++ es -> Forall (fun e => eventQueue e = q) es ->
  (forall q', posQueue p = Some q' \/ posQueue p' = Some q' -> q' = q) ->
  traceAt q (pushedTo q (trace s')) (eventsOf q (trace s')) Q' (<[i := p']> (calls s)) ->
  Traced s'.
Proof.
  intros HT Hi HQ Eq Ec Et Hes Hpq Hta q'. rewrite Eq, Ec.
  destruct (decide (q' = q)) as [->|Hne].
  { by rewrite list_lookup_insert_eq by by eapply lookup_lt_Some. }
  rewrite list_lookup_insert_ne by done.
  assert (eventsOf q' es = [] /\ pushedTo q' es = []) as [E1 E2].
  { clear -Hes Hne. induction Hes as [|e es He _ [IH1 IH2]]; [done|]. unfold eventsOf in *.
    rewrite filter_cons_False by congruence. split; [done|]. cbn.
    destruct e; cbn in *; [|done..]. subst. by rewrite decide_False. }
  specialize (HT q'). rewrite Et, eventsOf_app, pushedTo_app, E1, E2, !app_nil_r.
  destruct (queues s !! q') as [Q0|]; [|done].
  assert (forall pos pp, pp = p \/ pp = p' -> pp <> PopData q' pos /\ ~ owns q' pos pp) as Hno.
  { intros pos pp Hpp. split.
    - intros ->. apply Hne, Hpq. destruct Hpp as [<-|<-]; [by left|by right].
    - intros [Hq _]. apply Hne, Hpq. destruct Hpp as [-> | ->]; [by left|by right]. }
  eapply traceAt_frame; try done.
  - intros pos _ Hs. split; [done|]. intros Ho. by destruct (Hno pos p (or_introl eq_refl)).
  - intros pos. apply (Hno pos p). by left.
  - intros pos. apply (Hno pos p'). by right.
Qed.

(** A move that touches no ring. *)
Lemma traced_goto s s' i p p' :
  Traced s -> calls s !! i = Some p -> queues s' = queues s ->
  calls s' = <[i := p']> (calls s) -> trace s' = trace s ->
  claim p = None -> claim p' = None -> Traced s'.
Proof.
  intros HT Hi Eq Ec Et Hp Hp' q. specialize (HT q). rewrite Eq, Ec, Et.
  destruct (queues s !! q) as [Q|]; [|done]. eapply traceAt_frame; try done.
  - intros pos _ Hs. split; [done|]. intros [_ Ho]. by rewrite Hp in Ho.
  - by intros pos ->.
  - by intros pos ->.
Qed.

(** A move that changes counters or flags at most. *)
Lemma traced_same s s' i p p' q Q Q' :
  Traced s -> calls s !! i = Some p -> queues s !! q = Some Q ->
  queues s' = <[q := Q']> (queues s) -> calls s' = <[i := p']> (calls s) ->
  trace s' = trace s -> sameRing Q Q' -> claim p = None -> claim p' = None -> Traced s'.
Proof.
  intros HT Hi HQ Eq Ec Et Hs Hp Hp' q'. rewrite Eq, Ec, Et. specialize (HT q').
  destruct (decide (q' = q)) as [->|Hne].
  - rewrite list_lookup_insert_eq by by eapply lookup_lt_Some. rewrite HQ in HT.
    eapply traceAt_frame; try done; [apply Hs|apply Hs|..].
    + intros pos _. rewrite (same_seq _ _ Hs). intros Hseq. split; [done|].
      intros [_ Ho]. by rewrite Hp in Ho.
    + by intros pos ->.
    + by intros pos ->.
  - rewrite list_lookup_insert_ne by done. destruct (queues s !! q') as [Q0|]; [|done].
    eapply traceAt_frame; try done.
    + intros pos _ Hseq. split; [done|]. intros [_ Ho]. by rewrite Hp in Ho.
    + by intros pos ->.
    + by intros pos ->.
Qed.

Lemma seqZ_snoc n : 0 <= n -> seqZ 0 (n + 1) = seqZ 0 n ++ [n].
Proof. intros Hn. rewrite seqZ_app by lia. f_equal. Qed.

Lemma gotPos_elem evs q pos :
  Forall (fun e => eventQueue e = q) evs ->
  pos ∈ gotPos evs -> exists i v, EGot i q pos v ∈ evs.
Proof.
  intros Hq (e & He & Hpos)%list_elem_of_omap. rewrite Forall_forall in Hq.
  specialize (Hq e He). destruct e as [| |i q' pos' v]; cbn in *; try done. simplify_eq. by exists i, v.
Qed.
Lemma eventsOf_queue q tr : Forall (fun e => eventQueue e = q) (eventsOf q tr).
Proof. apply Forall_forall. by intros e [? _]%list_elem_of_filter. Qed.
Lemma eventsOf_one q e : eventQueue e = q -> eventsOf q [e] = [e].
Proof. intros H. unfold eventsOf. by rewrite filter_cons_True. Qed.

Lemma seqAt_setData (log : list V) Q pos v p : ring log Q -> seqAt (modifyCell Q pos (setData v)) p = seqAt Q p.
Proof.
  intros H. unfold seqAt. rewrite (cellAt_modify _ _ _ _ _ H). destruct (decide _); [|done].
  by destruct (cellAt Q p).
Qed.

Lemma traced_at s q Q :
  Traced s -> queues s !! q = Some Q ->
  traceAt q (pushedTo q (trace s)) (eventsOf q (trace s)) Q (calls s).
Proof. intros HT HQ. specialize (HT q). by rewrite HQ in HT. Qed.

(** The three moves that are remembered. *)
Lemma traceAt_push q log evs Q Q' cs i v v0 sz pos sq :
  ring log Q -> traceAt q log evs Q cs -> cs !! i = Some (PushTry v0 sz q pos sq) ->
  head Q' = head Q -> tail Q' = tail Q + 1 -> (forall p, seqAt Q' p = seqAt Q p) ->
  traceAt q (log ++ [v]) (evs ++ [EPush i q (tail Q) v]) Q'
    (<[i := PushData v sz q (tail Q)]> cs).
Proof.
  intros Hr [T1 T2 T3 T4 T5 T6 T7] Hi Eh Et Es. pose proof (ring_head _ _ Hr).
  split; rewrite ?Eh, ?Et.
  - rewrite seqZ_snoc by lia. unfold pushPos. rewrite omap_app. by f_equal.
  - unfold popPos. by rewrite omap_app, app_nil_r.
  - intros i0 p w [Hin|[[=]|[]%not_elem_of_nil]%elem_of_cons]%elem_of_app.
    destruct (T3 i0 p w Hin) as [? Hl]. split; [done|]. by apply lookup_app_l_Some.
  - unfold gotPos. by rewrite omap_app, app_nil_r.
  - intros j p [[-> [=]]|[_ Hj]]%(lookup_moved _ _ _ _ _ _ Hi). unfold gotPos.
    rewrite omap_app, app_nil_r. by eapply T5.
  - intros p [|[j Hj]]%T6; [left|right; exists j; by eapply lookup_other].
    unfold gotPos. by rewrite omap_app, app_nil_r.
  - intros p Hp Hs. rewrite Es in Hs. destruct (decide (p = tail Q)) as [->|Hne].
    + exists i, (PushData v sz q (tail Q)). split; [|done].
      apply list_lookup_insert_eq. by eapply lookup_lt_Some.
    + destruct (T7 p) as (j & pj & Hj & Ho); [lia|done|]. exists j, pj. split; [|done].
      eapply lookup_other; [done..|]. intros ->. by destruct Ho.
Qed.

Lemma traceAt_pop q log evs Q Q' cs i pos sq :
  ring log Q -> traceAt q log evs Q cs -> cs !! i = Some (PopTry q pos sq) ->
  Forall (fun e => eventQueue e = q) evs ->
  head Q' = head Q + 1 -> tail Q' = tail Q -> (forall p, seqAt Q' p = seqAt Q p) ->
  traceAt q log (evs ++ [EPop i q (head Q)]) Q' (<[i := PopData q (head Q)]> cs).
Proof.
  intros Hr [T1 T2 T3 T4 T5 T6 T7] Hi Hq Eh Et Es. pose proof (ring_head _ _ Hr).
  split; rewrite ?Eh, ?Et.
  - unfold pushPos. by rewrite omap_app, app_nil_r.
  - rewrite seqZ_snoc by lia. unfold popPos. rewrite omap_app. by f_equal.
  - intros i0 p w [Hin|[[=]|[]%not_elem_of_nil]%elem_of_cons]%elem_of_app.
    destruct (T3 i0 p w Hin) as [? Hl]. split; [lia|done].
  - unfold gotPos. by rewrite omap_app, app_nil_r.
  - intros j p Hj. unfold gotPos. rewrite omap_app, app_nil_r.
    apply (lookup_moved _ _ _ _ _ _ Hi) in Hj as [[-> [= ->]]|[_ Hj]]; [|by eapply T5].
    intros (i0 & w & Hw%T3)%(gotPos_elem _ _ _ Hq). lia.
  - intros p Hp. unfold gotPos. rewrite omap_app, app_nil_r.
    destruct (decide (p = head Q)) as [->|Hne].
    + right. exists i. apply list_lookup_insert_eq. by eapply lookup_lt_Some.
    + destruct (T6 p) as [|[j Hj]]; [lia|by left|right; exists j; by eapply lookup_other].
  - intros p Hp Hs. rewrite Es in Hs. destruct (T7 p) as (j & pj & Hj & Ho); [lia|done|].
    exists j, pj. split; [|done]. eapply lookup_other; [done..|]. intros ->. by destruct Ho.
Qed.

Lemma traceAt_got q log evs Q cs i pos v :
  traceAt q log evs Q cs -> cs !! i = Some (PopData q pos) -> 0 <= pos < head Q ->
  log !! Z.to_nat pos = Some v -> seqAt Q pos = pos + 1 ->
  (forall j, cs !! j = Some (PopData q pos) -> j = i) ->
  traceAt q log (evs ++ [EGot i q pos v]) Q (<[i := PopRelease q pos v]> cs).
Proof.
  intros [T1 T2 T3 T4 T5 T6 T7] Hi Hpos Hl Hsq Huniq.
  assert (gotPos (evs ++ [EGot i q pos v]) = gotPos evs ++ [pos]) as Eg
    by (unfold gotPos; by rewrite omap_app).
  split; rewrite ?Eg.
  - unfold pushPos. by rewrite omap_app, app_nil_r.
  - unfold popPos. by rewrite omap_app, app_nil_r.
  - intros i0 p w [Hin|[[= -> -> ->]|[]%not_elem_of_nil]%elem_of_cons]%elem_of_app; [by eapply T3|done].
  - apply NoDup_app. split_and!; [done| |apply NoDup_singleton].
    intros p Hp ->%list_elem_of_singleton. by eapply T5.
  - intros j p [[-> [=]]|[Hne Hj]]%(lookup_moved _ _ _ _ _ _ Hi).
    intros [Hp|Hp%list_elem_of_singleton]%elem_of_app; [by eapply T5|].
    subst p. by apply Hne, Huniq.
  - intros p [|[j Hj]]%T6; [left; by apply elem_of_app; left|].
    destruct (decide (p = pos)) as [->|Hne].
    + left. by apply elem_of_app; right; left.
    + right. exists j. eapply lookup_other; [done..|]. congruence.
  - intros p Hp Hs. destruct (T7 p Hp Hs) as (j & pj & Hj & Ho). exists j, pj. split; [|done].
    eapply lookup_other; [done..|]. intros ->. destruct Ho as [_ [= ->]]. lia.
Qed.

Ltac still Hi :=
  eapply traced_goto; [eassumption|exact Hi|reflexivity..| |]; try reflexivity;
  repeat match goal with |- context [if ?b then _ else _] => destruct b end; reflexivity.
Ltac moved Hi :=
  eapply traced_same; [eassumption|exact Hi|eassumption|reflexivity..| |reflexivity|reflexivity].

Lemma pushStep_traced s i p s' :
  bounded s -> Inv s -> Traced s -> calls s !! i = Some p -> pushStep s i p = Some s' -> Traced s'.
Proof.
  intros Hb HI HT Hi Hstep. destruct p; cbn [pushStep] in Hstep; try discriminate; step_inv;
    try (still Hi); try (moved Hi; done).
  - apply Z.eqb_eq in Heqb, Heqb0. subst. caller HI Hi Q HQ Hat.
    pose proof (bounded_tail _ _ _ Hb HI HQ). pose proof (ring_size_2 _ _ (inv_ring _ HI _ _ HQ)).
    pose proof (ring_head _ _ (inv_ring _ HI _ _ HQ)). rewrite wrapU_small by lia.
    eapply (traced_step s _ i _ _ q Q _ [EPush i q (tail Q) v]); try done.
    + by repeat constructor.
    + by intros q' [[= <-]|[= <-]].
    + cbn [trace goto record setQueue]. rewrite pushedTo_app, eventsOf_app.
      rewrite eventsOf_one by done. cbn [pushedTo omap list_omap]. rewrite decide_True by done.
      eapply traceAt_push; try done; [by apply (inv_ring _ HI)|by apply traced_at].
  - caller HI Hi Q HQ Hat.
    eapply (traced_step s _ i _ _ q Q _ []); rewrite ?app_nil_r; try done.
    + by intros q' [[= <-]|[= <-]].
    + cbn [trace goto setQueue]. eapply (traceAt_frame _ _ _ Q); try done; [by apply traced_at|].
      intros pos' _. rewrite (seqAt_setData _ _ _ _ _ (inv_ring _ HI _ _ HQ)).
      intros Hs. split; [done|]. by intros [_ [= <-]].
  - caller HI Hi Q HQ Hat. pose proof (bounded_tail _ _ _ Hb HI HQ).
    pose proof (ring_size_2 _ _ (inv_ring _ HI _ _ HQ)) as H2s.
    destruct (ring_publish _ _ pos v (inv_ring _ HI _ _ HQ)) as (R1 & R2 & R3 & R4); [done|lia|done..|].
    eapply (traced_step s _ i _ _ q Q _ []); rewrite ?app_nil_r; try done.
    + by intros q' [[= <-]|[= <-]].
    + cbn [trace goto setQueue]. eapply (traceAt_frame _ _ _ Q); try done; [by apply traced_at|].
      intros pos' Hpos' Hs. destruct (decide (pos' = pos)) as [->|Hne]; [lia|].
      pose proof (ring_tail _ _ (inv_ring _ HI _ _ HQ)).
      destruct (ev_same _ _ _ _ _ R2 pos') as [E _].
      { intros z [= <-] E. apply Hne, (mod_eq_window (Size Q)); [lia|done|lia]. }
      rewrite E in Hs. split; [done|]. intros [_ [= <-]]. done.
  - moved Hi. eapply sameRing_setSize, (inv_ring _ HI), H.
Qed.

Lemma popStep_traced s i ch p s' :
  bounded s -> Inv s -> Traced s -> calls s !! i = Some p -> popStep s i ch p = Some s' ->
  Traced s'.
Proof.
  intros Hb HI HT Hi Hstep. destruct p; cbn [popStep] in Hstep; try discriminate; step_inv;
    try (still Hi).
  - apply Z.eqb_eq in Heqb, Heqb0. subst. caller HI Hi Q HQ Hat.
    pose proof (bounded_tail _ _ _ Hb HI HQ). pose proof (ring_size_2 _ _ (inv_ring _ HI _ _ HQ)).
    pose proof (ring_head _ _ (inv_ring _ HI _ _ HQ)).
    eapply (traced_step s _ i _ _ q Q _ [EPop i q (head Q)]); try done.
    + by repeat constructor.
    + by intros q' [[= <-]|[= <-]].
    + cbn [trace goto record setQueue]. rewrite pushedTo_app, eventsOf_app.
      rewrite eventsOf_one by done. cbn [pushedTo omap list_omap]. rewrite app_nil_r.
      eapply traceAt_pop; try done; [by apply (inv_ring _ HI)|by apply traced_at|..].
      * apply eventsOf_queue.
      * apply wrapU_small. lia.
  - destruct ch; step_inv; try (still Hi). moved Hi. done.
Qed.

Lemma takeStep_traced s i p s' :
  bounded s -> Inv s -> Traced s -> calls s !! i = Some p -> takeStep s i p = Some s' -> Traced s'.
Proof.
  intros Hb HI HT Hi Hstep. destruct p; cbn [takeStep] in Hstep; try discriminate; step_inv;
    try (still Hi); try (moved Hi; done).
  - caller HI Hi Q HQ Hat. pose proof (ring_head _ _ (inv_ring _ HI _ _ HQ)).
    eapply (traced_step s _ i _ _ q Q Q [EGot i q pos (data x0)]); try done.
    + symmetry. by apply list_insert_id.
    + by repeat constructor.
    + by intros q' [[= <-]|[= <-]].
    + cbn [trace goto record]. rewrite pushedTo_app, eventsOf_app.
      rewrite eventsOf_one by done. cbn [pushedTo omap list_omap]. rewrite app_nil_r.
      apply traceAt_got; try done; [by apply traced_at| |].
      * destruct (ring_reading _ _ pos (inv_ring _ HI _ _ HQ)) as (_ & _ & Hd); [lia|done|].
        rewrite <- Hd. unfold dataAt.
        match goal with H : cellAt _ _ = Some _ |- _ => by rewrite H end.
      * intros j Hj. by eapply (inv_distinct _ HI j i _ _ q pos Hj Hi).
  - caller HI Hi Q HQ Hat. pose proof (bounded_tail _ _ _ Hb HI HQ).
    pose proof (ring_size_2 _ _ (inv_ring _ HI _ _ HQ)) as H2s.
    destruct (ring_reading _ _ pos (inv_ring _ HI _ _ HQ)) as (Hw & _);
      [pose proof (ring_head _ _ (inv_ring _ HI _ _ HQ)); lia|done|].
    destruct (ring_release _ _ pos (inv_ring _ HI _ _ HQ)) as (R1 & R2 & R3); [done..|].
    eapply (traced_step s _ i _ _ q Q _ []); rewrite ?app_nil_r; try done.
    + by intros q' [[= <-]|[= <-]].
    + cbn [trace goto setQueue]. eapply (traceAt_frame _ _ _ Q); try done; [by apply traced_at|].
      intros pos' Hpos' Hs. destruct (ev_same _ _ _ _ _ R2 pos') as [E _].
      { intros z [= <-] E. enough (pos' = pos) by lia.
        apply (mod_eq_window (Size Q)); [lia|done|lia]. }
      rewrite E in Hs. split; [done|]. intros [_ [= <-]]. lia.
  - moved Hi. eapply sameRing_setSize, (inv_ring _ HI), H.
Qed.

Lemma traceAt_new q log Q cs : head Q = 0 -> tail Q = 0 -> traceAt q log [] Q cs.
Proof.
  intros Eh Et. split; rewrite ?Eh, ?Et; try done.
  - by intros i pos v []%not_elem_of_nil.
  - apply NoDup_nil_2.
  - intros i pos _ []%not_elem_of_nil.
  - intros pos Hpos. lia.
  - intros pos Hpos. lia.
Qed.

Lemma mutateStep_traced s i p s' :
  Traced s -> calls s !! i = Some p -> mutateStep zero s i p = Some s' -> Traced s'.
Proof.
  intros HT Hi Hstep. destruct p; cbn [mutateStep] in Hstep; try discriminate; step_inv;
    try (still Hi); try (moved Hi; done).
  destruct (newQueueInst zero newCapacity) as [Q|] eqn:E; step_inv; [|still Hi].
  destruct (newQueueInst_ring _ _ _ E) as (Hr & Eh & Et & _).
  apply (traced_goto (addQueue s Q) _ i (MutNew newCapacity) (MutChannel (length (queues s))));
    try done.
  intros q. specialize (HT q). cbn [queues addQueue trace calls].
  destruct (queues s !! q) as [Q0|] eqn:Hq.
  { by rewrite (lookup_app_l_Some _ _ _ _ Hq). }
  destruct ((queues s ++ [Q]) !! q) as [Q0|] eqn:Hq'; [|done].
  apply lookup_app_Some in Hq' as [|[_ Hq']]; [congruence|].
  apply list_lookup_singleton_Some in Hq' as [_ ->]. rewrite HT. by apply traceAt_new.
Qed.

Lemma exec_traced i ch s s' :
  bounded s -> Inv s -> Traced s -> exec zero i ch s = Some s' -> Traced s'.
Proof.
  intros Hb HI HT (p & Hi & [H|[H|[H|H]]])%exec_cases.
  - by eapply pushStep_traced.
  - by eapply popStep_traced.
  - by eapply takeStep_traced.
  - by eapply mutateStep_traced.
Qed.

(** ** Runs *)

(** A call that has not started. *)
Definition initial (p : pc) : bool :=
  match p with PushLoad _ _ | PopLoad | MutRead _ => true | _ => false end.

Lemma New_inv n cs s :
  Forall (fun p => initial p = true) cs -> New zero n cs = Some s -> Inv s /\ Traced s.
Proof.
  intros Hcs. unfold New. intros (Q & HQ & [= <-])%bind_Some.
  destruct (newQueueInst_ring _ _ _ HQ) as (Hr & Eh & Et & _).
  assert (forall i p, cs !! i = Some p -> posQueue p = None) as Hnone.
  { intros i p Hi. pose proof (Forall_lookup_1 _ _ _ _ Hcs Hi) as Hp. by destruct p. }
  split; [split|]; cbn [queues calls trace].
  - by intros q Q0 [_ ->]%list_lookup_singleton_Some.
  - intros i p q Hi Hp. by rewrite (Hnone i p Hi) in Hp.
  - intros i j p p' q w Hi _ Hp. by rewrite (Hnone i p Hi) in Hp.
  - done.
  - intros [|[|q]]; cbn; [|done..]. by apply traceAt_new.
Qed.

(** The queues and their history only grow. *)
Lemma exec_grows i ch s s' :
  exec zero i ch s = Some s' ->
  (exists es, trace s' = trace s ++ es) /\
  forall q Q, queues s !! q = Some Q -> exists Q', queues s' !! q = Some Q' /\ Size Q' = Size Q.
Proof.
  intros (p & Hi & H)%exec_cases.
  assert (forall q Q Q' q0 Q0, queues s !! q = Some Q -> Size Q' = Size Q ->
            queues s !! q0 = Some Q0 -> exists Q1, <[q := Q']> (queues s) !! q0 = Some Q1 /\
            Size Q1 = Size Q0) as Hset.
  { intros q Q Q' q0 Q0 HQ HS HQ0. destruct (decide (q0 = q)) as [->|Hne].
    - rewrite list_lookup_insert_eq by by eapply lookup_lt_Some. exists Q'. by simplify_eq.
    - rewrite list_lookup_insert_ne by done. by exists Q0. }
  split.
  - destruct H as [H|[H|[H|H]]]; destruct p; cbn in H; try discriminate H; step_inv;
      try (exists []; by rewrite app_nil_r); try by eexists.
    all: try (destruct ch; step_inv; exists []; by rewrite app_nil_r).
    destruct (newQueueInst _ _); step_inv; exists []; by rewrite app_nil_r.
  - destruct H as [H|[H|[H|H]]]; destruct p; cbn in H; try discriminate H; step_inv;
      try (intros q0 Q0 HQ0; eexists; split; [exact HQ0|reflexivity]);
      try (intros q0 Q0 HQ0; eapply Hset; [eassumption| |exact HQ0]; reflexivity).
    + destruct ch; step_inv; intros q0 Q0 HQ0;
        first [eexists; split; [exact HQ0|reflexivity]
              |eapply Hset; [eassumption| |exact HQ0]; reflexivity].
    + destruct (newQueueInst _ _); step_inv; intros q0 Q0 HQ0; eexists;
        (split; [first [exact HQ0|by apply lookup_app_l_Some]|reflexivity]).
Qed.

Lemma exec_bounded i ch s s' : exec zero i ch s = Some s' -> bounded s' -> bounded s.
Proof.
  intros [[es Et] Hg]%exec_grows Hb q Q HQ. destruct (Hg q Q HQ) as (Q' & HQ' & HS).
  specialize (Hb q Q' HQ'). rewrite Et, pushedTo_app, len_app, HS in Hb.
  pose proof (len_nonneg (pushedTo q es)). lia.
Qed.

Lemma execAll_bounded l s s' : execAll zero l s = Some s' -> bounded s' -> bounded s.
Proof.
  revert s. induction l as [|[i ch] l IH]; intros s; cbn [execAll]; [by intros [= <-]|].
  intros (s1 & H1 & H2)%bind_Some Hb. eapply exec_bounded; [done|]. by eapply IH.
Qed.

Lemma execAll_inv l s s' :
  Inv s -> Traced s -> execAll zero l s = Some s' -> bounded s' -> Inv s' /\ Traced s'.
Proof.
  revert s. induction l as [|[i ch] l IH]; intros s HI HT; cbn [execAll]; [by intros [= <-]|].
  intros (s1 & H1 & H2)%bind_Some Hb.
  assert (bounded s) as Hbs by (eapply exec_bounded; [done|]; by eapply execAll_bounded).
  eapply IH; [by eapply exec_inv|by eapply exec_traced|done|done].
Qed.

(* ------------------------------------------------------------------ *)
(** * What each call has done                                           *)
(* ------------------------------------------------------------------ *)

Definition eventCall (e : event) : nat :=
  match e with EPush i _ _ _ | EPop i _ _ | EGot i _ _ _ => i end.
Definition mine (i : nat) (tr : list event) : list event := filter (fun e => eventCall e = i) tr.

(** The history of a call that started at [p0] and is at [p]: a [Push] has
    claimed a position for its value once it is past the claim, and none
    when it fails; a [Pop] that gives a value has claimed one position and
    read that value there. *)
Definition credit (i : nat) (p0 p : pc) (evs : list event) : Prop :=
  match p0 with
  | PushLoad v _ =>
      match p with
      | PushLoad w _ | PushDraining w _ _ | PushTail w _ _ | PushSeq w _ _ _
      | PushTry w _ _ _ _ => w = v /\ evs = []
      | Returned Full => evs = []
      | PushData w _ q pos | PushPublish w _ q pos => w = v /\ evs = [EPush i q pos v]
      | PushSize _ _ _ | PushDepth _ _ | PushBytes _ _ | PushNotify _ | Returned Pushed =>
          exists q pos, evs = [EPush i q pos v]
      | _ => False
      end
  | PopLoad =>
      match p with
      | PopLoad | PopHead _ | PopSeq _ _ | PopTry _ _ _ | PopChannel _ | PopWait _ _ | PopFlip
      | PopFlipTo _ | Returned Cancelled => evs = []
      | PopData q pos => evs = [EPop i q pos]
      | PopRelease q pos out => evs = [EPop i q pos; EGot i q pos out]
      | PopDepth _ _ out | PopSize _ _ out | PopBytes _ out _ | PopDraining _ out
      | PopCheckHead _ out | PopCheckTail _ out _ | PopMigrate out | PopSignal out _
      | Returned (Popped out) => exists q pos, evs = [EPop i q pos; EGot i q pos out]
      | _ => False
      end
  | MutRead _ =>
      match p with
      | MutRead _ | MutWrite _ _ | MutNew _ | MutChannel _ | MutActive _ | MutDrain _ _
      | MutStore _ | Returned Mutated => evs = []
      | _ => False
      end
  | _ => False
  end.

Lemma exec_credit i ch s s' :
  exec zero i ch s = Some s' ->
  exists p p' es, calls s !! i = Some p /\ calls s' = <[i := p']> (calls s) /\
    trace s' = trace s ++ es /\ Forall (fun e => eventCall e = i) es /\
    forall p0 evs, credit i p0 p evs -> credit i p0 p' (evs ++ es).
Proof.
  intros (p & Hi & H)%exec_cases. exists p.
  destruct H as [H|[H|[H|H]]]; destruct p; cbn in H; try discriminate H; step_inv;
    try (destruct ch; step_inv); try (destruct (newQueueInst _ _); step_inv);
    (eexists; first
      [exists []; split_and!; [done|reflexivity|by rewrite app_nil_r|constructor|]
      |eexists [_]; split_and!; [done|reflexivity|reflexivity|by repeat constructor|]]);
    intros p0 evs; destruct p0; cbn; try done; rewrite ?app_nil_r;
    repeat match goal with |- context [if ?b then _ else _] => destruct b end; try done.
  all: try (intros [-> ->]; done); try (intros [-> ->]; by eexists _, _); try (by intros ->);
    try (intros ->; by eexists _, _); try (by intros (? & ? & ->)).
Qed.

Definition Credited (cs : list pc) (s : State) : Prop :=
  forall i p0, cs !! i = Some p0 ->
    exists p, calls s !! i = Some p /\ credit i p0 p (mine i (trace s)).

Lemma exec_credited i ch cs s s' :
  Credited cs s -> exec zero i ch s = Some s' -> Credited cs s'.
Proof.
  intros HC (p & p' & es & Hi & Ec & Et & Hes & Hcr)%exec_credit j p0 Hj.
  destruct (HC j p0 Hj) as (q & Hq & Hcq). rewrite Ec, Et. unfold mine. rewrite filter_app.
  destruct (decide (j = i)) as [->|Hne].
  - rewrite list_lookup_insert_eq by by eapply lookup_lt_Some. exists p'. split; [done|].
    assert (filter (fun e => eventCall e = i) es = es) as ->.
    { clear -Hes. induction Hes as [|e es He _ IH]; [done|]. rewrite filter_cons_True by done.
      by rewrite IH. }
    apply Hcr. by simplify_eq.
  - rewrite list_lookup_insert_ne by done. exists q. split; [done|].
    assert (filter (fun e => eventCall e = j) es = []) as ->; [|by rewrite app_nil_r].
    clear -Hes Hne. induction Hes as [|e es He _ IH]; [done|]. by rewrite filter_cons_False by congruence.
Qed.

Lemma execAll_credited l cs s s' :
  Credited cs s -> execAll zero l s = Some s' -> Credited cs s'.
Proof.
  revert s. induction l as [|[i ch] l IH]; intros s HC; cbn [execAll]; [by intros [= <-]|].
  intros (s1 & H1 & H2)%bind_Some. eapply IH; [|done]. by eapply exec_credited.
Qed.

Lemma New_credited n cs s :
  Forall (fun p => initial p = true) cs -> New zero n cs = Some s -> Credited cs s.
Proof.
  intros Hcs. unfold New. intros (Q & HQ & [= <-])%bind_Some i p Hi. exists p. split; [done|].
  pose proof (Forall_lookup_1 _ _ _ _ Hcs Hi) as Hp. by destruct p.
Qed.

(* ------------------------------------------------------------------ *)
(** * Theorems                                                          *)
(* ------------------------------------------------------------------ *)

(** C8: whatever calls of [Push], [Pop] and [mutateSize] interleave in
    whatever way, a ring is first-in first-out and loses and repeats nothing:
    positions are claimed in order on both sides, never more than the
    capacity between them; a value read at a position is the value whose
    [Push] claimed it, and every position is read at most once; a [Push]
    that returned success has claimed exactly one position for its value, a
    failed one none, and a [Pop] that returned a value has read it at exactly
    one position. When no call is between its claim and its last access to
    the cell, every position below the head was read and every position from
    the head on holds its value ready. *)
Theorem queue_exactly_once n cs s0 l s q Q :
  Forall (fun p => initial p = true) cs -> New zero n cs = Some s0 ->
  execAll zero l s0 = Some s -> bounded s -> queues s !! q = Some Q ->
  let log := pushedTo q (trace s) in
  let evs := eventsOf q (trace s) in
  (0 <= head Q <= tail Q /\ tail Q <= head Q + Size Q) /\
  (pushPos evs = seqZ 0 (tail Q) /\ len log = tail Q /\ popPos evs = seqZ 0 (head Q)) /\
  (NoDup (gotPos evs) /\
   forall i pos v, EGot i q pos v ∈ trace s -> log !! Z.to_nat pos = Some v) /\
  (forall i v sz, cs !! i = Some (PushLoad v sz) ->
     (calls s !! i = Some (Returned Pushed) ->
        exists q' pos, mine i (trace s) = [EPush i q' pos v]) /\
     (calls s !! i = Some (Returned Full) -> mine i (trace s) = [])) /\
  (forall i out, cs !! i = Some PopLoad -> calls s !! i = Some (Returned (Popped out)) ->
     exists q' pos, mine i (trace s) = [EPop i q' pos; EGot i q' pos out]) /\
  ((forall i p, calls s !! i = Some p -> claim p = None) ->
     (forall pos, 0 <= pos < head Q -> pos ∈ gotPos evs) /\
     (forall pos, head Q <= pos < tail Q ->
        seqAt Q pos = pos + 1 /\ dataAt Q pos = log !! Z.to_nat pos)).
Proof.
  intros Hcs Hnew Hrun Hb HQ log evs.
  destruct (New_inv _ _ _ Hcs Hnew) as [HI0 HT0].
  destruct (execAll_inv _ _ _ HI0 HT0 Hrun Hb) as [HI HT].
  pose proof (execAll_credited _ _ _ _ (New_credited _ _ _ Hcs Hnew) Hrun) as HC.
  pose proof (inv_ring _ HI _ _ HQ) as Hr. destruct (traced_at _ _ _ HT HQ) as [T1 T2 T3 T4 T5 T6 T7].
  split_and!; try done.
  - apply Hr.
  - apply Hr.
  - apply Hr.
  - apply Hr.
  - intros i pos v Hin. eapply (T3 i). by apply list_elem_of_filter.
  - intros i v sz Hi. destruct (HC i _ Hi) as (p & Hp & Hcr).
    split; intros E; rewrite E in Hp; injection Hp as <-; exact Hcr.
  - intros i out Hi E. destruct (HC i _ Hi) as (p & Hp & Hcr). rewrite E in Hp.
    injection Hp as <-. exact Hcr.
  - intros Hrest. split.
    + intros pos [|[i Hi]]%T6; [done|]. by apply Hrest in Hi.
    + intros pos Hpos. pose proof (ring_tail _ _ Hr).
      destruct (ring_window _ _ Hr pos) as [[Hs _]|[(Hs & _ & Hd)|[_ ?]]]; [lia| |done|lia].
      destruct (T7 pos Hpos Hs) as (i & p & Hi & _ & Hc). by rewrite (Hrest _ _ Hi) in Hc.
Qed.

(* ------------------------------------------------------------------ *)
(** * Changing the capacity of an empty queue                           *)
(* ------------------------------------------------------------------ *)

Lemma cellAt_alter (Q : QueueInst) pos f p :
  cellAt (modifyCell Q pos f) p =
  if decide (index Q p = index Q pos) then f <$> cellAt Q p else cellAt Q p.
Proof.
  unfold cellAt. change (index (modifyCell Q pos f) p) with (index Q p).
  unfold modifyCell. cbn [buf setBuf]. destruct (decide _) as [->|Hne].
  - apply list_lookup_alter_eq.
  - apply list_lookup_alter_ne. congruence.
Qed.

(** A queue that is being left, with nothing in it. *)
Record leftEmpty (h : Z) (Q : QueueInst) : Prop := {
  le_draining : draining Q = true;
  le_head : head Q = h;
  le_cell : seqAt Q h < h + 1
}.

(** Where a call may be that can do nothing about it. *)
Definition harmless (q : nat) (h : Z) (p : pc) : Prop :=
  match p with
  | PushTail _ _ r | PushSeq _ _ r _ | PushTry _ _ r _ _ | PushData _ _ r _
  | PushPublish _ _ r _ => r <> q
  | PushLoad _ _ | PushDraining _ _ _ | PushSize _ _ _ | PushDepth _ _ | PushBytes _ _
  | PushNotify _ | Returned _ => True
  | PopLoad | PopChannel _ | PopWait _ _ => True
  | PopHead r => r = q
  | PopSeq r pos => r = q /\ pos = h
  | PopTry r pos sq => r = q /\ pos = h /\ sq < h + 1
  | MutRead _ => True
  | MutWrite _ r => r = q
  | _ => False
  end.

Record Stuck (q : nat) (h : Z) (s : State) : Prop := {
  st_read : ActiveRead s = q;
  st_write : ActiveWrite s <> q;
  st_queue : exists Q, queues s !! q = Some Q /\ leftEmpty h Q;
  st_head : wrapU 64 (h + 1) = h + 1;
  st_channels c b : channels s !! c = Some b -> b = false;
  st_calls i p : calls s !! i = Some p -> harmless q h p
}.

(** A step of a call that leaves the queue alone. *)
Lemma stuck_step q h s s' i p' :
  Stuck q h s -> ActiveRead s' = ActiveRead s -> ActiveWrite s' = ActiveWrite s ->
  channels s' = channels s -> calls s' = <[i := p']> (calls s) -> harmless q h p' ->
  (forall Q, queues s !! q = Some Q -> leftEmpty h Q ->
     exists Q', queues s' !! q = Some Q' /\ leftEmpty h Q') ->
  Stuck q h s'.
Proof.
  intros [S1 S2 (Q & HQ & HE) S4 S5 S6] E1 E2 E3 E4 Hp' Hq. split; rewrite ?E1, ?E2, ?E3; auto.
  - by eapply Hq.
  - intros j p. rewrite E4. intros [(_ & <- & _)|[_ Hj]]%list_lookup_insert_Some; [done|].
    by eapply S6.
Qed.

Lemma leftEmpty_set q h s r Q' Q :
  queues s !! r = Some Q -> (r = q -> leftEmpty h Q -> leftEmpty h Q') ->
  forall Q0, queues s !! q = Some Q0 -> leftEmpty h Q0 ->
    exists Q1, <[r := Q']> (queues s) !! q = Some Q1 /\ leftEmpty h Q1.
Proof.
  intros HQ Himp Q0 HQ0 HE. destruct (decide (q = r)) as [->|Hne].
  - rewrite list_lookup_insert_eq by by eapply lookup_lt_Some. exists Q'. split; [done|].
    apply Himp; [done|]. by simplify_eq.
  - rewrite list_lookup_insert_ne by done. by exists Q0.
Qed.

Ltac stuck_same HS :=
  eapply stuck_step; [exact HS|reflexivity..| |intros ? HQ' HE'; eexists; split; [exact HQ'|exact HE']].
Ltac stuck_set HS :=
  eapply stuck_step; [exact HS|reflexivity..| |eapply leftEmpty_set; [eassumption|]].

Lemma exec_stuck q h i ch s s' : Stuck q h s -> exec zero i ch s = Some s' -> Stuck q h s'.
Proof.
  intros HS (p & Hi & H)%exec_cases. pose proof (st_calls _ _ _ HS _ _ Hi) as Hp.
  destruct (st_queue _ _ _ HS) as (Qq & HQq & HEq).
  destruct H as [H|[H|[H|H]]]; destruct p; cbn in H, Hp; try discriminate H; try done; step_inv.
  - by stuck_same HS.
  - destruct (draining x) eqn:Hd; stuck_same HS; [done|]. intros ->. simplify_eq.
    by rewrite (le_draining _ _ HEq) in Hd.
  - by stuck_same HS.
  - by stuck_same HS.
  - by stuck_set HS.
  - by stuck_same HS.
  - by stuck_same HS.
  - by stuck_same HS.
  - by stuck_set HS.
  - by stuck_set HS.
  - stuck_set HS; [done|]. intros -> [D1 D2 D3]. split; try done.
    unfold seqAt in *. rewrite cellAt_alter. destruct (decide _); [|done].
    by destruct (cellAt x h).
  - stuck_set HS; [done|]. by intros -> [].
  - stuck_set HS; [done|]. by intros -> [].
  - stuck_set HS; [done|]. by intros -> [].
  - stuck_same HS. apply HS.
  - subst. simplify_eq. stuck_same HS. split; [done|]. apply HEq.
  - destruct Hp as [-> ->]. simplify_eq. stuck_same HS. split_and!; [done..|].
    match goal with H : cellAt _ _ = Some _ |- _ => rewrite <- (seqAt_eq _ _ _ H) end. apply HEq.
  - destruct Hp as (-> & -> & Hlt). rewrite (st_head _ _ _ HS) in Heqb.
    apply Z.eqb_eq in Heqb. lia.
  - by stuck_same HS.
  - by stuck_same HS.
  - by stuck_same HS.
  - by stuck_same HS.
  - destruct ch; step_inv.
    + stuck_set HS; [done|]. by intros -> [].
    + match goal with H : channels _ !! _ = Some _ |- _ => apply (st_channels _ _ _ HS) in H end.
      by subst.
    + by stuck_same HS.
  - stuck_same HS. apply HS.
  - subst. pose proof (st_write _ _ _ HS) as Hw.
    rewrite (proj2 (Nat.eqb_neq _ _)) by congruence. by stuck_same HS.
Qed.

(** A queue at rest with nothing in it: calls have not started, have returned,
    or wait in [Pop]. *)
Record idle (q : nat) (s : State) : Prop := {
  id_read : ActiveRead s = q;
  id_write : ActiveWrite s = q;
  id_queue : exists Q log, queues s !! q = Some Q /\ ring log Q /\ head Q = tail Q /\
    tail Q + 1 < 2 ^ 64;
  id_channels c b : channels s !! c = Some b -> b = false;
  id_calls i p : calls s !! i = Some p ->
    match p with PushLoad _ _ | PopLoad | MutRead _ | PopWait _ _ | Returned _ => True | _ => False end
}.

Lemma exec_mutate s j ch p :
  calls s !! j = Some p ->
  match p with
  | MutRead _ | MutWrite _ _ | MutNew _ | MutChannel _ | MutActive _ | MutDrain _ _ | MutStore _ => True
  | _ => False
  end -> exec zero j ch s = mutateStep zero s j p.
Proof. intros Hj Hp. unfold exec. rewrite Hj. by destruct p. Qed.

(** [mutateSize] running alone. *)
Lemma idle_mutate q s j n s' l :
  idle q s -> calls s !! j = Some (MutRead n) -> is_Some (newQueueInst zero n) ->
  map fst l = repeat j 7 -> execAll zero l s = Some s' ->
  (exists h, Stuck q h s') /\ calls s' = <[j := Returned Mutated]> (calls s).
Proof.
  intros [D1 D2 (Q & log & HQ & Hr & Eh & Hb) D4 D5] Hj [Qn En] Hl Hrun.
  do 7 (destruct l as [|[? ?] l]; [done|]; injection Hl as -> Hl). destruct l; [clear Hl|done].
  pose proof (lookup_lt_Some _ _ _ Hj) as Hlt. pose proof (lookup_lt_Some _ _ _ HQ) as Hlq.
  cbn [execAll] in Hrun.
  repeat (apply bind_Some in Hrun as (? & Hstep & Hrun);
    erewrite exec_mutate in Hstep;
      [|first [exact Hj|apply list_lookup_insert_eq; cbn; rewrite ?length_insert; exact Hlt]
       |first [exact I|cbn; rewrite ?D1, ?D2, ?Nat.eqb_refl; exact I]];
    cbn in Hstep; rewrite ?D1, ?D2, ?Nat.eqb_refl in Hstep; cbn in Hstep;
    rewrite ?En in Hstep;
    try (rewrite (lookup_app_l_Some _ _ _ _ HQ) in Hstep; cbn in Hstep);
    injection Hstep as <-).
  injection Hrun as <-. split; [|cbn; by rewrite !list_insert_insert_eq]. exists (head Q).
  pose proof (ring_head _ _ Hr). split; cbn.
  - done.
  - lia.
  - exists (setDraining Q). rewrite list_lookup_insert_eq by (rewrite length_app; lia).
    split; [done|]. split; [done|done|].
    destruct (decide (head Q + 1 <= seqAt Q (head Q))) as [Hle|]; [|by apply Z.nle_gt].
    destruct (ring_ready _ _ Hr Hle). lia.
  - apply wrapU_small. lia.
  - intros c' b [Hc|[_ Hc]]%lookup_app_Some; [by eapply D4|].
    by apply list_lookup_singleton_Some in Hc as [_ <-].
  - intros i p. rewrite !list_insert_insert_eq.
    intros [(-> & <- & _)|[_ Hi]]%list_lookup_insert_Some; [done|]. apply D5 in Hi. by destruct p.
Qed.

Lemma stuck_pops q h i ch s s' :
  Stuck q h s -> exec zero i ch s = Some s' -> forall j out,
  calls s' !! j = Some (Returned (Popped out)) -> calls s !! j = Some (Returned (Popped out)).
Proof.
  intros HS (p & Hi & H)%exec_cases j out Hj. pose proof (st_calls _ _ _ HS _ _ Hi) as Hp.
  destruct H as [H|[H|[H|H]]]; destruct p; cbn in H, Hp; try discriminate H; try done; step_inv;
    try (destruct ch; step_inv);
    apply (lookup_moved _ _ _ _ _ _ Hi) in Hj as [[-> E]|[_ Hj]]; try done;
    by destruct (_ : bool).
Qed.

Lemma execAll_stuck q h l s s' :
  Stuck q h s -> execAll zero l s = Some s' ->
  Stuck q h s' /\ forall i out,
  calls s' !! i = Some (Returned (Popped out)) -> calls s !! i = Some (Returned (Popped out)).
Proof.
  revert s. induction l as [|[i ch] l IH]; intros s HS; cbn [execAll]; [by intros [= <-]|].
  intros (s1 & H1 & H2)%bind_Some. destruct (IH s1) as [HS' Hp]; [by eapply exec_stuck|done|].
  split; [done|]. intros j out Hj%Hp. by eapply stuck_pops.
Qed.

(** Changing the capacity of a queue while it is empty stops it for
    good: after [mutateSize] has run, no [Pop] that had not returned before
    ever returns a value, whatever is pushed and whatever else is called in
    whatever order, and no later [mutateSize] replaces the queue that the
    consumers read. *)
Theorem resize_of_empty_queue_blocks q s j n l1 s1 l2 s2 :
  idle q s -> calls s !! j = Some (MutRead n) -> is_Some (newQueueInst zero n) ->
  map fst l1 = repeat j 7 -> execAll zero l1 s = Some s1 -> execAll zero l2 s1 = Some s2 ->
  ActiveRead s2 = q /\ ActiveWrite s2 <> q /\
  forall i out, calls s2 !! i = Some (Returned (Popped out)) ->
    calls s !! i = Some (Returned (Popped out)).
Proof.
  intros Hid Hj Hn Hl1 H1 H2. destruct (idle_mutate _ _ _ _ _ _ Hid Hj Hn Hl1 H1) as [[h HS] Ec].
  destruct (execAll_stuck _ _ _ _ _ HS H2) as [HS2 Hp]. split_and!; [apply HS2|apply HS2|].
  intros i out Hi%Hp. rewrite Ec in Hi.
  by apply (lookup_moved _ _ _ _ _ _ Hj) in Hi as [[_ [=]]|[_ Hi]].
Qed.

Lemma execAll_app l l' (s : State) :
  execAll zero (l ++ l') s = (s1 ← execAll zero l s; execAll zero l' s1).
Proof.
  revert s. induction l as [|[i ch] l IH]; intros s; [done|]. cbn [app execAll].
  destruct (exec zero i ch s) as [s1|]; [apply IH|done].
Qed.
End system.

(* ------------------------------------------------------------------ *)
(** * Examples                                                          *)
(* ------------------------------------------------------------------ *)

(** [n] steps of call [i]. *)
Definition steps (i n : nat) : list (nat * choice) := repeat (i, OnNotEmpty) n.

(** Two pushes and two pops of a queue of two places, interleaved. *)
Definition exampleCalls : list (@pc Z) := [PushLoad 10 1; PushLoad 20 1; PopLoad; PopLoad].
Definition exampleRun : list (nat * choice) :=
  steps 0 5 ++ steps 1 11 ++ steps 0 6 ++ steps 2 4 ++ steps 3 10 ++ steps 2 6.
Definition exampleStart : @State Z :=
  default (mkState 0 0 0 [] [] [] []) (New 0 2 exampleCalls).
Definition exampleEnd : @State Z := default exampleStart (execAll 0 exampleRun exampleStart).


Example example_outcomes :
  calls exampleEnd =
  [Returned Pushed; Returned Pushed; Returned (Popped 10); Returned (Popped 20)].
Proof. by vm_compute. Qed.

Definition exampleQueue : @QueueInst Z :=
  mkQueue 2 1 [mkCell 2 0 10; mkCell 3 0 20] 2 2 true false 0 0.
Lemma exampleEnd_queues : queues exampleEnd = [exampleQueue].
Proof. by vm_compute. Qed.
Lemma exampleEnd_bounded : bounded exampleEnd.
Proof.
  intros q Q. rewrite exampleEnd_queues. intros [-> <-]%list_lookup_singleton_Some.
  by vm_compute.
Qed.

Lemma queue_exactly_once_witness :
  pushedTo 0 (trace exampleEnd) = [10; 20] /\ gotPos (eventsOf 0 (trace exampleEnd)) = [1; 0] /\
  len (pushedTo 0 (trace exampleEnd)) = 2 /\
  (exists q pos, mine 3 (trace exampleEnd) = [EPop 3 q pos; EGot 3 q pos 20]).
Proof.
  split; [by vm_compute|]. split; [by vm_compute|].
  destruct (queue_exactly_once 0 2 exampleCalls exampleStart exampleRun exampleEnd 0 exampleQueue)
    as (_ & (_ & Hlog & _) & _ & _ & Hpop & _).
  - by repeat constructor.
  - by vm_compute.
  - by vm_compute.
  - exact exampleEnd_bounded.
  - by rewrite exampleEnd_queues.
  - split; [exact Hlog|]. apply (Hpop 3%nat); by vm_compute.
Defined.

(** An empty queue of four places, on which one call waits, is replaced by one
    of two; then a value is pushed. *)
Definition resizeCalls : list (@pc Z) := [PopLoad; MutRead 2; PushLoad 7 1; PopLoad].
Definition resizeStart : @State Z := default exampleStart (New 0 4 resizeCalls).
Definition resizeEnd : @State Z :=
  default resizeStart (execAll 0 (steps 0 5 ++ steps 1 7 ++ steps 2 11 ++ steps 3 5) resizeStart).
Example resize_outcomes :
  calls resizeEnd = [PopWait 0 0; Returned Mutated; Returned Pushed; PopWait 0 1] /\
  map (fun Q => tail Q - head Q) (queues resizeEnd) = [0; 1].
Proof. by vm_compute. Qed.

Lemma resize_of_empty_queue_blocks_witness :
  calls resizeEnd !! 2%nat = Some (Returned Pushed) /\
  forall l s, execAll 0 l resizeEnd = Some s ->
    forall i out, calls s !! i <> Some (Returned (Popped out)).
Proof.
  set (s0 := default resizeStart (execAll 0 (steps 0 5) resizeStart)).
  set (s1 := default resizeStart (execAll 0 (steps 1 7) s0)).
  assert (execAll 0 (steps 2 11 ++ steps 3 5) s1 = Some resizeEnd) as E1 by by vm_compute.
  assert (calls s0 = [PopWait 0 0; MutRead 2; PushLoad 7 1; PopLoad]) as E0 by by vm_compute.
  split; [by vm_compute|]. intros l s Hl i out Hi.
  destruct (resize_of_empty_queue_blocks 0 0 s0 1 2 (steps 1 7) s1
              (steps 2 11 ++ steps 3 5 ++ l) s) as (_ & _ & Hp).
  - split.
    + by vm_compute.
    + by vm_compute.
    + destruct (newQueueInst 0 4) as [Q|] eqn:HQ; [|by vm_compute in HQ].
      destruct (newQueueInst_ring 0 _ _ HQ) as (Hr & _). exists Q, [].
      injection HQ as <-. split; [by vm_compute|]. split; [exact Hr|]. by vm_compute.
    + intros [|c] b; [by intros [= <-]|by destruct c].
    + intros [|[|[|[|c]]]] p; [by intros [= <-]..|by destruct c].
  - by vm_compute.
  - by eexists.
  - by vm_compute.
  - by vm_compute.
  - rewrite app_assoc, execAll_app, E1. exact Hl.
  - apply Hp in Hi. rewrite E0 in Hi. clear -Hi. by destruct i as [|[|[|[|i]]]].
Defined.

(** A [Push] that looked at the queue before it was replaced writes to it
    after the last consumer has left: it reports success, and the value stays
    behind. *)
Example late_push_lost :
  let calls0 := [PushLoad 7 1; PushLoad 5 1; MutRead 2; PopLoad; PopLoad] in
  let run := steps 0 2 ++ steps 1 11 ++ steps 2 7 ++ steps 3 14 ++ steps 4 5 ++
             [(4%nat, OnMigrate)] ++ steps 4 2 ++ steps 0 9 in
  (fun s => (calls s, ActiveRead s, map (fun Q => tail Q - head Q) (queues s))) <$>
    (New 0 4 calls0 ≫= execAll 0 run) =
  Some ([Returned Pushed; Returned Pushed; Returned Mutated; Returned (Popped 5); PopLoad],
        1%nat, [1; 0]).
Proof. by vm_compute. Qed.

(** Two consumers find the queue empty; two pushes leave one signal; the
    consumer that takes it pops one value, and the other goes on waiting while
    the second value is in the queue. *)
Example wakeup_lost :
  let calls0 := [PopLoad; PopLoad; PushLoad 1 1; PushLoad 2 1] in
  let run := steps 0 5 ++ steps 1 5 ++ steps 2 11 ++ steps 3 11 ++ steps 0 11 in
  (fun s => (calls s, map (fun Q => (tail Q - head Q, notEmpty Q)) (queues s),
             exec 0 1 OnNotEmpty s, exec 0 1 OnMigrate s)) <$>
    (New 0 4 calls0 ≫= execAll 0 run) =
  Some ([Returned (Popped 1); PopWait 0 0; Returned Pushed; Returned Pushed],
        [(1, false)], None, None).
Proof. by vm_compute. Qed.
