(* ===== verification/Scaling.v ===== *)
(** Automatic scaling of the receiver: the decisions
    ([internal/queue/mpmc/scaling.go], [internal/receiver/shard/scaling.go],
    [internal/receiver/listener/scaling.go], [internal/calc]) and the scaler
    that applies them ([internal/receiver/scaling]).

    Floating-point numbers are IEEE 754 binary64, computed by the Standard
    Library's [SpecFloat]; the compiler is taken not to fuse multiplications
    with additions (Go may, on some processors). *)
From S2P Require Import Prelude Mpmc MpmcRing.
From Stdlib Require Import SpecFloat.

(* ------------------------------------------------------------------ *)
(** * Floating point                                                    *)
(* ------------------------------------------------------------------ *)

Abbreviation float64 := spec_float (only parsing).
Definition prec : Z := 53.
Definition emax : Z := 1024.
Definition ofZ (z : Z) : float64 := binary_normalize prec emax z 0 false.
Definition fadd : float64 -> float64 -> float64 := SFadd prec emax.
Definition fsub : float64 -> float64 -> float64 := SFsub prec emax.
Definition fmul : float64 -> float64 -> float64 := SFmul prec emax.
Definition fdiv : float64 -> float64 -> float64 := SFdiv prec emax.
Definition fopp : float64 -> float64 := SFopp.
Definition flt : float64 -> float64 -> bool := SFltb.
Definition feq : float64 -> float64 -> bool := SFeqb.
(** [a / b] as a constant of the source. *)
Definition ratio (a b : Z) : float64 := fdiv (ofZ a) (ofZ b).

(** [int(f)] for a finite [f] in range. *)
Definition toInt (f : float64) : Z :=
  match f with
  | S754_finite s m e =>
      let a := if 0 <=? e then Z.pos m * 2 ^ e else Z.pos m / 2 ^ (- e) in
      if s then - a else a
  | _ => 0
  end.

(* ------------------------------------------------------------------ *)
(** * Trimmed means                                                     *)
(* ------------------------------------------------------------------ *)

(** How many values are dropped at each end. *)
Definition trimCount (n : Z) (trimPercent : float64) : Z :=
  let trimPercent := if flt trimPercent (ofZ 0) then ofZ 0 else trimPercent in
  let c := toInt (fmul (ofZ n) trimPercent) in
  if n <=? c * 2 then (n - 1) / 2 else c.
Definition trimmed {A} (nums : list A) (trimPercent : float64) : list A :=
  let c := Z.to_nat (trimCount (len nums) trimPercent) in
  take (length nums - 2 * c) (drop c nums).

Definition TrimmedMeanUint64 (values : list Z) (trimPercent : float64) : Z :=
  match values with
  | [] => 0
  | _ =>
      let rest := trimmed (merge_sort Z.le values) trimPercent in
      wrapU 64 (sumZ id rest) / len rest
  end.

(** [sort.Float64s]: NaN comes first. *)
Definition fle (a b : float64) : Prop := (flt b a = false /\ feq b b = true) \/ feq a a = false.
#[export] Instance fle_dec : RelDecision fle.
Proof. intros a b. unfold fle. apply _. Defined.
Definition TrimmedMeanFloat64 (values : list float64) (trimPercent : float64) : float64 :=
  match values with
  | [] => ofZ 0
  | _ =>
      let rest := trimmed (merge_sort fle values) trimPercent in
      fdiv (foldl fadd (ofZ 0) rest) (ofZ (len rest))
  end.

(* ------------------------------------------------------------------ *)
(** * Trends                                                            *)
(* ------------------------------------------------------------------ *)

(** [mpmc.Trend]: the direction of each step, newest first, and the loop. *)
Definition direction (later earlier : Z) : Z :=
  let diff := wrapS 64 (wrapS 64 later - wrapS 64 earlier) in
  if 0 <? diff then 1 else if diff <? 0 then -1 else 0.
Fixpoint directions (newestFirst : list Z) : list Z :=
  match newestFirst with
  | later :: (earlier :: _) as rest => direction later earlier :: directions rest
  | _ => []
  end.
Fixpoint trendLoop (ds : list Z) (trend consistentTrendCount : Z) : Z * Z :=
  match ds with
  | [] => (trend, consistentTrendCount)
  | d :: ds =>
      if consistentTrendCount <? 3 then
        if trend =? 0 then trendLoop ds d consistentTrendCount
        else if d =? trend then trendLoop ds trend (consistentTrendCount + 1)
        else (trend, consistentTrendCount)
      else (trend, consistentTrendCount)
  end.
Definition occupancy (depth queueSize : Z) : float64 :=
  fmul (fdiv (ofZ depth) (ofZ queueSize)) (ofZ 100).
Definition queueTrend (depthValues : list Z) (queueSize : Z) : bool * bool :=
  if len depthValues <? 3 then (false, false)
  else
    let latestPct := occupancy (List.last depthValues 0) queueSize in
    let '(trend, count) := trendLoop (directions (reverse depthValues)) 0 1 in
    if flt (ofZ 40) latestPct && (0 <? trend) && (3 <=? count) then (true, false)
    else if flt latestPct (ofZ 20) && (trend <? 0) && (3 <=? count) then (false, true)
    else (false, false).

(** [shard.Trend] *)
Definition clamp (delta : float64) : float64 :=
  if flt (ofZ 10) delta then ofZ 10 else if flt delta (ofZ (-10)) then ofZ (-10) else delta.
Fixpoint deltas (bucketCounts : list Z) : list float64 :=
  match bucketCounts with
  | a :: (b :: _) as rest => clamp (fsub (ofZ b) (ofZ a)) :: deltas rest
  | _ => []
  end.
Definition shardTrend (bucketCounts : list Z) : bool * bool :=
  if len bucketCounts <? 2 then (false, false)
  else
    let ds := deltas bucketCounts in
    let weightedSum := foldl (fun s p => fadd s (fmul p.2 (ofZ (Z.of_nat p.1 + 1)))) (ofZ 0)
                         (imap pair ds) in
    let weightSum := foldl (fun s i => fadd s (ofZ (Z.of_nat i + 1))) (ofZ 0) (List.seq 0 (length ds)) in
    let trend := fdiv weightedSum weightSum in
    if flt (ofZ 5) trend then (true, false)
    else if flt trend (fopp (ofZ 2)) then (false, true)
    else (false, false).

(** [shard.TrendLatency]; the three lists have the length of the second. *)
Definition TrendLatency (sumSpacing totalFragments timedOutFragments : list Z) : bool * bool :=
  match totalFragments with
  | [] => (false, false)
  | _ =>
      let n := ofZ (len totalFragments) in
      let quotient := fun a t => if t =? 0 then ofZ 0 else fdiv (ofZ a) (ofZ t) in
      let timeoutRatios := zip_with quotient timedOutFragments totalFragments in
      let avgSpacings := zip_with quotient sumSpacing totalFragments in
      let avgTimeoutRatio := fdiv (foldl fadd (ofZ 0) timeoutRatios) n in
      let spacingSlope := fdiv (fsub (List.last avgSpacings (ofZ 0)) (List.hd (ofZ 0) avgSpacings)) n in
      let stepUp := flt (ratio 5 100) avgTimeoutRatio || flt (ofZ 0) spacingSlope in
      let stepDown := flt avgTimeoutRatio (ratio 1 100) && flt spacingSlope (ofZ 0) in
      (stepUp, stepDown && negb stepUp)
  end.

(** [listener.Trend]: a line fitted to the busy times. *)
Definition listenerTrend (busyTimes : list float64) : bool * bool :=
  match busyTimes with
  | [] => (false, false)
  | _ =>
      let n := ofZ (len busyTimes) in
      let avg := fdiv (foldl fadd (ofZ 0) busyTimes) n in
      let x := fun p : nat * float64 => ofZ (Z.of_nat p.1) in
      let points := imap pair busyTimes in
      let sx := foldl (fun s p => fadd s (x p)) (ofZ 0) points in
      let sy := foldl (fun s p => fadd s p.2) (ofZ 0) points in
      let sxy := foldl (fun s p => fadd s (fmul (x p) p.2)) (ofZ 0) points in
      let sxx := foldl (fun s p => fadd s (fmul (x p) (x p))) (ofZ 0) points in
      let denom := fsub (fmul n sxx) (fmul sx sx) in
      if feq denom (ofZ 0) then (false, false)
      else
        let slope := fdiv (fsub (fmul n sxy) (fmul sx sy)) denom in
        if flt (ofZ 50) avg && flt (ratio 1 2) slope then (true, false)
        else if flt avg (ofZ 20) && flt slope (fopp (ratio 1 2)) then (false, true)
        else (false, false)
  end.

(* ------------------------------------------------------------------ *)
(** * Queue capacity                                                    *)
(* ------------------------------------------------------------------ *)

Definition nextPowerOfTwo (start : Z) : Z :=
  if start <=? 1 then 1
  else
    let start := start - 1 in
    let start := Z.lor start (Z.shiftr start 1) in
    let start := Z.lor start (Z.shiftr start 2) in
    let start := Z.lor start (Z.shiftr start 4) in
    let start := Z.lor start (Z.shiftr start 8) in
    let start := Z.lor start (Z.shiftr start 16) in
    let start := Z.lor start (Z.shiftr start 32) in
    wrapS 64 (start + 1).
Definition prevPowerOfTwo (start : Z) : Z :=
  if start =? 0 then 0 else Z.shiftr (nextPowerOfTwo start) 1.

(** [ScaleCapacity]: the capacity it asks [mutateSize] for. *)
Definition ScaleCapacity (minimumSize maximumSize availMem : Z) (currentCapacity currentDepth
    currentByteSize : Z) : option Z :=
  if currentCapacity <=? minimumSize then None
  else if maximumSize <=? currentCapacity then None
  else
    let currentSizePerItem := currentByteSize / wrapU 64 currentCapacity in
    let expectedMaxNewQueueMemSize :=
      wrapU 64 (wrapS 64 (nextPowerOfTwo currentCapacity * wrapS 64 currentSizePerItem)) in
    let utilization := occupancy currentDepth currentCapacity in
    if negb (flt utilization (ofZ 90)) then
      if (0 <? availMem) && (availMem <? expectedMaxNewQueueMemSize) then None
      else Some (wrapU 64 (nextPowerOfTwo (wrapS 64 (currentCapacity + 1))))
    else if negb (flt (ofZ 2) utilization) then Some (wrapU 64 (prevPowerOfTwo currentCapacity))
    else None.

(* ------------------------------------------------------------------ *)
(** * The scaler                                                        *)
(* ------------------------------------------------------------------ *)

(** A value of the metric store: [uint64], [float64], [float32], the other
    integer types, strings, and the rest. *)
Inductive raw :=
  | RawUint64 (v : Z)
  | RawFloat64 (v : float64)
  | RawFloat32 (v : float64)
  | RawInt (v : Z)
  | RawString (s : gostring)
  | RawOther.
Definition asUint64 (r : raw) : option Z := match r with RawUint64 v => Some v | _ => None end.
Definition asFloat64 (r : raw) : option float64 := match r with RawFloat64 v => Some v | _ => None end.

Definition pastNIntervals : Z := 5.
Definition lastN {A} (l : list A) : list A := drop (length l - Z.to_nat pastNIntervals) l.

(** The last values of every instance that has enough of them; [None] when one
    has another type. *)
Fixpoint instanceValues {A} (as_ : raw -> option A) (found : list (list raw)) : option (list (list A)) :=
  match found with
  | [] => Some []
  | metrics :: found =>
      if len metrics <? pastNIntervals then instanceValues as_ found
      else
        vals ← mapM as_ (lastN metrics);
        rest ← instanceValues as_ found;
        Some (vals :: rest)
  end.
(** One value per interval, over the instances. *)
Definition perInterval {A} (mean : list A -> A) (instValues : list (list A)) : list A :=
  map (fun i => mean (omap (.!! i) instValues)) (List.seq 0 (Z.to_nat pastNIntervals)).

Inductive decision :=
  | NoChange
  | ScaleUp
  | ScaleDown.
Definition decide_ (d : bool * bool) : decision :=
  if d.1 then ScaleUp else if d.2 then ScaleDown else NoChange.

(** The bounds of a pool of instances, and the guard of all scalers. *)
Record Bounds := mkBounds { bMin : Z; bMax : Z }.
Definition atLimit (count : Z) (b : Bounds) : bool := (count =? bMax b) || (count =? bMin b).

(** [scaleListener], [scaleAssembler]: [found] is what the store has for each
    instance. *)
Definition scaleListener (found : list (list raw)) (count : Z) (b : Bounds) : decision :=
  if atLimit count b then NoChange
  else
    match instanceValues asFloat64 found with
    | None => NoChange
    | Some instValues =>
        decide_ (listenerTrend
          (perInterval (fun c => TrimmedMeanFloat64 c (ratio 1 10)) instValues))
    end.
Definition scaleAssembler (found : list (list raw)) (count : Z) (b : Bounds) : decision :=
  if atLimit count b then NoChange
  else
    match instanceValues asUint64 found with
    | None => NoChange
    | Some instValues =>
        decide_ (shardTrend (perInterval (fun c => TrimmedMeanUint64 c (ratio 1 10)) instValues))
    end.

(** A queue as [ScaleCapacity] sees it. *)
Record Gauge := mkGauge { gDepth : Z; gBytes : Z }.

(** [scaleProcessor]: the decision, and the new capacity of its queue. *)
Definition scaleProcessor (found : list raw) (availMem : Z) (g : Gauge) (count : Z) (b : Bounds)
    (capacity : Z) (qb : Bounds) : decision * option Z :=
  if atLimit count b then (NoChange, None)
  else if len found <? pastNIntervals then (NoChange, None)
  else
    match mapM asUint64 found with
    | None => (NoChange, None)
    | Some values =>
        (decide_ (queueTrend values capacity),
         ScaleCapacity (bMin qb) (bMax qb) availMem capacity (gDepth g) (gBytes g))
    end.

Definition DefaultMinPacketDeadline : Z := 200 * 10 ^ 6.
Definition DefaultMaxPacketDeadline : Z := 10 ^ 9.

(** [scaleTimeouts]: for every shard the three metrics; the new deadline. *)
Definition enough (f : list raw * list raw * list raw) : bool :=
  let '(spacing, fragments, timeouts) := f in
  negb ((len spacing <? pastNIntervals) || (len fragments <? pastNIntervals) ||
        (len timeouts <? pastNIntervals)).
Definition aggregate (found : list (list raw)) : list Z :=
  map (fun i => TrimmedMeanUint64 (omap (fun metrics => lastN metrics !! i ≫= asUint64) found)
                  (ratio 1 10)) (List.seq 0 (Z.to_nat pastNIntervals)).
Definition scaleTimeouts (found : list (list raw * list raw * list raw)) (currentDeadline : Z) : Z :=
  if (currentDeadline <=? DefaultMinPacketDeadline) || (DefaultMaxPacketDeadline <=? currentDeadline)
  then currentDeadline
  else
    let found := filter (fun f => enough f = true) found in
    let '(stepUp, stepDown) :=
      TrendLatency (aggregate (map (fun f => f.1.1) found)) (aggregate (map (fun f => f.1.2) found))
        (aggregate (map (fun f => f.2) found)) in
    if (stepUp : bool) then currentDeadline + 10 * 10 ^ 6
    else if (stepDown : bool) then currentDeadline - 10 * 10 ^ 6
    else currentDeadline.

(** What the scaler changes: instances of each stage, the deadline of packets
    and the capacities of the two queues. *)
Record Scaled := mkScaled {
  listeners : Z;
  processors : Z;
  assemblers : Z;
  packetDeadline : Z;
  procCapacity : Z;
  outCapacity : Z
}.
Record Config := mkConfig {
  cListeners : Bounds;
  cProcessors : Bounds;
  cAssemblers : Bounds;
  cProcQueue : Bounds;
  cOutQueue : Bounds
}.
(** What a tick finds. *)
Record Observation := mkObservation {
  oListeners : list (list raw);
  oProcessors : list raw;
  oAssemblers : list (list raw);
  oTimeouts : list (list raw * list raw * list raw);
  oProcQueue : Gauge;
  oOutQueue : Gauge;
  oMemory : Z;
  oListenerAdded : bool
}.

Definition apply (d : decision) (count : Z) : Z :=
  match d with NoChange => count | ScaleUp => count + 1 | ScaleDown => Z.max 0 (count - 1) end.

(** A tick of [Run]; adding a listener may fail. *)
Definition tick (c : Config) (o : Observation) (s : Scaled) : Scaled :=
  let dl := scaleListener (oListeners o) (listeners s) (cListeners c) in
  let dl := match dl with ScaleUp => if oListenerAdded o then ScaleUp else NoChange | d => d end in
  let '(dp, procNew) := scaleProcessor (oProcessors o) (oMemory o) (oProcQueue o) (processors s)
                          (cProcessors c) (procCapacity s) (cProcQueue c) in
  let da := scaleAssembler (oAssemblers o) (assemblers s) (cAssemblers c) in
  let outNew := ScaleCapacity (bMin (cOutQueue c)) (bMax (cOutQueue c)) (oMemory o) (outCapacity s)
                  (gDepth (oOutQueue o)) (gBytes (oOutQueue o)) in
  mkScaled (apply dl (listeners s)) (apply dp (processors s)) (apply da (assemblers s))
    (scaleTimeouts (oTimeouts o) (packetDeadline s))
    (default (procCapacity s) procNew) (default (outCapacity s) outNew).

(** The state when the daemon has started ([Start] of
    [internal/receiver/runtime.go]). *)
Definition started (c : Config) : Scaled :=
  mkScaled (bMin (cListeners c)) (bMin (cProcessors c)) (bMin (cAssemblers c))
    DefaultMinPacketDeadline (bMin (cProcQueue c)) (bMin (cOutQueue c)).

(** Automatic scaling never does anything. Every stage starts with its
    minimum of instances, the queues with their minimum capacity and the
    deadline with its minimum, and every scaler leaves what is at a limit
    alone: whatever the load and however long the receiver runs, nothing is
    ever added, removed or resized. *)
Theorem autoscaling_never_acts c os : foldl (fun s o => tick c o s) (started c) os = started c.
Proof.
  induction os as [|o os IH] using rev_ind; [done|]. rewrite foldl_app, IH. cbn [foldl].
  unfold tick, started, scaleListener, scaleProcessor, scaleAssembler, scaleTimeouts,
    ScaleCapacity, atLimit. cbn [listeners processors assemblers packetDeadline procCapacity
    outCapacity].
  rewrite !(Z.eqb_refl (bMin _)), !orb_true_r, !(Z.leb_refl (bMin _)), Z.leb_refl. done.
Qed.

(* ------------------------------------------------------------------ *)
(** * Powers of two                                                     *)
(* ------------------------------------------------------------------ *)

(** [y] has the bits of [x] and of its shifts to the right by less than [m]. *)
Definition smeared (m x y : Z) : Prop :=
  0 <= y /\ forall i, 0 <= i -> Z.testbit y i = true <-> exists j, 0 <= j < m /\ Z.testbit x (i + j) = true.

Lemma smeared_1 x : 0 <= x -> smeared 1 x x.
Proof.
  intros Hx. split; [done|]. intros i Hi. split.
  - intros H. exists 0. by rewrite Z.add_0_r.
  - intros (j & Hj & H). by replace (i + j) with i in H by lia.
Qed.

Lemma smeared_double m x y :
  0 < m -> smeared m x y -> smeared (2 * m) x (Z.lor y (Z.shiftr y m)).
Proof.
  intros Hm [Hy H]. split.
  { apply Z.lor_nonneg. split; [done|]. by apply Z.shiftr_nonneg. }
  intros i Hi. rewrite Z.lor_spec, orb_true_iff, Z.shiftr_spec, !H by lia. split.
  - intros [(j & Hj & Ht)|(j & Hj & Ht)]; [exists j; split; [lia|done]|].
    exists (m + j). split; [lia|]. by rewrite Z.add_assoc.
  - intros (j & Hj & Ht). destruct (Z.lt_ge_cases j m); [left; exists j; split; [lia|done]|].
    right. exists (j - m). split; [lia|]. by replace (i + m + (j - m)) with (i + j) by lia.
Qed.

Lemma smeared_ones m x y : 0 < x < 2 ^ m -> smeared m x y -> y = Z.ones (Z.log2 x + 1).
Proof.
  intros Hx [Hy H]. pose proof (Z.log2_nonneg x).
  assert (Z.log2 x < m) by (apply Z.log2_lt_pow2; lia).
  apply Z.bits_inj'. intros i Hi. apply eq_true_iff_eq. rewrite H by done. split.
  - intros (j & Hj & Ht). rewrite Z.ones_spec_low; [done|].
    destruct (Z.lt_ge_cases (Z.log2 x) (i + j)); [|lia].
    rewrite Z.bits_above_log2 in Ht by lia. done.
  - intros Ht. destruct (Z.lt_ge_cases (Z.log2 x) i).
    + rewrite Z.ones_spec_high in Ht by lia. done.
    + exists (Z.log2 x - i). split; [lia|].
      replace (i + (Z.log2 x - i)) with (Z.log2 x) by lia. apply Z.bit_log2; lia.
Qed.

(** The least power of two that is not below [n]. *)
Lemma nextPowerOfTwo_spec n : 1 <= n <= 2 ^ 62 -> nextPowerOfTwo n = 2 ^ Z.log2_up n.
Proof.
  intros Hn. unfold nextPowerOfTwo. destruct (Z.leb_spec n 1) as [H1|H1].
  { replace n with 1 by lia. done. }
  assert (smeared (2 * (2 * (2 * (2 * (2 * (2 * 1)))))) (n - 1) (Z.lor
    (let s := n - 1 in let s := Z.lor s (Z.shiftr s 1) in let s := Z.lor s (Z.shiftr s 2) in
     let s := Z.lor s (Z.shiftr s 4) in let s := Z.lor s (Z.shiftr s 8) in
     Z.lor s (Z.shiftr s 16))
    (Z.shiftr (let s := n - 1 in let s := Z.lor s (Z.shiftr s 1) in
     let s := Z.lor s (Z.shiftr s 2) in let s := Z.lor s (Z.shiftr s 4) in
     let s := Z.lor s (Z.shiftr s 8) in Z.lor s (Z.shiftr s 16)) 32))) as H.
  { cbv zeta. do 6 (apply smeared_double; [lia|]). apply smeared_1. lia. }
  apply smeared_ones in H; [|lia]. cbv zeta in *. rewrite H, Z.ones_equiv. clear H.
  rewrite Z.log2_up_eqn by lia. replace (Z.pred n) with (n - 1) by lia. rewrite <- Z.add_1_r.
  replace (Z.pred (2 ^ (Z.log2 (n - 1) + 1)) + 1) with (2 ^ (Z.log2 (n - 1) + 1)) by lia.
  pose proof (Z.log2_nonneg (n - 1)). assert (Z.log2 (n - 1) < 62) by (apply Z.log2_lt_pow2; lia).
  assert (0 < 2 ^ (Z.log2 (n - 1) + 1) <= 2 ^ 62)
    by (split; [apply Z.pow_pos_nonneg|apply Z.pow_le_mono_r]; lia).
  apply wrapS_small; [done|]. change (2 ^ (64 - 1)) with (2 ^ 63). lia.
Qed.

Lemma nextPowerOfTwo_pow2 k : 0 <= k <= 62 -> nextPowerOfTwo (2 ^ k) = 2 ^ k.
Proof.
  intros Hk. rewrite nextPowerOfTwo_spec, Z.log2_up_pow2; [done|lia|].
  assert (2 ^ k <= 2 ^ 62) by (apply Z.pow_le_mono_r; lia).
  assert (0 < 2 ^ k) by (apply Z.pow_pos_nonneg; lia). lia.
Qed.

Lemma nextPowerOfTwo_double k : 1 <= k <= 61 -> nextPowerOfTwo (2 ^ k + 1) = 2 ^ (k + 1).
Proof.
  intros Hk. assert (2 ^ k <= 2 ^ 61) by (apply Z.pow_le_mono_r; lia).
  assert (2 ^ 1 <= 2 ^ k) by (apply Z.pow_le_mono_r; lia).
  rewrite nextPowerOfTwo_spec by lia. f_equal. apply Z.log2_up_unique; [lia|].
  replace (Z.pred (k + 1)) with k by lia. rewrite Z.pow_add_r by lia. lia.
Qed.

Lemma prevPowerOfTwo_pow2 k : 1 <= k <= 62 -> prevPowerOfTwo (2 ^ k) = 2 ^ (k - 1).
Proof.
  intros Hk. unfold prevPowerOfTwo. assert (0 < 2 ^ k) by (apply Z.pow_pos_nonneg; lia).
  rewrite (proj2 (Z.eqb_neq _ _)), nextPowerOfTwo_pow2 by lia.
  rewrite Z.shiftr_div_pow2 by lia. replace k with ((k - 1) + 1) at 1 by lia.
  rewrite Z.pow_add_r by lia. by rewrite Z.div_mul.
Qed.


Lemma newQueueInst_pow2 {V} (zero : V) k : 1 <= k -> is_Some (newQueueInst zero (2 ^ k)).
Proof.
  intros Hk. unfold newQueueInst. rewrite land_mask, Z.mod_same by lia.
  assert (2 ^ 1 <= 2 ^ k) by (apply Z.pow_le_mono_r; lia).
  cbn [Z.eqb negb]. rewrite (proj2 (Z.ltb_ge _ _)) by lia. by eexists.
Qed.

(** What [ScaleCapacity] asks for can be made: from a power of two it
    goes to twice or half of it, never below the minimum and never above a
    maximum that is a power of two. *)
Theorem ScaleCapacity_sound {V} (zero : V) k lo maxC availMem depth size new :
  1 <= lo -> 1 <= k <= 61 -> ScaleCapacity (2 ^ lo) maxC availMem (2 ^ k) depth size = Some new ->
  (new = 2 * 2 ^ k \/ 2 * new = 2 ^ k) /\ 2 ^ lo <= new /\ is_Some (newQueueInst zero new) /\
  (forall hi, 0 <= hi -> maxC = 2 ^ hi -> new <= maxC).
Proof.
  intros Hlo Hk. unfold ScaleCapacity. destruct (Z.leb_spec (2 ^ k) (2 ^ lo)) as [|Hl]; [done|].
  destruct (Z.leb_spec maxC (2 ^ k)) as [|Hu]; [done|].
  assert (lo < k) by (apply (Z.pow_lt_mono_r_iff 2); lia).
  assert (2 ^ lo <= 2 ^ (k - 1)) by (apply Z.pow_le_mono_r; lia).
  assert (2 ^ k = 2 * 2 ^ (k - 1)) as Ek
    by (rewrite <- Z.pow_succ_r by lia; f_equal; lia).
  assert (2 ^ (k + 1) = 2 * 2 ^ k) as Ek' by (rewrite <- Z.pow_succ_r by lia; f_equal; lia).
  assert (0 < 2 ^ lo) by (apply Z.pow_pos_nonneg; lia).
  assert (2 ^ k <= 2 ^ 61) by (apply Z.pow_le_mono_r; lia).
  rewrite (wrapS_small 64 (2 ^ k + 1)) by (change (64 - 1) with 63; lia).
  rewrite nextPowerOfTwo_double, prevPowerOfTwo_pow2 by lia.
  rewrite (wrapU_small 64 (2 ^ (k + 1))), (wrapU_small 64 (2 ^ (k - 1))) by lia. intros Hnew.
  assert (new = 2 ^ (k + 1) \/ new = 2 ^ (k - 1)) as [->| ->]
    by (repeat case_match; try done; injection Hnew as <-; auto); clear Hnew.
  - split_and!; [by left|lia|apply newQueueInst_pow2; lia|]. intros hi Hhi ->.
    apply Z.pow_le_mono_r; [lia|]. apply Z.pow_lt_mono_r_iff in Hu; lia.
  - split_and!; [by right|lia|apply newQueueInst_pow2; lia|lia].
Qed.

Lemma ScaleCapacity_sound_witness :
  ScaleCapacity (2 ^ 11) (2 ^ 13) 0 (2 ^ 12) 4000 0 = Some 8192 /\ 8192 = 2 * 2 ^ 12.
Proof.
  assert (ScaleCapacity (2 ^ 11) (2 ^ 13) 0 (2 ^ 12) 4000 0 = Some 8192) as E by by vm_compute.
  split; [exact E|].
  destruct (ScaleCapacity_sound tt 12 11 _ _ _ _ _ ltac:(lia) ltac:(lia) E) as ([H|H] & _); lia.
Defined.

(** A maximum that is not a power of two is exceeded. *)
Example maximum_exceeded : ScaleCapacity 2048 5000 0 4096 4000 0 = Some 8192.
Proof. by vm_compute. Qed.

(* ------------------------------------------------------------------ *)
(** * The trend of a queue                                              *)
(* ------------------------------------------------------------------ *)

Lemma trendLoop_count ds t c :
  t <> 0 -> (trendLoop ds t c).1 = t /\
  (3 <= (trendLoop ds t c).2 <->
   3 <= c \/ exists rest, ds = replicate (Z.to_nat (3 - c)) t ++ rest).
Proof.
  intros Ht. revert c. induction ds as [|d ds IH]; intros c; cbn [trendLoop fst snd].
  - split; [done|]. split; [by left|]. intros [?|[rest E]]; [done|].
    destruct (Z.to_nat (3 - c)) eqn:En; [lia|done].
  - destruct (Z.ltb_spec c 3) as [Hc|Hc]; [|split; [done|]; split; [by left|done]].
    rewrite (proj2 (Z.eqb_neq _ _) Ht). destruct (Z.to_nat (3 - c)) as [|n] eqn:En; [lia|].
    destruct (Z.eqb_spec d t) as [->|Hd]; cbn [fst snd].
    + destruct (IH (c + 1)) as [H1 H2]. split; [done|]. rewrite H2.
      replace (Z.to_nat (3 - (c + 1))) with n by lia. split.
      * intros [?|[rest ->]]; [|right; by exists rest]. right. exists ds.
        by replace n with 0%nat by lia.
      * intros [?|[rest E]]; [by left; lia|]. right. exists rest. by injection E as ->.
    + split; [done|]. split; [lia|]. intros [?|[rest E]]; [lia|]. by injection E.
Qed.

Lemma trendLoop_spec ds t :
  t <> 0 ->
  (trendLoop ds 0 1).1 = t /\ 3 <= (trendLoop ds 0 1).2 <->
  exists k rest, ds = replicate k 0 ++ t :: t :: t :: rest.
Proof.
  intros Ht. induction ds as [|d ds IH]; cbn [trendLoop fst snd].
  - split; [by intros [? _]|]. intros (k & rest & E). by destruct k.
  - cbn [Z.ltb Z.compare Pos.compare Pos.compare_cont Z.eqb]. destruct (decide (d = 0)) as [->|Hd].
    + rewrite IH. split; intros (k & rest & E).
      * exists (S k), rest. by rewrite E.
      * destruct k as [|k]; [by injection E as <-|]. injection E as ->. by exists k, rest.
    + destruct (trendLoop_count ds d 1 Hd) as [H1 H2]. rewrite H1, H2. split.
      * intros [-> [?|[rest ->]]]; [lia|]. by exists 0%nat, rest.
      * intros (k & rest & E). destruct k as [|k]; [|by injection E].
        injection E as -> ->. split; [done|]. right. by exists rest.
Qed.

Lemma trendLoop_unit ds t c :
  Forall (fun d => -1 <= d <= 1) ds -> -1 <= t <= 1 -> -1 <= (trendLoop ds t c).1 <= 1.
Proof.
  revert t c. induction ds as [|d ds IH]; intros t c; [done|]. intros [Hd Hds]%Forall_cons Ht.
  cbn [trendLoop]. repeat case_match; auto.
Qed.
Lemma directions_unit l : Forall (fun d => -1 <= d <= 1) (directions l).
Proof.
  induction l as [|a [|b l] IH]; [constructor..|]. cbn [directions] in *. constructor; [|done].
  unfold direction. cbv zeta. repeat case_match; lia.
Qed.

(** A queue's trend is up, or down, exactly when its last three changes,
    leaving out a flat end, all go that way and it is now more than 40, or
    less than 20, percent full. *)
Theorem queueTrend_spec depths size :
  let steps := directions (reverse depths) in
  let latestPct := occupancy (List.last depths 0) size in
  ((queueTrend depths size).1 = true <-> 3 <= len depths /\ flt (ofZ 40) latestPct = true /\
     exists k rest, steps = replicate k 0 ++ 1 :: 1 :: 1 :: rest) /\
  ((queueTrend depths size).2 = true <-> 3 <= len depths /\ flt latestPct (ofZ 20) = true /\
     exists k rest, steps = replicate k 0 ++ -1 :: -1 :: -1 :: rest).
Proof.
  cbv zeta. unfold queueTrend. destruct (Z.ltb_spec (len depths) 3) as [|Hl]; cbn [fst snd].
  { split; (split; [done|intros [? _]; lia]). }
  set (steps := directions (reverse depths)). set (pct := occupancy _ size).
  rewrite <- (trendLoop_spec steps 1), <- (trendLoop_spec steps (-1)) by lia.
  pose proof (trendLoop_unit steps 0 1 (directions_unit _) ltac:(lia)) as Hu.
  destruct (trendLoop steps 0 1) as [trend count]. cbn [fst snd] in *.
  destruct (flt (ofZ 40) pct) eqn:E1, (flt pct (ofZ 20)) eqn:E2,
    (Z.ltb_spec 0 trend), (Z.ltb_spec trend 0), (Z.leb_spec 3 count);
    cbn [andb fst snd]; try lia; split; (split; [intros; split_and!; try done|intros (_ & ? & ? & ?); try done]).
Qed.
