(* ===== verification/Metrics.v ===== *)
(** The metric registry ([internal/metrics/{types,write,prune,search}.go]):
    time slices of metrics, search by name, name space and time, aggregation
    and discovery.

    A time slice is a time truncated to the collection interval; times that
    are equal are the same key here, as they are in the daemons, where all of
    them come from one clock and location. *)
From S2P Require Import Prelude Text Registry Context Consts Size Fragmentation NetAddr GoStrings.
From S2P Require Import Shard Mpmc MpmcRing Scaling.
From Stdlib Require Import SpecFloat.

(** [Metric], with the fields of its [MetricValue]. *)
Record Metric := mkMetric {
  metName : gostring;
  metDescription : gostring;
  metNamespace : list gostring;
  metRaw : raw;
  metUnit : gostring;
  metInterval : Z;
  metType : gostring;
  metTimestamp : gotime
}.

Definition MTDropped : gostring := str "dropped_count".
Definition DescDropped : gostring :=
  str "Count of internally dropped packets/payloads/messages (that are otherwise valid)".
Definition Counter : gostring := str "counter".
Definition Gauge_ : gostring := str "gauge".
Definition Summary : gostring := str "summary".

(** Slice, joined name space, name. *)
Abbreviation nameMap := (gmap gostring Metric).
Abbreviation nsMap := (gmap gostring nameMap).
Abbreviation Registry := (gmap Z nsMap).

Definition slash : byte := z2b 47.
Definition joinNS (ns : list gostring) : gostring := join [slash] ns.

(** A loop over a Go map meets every entry once, in an order of its own. *)
Class MapOrder := {
  visit {K} `{Countable K} {A} : gmap K A -> list (K * A);
  visit_perm {K} `{Countable K} {A} (m : gmap K A) : visit m ≡ₚ map_to_list m
}.

(* ------------------------------------------------------------------ *)
(** * Writing                                                           *)
(* ------------------------------------------------------------------ *)

(** [Time.Truncate], counting from the zero time. *)
Definition Truncate (t : gotime) (d : Z) : gotime :=
  if d <=? 0 then t else t - (t - zeroTime) mod d.

(** The assignment for an interval that is not positive is overwritten at
    once. *)
Definition NewTimeSlice (now : gotime) (interval : Z) (registry : Registry) : gotime * Registry :=
  let timeSlice := Truncate now interval in
  match registry !! timeSlice with
  | None => (timeSlice, <[timeSlice := ∅]> registry)
  | Some _ => (timeSlice, registry)
  end.

Definition addMetric (slice : nsMap) (metric : Metric) : nsMap :=
  let namespace := joinNS (metNamespace metric) in
  <[namespace := <[metName metric := metric]> (default ∅ (slice !! namespace))]> slice.
Definition Add (timeSlice : gotime) (metrics : list Metric) (registry : Registry) : Registry :=
  match registry !! timeSlice with
  | None => registry
  | Some slice => <[timeSlice := foldl addMetric slice metrics]> registry
  end.

Definition Prune (currentTime : gotime) (maxAge : Z) (registry : Registry) : Registry :=
  filter (fun kv => timeSub currentTime kv.1 <= maxAge) registry.

(* ------------------------------------------------------------------ *)
(** * Search                                                            *)
(* ------------------------------------------------------------------ *)

Fixpoint matchesFrom (metricNS queryNS : list gostring) : bool :=
  match queryNS, metricNS with
  | [], _ => true
  | q :: queryNS, m :: metricNS => if bool_decide (m = q) then matchesFrom metricNS queryNS else false
  | _ :: _, [] => false
  end.
Definition matchesNamespace (metricNS queryNS : list gostring) : bool :=
  if bool_decide (queryNS = []) then true
  else if len metricNS <? len queryNS then false
  else matchesFrom metricNS queryNS.

(** [IsZero] *)
Definition isZeroTime (t : gotime) : bool := t =? zeroTime.
Definition inPeriod (start end_ ts : gotime) : bool :=
  negb (negb (isZeroTime start) && (ts <? start)) && negb (negb (isZeroTime end_) && (end_ <? ts)).

Section search.
Context {MO : MapOrder}.

Definition sliceResults (name : gostring) (namespacePrefix : list gostring) (slice : nsMap) : list Metric :=
  flat_map (fun '(nsStr, metricsMap) =>
    if matchesNamespace (split slash nsStr) namespacePrefix then
      flat_map (fun '(metricName, metric) =>
        if bool_decide (name = []) || bool_decide (metricName = name) then [metric] else [])
        (visit metricsMap)
    else []) (visit slice).

(** The keys are distinct, so that every sorting gives the same list. *)
Definition timestamps (start end_ : gotime) (registry : Registry) : list gotime :=
  merge_sort Z.le (List.filter (inPeriod start end_) (map fst (visit registry))).
Definition Search (name : gostring) (namespacePrefix : list gostring) (start end_ : gotime)
    (registry : Registry) : list Metric :=
  flat_map (fun ts => match registry !! ts with
                      | Some slice => sliceResults name namespacePrefix slice
                      | None => []
                      end) (timestamps start end_ registry).

(* ------------------------------------------------------------------ *)
(** * Discovery                                                         *)
(* ------------------------------------------------------------------ *)

Definition bar : byte := z2b 124.
(** The filters of [Discover] on one metric. *)
Definition discoverable (name description unit metricType : gostring) (metric : Metric) : bool :=
  negb (negb (bool_decide (name = [])) && negb (contains name (metName metric))) &&
  negb (negb (bool_decide (description = [])) && negb (contains description (metDescription metric))) &&
  negb (negb (bool_decide (unit = [])) && negb (bool_decide (metUnit metric = unit))) &&
  negb (negb (bool_decide (metricType = [])) && negb (bool_decide (metType metric = metricType))).
Definition discoverKey (nsStr : gostring) (metric : Metric) : gostring :=
  join [bar] [nsStr; metName metric; metType metric; metUnit metric].
(** Without time and value. *)
Definition stripped (metric : Metric) : Metric :=
  mkMetric (metName metric) (metDescription metric) (metNamespace metric) RawOther (metUnit metric) 0
    (metType metric) zeroTime.

(** Everything the three loops meet, with its joined name space. *)
Definition everything (namespacePrefix : list gostring) (registry : Registry) : list (gostring * Metric) :=
  flat_map (fun '(_, slice) =>
    flat_map (fun '(nsStr, metricsMap) =>
      if matchesNamespace (split slash nsStr) namespacePrefix then
        map (fun '(_, metric) => (nsStr, metric)) (visit metricsMap)
      else []) (visit slice)) (visit registry).
Definition discoverStep (name description unit metricType : gostring) (seen : gmap gostring Metric)
    (entry : gostring * Metric) : gmap gostring Metric :=
  let '(nsStr, metric) := entry in
  if negb (discoverable name description unit metricType metric) then seen
  else
    let key := discoverKey nsStr metric in
    match seen !! key with
    | Some _ => seen
    | None => <[key := stripped metric]> seen
    end.
(** [sort.Slice] by name and name space leaves equal entries in any order:
    [sortMetrics] is the sorting. *)
Definition Discover (sortMetrics : list Metric -> list Metric) (name description : gostring)
    (namespacePrefix : list gostring) (unit metricType : gostring) (registry : Registry) : list Metric :=
  sortMetrics (map snd (visit (foldl (discoverStep name description unit metricType) ∅
                                (everything namespacePrefix registry)))).
End search.

(* ------------------------------------------------------------------ *)
(** * Aggregation                                                       *)
(* ------------------------------------------------------------------ *)

(** The element that all lists have at index [i]. *)
Definition commonAt (input : list (list gostring)) (i : nat) : option gostring :=
  vals ← mapM (fun l : list gostring => l !! i) input;
  match vals with
  | val :: rest => if forallb (fun v => bool_decide (v = val)) rest then Some val else None
  | [] => None
  end.
(** The loop ends at the latest when the first list is too short. *)
Fixpoint commonFrom (fuel : nat) (input : list (list gostring)) (i : nat) : list gostring :=
  match fuel, commonAt input i with
  | S fuel, Some val => val :: commonFrom fuel input (S i)
  | _, _ => []
  end.
Definition deepestCommonNamespace (input : list (list gostring)) : list gostring :=
  match input with
  | [] => []
  | first :: _ => commonFrom (S (length first)) input 0
  end.

Definition MetricSum : gostring := str "sum".
Definition MetricAvg : gostring := str "average".
Definition MetricMin : gostring := str "min".
Definition MetricMax : gostring := str "max".

Section aggregate.
(** [strconv.ParseFloat], [strings.ToLower] and the text of [Sprintf]. *)
Context {MO : MapOrder} (parseFloat : gostring -> option float64) (toLower : gostring -> gostring)
  (describe : gostring -> gostring -> gostring -> gostring).

Definition toFloat64 (v : raw) : option float64 :=
  match v with
  | RawFloat64 t | RawFloat32 t => Some t
  | RawInt t | RawUint64 t => Some (ofZ t)
  | RawString t => parseFloat t
  | RawOther => None
  end.

(** One value into the aggregate; [idx] is its index. *)
Definition aggregateValue (aggType : gostring) (idx : nat) (aggregated value : float64) : option float64 :=
  if bool_decide (aggType = MetricSum) || bool_decide (aggType = MetricAvg) then Some (fadd aggregated value)
  else if bool_decide (aggType = MetricMin) then
    let aggregated := if bool_decide (idx = O) then value else aggregated in
    Some (if flt value aggregated then value else aggregated)
  else if bool_decide (aggType = MetricMax) then
    let aggregated := if bool_decide (idx = O) then value else aggregated in
    Some (if flt aggregated value then value else aggregated)
  else None.
Fixpoint aggregateLoop (aggType : gostring) (idx : nat) (trackedValueUnit : gostring)
    (aggregated : float64) (ms : list Metric) : res float64 :=
  match ms with
  | [] => Ok aggregated
  | metric :: ms =>
      if negb (bool_decide (trackedValueUnit = [])) && negb (bool_decide (trackedValueUnit = metUnit metric))
      then Err EMsg
      else match toFloat64 (metRaw metric) with
      | None => Err EMsg
      | Some value =>
          match aggregateValue aggType idx aggregated value with
          | None => Err EMsg
          | Some aggregated => aggregateLoop aggType (S idx) (metUnit metric) aggregated ms
          end
      end
  end.

(** [now] and [now'] are the clock when the period is chosen and when the
    result is stamped. *)
Definition Aggregate (aggType name : gostring) (namespace : list gostring) (start end_ now now' : gotime)
    (registry : Registry) : res Metric :=
  let '(start, end_) :=
    if isZeroTime start && isZeroTime end_ then (now - 60 * 10 ^ 9, now) else (start, end_) in
  let aggType := toLower aggType in
  let metricsResults := Search name namespace start end_ registry in
  match metricsResults with
  | [] => Err EMsg
  | first :: _ =>
      aggregated ← aggregateLoop aggType 0 [] (ofZ 0) metricsResults;
      let aggregated :=
        if bool_decide (aggType = MetricAvg) then fdiv aggregated (ofZ (len metricsResults)) else aggregated in
      Ok (mkMetric (metName first) (describe aggType name (joinNS namespace))
            (deepestCommonNamespace (map metNamespace metricsResults)) (RawFloat64 aggregated)
            (metUnit first) (metInterval first) (metType first) now')
  end.
End aggregate.

(* ------------------------------------------------------------------ *)
(** * What the registry holds                                           *)
(* ------------------------------------------------------------------ *)

(** The metric stored in a slice under a joined name space and a name. *)
Definition inSlice (slice : nsMap) (ns name : gostring) : option Metric :=
  m ← slice !! ns; (m : nameMap) !! name.
Definition storedAt (registry : Registry) (ts : gotime) (ns name : gostring) : option Metric :=
  slice ← registry !! ts; inSlice slice ns name.

Definition metKey (m : Metric) : gostring * gostring := (joinNS (metNamespace m), metName m).
(** The last of a batch with a name space and a name. *)
Definition lastWith (ns name : gostring) (metrics : list Metric) : option Metric :=
  List.last (map Some (List.filter (fun m => bool_decide (metKey m = (ns, name))) metrics)) None.

Lemma lastWith_elem ns name metrics m :
  lastWith ns name metrics = Some m -> m ∈ metrics /\ metKey m = (ns, name).
Proof.
  unfold lastWith. destruct (List.filter _ metrics) as [|x l _] eqn:E using rev_ind; [done|].
  rewrite map_app. cbn [map]. rewrite List.last_last. intros [= ->].
  assert (In m (List.filter (fun m => bool_decide (metKey m = (ns, name))) metrics)) as Hin
    by (rewrite E; apply in_or_app; right; by left).
  apply filter_In in Hin as [Hin Hk%bool_decide_eq_true]. by rewrite list_elem_of_In.
Qed.

Lemma inSlice_addMetric slice metric ns name :
  inSlice (addMetric slice metric) ns name =
    if bool_decide (metKey metric = (ns, name)) then Some metric else inSlice slice ns name.
Proof.
  unfold inSlice, addMetric, metKey. case_bool_decide as E; cbv zeta.
  - injection E as <- <-. rewrite lookup_insert_eq. cbn. by rewrite lookup_insert_eq.
  - destruct (decide (joinNS (metNamespace metric) = ns)) as [<-|Hns].
    + rewrite lookup_insert_eq. cbn. rewrite lookup_insert_ne by (intros <-; by apply E).
      by destruct (slice !! _).
    + by rewrite lookup_insert_ne.
Qed.
Lemma inSlice_batch slice metrics ns name :
  inSlice (foldl addMetric slice metrics) ns name =
    match lastWith ns name metrics with Some m => Some m | None => inSlice slice ns name end.
Proof.
  induction metrics as [|m metrics IH] using rev_ind; [done|].
  rewrite foldl_app. cbn [foldl]. rewrite inSlice_addMetric. unfold lastWith in *.
  rewrite List.filter_app. cbn [List.filter]. case_bool_decide.
  - rewrite map_app. cbn [map]. by rewrite List.last_last.
  - by rewrite app_nil_r, IH.
Qed.

(** A batch overwrites what it has the keys of, in its slice only. *)
Lemma storedAt_Add ts metrics registry ts' ns name :
  is_Some (registry !! ts) ->
  storedAt (Add ts metrics registry) ts' ns name =
    match (if bool_decide (ts' = ts) then lastWith ns name metrics else None) with
    | Some m => Some m
    | None => storedAt registry ts' ns name
    end.
Proof.
  intros [slice E]. unfold storedAt, Add. rewrite E. case_bool_decide as Ht.
  - subst ts'. rewrite lookup_insert_eq, E. cbn. apply inSlice_batch.
  - by rewrite lookup_insert_ne.
Qed.

(** A slice is made once, empty; [Add] to a slice that was not made changes
    nothing. *)
Lemma NewTimeSlice_spec now d registry ts registry' :
  NewTimeSlice now d registry = (ts, registry') ->
  ts = Truncate now d /\ is_Some (registry' !! ts) /\
  forall ts' ns name, storedAt registry' ts' ns name = storedAt registry ts' ns name.
Proof.
  unfold NewTimeSlice. destruct (registry !! Truncate now d) as [slice|] eqn:E; intros [= <- <-].
  - by rewrite E.
  - rewrite lookup_insert_eq. split_and!; [done..|]. intros ts' ns name. unfold storedAt.
    destruct (decide (ts' = Truncate now d)) as [->|]; [by rewrite lookup_insert_eq, E|].
    by rewrite lookup_insert_ne.
Qed.
Lemma storedAt_Prune now maxAge registry ts ns name :
  storedAt (Prune now maxAge registry) ts ns name =
    if timeSub now ts <=? maxAge then storedAt registry ts ns name else None.
Proof.
  unfold storedAt, Prune. destruct (Z.leb_spec (timeSub now ts) maxAge).
  - destruct (registry !! ts) as [slice|] eqn:E.
    + by rewrite (map_lookup_filter_Some_2 _ _ ts slice).
    + by rewrite map_lookup_filter_None_2 by (by left).
  - rewrite map_lookup_filter_None_2; [done|]. right. intros slice _. cbn. lia.
Qed.

(* ------------------------------------------------------------------ *)
(** * What is found                                                     *)
(* ------------------------------------------------------------------ *)

Lemma matchesFrom_spec ns q : matchesFrom ns q = true <-> q `prefix_of` ns.
Proof.
  revert ns. induction q as [|x q IH]; intros ns; cbn [matchesFrom].
  - split; [intros _; by apply prefix_nil|by destruct ns].
  - destruct ns as [|m ns]; cbn [matchesFrom]; [split; [done|intros H; destruct (prefix_nil_not _ _ H)]|]. case_bool_decide as E.
    + subst. rewrite IH. split; [by apply prefix_cons|by apply prefix_cons_inv_2].
    + split; [done|]. intros H%prefix_cons_inv_1. congruence.
Qed.
Lemma matchesNamespace_spec ns q : matchesNamespace ns q = true <-> q `prefix_of` ns.
Proof.
  unfold matchesNamespace. case_bool_decide as E; [subst; split; [intros _; by apply prefix_nil|done]|].
  destruct (Z.ltb_spec (len ns) (len q)) as [Hl|]; [|apply matchesFrom_spec].
  split; [done|]. intros H%prefix_length. unfold len in Hl. lia.
Qed.

Lemma elem_of_flat_map {A B} (f : A -> list B) l y :
  y ∈ flat_map f l <-> exists x, x ∈ l /\ y ∈ f x.
Proof.
  rewrite list_elem_of_In, in_flat_map. setoid_rewrite list_elem_of_In. done.
Qed.

Lemma elem_of_visit `{MO : MapOrder} {A} `{Countable K} (m : gmap K A) k x :
  (k, x) ∈ visit m <-> m !! k = Some x.
Proof. by rewrite visit_perm, elem_of_map_to_list. Qed.

Lemma elem_of_sliceResults `{MO : MapOrder} name q slice m :
  m ∈ sliceResults name q slice <->
  exists ns metricName, inSlice slice ns metricName = Some m /\
    q `prefix_of` split slash ns /\ (name = [] \/ metricName = name).
Proof.
  unfold sliceResults, inSlice. rewrite elem_of_flat_map. split.
  - intros ([ns names] & Hns%elem_of_visit & Hm). case_match eqn:Eq; [|by apply elem_of_nil in Hm].
    apply matchesNamespace_spec in Eq. apply elem_of_flat_map in Hm as ([mn m'] & Hmn%elem_of_visit & Hm).
    exists ns, mn. rewrite Hns. cbn. destruct (orb _ _) eqn:Eb in Hm; [|by apply elem_of_nil in Hm].
    apply list_elem_of_singleton in Hm as ->.
    split_and!; [done..|]. apply orb_true_iff in Eb as [?%bool_decide_eq_true|?%bool_decide_eq_true]; auto.
  - intros (ns & mn & H & Hq%matchesNamespace_spec & Hn). destruct (slice !! ns) as [names|] eqn:E; [|done].
    cbn in H. exists (ns, names). rewrite elem_of_visit. split; [done|]. rewrite Hq.
    apply elem_of_flat_map. exists (mn, m). rewrite elem_of_visit. split; [done|].
    rewrite (proj2 (orb_true_iff _ _)); [by left|]. rewrite !bool_decide_eq_true. done.
Qed.

Lemma elem_of_timestamps `{MO : MapOrder} (start end_ : Z) (registry : Registry) ts :
  ts ∈ timestamps start end_ registry <-> is_Some (registry !! ts) /\ inPeriod start end_ ts = true.
Proof.
  unfold timestamps. rewrite merge_sort_Permutation, list_elem_of_In, filter_In, <- list_elem_of_In.
  rewrite list_elem_of_fmap. split.
  - intros [([k x] & -> & H%elem_of_visit) ?]. split; [by exists x|done].
  - intros [[x H] ?]. split; [|done]. exists (ts, x). by rewrite elem_of_visit.
Qed.
Lemma timestamps_sorted `{MO : MapOrder} (start end_ : Z) (registry : Registry) :
  StronglySorted Z.lt (timestamps start end_ registry).
Proof.
  assert (NoDup (timestamps start end_ registry)) as Hnd.
  { unfold timestamps. rewrite merge_sort_Permutation, NoDup_ListNoDup. apply List.NoDup_filter.
    rewrite <- NoDup_ListNoDup. change map with (@fmap list _). rewrite visit_perm.
    apply NoDup_fst_map_to_list. }
  assert (StronglySorted Z.le (timestamps start end_ registry)) as Hs
    by (apply StronglySorted_merge_sort; apply _).
  induction Hs as [|t l Hs IH Ht]; constructor.
  - apply IH. by apply NoDup_cons in Hnd as [_ ?].
  - apply NoDup_cons in Hnd as [Hn _]. rewrite Forall_forall in Ht |- *. intros u Hu.
    pose proof (Ht u Hu). assert (t <> u) by by intros ->. lia.
Qed.

(** A tick of the gatherers of both daemons ([Run], [runIntervalTasks]): a
    slice is made, and every component's metrics are added to it; the 30th
    tick after the start or after the last retention check checks the retention
    again. The state is the registry and [tickCount]; a tick is the clock after
    the wake up and the batches it adds. *)
Definition collect (interval retention : Z) (gatherer : Registry * Z) (tick : gotime * list (list Metric))
    : Registry * Z :=
  let '(registry, tickCount) := gatherer in
  let now := tick.1 in
  let timeSlice := Truncate now interval in
  let '(_, registry) := NewTimeSlice timeSlice interval registry in
  let registry := foldl (fun registry metrics => Add timeSlice metrics registry) registry tick.2 in
  let tickCount := tickCount + 1 in
  if 30 <=? tickCount then (Prune now retention registry, 0) else (registry, tickCount).
(** The registry after the ticks of a run. *)
Definition collected (interval retention : Z) (ticks : list (gotime * list (list Metric))) : Registry :=
  (foldl (collect interval retention) (∅, 0) ticks).1.

(** One of [ticks], the first of which is the [S k]-th of the run, is a
    multiple of 30 and comes more than [retention] after the slice [ts]. *)
Fixpoint pruned (retention : Z) (k : nat) (ticks : list (gotime * list (list Metric))) (ts : gotime) : bool :=
  match ticks with
  | [] => false
  | tick :: ticks =>
      (bool_decide ((S k) mod 30 = 0)%nat && (retention <? timeSub tick.1 ts)) || pruned retention (S k) ticks ts
  end.
(** What the ticks wrote to the slice [ts] and no later tick, nor the one that
    wrote it, removed; in the order it was written. *)
Fixpoint writtenIn (interval retention : Z) (k : nat) (ticks : list (gotime * list (list Metric))) (ts : gotime)
    : list Metric :=
  match ticks with
  | [] => []
  | tick :: rest =>
      (if (Truncate tick.1 interval =? ts) && negb (pruned retention k ticks ts) then concat tick.2 else []) ++
      writtenIn interval retention (S k) rest ts
  end.

Lemma Truncate_idem t d : Truncate (Truncate t d) d = Truncate t d.
Proof.
  unfold Truncate. destruct (Z.leb_spec d 0); [done|].
  replace (t - (t - zeroTime) mod d - zeroTime) with ((t - zeroTime) / d * d)
    by (pose proof (Z.div_mod (t - zeroTime) d ltac:(lia)); lia).
  rewrite Z.mod_mul by lia. lia.
Qed.

Lemma lastWith_app ns name l k :
  lastWith ns name (l ++ k) =
    match lastWith ns name k with Some m => Some m | None => lastWith ns name l end.
Proof.
  unfold lastWith. rewrite List.filter_app, map_app.
  destruct (List.filter _ k) as [|m k'] using rev_ind; [by rewrite app_nil_r|].
  rewrite map_app, app_assoc. cbn [map]. by rewrite !List.last_last.
Qed.

Lemma storedAt_batches ts batches registry ts' ns name :
  is_Some (registry !! ts) ->
  let registry' := foldl (fun registry metrics => Add ts metrics registry) registry batches in
  is_Some (registry' !! ts) /\
  storedAt registry' ts' ns name =
    match (if ts =? ts' then lastWith ns name (concat batches) else None) with
    | Some m => Some m
    | None => storedAt registry ts' ns name
    end.
Proof.
  intros Hts. induction batches as [|b batches IH] using rev_ind; cbv zeta in *.
  { split; [done|]. by destruct (ts =? ts'). }
  destruct IH as [H1 H2]. rewrite foldl_app. cbn [foldl]. split.
  - unfold Add at 1. destruct H1 as [s ->]. by rewrite lookup_insert_eq.
  - rewrite storedAt_Add, H2 by done. rewrite concat_app, lastWith_app. cbn [concat]. rewrite app_nil_r.
    destruct (Z.eqb_spec ts ts') as [->|Hne]; [rewrite bool_decide_eq_true_2 by done|].
    + by destruct (lastWith ns name b).
    + by rewrite bool_decide_eq_false_2 by congruence.
Qed.

(** The count of the loop, as a function of the number of ticks. *)
Lemma tickCount_next (k : nat) :
  (Z.of_nat (k mod 30) + 1 = 30 /\ (S k mod 30 = 0)%nat) \/
  (Z.of_nat (k mod 30) + 1 < 30 /\ (S k mod 30)%nat = S (k mod 30)).
Proof.
  pose proof (Nat.mod_upper_bound k 30 ltac:(done)). pose proof (Nat.div_mod_eq k 30).
  destruct (decide (S (k mod 30) = 30%nat)) as [E|E].
  - left. split; [lia|]. symmetry. apply (Nat.mod_unique _ _ (S (k / 30))); lia.
  - right. split; [lia|]. symmetry. apply (Nat.mod_unique _ _ (k / 30)); lia.
Qed.

Lemma storedAt_ticks interval retention k ticks registry ts ns name :
  storedAt (foldl (collect interval retention) (registry, Z.of_nat (k mod 30)) ticks).1 ts ns name =
    match lastWith ns name (writtenIn interval retention k ticks ts) with
    | Some m => Some m
    | None => if pruned retention k ticks ts then None else storedAt registry ts ns name
    end.
Proof.
  revert k registry. induction ticks as [|[now batches] ticks IH]; intros k registry; [done|].
  cbn [foldl]. unfold collect at 2. cbn [fst snd].
  destruct (NewTimeSlice _ interval registry) as [ts' r'] eqn:E. apply NewTimeSlice_spec in E as (-> & Hs & Hr).
  rewrite Truncate_idem in Hs. destruct (storedAt_batches _ batches r' ts ns name Hs) as [_ Hb].
  set (r1 := foldl _ r' batches) in *. rewrite Hr in Hb. cbn [writtenIn pruned fst snd]. rewrite lastWith_app.
  destruct (tickCount_next k) as [[H1 H2]|[H1 H2]].
  - rewrite H1. change (30 <=? 30) with true. cbv iota. rewrite (bool_decide_eq_true_2 _ H2), andb_true_l.
    replace 0 with (Z.of_nat (S k mod 30)) by by rewrite H2. rewrite IH, storedAt_Prune, Hb.
    rewrite (Z.leb_antisym retention), (Z.ltb_antisym).
    destruct (lastWith ns name (writtenIn _ _ _ _ _)); [done|].
    destruct (timeSub now ts <=? retention), (pruned retention (S k) ticks ts), (Truncate now interval =? ts);
      cbn; try done; by destruct (lastWith _ _ _).
  - rewrite (proj2 (Z.leb_gt _ _) H1), (bool_decide_eq_false_2 (S k mod 30 = 0)%nat) by lia.
    replace (Z.of_nat (k mod 30) + 1) with (Z.of_nat (S k mod 30)) by lia. rewrite IH, Hb. cbn [andb orb].
    destruct (lastWith ns name (writtenIn _ _ _ _ _)); [done|].
    destruct (pruned retention (S k) ticks ts), (Truncate now interval =? ts); cbn; try done; by destruct (lastWith _ _ _).
Qed.
Lemma storedAt_collected interval retention ticks ts ns name :
  storedAt (collected interval retention ticks) ts ns name =
    lastWith ns name (writtenIn interval retention 0 ticks ts).
Proof.
  unfold collected. rewrite (storedAt_ticks interval retention 0 ticks ∅).
  destruct (lastWith _ _ _); [done|]. by destruct (pruned _ _ _ _).
Qed.

(** Nothing is removed from a slice that no tick finds older than the
    retention. *)
Lemma pruned_recent retention k ticks ts :
  Forall (fun tick => timeSub tick.1 ts <= retention) ticks -> pruned retention k ticks ts = false.
Proof.
  intros H. revert k. induction H as [|tick ticks Ht _ IH]; intros k; cbn [pruned]; [done|].
  by rewrite IH, (proj2 (Z.ltb_ge _ _) Ht), andb_false_r.
Qed.
Lemma writtenIn_elem interval retention k ticks ts m :
  m ∈ writtenIn interval retention k ticks ts ->
  exists tick, tick ∈ ticks /\ Truncate tick.1 interval = ts /\ m ∈ concat tick.2.
Proof.
  revert k. induction ticks as [|tick ticks IH]; intros k; cbn [writtenIn]; [by intros []%elem_of_nil|].
  intros [Hm|(t & Ht & H)%IH]%elem_of_app; [|exists t; split; [by right|done]].
  destruct (Z.eqb_spec (Truncate tick.1 interval) ts); [|by apply elem_of_nil in Hm]. cbn [andb] in Hm.
  destruct (negb _); [|by apply elem_of_nil in Hm]. exists tick. split; [by left|done].
Qed.

(** A search in what was collected, as a membership. *)
Lemma Search_elem `{MO : MapOrder} (name : gostring) (prefix : list gostring) (start end_ : gotime)
    (interval retention : Z) ticks m :
  m ∈ Search name prefix start end_ (collected interval retention ticks) <->
  exists ts ns n, lastWith ns n (writtenIn interval retention 0 ticks ts) = Some m /\
    inPeriod start end_ ts = true /\ prefix `prefix_of` split slash ns /\ (name = [] \/ n = name).
Proof.
  setoid_rewrite <- storedAt_collected. set (r := collected _ _ _). unfold Search. rewrite elem_of_flat_map.
  unfold storedAt. split.
  - intros (ts & [[slice E] Hp]%elem_of_timestamps & Hm). rewrite E in Hm.
    apply elem_of_sliceResults in Hm as (ns & n & Hs & Hq & Hn). exists ts, ns, n. by rewrite E.
  - intros (ts & ns & n & Hl & Hp & Hq & Hn). destruct (r !! ts) as [slice|] eqn:E; [|done]. exists ts. split.
    + rewrite elem_of_timestamps, E. split; [by eexists|done].
    + rewrite E. apply elem_of_sliceResults. by exists ns, n.
Qed.

(** C24: a search finds exactly the last metric that was collected for each
    time slice, name space and name, and not removed by a retention check
    since, among those in the period whose name is the one asked for (or any)
    and whose name space starts with the prefix; and it gives them slice by
    slice, oldest first. A retention check, at every 30th tick, removes the
    slices that are then older than the retention, and no others: what was
    collected for a slice is all there as long as no tick finds it older. *)
Theorem Search_collected `{MO : MapOrder} (name : gostring) (prefix : list gostring)
    (start end_ : gotime) (interval retention : Z) ticks :
  let found := Search name prefix start end_ (collected interval retention ticks) in
  (forall m, m ∈ found <->
    exists ts ns n, lastWith ns n (writtenIn interval retention 0 ticks ts) = Some m /\
      inPeriod start end_ ts = true /\ prefix `prefix_of` split slash ns /\ (name = [] \/ n = name)) /\
  (exists chunks : list (gotime * list Metric),
    found = concat (map snd chunks) /\ StronglySorted Z.lt (map fst chunks) /\
    forall ts ms m, (ts, ms) ∈ chunks -> m ∈ ms ->
      exists ns n, lastWith ns n (writtenIn interval retention 0 ticks ts) = Some m) /\
  (forall ts, Forall (fun tick => timeSub tick.1 ts <= retention) ticks ->
    writtenIn interval retention 0 ticks ts =
      concat (map (fun tick => concat tick.2) (List.filter (fun tick => Truncate tick.1 interval =? ts) ticks))).
Proof.
  cbv zeta. split; [intros m; apply Search_elem|]. split.
  - set (r := collected _ _ _).
    exists (map (fun ts => (ts, match r !! ts with Some s => sliceResults name prefix s | None => [] end))
              (timestamps start end_ r)).
    rewrite !map_map. cbn [fst snd]. rewrite map_id. split_and!.
    + unfold Search. by rewrite flat_map_concat_map.
    + apply timestamps_sorted.
    + intros ts ms m H Hm. apply list_elem_of_fmap in H as (ts' & [= -> ->] & H).
      destruct (r !! ts') as [slice|] eqn:E; [|by apply elem_of_nil in Hm].
      apply elem_of_sliceResults in Hm as (ns & n & Hs & _). exists ns, n.
      rewrite <- storedAt_collected. fold r. unfold storedAt. by rewrite E.
  - intros ts H. generalize 0%nat. induction H as [|tick ticks Ht H IH]; intros k; [done|].
    cbn [writtenIn List.filter]. rewrite IH, pruned_recent by by constructor.
    rewrite andb_true_r. by destruct (_ =? ts).
Qed.

(* ------------------------------------------------------------------ *)
(** * What is aggregated                                                *)
(* ------------------------------------------------------------------ *)

Lemma commonAt_spec input i val :
  commonAt input i = Some val <-> input <> [] /\ forall l, l ∈ input -> l !! i = Some val.
Proof.
  unfold commonAt. split.
  - intros H. apply bind_Some in H as (vals & Hm & H). apply mapM_Some in Hm.
    destruct vals as [|v rest]; [done|]. destruct (forallb _ rest) eqn:Ef; [|done]. injection H as <-.
    split; [by intros ->; inversion Hm|]. intros l Hl. rewrite forallb_forall in Ef.
    destruct (list_elem_of_lookup_1 _ _ Hl) as [j Hj].
    destruct (Forall2_lookup_l _ _ _ _ _ Hm Hj) as (v' & Hv' & Hlv). rewrite Hlv. f_equal.
    apply list_elem_of_lookup_2, elem_of_cons in Hv' as [->|Hv']; [done|].
    apply list_elem_of_In, Ef in Hv'. by apply bool_decide_eq_true in Hv'.
  - intros [Hne Hall].
    assert (mapM (fun l : list gostring => l !! i) input = Some (map (fun _ => val) input)) as ->.
    { apply mapM_Some. clear Hne. induction input as [|l input IH]; constructor.
      - apply Hall. by left.
      - apply IH. intros l' Hl'. apply Hall. by right. }
    destruct input as [|l input]; [done|]. cbn. rewrite (proj2 (forallb_forall _ _)); [done|].
    intros v Hv. apply in_map_iff in Hv as (_ & <- & _). by apply bool_decide_eq_true.
Qed.

Lemma commonFrom_spec fuel input i :
  input <> [] ->
  (forall k v, commonFrom fuel input i !! k = Some v -> forall l, l ∈ input -> l !! (i + k)%nat = Some v) /\
  (forall p : list gostring, (length p <= fuel)%nat ->
    (forall k v, p !! k = Some v -> forall l, l ∈ input -> l !! (i + k)%nat = Some v) ->
    p `prefix_of` commonFrom fuel input i).
Proof.
  intros Hne. revert i. induction fuel as [|fuel IH]; intros i; cbn [commonFrom].
  { split; [done|]. intros [|x p] Hp; [done|cbn in Hp; lia]. }
  destruct (IH (S i)) as [IH1 IH2]. destruct (commonAt input i) as [val|] eqn:E.
  - apply commonAt_spec in E as [_ E]. split.
    + intros [|k] v Hk l Hl; [injection Hk as <-; rewrite Nat.add_0_r; by apply E|].
      rewrite Nat.add_succ_r. by apply (IH1 k).
    + intros [|x p] Hp Hall; [by apply prefix_nil|]. cbn in Hp.
      assert (x = val) as ->.
      { destruct input as [|l input]; [done|]. pose proof (Hall 0%nat x eq_refl l ltac:(by left)) as H.
        rewrite Nat.add_0_r, E in H by (by left). congruence. }
      apply prefix_cons, IH2; [lia|]. intros k v Hk l Hl.
      replace (S i + k)%nat with (i + S k)%nat by lia. by apply (Hall (S k)).
  - split; [done|]. intros [|x p] Hp Hall; [by apply prefix_nil|].
    assert (commonAt input i = Some x) as H; [|congruence]. apply commonAt_spec. split; [done|].
    intros l Hl. rewrite <- (Nat.add_0_r i). by apply (Hall 0%nat).
Qed.

Lemma lookup_prefix {A} (p l : list A) : (forall k v, p !! k = Some v -> l !! k = Some v) -> p `prefix_of` l.
Proof.
  revert l. induction p as [|x p IH]; intros l H; [by apply prefix_nil|].
  pose proof (H 0%nat x eq_refl) as H0. destruct l as [|y l]; [done|]. injection H0 as ->.
  apply prefix_cons, IH. intros k. apply (H (S k)).
Qed.

(** The name space of an aggregate is the longest one that all name spaces
    start with. *)
Theorem deepestCommonNamespace_spec input :
  input <> [] ->
  (forall l, l ∈ input -> deepestCommonNamespace input `prefix_of` l) /\
  (forall p, (forall l, l ∈ input -> p `prefix_of` l) -> p `prefix_of` deepestCommonNamespace input).
Proof.
  intros Hne. unfold deepestCommonNamespace. destruct input as [|first input]; [done|].
  destruct (commonFrom_spec (S (length first)) (first :: input) 0 ltac:(done)) as [H1 H2]. split.
  - intros l Hl. apply lookup_prefix. intros k v Hk. by apply (H1 k).
  - intros p Hp. apply H2.
    + specialize (Hp first ltac:(by left)). apply prefix_length in Hp. lia.
    + intros k v Hk l Hl. eapply prefix_lookup_Some; [exact Hk|by apply Hp].
Qed.

Lemma flt_trans a b c : flt a b = true -> flt b c = true -> flt a c = true.
Proof.
  unfold flt, SFltb.
  destruct a as [| [] | | [] ma ea], b as [| [] | | [] mb eb], c as [| [] | | [] mc ec]; try done;
    cbn [SFcompare]; change (Pos.compare_cont Eq) with Pos.compare;
    repeat match goal with |- context [?x ?= ?y] => destruct (Z.compare_spec x y) end; subst; try done;
    try lia; repeat match goal with |- context [Pos.compare ?x ?y] => destruct (Pos.compare_spec x y) end;
    try done; lia.
Qed.

Section aggregated.
Context {MO : MapOrder} (parseFloat : gostring -> option float64) (toLower : gostring -> gostring)
  (describe : gostring -> gostring -> gostring -> gostring).

(** The loop over values, without units and errors. *)
Fixpoint foldValues (aggType : gostring) (idx : nat) (acc : float64) (values : list float64) : option float64 :=
  match values with
  | [] => Some acc
  | v :: values => acc ← aggregateValue aggType idx acc v; foldValues aggType (S idx) acc values
  end.
Lemma aggregateLoop_Ok aggType idx unit acc ms r :
  aggregateLoop parseFloat aggType idx unit acc ms = Ok r ->
  exists values, Forall2 (fun m v => toFloat64 parseFloat (metRaw m) = Some v) ms values /\
    foldValues aggType idx acc values = Some r.
Proof.
  revert idx unit acc. induction ms as [|m ms IH]; intros idx unit acc; cbn [aggregateLoop].
  - intros [= ->]. by exists [].
  - destruct (_ && _); [done|]. destruct (toFloat64 _ _) as [v|] eqn:Ev; [|done].
    destruct (aggregateValue _ _ _ _) as [acc'|] eqn:Ea; [|done]. intros (values & H1 & H2)%IH.
    exists (v :: values). split; [by constructor|]. cbn. by rewrite Ea.
Qed.

Lemma foldValues_sum aggType idx acc values r :
  aggType = MetricSum \/ aggType = MetricAvg ->
  foldValues aggType idx acc values = Some r -> r = foldl fadd acc values.
Proof.
  intros Ht. revert idx acc. induction values as [|v values IH]; intros idx acc; cbn [foldValues].
  - by intros [= ->].
  - unfold aggregateValue at 1. destruct Ht as [-> | ->]; cbn; apply IH.
Qed.

(** [better a b]: the value [a] replaces the aggregate [b]. *)
Definition better (aggType : gostring) (a b : float64) : bool :=
  if bool_decide (aggType = MetricMin) then flt a b else flt b a.
Lemma better_trans aggType a b c :
  better aggType a b = true -> better aggType b c = true -> better aggType a c = true.
Proof. unfold better. case_bool_decide; [apply flt_trans|]. intros H1 H2. by eapply flt_trans. Qed.
Lemma better_irrefl aggType a : better aggType a a = false.
Proof.
  assert (flt a a = false) as H; [|unfold better; by case_bool_decide].
  unfold flt, SFltb. destruct a as [[]|[]| |[] m e]; try done; cbn [SFcompare];
    by rewrite Z.compare_refl, Pos.compare_cont_refl.
Qed.
Lemma foldValues_extreme aggType idx acc values r :
  aggType = MetricMin \/ aggType = MetricMax -> idx <> O ->
  foldValues aggType idx acc values = Some r ->
  (r = acc \/ (r ∈ values /\ better aggType r acc = true)) /\
  better aggType acc r = false /\ forall v, v ∈ values -> better aggType v r = false.
Proof.
  intros Ht. revert idx acc. induction values as [|v values IH]; intros idx acc Hidx; cbn [foldValues].
  { intros [= ->]. rewrite better_irrefl. split_and!; [by left|done|]. intros v []%elem_of_nil. }
  assert (aggregateValue aggType idx acc v = Some (if better aggType v acc then v else acc)) as ->.
  { unfold aggregateValue, better. rewrite (bool_decide_eq_false_2 (idx = O)) by done.
    by destruct Ht as [-> | ->]. }
  cbn [mbind option_bind]. intros (Hr & Ha & Hall)%IH; [|done].
  destruct (better aggType v acc) eqn:Ev.
  - split_and!.
    + right. destruct Hr as [->|[Hr Hb]]; [split; [by left|done]|]. split; [by right|].
      by eapply better_trans.
    + apply not_true_iff_false. intros Hb. pose proof (better_trans _ _ _ _ Ev Hb). congruence.
    + by intros x [->|Hx]%elem_of_cons; [|apply Hall].
  - split_and!.
    + destruct Hr as [->|[Hr Hb]]; [by left|]. right. split; [by right|done].
    + done.
    + intros x [->|Hx]%elem_of_cons; [|by apply Hall]. apply not_true_iff_false. intros Hb.
      destruct Hr as [->|[_ Hr]]; [congruence|]. pose proof (better_trans _ _ _ _ Hb Hr). congruence.
Qed.

(** The first value replaces the initial zero. *)
Lemma foldValues_extreme_first aggType acc values r :
  aggType = MetricMin \/ aggType = MetricMax -> values <> [] ->
  foldValues aggType 0 acc values = Some r ->
  r ∈ values /\ forall v, v ∈ values -> better aggType v r = false.
Proof.
  intros Ht Hne. destruct values as [|v values]; [done|]. cbn [foldValues].
  assert (aggregateValue aggType 0 acc v = Some v) as ->.
  { unfold aggregateValue. pose proof (better_irrefl MetricMin v) as H.
    change (flt v v = false) in H. rewrite (bool_decide_eq_true_2 (0%nat = 0%nat)) by done.
    destruct Ht as [-> | ->]; cbn -[flt]; by rewrite H. }
  cbn [mbind option_bind]. intros (Hr & Ha & Hall)%foldValues_extreme; [|done..]. split.
  - destruct Hr as [->|[Hr _]]; [by left|by right].
  - by intros x [->|Hx]%elem_of_cons; [|apply Hall].
Qed.

(** An aggregate is what its type says of the values that the search
    found, which are all numbers: their sum or average, added in that order,
    or one of them that no other one is smaller or greater than, not-a-numbers
    included; and its name space is the deepest one that all of them share. *)
Theorem Aggregate_spec aggType name namespace start end_ now now' registry m :
  start <> zeroTime ->
  Aggregate parseFloat toLower describe aggType name namespace start end_ now now' registry = Ok m ->
  let found := Search name namespace start end_ registry in
  let type := toLower aggType in
  exists values r,
    found <> [] /\ Forall2 (fun x v => toFloat64 parseFloat (metRaw x) = Some v) found values /\
    metRaw m = RawFloat64 r /\
    ((type = MetricSum /\ r = foldl fadd (ofZ 0) values) \/
     (type = MetricAvg /\ r = fdiv (foldl fadd (ofZ 0) values) (ofZ (len values))) \/
     (type = MetricMin /\ r ∈ values /\ forall v, v ∈ values -> flt v r = false) \/
     (type = MetricMax /\ r ∈ values /\ forall v, v ∈ values -> flt r v = false)) /\
    (forall p, (forall x, x ∈ found -> p `prefix_of` metNamespace x) <-> p `prefix_of` metNamespace m).
Proof.
  intros Hs. unfold Aggregate, isZeroTime. rewrite (proj2 (Z.eqb_neq _ _) Hs). cbn [andb].
  cbv zeta. set (type := toLower aggType). destruct (Search name namespace start end_ registry) as [|x found] eqn:E; [done|].
  set (fs := x :: found) in *. intros H. apply bind_inv in H as (r & Hl & H).
  set (agg := if bool_decide (type = MetricAvg) then _ else r) in H. injection H as <-.
  cbn [metRaw metNamespace].
  apply aggregateLoop_Ok in Hl as (values & Hv & Hf).
  assert (values <> []) as Hne by (intros ->; by apply Forall2_nil_inv_r in Hv).
  exists values, agg. split_and!; [done|exact Hv|done| |]; subst agg.
  - assert (len fs = len values) as El by (unfold len; by rewrite (Forall2_length _ _ _ Hv)).
    destruct (decide (type = MetricSum)) as [Et|H1]; [left|destruct (decide (type = MetricAvg)) as [Et|H2];
      [right; left|destruct (decide (type = MetricMin)) as [Et|H3]; [do 2 right; left|
        destruct (decide (type = MetricMax)) as [Et|H4]; [do 3 right|]]]].
    + rewrite (bool_decide_eq_false_2 (type = MetricAvg)) by by rewrite Et. split; [done|].
      eapply foldValues_sum; [by left|exact Hf].
    + rewrite (bool_decide_eq_true_2 _ Et), El. split; [done|]. f_equal.
      eapply foldValues_sum; [by right|exact Hf].
    + rewrite (bool_decide_eq_false_2 (type = MetricAvg)) by done. split; [done|].
      apply foldValues_extreme_first in Hf; [|by left|done]. unfold better in Hf.
      by rewrite (bool_decide_eq_true_2 _ Et) in Hf.
    + rewrite (bool_decide_eq_false_2 (type = MetricAvg)) by done. split; [done|].
      apply foldValues_extreme_first in Hf; [|by right|done]. unfold better in Hf.
      by rewrite (bool_decide_eq_false_2 (type = MetricMin)) in Hf.
    + exfalso. destruct values as [|v values]; [done|]. cbn in Hf. unfold aggregateValue in Hf.
      rewrite !bool_decide_eq_false_2 in Hf by done. done.
  - destruct (deepestCommonNamespace_spec (map metNamespace fs) ltac:(done)) as [D1 D2]. intros p. split.
    + intros Hp. apply D2. intros l Hl. apply list_elem_of_fmap in Hl as (y & -> & Hy). by apply Hp.
    + intros Hp y Hy. etransitivity; [exact Hp|]. apply D1. by apply (list_elem_of_fmap_2 metNamespace).
Qed.
End aggregated.

(* ------------------------------------------------------------------ *)
(** * What is discovered                                                *)
(* ------------------------------------------------------------------ *)

Section discovered.
Context {MO : MapOrder} (name description unit metricType : gostring).

Lemma discoverAll_spec entries :
  let seen := foldl (discoverStep name description unit metricType) ∅ entries in
  (forall nsStr m, (nsStr, m) ∈ entries -> discoverable name description unit metricType m = true ->
     is_Some (seen !! discoverKey nsStr m)) /\
  (forall k x, seen !! k = Some x -> exists nsStr m, (nsStr, m) ∈ entries /\ x = stripped m /\
     k = discoverKey nsStr m /\ discoverable name description unit metricType m = true).
Proof.
  induction entries as [|[ns m] entries [IH1 IH2]] using rev_ind; cbv zeta in *.
  { split; [by intros ? ? []%elem_of_nil|]. intros k x H. cbn [foldl] in H. by rewrite lookup_empty in H. }
  rewrite foldl_app. cbn [foldl discoverStep]. set (seen := foldl _ _ _) in *.
  assert (forall k x, seen !! k = Some x -> exists nsStr m', (nsStr, m') ∈ entries ++ [(ns, m)] /\
    x = stripped m' /\ k = discoverKey nsStr m' /\ discoverable name description unit metricType m' = true)
    as Hold.
  { intros k x (ns' & m' & Hin & Hx)%IH2. exists ns', m'. split; [|done]. apply elem_of_app. by left. }
  destruct (discoverable name description unit metricType m) eqn:Ed; cbn [negb]; cbv zeta.
  - destruct (seen !! discoverKey ns m) as [y|] eqn:Ek; (split; [|]).
    + intros ns' m' [Hin|Hin%list_elem_of_singleton]%elem_of_app Hd; [by apply IH1|].
      injection Hin as -> ->. by rewrite Ek.
    + exact Hold.
    + intros ns' m' [Hin|Hin%list_elem_of_singleton]%elem_of_app Hd.
      * apply lookup_insert_is_Some'. right. by apply IH1.
      * injection Hin as -> ->. by rewrite lookup_insert_eq.
    + intros k x [[<- <-]|[_ H]]%lookup_insert_Some; [|by apply Hold].
      exists ns, m. split_and!; try done. apply elem_of_app. right. by left.
  - split; [|exact Hold]. intros ns' m' [Hin|Hin%list_elem_of_singleton]%elem_of_app Hd; [by apply IH1|].
    injection Hin as -> ->. congruence.
Qed.

(** Every stored metric that passes the filters is represented, by an entry
    with its joined name space, name, type and unit; and nothing else is. *)
Theorem Discover_spec (sortMetrics : list Metric -> list Metric) (prefix : list gostring) (registry : Registry) :
  (forall l, sortMetrics l ≡ₚ l) ->
  let result := Discover sortMetrics name description prefix unit metricType registry in
  (forall nsStr m, (nsStr, m) ∈ everything prefix registry ->
     discoverable name description unit metricType m = true ->
     exists nsStr' m', stripped m' ∈ result /\ discoverKey nsStr' m' = discoverKey nsStr m) /\
  (forall x, x ∈ result -> exists nsStr m, (nsStr, m) ∈ everything prefix registry /\ x = stripped m /\
     discoverable name description unit metricType m = true).
Proof.
  intros Hs. cbv zeta. unfold Discover. destruct (discoverAll_spec (everything prefix registry)) as [H1 H2].
  set (seen := foldl _ _ _) in *.
  assert (forall x, x ∈ sortMetrics (map snd (visit seen)) <-> exists k, seen !! k = Some x) as Hin.
  { intros x. rewrite Hs. rewrite list_elem_of_fmap. split.
    - intros ([k y] & -> & H%elem_of_visit). by exists k.
    - intros [k H]. exists (k, x). by rewrite elem_of_visit. }
  split.
  - intros ns m Hm Hd. destruct (H1 _ _ Hm Hd) as [x Hx].
    destruct (H2 _ _ Hx) as (ns' & m' & _ & -> & Hk & _). exists ns', m'. split; [|done].
    apply Hin. by eexists.
  - intros x [k Hx]%Hin. destruct (H2 _ _ Hx) as (ns & m & ? & ? & _ & ?). by exists ns, m.
Qed.
End discovered.

(* ------------------------------------------------------------------ *)
(** * Examples                                                          *)
(* ------------------------------------------------------------------ *)

Definition listOrder : MapOrder := {|
  visit _ _ _ _ m := map_to_list m;
  visit_perm _ _ _ _ m := reflexivity (map_to_list m)
|}.

Definition exampleMetric (ns : list gostring) (v : Z) : Metric :=
  mkMetric (str "depth") (str "queue depth") ns (RawInt v) (str "count") 0 Gauge_ 0.
(** Two ticks of a minute; in the second one, a value is written twice. *)
Definition exampleTicks : list (gotime * list (list Metric)) :=
  let ns := [str "Receiver"; str "Out"] in
  [(65 * 10 ^ 9, [[exampleMetric ns 7]; [exampleMetric ([str "Receiver"; str "Processor"]) 4]]);
   (130 * 10 ^ 9, [[exampleMetric ns 5; exampleMetric ns 6]])].
Definition exampleRetention : Z := 86400 * 10 ^ 9.
Definition exampleRegistry : Registry := collected (60 * 10 ^ 9) exampleRetention exampleTicks.

Example search_finds :
  map metRaw (Search (MO := listOrder) (str "depth") [str "Receiver"; str "Out"] zeroTime zeroTime exampleRegistry)
    = [RawInt 7; RawInt 6].
Proof. by vm_compute. Qed.

(** Thirty ticks of a second, with ten seconds of retention: the thirtieth
    leaves the slices of the last ten seconds; until then, everything is
    there. *)
Definition exampleSeconds (n : nat) : list (gotime * list (list Metric)) :=
  map (fun i => (Z.of_nat i * 10 ^ 9, [[exampleMetric [str "Receiver"] (Z.of_nat i)]])) (List.seq 1 n).
Example retention_check :
  let found n := map metRaw (Search (MO := listOrder) (str "depth") [] zeroTime zeroTime
                   (collected (10 ^ 9) (10 * 10 ^ 9) (exampleSeconds n))) in
  length (found 29%nat) = 29%nat /\ found 31%nat = map RawInt (seqZ 20 12).
Proof. vm_compute. split; reflexivity. Qed.

Definition exampleAggregate : res Metric :=
  Aggregate (MO := listOrder) (fun _ => None) id (fun _ _ _ => []) MetricMin (str "depth")
    [str "Receiver"; str "Out"] 1 (10 ^ 12) 0 0 exampleRegistry.

Lemma Aggregate_spec_witness :
  exists (m : Metric) (values : list float64),
    exampleAggregate = Ok m /\ metNamespace m = [str "Receiver"; str "Out"] /\
    (exists r, metRaw m = RawFloat64 r /\ r ∈ values /\ forall v, v ∈ values -> flt v r = false).
Proof.
  destruct exampleAggregate as [m| |] eqn:E; [|exfalso; vm_compute in E; discriminate..].
  destruct (Aggregate_spec (MO := listOrder) (fun _ => None) id (fun _ _ _ => []) MetricMin (str "depth")
    [str "Receiver"; str "Out"] 1 (10 ^ 12) 0 0 exampleRegistry m ltac:(discriminate) E)
    as (values & r & _ & _ & Hr & H & _).
  exists m, values. split; [reflexivity|]. split; [vm_compute in E; by injection E as <-|].
  exists r. split; [exact Hr|].
  destruct H as [[Ht _]|[[Ht _]|[(Ht & H)|[Ht _]]]]; [discriminate Ht|discriminate Ht|exact H|discriminate Ht].
Defined.
