(* ===== verification/Sender.v ===== *)
(** The sender's pipeline ([internal/sender/{assembler,output,ingest}]): the
    workers that make packets of messages and send them, the managers that
    configure and count the workers, and the sizes they work with
    ([internal/network/mtu.go]).

    A queue between the stages is the list of what is in it ([Mpmc] has the
    queue itself); whether a push finds room, whether a write succeeds and the
    randomness of each message are arguments. *)
From S2P Require Import Prelude Text Registry Wrappers Context Consts Inner Fragmentation Payload Packets.
From S2P Require Import ToyCrypto Size NetAddr GoStrings Shard Mpmc MpmcRing Scaling Metrics.

(* ------------------------------------------------------------------ *)
(** * Packet size and the network                                       *)
(* ------------------------------------------------------------------ *)

Definition colonByte : byte := z2b 58.
Definition dotByte : byte := z2b 46.

(** [getTransportOverhead(destination, "udp")] *)
Definition getTransportOverhead (destination : gostring) : res Z :=
  let ip4Overhead := 60 in
  let ip6Overhead := 80 in
  let udpOverhead := 8 in
  if contains [colonByte] destination then Ok (ip6Overhead + udpOverhead)
  else if contains [dotByte] destination then Ok (ip4Overhead + udpOverhead)
  else Err EMsg.

(** An interface: whether it is a loopback interface, and its MTU. *)
Record Iface := mkIface { isLoopback : bool; MTU : Z }.

(** The loop over the interfaces; [0] when there is no common MTU. *)
Fixpoint commonMTU (destIsLoopback : bool) (common : Z) (ifaces : list Iface) : Z :=
  match ifaces with
  | [] => common
  | iface :: ifaces =>
      if isLoopback iface && destIsLoopback then common
      else if isLoopback iface then commonMTU destIsLoopback common ifaces
      else if common =? 0 then commonMTU destIsLoopback (MTU iface) ifaces
      else if negb (common =? MTU iface) then 0
      else commonMTU destIsLoopback common ifaces
  end.

(** [FindSendingMaxUDPPayload]; [splitHostPort] is [net.SplitHostPort]'s host,
    [ifaces] are the interfaces or an error, [route] is the MTU of the
    interface that the kernel would use. *)
Definition FindSendingMaxUDPPayload (splitHostPort : gostring -> option gostring)
    (ifaces : res (list Iface)) (route : gostring -> res Z) (destination : gostring) : res Z :=
  let destinationIP := default destination (splitHostPort destination) in
  let defaultMTU := 1500 in
  overhead ← wrap (getTransportOverhead destinationIP);
  let destIsLoopback := hasPrefix (str "127.") destinationIP || bool_decide (destinationIP = str "[::1]") in
  ifaces ← ifaces;
  let common := commonMTU destIsLoopback 0 ifaces in
  mtu ← (if common =? 0 then route destinationIP else Ok common);
  let mtu := if mtu <=? 0 then defaultMTU else mtu in
  Ok (mtu - overhead).

(* ------------------------------------------------------------------ *)
(** * Instances                                                         *)
(* ------------------------------------------------------------------ *)

(** [AddInstance] and [RemoveLastInstance] of both managers: the round of the
    loop whose compare-and-swap succeeds saw the list unchanged since it read
    it, so that the change is one step on the current list. *)
Definition AddInstance {A} (newWorker : A) (oldList : list A) : Z * list A :=
  (len oldList, oldList ++ [newWorker]).
Definition RemoveLastInstance {A} (oldList : list A) : Z * option A * list A :=
  match List.last (map Some oldList) None with
  | None => (0, None, oldList)
  | Some worker => (len oldList - 1, Some worker, take (length oldList - 1) oldList)
  end.

(* ------------------------------------------------------------------ *)
(** * The assembler                                                     *)
(* ------------------------------------------------------------------ *)

Module Packing.

Record ManagerConfig := mkConfig {
  MinQueueCapacity : Z;
  MaxQueueCapacity : Z;
  MinInstanceCount : Z;
  MaxInstanceCount : Z;
  HostID : Z;
  DestinationIP : gostring;
  OverrideMaxPayloadSize : Z;
  MaxPayloadSize : Z;
  CryptoSuiteName : gostring;
  SigSuiteName : gostring;
  cryptoSuiteID : Z;
  sigSuiteID : Z;
  ThrottlingEnabled : bool;
  OutputThrottlingThreshold : Z;
  OutputThrottlingTime : Z
}.

(** Whether [validate] finds no error; the counts are [uint32]. *)
Definition validate (config : ManagerConfig) : bool :=
  negb ((MinQueueCapacity config =? 0) || (MaxQueueCapacity config =? 0) ||
        (MaxQueueCapacity config <=? MinQueueCapacity config) ||
        (MinInstanceCount config =? 0) || (MaxInstanceCount config =? 0) ||
        (MaxInstanceCount config <=? MinInstanceCount config) ||
        bool_decide (DestinationIP config = []) || (HostID config =? 0) ||
        (MaxPayloadSize config =? 0) ||
        bool_decide (CryptoSuiteName config = []) || bool_decide (SigSuiteName config = []) ||
        (ThrottlingEnabled config &&
           ((OutputThrottlingThreshold config =? 0) || (OutputThrottlingTime config =? 0)))).

Definition setHost (config : ManagerConfig) (hostID maxPayloadSize : Z) : ManagerConfig :=
  mkConfig (MinQueueCapacity config) (MaxQueueCapacity config) (MinInstanceCount config)
    (MaxInstanceCount config) hostID (DestinationIP config) (OverrideMaxPayloadSize config)
    maxPayloadSize (CryptoSuiteName config) (SigSuiteName config) (cryptoSuiteID config)
    (sigSuiteID config) (ThrottlingEnabled config) (OutputThrottlingThreshold config)
    (OutputThrottlingTime config).
Definition setSuites (config : ManagerConfig) (crypto sig : Z) : ManagerConfig :=
  mkConfig (MinQueueCapacity config) (MaxQueueCapacity config) (MinInstanceCount config)
    (MaxInstanceCount config) (HostID config) (DestinationIP config) (OverrideMaxPayloadSize config)
    (MaxPayloadSize config) (CryptoSuiteName config) (SigSuiteName config) crypto
    sig (ThrottlingEnabled config) (OutputThrottlingThreshold config) (OutputThrottlingTime config).

Section manager.
Context `{!Prims}.

(** [NewManager], up to the configuration the workers copy; [random] are the
    four bytes of [FourByte], [maxPayload] is what [FindSendingMaxUDPPayload]
    answers. *)
Definition NewManager (config : ManagerConfig) (outbox : bool) (random : res bytes) (maxPayload : res Z)
  : res ManagerConfig :=
  if negb outbox then Err EMsg
  else
    b ← wrap random;
    found ← wrap maxPayload;
    let maxPayloadSize :=
      if negb (OverrideMaxPayloadSize config =? 0) then OverrideMaxPayloadSize config else found in
    let config := setHost config (FourByte b) maxPayloadSize in
    if negb (validate config) then Err (EWrap EMsg)
    else match newQueueInst tt (wrapU 64 (MinQueueCapacity config)) with
    | None => Err EMsg
    | Some _ =>
        match SuiteNameToID (CryptoSuiteName config) with
        | None => Err EMsg
        | Some crypto =>
            match SignatureNameToID (SigSuiteName config) with
            | None => Err EMsg
            | Some sig => Ok (setSuites config crypto sig)
            end
        end
    end.
End manager.

(** [MetricStorage]: [uint64] counters. *)
Record MetricStorage := mkMetrics {
  TotalMessages : Z;
  TotalMsgSizeBytes : Z;
  MaxMsgSizeBytes : Z;
  TotalFragmentCtn : Z;
  MaxFragmentCtn : Z;
  Dropped : Z
}.
Definition countMessage (msgLengthB : Z) (m : MetricStorage) : MetricStorage :=
  mkMetrics (atomicAdd (TotalMessages m) 1) (atomicAdd (TotalMsgSizeBytes m) msgLengthB)
    (if MaxMsgSizeBytes m <? msgLengthB then msgLengthB else MaxMsgSizeBytes m)
    (TotalFragmentCtn m) (MaxFragmentCtn m) (Dropped m).
Definition countFragments (fragmentCount : Z) (m : MetricStorage) : MetricStorage :=
  mkMetrics (TotalMessages m) (TotalMsgSizeBytes m) (MaxMsgSizeBytes m)
    (atomicAdd (TotalFragmentCtn m) fragmentCount)
    (if MaxFragmentCtn m <? fragmentCount then fragmentCount else MaxFragmentCtn m) (Dropped m).
Definition countDropped (m : MetricStorage) : MetricStorage :=
  mkMetrics (TotalMessages m) (TotalMsgSizeBytes m) (MaxMsgSizeBytes m) (TotalFragmentCtn m)
    (MaxFragmentCtn m) (atomicAdd (Dropped m) 1).

(** A worker at work: its counters, the [Push] calls it has made, what it has
    queued and how often it slept to throttle. *)
Record Worker := mkWorker {
  Metrics : MetricStorage;
  pushCalls : nat;
  outbox : list bytes;
  pauses : Z
}.
Definition onMetrics (f : MetricStorage -> MetricStorage) (w : Worker) : Worker :=
  mkWorker (f (Metrics w)) (pushCalls w) (outbox w) (pauses w).

Section worker.
(** [room n]: the [n]-th [Push] of the worker finds room. *)
Context `{!Prims} (room : nat -> bool).

Definition Push (value : bytes) (w : Worker) : bool * Worker :=
  if room (pushCalls w)
  then (true, mkWorker (Metrics w) (S (pushCalls w)) (outbox w ++ [value]) (pauses w))
  else (false, mkWorker (Metrics w) (S (pushCalls w)) (outbox w) (pauses w)).
Fixpoint pushTries (tries : nat) (ok : bool) (value : bytes) (w : Worker) : bool * Worker :=
  match tries with
  | O => (ok, w)
  | S tries => match Push value w with
               | (true, w) => (true, w)
               | (false, w) => pushTries tries false value w
               end
  end.
(** [PushWithRetry]; the result is whether the error is nil. *)
Definition PushWithRetry (value : bytes) (maxRetries : Z) (w : Worker) : bool * Worker :=
  let maxRetries := if maxRetries =? 0 then 1 else maxRetries in
  pushTries (Z.to_nat maxRetries) true value w.

(** The loop over the packets of a message. *)
Fixpoint pushPackets (config : ManagerConfig) (totalPackets : Z) (packets : list bytes) (w : Worker) : Worker :=
  match packets with
  | [] => w
  | packet :: packets =>
      let '(ok, w) := PushWithRetry packet 4 w in
      let w :=
        if negb ok then onMetrics countDropped w
        else if ThrottlingEnabled config && (OutputThrottlingThreshold config <? totalPackets)
        then mkWorker (Metrics w) (pushCalls w) (outbox w) (pauses w + 1) else w in
      pushPackets config totalPackets packets w
  end.

(** A round of [run] on the message that was popped. A copy of its fields goes
    on, and a panic is recovered from. *)
Definition assemble (env : CryptoEnv) (config : ManagerConfig) (r : Randomness) (container : Message)
    (w : Worker) : Worker :=
  let newMsg := mkMessage (mTimestamp container) (mHostname container) (mFields container)
                  (mData container) in
  let w := onMetrics (countMessage (len (mData newMsg))) w in
  match Create env r newMsg (HostID config) (MaxPayloadSize config) (cryptoSuiteID config)
          (sigSuiteID config) with
  | Panic => w
  | Err _ => onMetrics countDropped w
  | Ok packets =>
      let w := onMetrics (countFragments (len packets)) w in
      pushPackets config (len packets) packets w
  end.
Definition assembleAll (env : CryptoEnv) (config : ManagerConfig) (work : list (Randomness * Message))
    (w : Worker) : Worker :=
  foldl (fun w '(r, m) => assemble env config r m w) w work.
End worker.

(** [CollectMetrics] reads and clears every counter; [now] is the time of the
    reading. *)
Definition CollectMetrics (interval : Z) (namespace : list gostring) (now : gotime) (w : Worker)
  : list Metric * Worker :=
  let m := Metrics w in
  let gauge (name description : string) (v : Z) (unit : string) :=
    mkMetric (str name) (str description) namespace (RawUint64 v) (str unit) interval Gauge_ now in
  ([gauge "total_messages"%string "Total received messages in the interval"%string (TotalMessages m) "count"%string;
    gauge "sum_message_size"%string "Total of all message sizes in the interval"%string (TotalMsgSizeBytes m) "bytes"%string;
    gauge "maximum_message_size"%string "Maximum (seen) of all message sizes in the interval"%string
      (MaxMsgSizeBytes m) "bytes"%string;
    gauge "sum_fragments"%string "Total fragments of all messages in the interval"%string (TotalFragmentCtn m) "count"%string;
    gauge "maximum_fragment_count"%string "Maximum (seen) fragment count of all messages in the interval"%string
      (MaxFragmentCtn m) "count"%string;
    mkMetric MTDropped DescDropped namespace (RawUint64 (Dropped m)) (str "count") interval Counter now],
   onMetrics (fun _ => mkMetrics 0 0 0 0 0 0) w).
End Packing.

(* ------------------------------------------------------------------ *)
(** * The output                                                        *)
(* ------------------------------------------------------------------ *)

Module Sending.

Record ManagerConfig := mkConfig {
  MinQueueCapacity : Z;
  MaxQueueCapacity : Z;
  MinInstanceCount : Z;
  MaxInstanceCount : Z;
  hasSourceAddress : bool;
  hasDestAddress : bool
}.
Definition validate (config : ManagerConfig) : bool :=
  negb ((MinQueueCapacity config =? 0) || (MaxQueueCapacity config =? 0) ||
        (MaxQueueCapacity config <=? MinQueueCapacity config) ||
        (MinInstanceCount config =? 0) || (MaxInstanceCount config =? 0) ||
        (MaxInstanceCount config <=? MinInstanceCount config) ||
        negb (hasSourceAddress config) || negb (hasDestAddress config)).
(** [NewManager]: the queue of the manager; [dialed] tells whether the socket
    could be opened. *)
Definition NewManager (config : ManagerConfig) (dialed : bool) : res (QueueInst (V := bytes)) :=
  if negb (validate config) then Err (EWrap EMsg)
  else if negb dialed then Err (EWrap EMsg)
  else match newQueueInst (V := bytes) [] (wrapU 64 (MinQueueCapacity config)) with
  | None => Err EMsg
  | Some queue => Ok queue
  end.

Record MetricStorage := mkMetrics {
  TotalPackets : Z;
  SumPacketBytes : Z;
  MaxPacketBytes : Z;
  Dropped : Z
}.
(** A worker: its counters, the writes it has tried and what went out. *)
Record Worker := mkWorker {
  Metrics : MetricStorage;
  writeCalls : nat;
  wire : list bytes
}.

(** A round of [run] on the fragment that was popped; [written n]: the [n]-th
    write of the socket succeeds. *)
Definition send (written : nat -> bool) (w : Worker) (frag : bytes) : Worker :=
  let m := Metrics w in
  if negb (written (writeCalls w)) then
    mkWorker (mkMetrics (TotalPackets m) (SumPacketBytes m) (MaxPacketBytes m) (atomicAdd (Dropped m) 1))
      (S (writeCalls w)) (wire w)
  else
    let pktLengthB := len frag in
    mkWorker (mkMetrics (atomicAdd (TotalPackets m) 1) (atomicAdd (SumPacketBytes m) pktLengthB)
                (if MaxPacketBytes m <? pktLengthB then pktLengthB else MaxPacketBytes m) (Dropped m))
      (S (writeCalls w)) (wire w ++ [frag]).
Definition sendAll (written : nat -> bool) (frags : list bytes) (w : Worker) : Worker :=
  foldl (send written) w frags.

Definition CollectMetrics (interval : Z) (namespace : list gostring) (now : gotime) (w : Worker)
  : list Metric * Worker :=
  let m := Metrics w in
  let gauge (name description : string) (v : Z) (unit : string) :=
    mkMetric (str name) (str description) namespace (RawUint64 v) (str unit) interval Gauge_ now in
  ([gauge "total_sent_packets"%string "Total packets sent in the interval"%string (TotalPackets m)
      "count"%string;
    gauge "sum_packet_size"%string "Total size of all packets sent in the interval"%string
      (SumPacketBytes m) "bytes"%string;
    gauge "maximum_packet_size"%string
      "Maximum (seen) size across all packets sent in the interval"%string (MaxPacketBytes m)
      "bytes"%string;
    mkMetric MTDropped DescDropped namespace (RawUint64 (Dropped m)) (str "count") interval Counter now],
   mkWorker (mkMetrics 0 0 0 0) (writeCalls w) (wire w)).
End Sending.

(* ------------------------------------------------------------------ *)
(** * Scaling                                                           *)
(* ------------------------------------------------------------------ *)

Definition NSRecv : gostring := str "Receiver".
Definition NSSend : gostring := str "Sender".
Definition NSmOutput : gostring := str "Out".
Definition NSmPack : gostring := str "Packaging".
Definition MTDepth : gostring := str "depth".

(** [scaleAssembler] and [scaleOutput] of [internal/sender/scaling], whose
    code is that of the receiver's [scaleProcessor] after the search: [stage]
    is [NSmPack] or [NSmOutput], [now] and [now'] the clock at its two
    readings. *)
Definition scaleStage `{MO : MapOrder} (stage : gostring) (registry : Metrics.Registry) (interval : Z)
    (now now' : gotime) (availMem : Z) (g : Gauge) (count : Z) (b : Bounds) (capacity : Z) (qb : Bounds)
  : decision * option Z :=
  let metrics := Search MTDepth [NSRecv; stage] (now - pastNIntervals * interval) now' registry in
  scaleProcessor (map metRaw metrics) availMem g count b capacity qb.

(* ------------------------------------------------------------------ *)
(** * File sources                                                      *)
(* ------------------------------------------------------------------ *)

(** [FileSources]: inputs by path, of any type of input; a removed one is
    nil. *)
Abbreviation FileSources I := (gmap gostring (option I)).

(** [AddFileInstance]; [opened] is what [NewInput] and [Start] give. *)
Definition AddFileInstance {I} (filePath : gostring) (opened : res I) (sources : FileSources I)
  : res (FileSources I) :=
  let filename := Base filePath in
  match sources !! filename with
  | Some _ => Err EMsg
  | None =>
      input ← opened;
      Ok (<[filePath := Some input]> sources)
  end.
(** [RemoveFileInstance]; [shutdown] is the method of the input, which panics
    on a nil one. *)
Definition RemoveFileInstance {I} (filename : gostring) (shutdown : I -> res unit) (sources : FileSources I)
  : res (FileSources I) :=
  match sources !! filename with
  | None => Err EMsg
  | Some None => Panic
  | Some (Some input) =>
      _ ← shutdown input;
      Ok (<[filename := None]> sources)
  end.

(* ------------------------------------------------------------------ *)
(** * What the workers do                                               *)
(* ------------------------------------------------------------------ *)

Import Packing.

Lemma atomicAdd_small s v : 0 <= s + v < 2 ^ 64 -> atomicAdd s v = s + v.
Proof. apply wrapU_small. Qed.

Section worker_facts.
Context {prims : Prims} (room : nat -> bool).

(** A push with retries queues the packet once or not at all. *)
Lemma pushTries_spec tries ok value w b w' :
  pushTries room tries ok value w = (b, w') ->
  Packing.Metrics w' = Packing.Metrics w /\ pauses w' = pauses w /\
  ((outbox w' = outbox w ++ [value] /\ b = true) \/ (outbox w' = outbox w /\ (b = true -> ok = true /\ tries = O))).
Proof.
  revert ok w. induction tries as [|tries IH]; intros ok w; cbn [pushTries].
  - intros [= <- <-]. split_and!; [done..|]. right. auto.
  - unfold Push. destruct (room (pushCalls w)).
    + intros [= <- <-]. split_and!; [done..|]. by left.
    + intros H. apply IH in H as (H1 & H2 & [H3|[H3 H4]]); cbn in *; split_and!; auto.
      right. split; [done|]. intros Hb. by destruct (H4 Hb).
Qed.
Lemma PushWithRetry_spec value n w b w' :
  0 < n -> PushWithRetry room value n w = (b, w') ->
  Packing.Metrics w' = Packing.Metrics w /\ outbox w' = outbox w ++ (if b then [value] else []).
Proof.
  intros Hn. unfold PushWithRetry. rewrite (proj2 (Z.eqb_neq _ _)) by lia.
  intros (H1 & _ & [[-> ->]|[-> H]])%pushTries_spec; split; try done.
  destruct b; [destruct (H eq_refl); lia|by rewrite app_nil_r].
Qed.

Lemma pushPackets_spec config total packets w :
  exists kept, sublist kept packets /\
    outbox (pushPackets room config total packets w) = outbox w ++ kept /\
    (Forall (fun n => room n = true) (List.seq (pushCalls w) (length packets)) -> kept = packets) /\
    exists dropped, Packing.Metrics (pushPackets room config total packets w) =
        Nat.iter dropped countDropped (Packing.Metrics w) /\
      (length kept + dropped = length packets)%nat.
Proof.
  revert w. induction packets as [|p packets IH]; intros w; cbn [pushPackets].
  { exists []. rewrite app_nil_r. split_and!; try done. by exists O. }
  destruct (PushWithRetry room p 4 w) as [b w1] eqn:E.
  pose proof (PushWithRetry_spec p 4 w b w1 ltac:(lia) E) as [Hm Ho].
  set (w2 := if negb b then _ else _).
  destruct (IH w2) as (kept & Hs & Hout & Hall & d & Hd & Hl).
  assert (outbox w2 = outbox w ++ (if b then [p] else [])) as Ho2.
  { subst w2. rewrite <- Ho. destruct b; cbn [negb]; [by destruct (_ && _)|done]. }
  exists ((if b then [p] else []) ++ kept). split_and!.
  - destruct b; [by apply sublist_skip|by apply sublist_cons].
  - by rewrite Hout, Ho2, app_assoc.
  - intros H. cbn [length List.seq] in H. apply Forall_cons in H as [H0 H].
    change (pushTries room 4 true p w = (b, w1)) in E. cbn [pushTries] in E. unfold Push at 1 in E.
    rewrite H0 in E. injection E as <- <-.
    cbn [app]. f_equal. apply Hall. subst w2. cbn [negb]. by destruct (_ && _).
  - exists ((if b then 0 else 1) + d)%nat. rewrite Hd. split.
    + destruct b; cbn [Nat.add].
      * subst w2. cbn [negb]. destruct (_ && _); cbn; by rewrite Hm.
      * change (1 + d)%nat with (S d). rewrite Nat.iter_succ_r. subst w2. cbn. by rewrite Hm.
    + rewrite length_app. destruct b; cbn; lia.
Qed.

(** What [assemble] adds: nothing, a drop, or packets of the message. *)
Lemma assemble_spec env config r m w :
  exists kept,
    outbox (assemble room env config r m w) = outbox w ++ kept /\
    match Create env r m (HostID config) (MaxPayloadSize config) (cryptoSuiteID config) (sigSuiteID config) with
    | Panic => kept = [] /\ Packing.Metrics (assemble room env config r m w) =
                 countMessage (len (mData m)) (Packing.Metrics w)
    | Err _ => kept = [] /\ Packing.Metrics (assemble room env config r m w) =
                 countDropped (countMessage (len (mData m)) (Packing.Metrics w))
    | Ok packets => sublist kept packets /\ ((forall n, room n = true) -> kept = packets) /\
        exists dropped, Packing.Metrics (assemble room env config r m w) =
            Nat.iter dropped countDropped
              (countFragments (len packets) (countMessage (len (mData m)) (Packing.Metrics w))) /\
          (length kept + dropped = length packets)%nat
    end.
Proof.
  unfold assemble. cbn [mData].
  replace (mkMessage (mTimestamp m) (mHostname m) (mFields m) (mData m)) with m by by destruct m.
  destruct (Create _ _ _ _ _ _ _) as [packets|e|].
  - set (w1 := onMetrics _ (onMetrics _ w)).
    destruct (pushPackets_spec config (len packets) packets w1) as (kept & Hs & Ho & Hall & d & Hd & Hl).
    exists kept. split_and!; [done|done| |by exists d]. intros Hr. apply Hall, Forall_forall. auto.
  - exists []. by rewrite app_nil_r.
  - exists []. by rewrite app_nil_r.
Qed.

Lemma wrapU_add w a b : wrapU w (wrapU w a + b) = wrapU w (a + b).
Proof. unfold wrapU. by rewrite Zplus_mod_idemp_l. Qed.

Lemma iter_countDropped n m x :
  Packing.Dropped m = wrapU 64 x ->
  Nat.iter n countDropped m =
    Packing.mkMetrics (TotalMessages m) (TotalMsgSizeBytes m) (MaxMsgSizeBytes m) (TotalFragmentCtn m)
      (MaxFragmentCtn m) (wrapU 64 (x + Z.of_nat n)).
Proof.
  intros H. induction n as [|n IH]; [rewrite Z.add_0_r; destruct m; cbn in *; by rewrite H|].
  change (Nat.iter (S n) countDropped m) with (countDropped (Nat.iter n countDropped m)). rewrite IH.
  unfold countDropped, atomicAdd. cbn. rewrite wrapU_add. do 2 f_equal. lia.
Qed.
End worker_facts.

(** What [Create] gives for the messages of a worker: all packets, and how
    many messages it refused. *)
Section work.
Context {prims : Prims} (room : nat -> bool) (env : CryptoEnv) (config : ManagerConfig).

Definition created (m : Randomness * Message) : res (list bytes) :=
  Create env m.1 m.2 (HostID config) (MaxPayloadSize config) (cryptoSuiteID config) (sigSuiteID config).
Definition packetsOf (m : Randomness * Message) : list bytes :=
  match created m with Ok packets => packets | _ => [] end.
Definition refused (m : Randomness * Message) : bool := match created m with Err _ => true | _ => false end.
Definition idle : Worker := mkWorker (Packing.mkMetrics 0 0 0 0 0 0) 0 [] 0.

(** The longest text, and the most packets of a message, of a list of them. *)
Definition longest (f : Randomness * Message -> Z) (work : list (Randomness * Message)) : Z :=
  foldl (fun a x => Z.max a (f x)) 0 work.
Lemma longest_nonneg f work : 0 <= longest f work.
Proof.
  unfold longest. induction work as [|x work IH] using rev_ind; [done|].
  rewrite foldl_app. cbn. lia.
Qed.
Lemma newMax a b : (if a <? b then b else a) = Z.max a b.
Proof. destruct (Z.ltb_spec a b); lia. Qed.

(** C16: a worker accounts for every message and every packet. Of all packets
    that were made of its messages, what is in the queue is a subsequence, in
    the order they were made, and everything if the queue always had room.
    The counters are the numbers of messages, of bytes of their texts and of
    packets that were made, and the dropped packets and refused messages
    together, each modulo 2^64 as the counters wrap, and the largest text and
    the largest number of packets of a message. *)
Theorem packet_accounting (work : list (Randomness * Message)) :
  let w := assembleAll room env config work idle in
  let made := flat_map packetsOf work in
  sublist (outbox w) made /\
  ((forall n, room n = true) -> outbox w = made) /\
  Packing.Metrics w =
    Packing.mkMetrics (wrapU 64 (len work)) (wrapU 64 (sumZ (fun x => len (mData x.2)) work))
      (longest (fun x => len (mData x.2)) work)
      (wrapU 64 (len made)) (longest (fun x => len (packetsOf x)) work)
      (wrapU 64 (len made - len (outbox w) + len (List.filter refused work))).
Proof.
  cbv zeta. induction work as [|[r m] work (IH1 & IH2 & IH3)] using rev_ind; [by vm_compute|].
  pose proof (longest_nonneg (fun x => len (packetsOf x)) work) as Hlg.
  unfold assembleAll, longest in *. rewrite !foldl_app, flat_map_app, List.filter_app, !len_app, sumZ_app.
  cbn [foldl]. set (w := foldl _ idle work) in *.
  destruct (assemble_spec room env config r m w) as (kept & Ho & Hspec). rewrite Ho, len_app, IH3 in *.
  cbn [flat_map List.filter]. rewrite app_nil_r, sumZ_cons, sumZ_nil, Z.add_0_r.
  replace (packetsOf (r, m)) with (match created (r, m) with Ok packets => packets | _ => [] end) by done.
  replace (refused (r, m)) with (match created (r, m) with Err _ => true | _ => false end) by done.
  unfold created in *. cbn [fst snd] in *.
  unfold countFragments, countMessage, atomicAdd in Hspec.
  cbn [TotalMessages TotalMsgSizeBytes MaxMsgSizeBytes TotalFragmentCtn MaxFragmentCtn Packing.Dropped] in Hspec.
  destruct (Create _ _ _ _ _ _ _) as [packets|e|].
  - destruct Hspec as (Hsub & Hall & d & Hd & Hl).
    erewrite iter_countDropped in Hd by reflexivity. rewrite Hd.
    cbn [TotalMessages TotalMsgSizeBytes MaxMsgSizeBytes TotalFragmentCtn MaxFragmentCtn Packing.Dropped]. rewrite !wrapU_add, !newMax.
    split_and!; [by apply sublist_app|intros Hr; by rewrite (IH2 Hr), (Hall Hr)|].
    f_equal. f_equal. unfold len in *. cbn [length]. lia.
  - destruct Hspec as [-> Hm]. rewrite Hm. unfold countDropped, atomicAdd. cbn. rewrite !wrapU_add, newMax.
    rewrite !app_nil_r. split_and!; try done.
    f_equal; unfold len in *; cbn [length]; [f_equal; lia|lia|f_equal; lia].
  - destruct Hspec as [-> Hm]. rewrite Hm. cbn. rewrite !wrapU_add, newMax.
    rewrite !app_nil_r. split_and!; try done.
    f_equal; unfold len in *; cbn [length]; [f_equal; lia|lia|f_equal; lia].
Qed.

Lemma outbox_made (work : list (Randomness * Message)) pkt w :
  pkt ∈ outbox (assembleAll room env config work w) ->
  pkt ∈ outbox w \/ exists r m packets, (r, m) ∈ work /\ created (r, m) = Ok packets /\ pkt ∈ packets.
Proof.
  revert w. induction work as [|[r m] work IH]; intros w Hp; [by left|].
  apply IH in Hp as [Hp|(r' & m' & packets & Hin & Hc & Hp)].
  - destruct (assemble_spec room env config r m w) as (kept & Ho & Hspec). rewrite Ho in Hp.
    apply elem_of_app in Hp as [Hp|Hp]; [by left|]. right. unfold created.
    destruct (Create _ _ _ _ _ _ _) as [packets|e|] eqn:E.
    + exists r, m, packets. destruct Hspec as (Hsub & _). split; [by left|]. split; [exact E|].
      by eapply elem_of_sublist.
    + destruct Hspec as [-> _]. by apply elem_of_nil in Hp.
    + destruct Hspec as [-> _]. by apply elem_of_nil in Hp.
  - right. exists r', m', packets. split; [by right|done].
Qed.
End work.

Lemma sendAll_wire written frags w :
  exists sent, sublist sent frags /\
    Sending.wire (Sending.sendAll written frags w) = Sending.wire w ++ sent /\
    ((forall n, written n = true) -> sent = frags).
Proof.
  revert w. induction frags as [|f frags IH]; intros w; [by exists []; rewrite app_nil_r|].
  destruct (IH (Sending.send written w f)) as (sent & Hs & Hw & Hall).
  unfold Sending.sendAll in *. cbn [foldl]. rewrite Hw. unfold Sending.send.
  destruct (written (Sending.writeCalls w)) eqn:E; cbn [negb Sending.wire].
  - exists (f :: sent). rewrite <- app_assoc. split_and!; [by apply sublist_skip|done|].
    intros Hr. by rewrite Hall.
  - exists sent. split_and!; [by apply sublist_cons|done|]. intros Hr. congruence.
Qed.

(** What a started manager has: an identifier that the protocol takes, from
    the four random bytes. *)
Lemma NewManager_host {prims : Prims} config0 b maxPayload config :
  length b = 4%nat -> NewManager config0 true (Ok b) maxPayload = Ok config ->
  HostID config = FourByte b /\ 0 < HostID config < 2 ^ 32 /\ MaxPayloadSize config <> 0.
Proof.
  intros Hb. unfold NewManager. cbn [negb]. intros H. apply bind_inv in H as (b' & [= <-]%wrap_inv & H).
  apply bind_inv in H as (found & _ & H). set (c := setHost _ _ _) in H.
  destruct (validate c) eqn:Ev; [|done]. cbn [negb] in H.
  destruct (newQueueInst _ _); [|done]. destruct (SuiteNameToID _) as [cs|]; [|done].
  destruct (SignatureNameToID _) as [ss|]; [|done]. injection H as <-.
  change (HostID (setSuites c cs ss)) with (FourByte b).
  change (MaxPayloadSize (setSuites c cs ss)) with (MaxPayloadSize c).
  unfold validate in Ev. apply negb_true_iff in Ev. repeat apply orb_false_elim in Ev as [Ev ?].
  pose proof (be_decode_range b) as Hr. replace (256 ^ len b) with (2 ^ 32) in Hr by (unfold len; by rewrite Hb).
  change (be_decode b) with (FourByte b) in Hr. change (HostID c) with (FourByte b) in *.
  split; [done|]. split; [|by apply Z.eqb_neq]. assert (FourByte b <> 0) by by apply Z.eqb_neq. lia.
Qed.

Section on_the_wire.
Context {prims : Prims} {HL : PrimLaws} {SS : SeqSort} (snd rcv : CryptoEnv) (config : ManagerConfig).

(** A message the protocol can carry, with usable randomness, from a host that
    the receiver knows under [name]. *)
Record sendable (r : Randomness) (m : Message) (name : gostring) : Prop := {
  sendable_rnd : rnd_ok r (cryptoSuiteID config);
  sendable_id : length (rndID r) = 4%nat /\ FourByte (rndID r) <> 0;
  sendable_host : host_ok (mHostname m);
  sendable_fields : fields_ok (mFields m);
  sendable_known : knownAs snd rcv (mHostname m) (sigSuiteID config) name;
  sendable_size : forall packets, created snd config (r, m) = Ok packets -> len packets <= 2 ^ 16
}.

(** C15: what leaves the sender makes sense at the receiver. Whatever the
    output queue and the socket drop, every packet on the wire decodes, with
    the receiver's keys, to a fragment of one of the messages that were handed
    to the worker, under the sender's name and the identifier the manager
    drew, at its position and with its part of the data. When neither of them
    drops anything, the wire carries, in order, the packets of every message
    that [Create] does not refuse, those of a message next to each other, and
    [Extract], given the packets of one of them in any order, returns that
    message. A message that [Create] refuses (an empty one, or one whose
    overhead leaves no room in the payload size) puts nothing on the wire. *)
Theorem wire_carries_messages config0 b maxPayload priv pub room written work :
  length b = 4%nat -> NewManager config0 true (Ok b) maxPayload = Ok config ->
  keyed snd rcv priv pub ->
  (forall r m, (r, m) ∈ work -> exists name, sendable r m name) ->
  let queued := outbox (assembleAll room snd config work idle) in
  let onWire := Sending.wire (Sending.sendAll written queued
                  (Sending.mkWorker (Sending.mkMetrics 0 0 0 0) 0 [])) in
  (forall pkt, pkt ∈ onWire -> exists r m name sig ms i x,
     (r, m) ∈ work /\ sendable r m name /\ extractPacket rcv pkt = Ok x /\
     concat (map Data ms) = mData m /\ ms !! i = Some x /\
     same_message (received (newMessage r m (FourByte b) (sigSuiteID config) sig) (sigSuiteID config) sig name) x /\
     MessageSeq x = Z.of_nat i /\ MessageSeqMax x = len ms - 1) /\
  ((forall n, room n = true) -> (forall n, written n = true) ->
     onWire = flat_map (packetsOf snd config) work /\
     forall r m name packets packets', (r, m) ∈ work -> sendable r m name ->
       created snd config (r, m) = Ok packets -> packets <> [] ->
       length packets = 1%nat \/ fields_comparable (sentFields (mFields m)) -> packets' ≡ₚ packets ->
       (exists before after, onWire = before ++ packets ++ after) /\
       Extract rcv packets' =
         Ok (Some (mkMessage (fromUnixMilli (UnixMilli (mTimestamp m))) name
                     (sentFields (mFields m)) (mData m)), FourByte b)).
Proof.
  intros Hb Hnew Hkey Hsend queued onWire.
  destruct (NewManager_host _ _ _ _ Hb Hnew) as (Ehost & Hhost & _).
  destruct (sendAll_wire written queued (Sending.mkWorker (Sending.mkMetrics 0 0 0 0) 0 []))
    as (sent & Hsub & Hwire & Hall). fold onWire in Hwire. cbn [Sending.wire app] in Hwire. split.
  - intros pkt Hp. rewrite Hwire in Hp. apply (elem_of_sublist _ _ _ Hp) in Hsub.
    apply outbox_made in Hsub as [Hno|(r & m & packets & Hin & Hc & Hpkt)]; [by apply elem_of_nil in Hno|].
    destruct (Hsend _ _ Hin) as [name [Hr [Hid1 Hid2] Hh Hf Hk Hs]].
    pose proof (Hs _ Hc) as Hlen. unfold created in Hc. cbn [fst Datatypes.snd] in Hc.
    destruct (Create_transit snd rcv priv pub r m (HostID config) (MaxPayloadSize config)
      (cryptoSuiteID config) (sigSuiteID config) name packets) as (sig & ms & Hms & Hd & Hfr); try done.
    apply list_elem_of_lookup in Hpkt as [i Hi].
    destruct (Forall2_lookup_l _ _ _ _ _ Hms Hi) as (x & Hx & Hex).
    destruct (Hfr _ _ Hx) as (Hsame & Hmax & Hseq). rewrite Ehost in Hsame.
    exists r, m, name, sig, ms, i, x. split_and!; done.
  - intros Hroom Hwr. rewrite Hwire, (Hall Hwr). unfold queued.
    enough (outbox (assembleAll room snd config work idle) = flat_map (packetsOf snd config) work) as ->.
    { split; [done|]. intros r m name packets packets' Hin [Hr [Hid1 Hid2] Hh Hf Hk Hs] Hc Hne Hcmp Hperm.
      split.
      - apply list_elem_of_split in Hin as (w1 & w2 & ->). rewrite flat_map_app. cbn [flat_map].
        unfold packetsOf at 2. rewrite Hc. by eexists _, _.
      - unfold created in Hc. cbn [fst Datatypes.snd] in Hc. rewrite <- Ehost.
        destruct (Create_transit snd rcv priv pub r m (HostID config) (MaxPayloadSize config)
          (cryptoSuiteID config) (sigSuiteID config) name packets) as (sig & ms & Hms & Hd & Hfr);
          try done; [by apply Hs|].
        by apply (Extract_transit rcv (received (newMessage r m (HostID config) (sigSuiteID config) sig)
          (sigSuiteID config) sig name) name _ packets packets' ms). }
    clear -Hroom. enough (forall w, outbox (assembleAll room snd config work w) =
      outbox w ++ flat_map (packetsOf snd config) work) as H by apply (H idle).
    induction work as [|[r m] work IH]; intros w; [by rewrite app_nil_r|].
    unfold assembleAll in *. cbn [foldl flat_map]. rewrite IH, app_assoc. f_equal.
    destruct (assemble_spec room snd config r m w) as (kept & -> & Hspec). f_equal.
    unfold packetsOf, created. cbn [fst Datatypes.snd].
    destruct (Create _ _ _ _ _ _ _); [by apply Hspec|by apply Hspec..].
Qed.
End on_the_wire.

(* ------------------------------------------------------------------ *)
(** * Sizes, scaling and file sources                                   *)
(* ------------------------------------------------------------------ *)

(** The interfaces that are not loopback all have the MTU [mtu]. *)
Lemma commonMTU_same mtu ifaces common :
  0 < mtu -> Forall (fun i => isLoopback i = false -> MTU i = mtu) ifaces ->
  common = 0 \/ common = mtu ->
  commonMTU false common ifaces = 0 \/ commonMTU false common ifaces = mtu.
Proof.
  intros Hm H. revert common. induction H as [|i ifaces Hi _ IH]; intros common Hc; [done|].
  cbn [commonMTU]. rewrite andb_false_r. destruct (isLoopback i); [by apply IH|].
  rewrite (Hi eq_refl). destruct (Z.eqb_spec common 0); [apply IH; auto|].
  destruct (Z.eqb_spec common mtu); [by apply IH|]. lia.
Qed.

(** Packets fit: a packet no longer than the payload size, with the headers of
    its transport, fits in the MTU when all interfaces but the loopback ones,
    and the route, have that MTU and the destination is an address. *)
Lemma payload_fits splitHostPort ifaces route destination mtu max :
  0 < mtu -> Forall (fun i => isLoopback i = false -> MTU i = mtu) ifaces ->
  (forall d, route d = Ok mtu) ->
  FindSendingMaxUDPPayload splitHostPort (Ok ifaces) route destination = Ok max ->
  hasPrefix (str "127.") (default destination (splitHostPort destination)) = false ->
  default destination (splitHostPort destination) <> str "[::1]" ->
  max = mtu - (if contains [colonByte] (default destination (splitHostPort destination)) then 88 else 68).
Proof.
  intros Hm Hi Hr H Hp Hb. unfold FindSendingMaxUDPPayload in H.
  apply bind_inv in H as (overhead & Ho%wrap_inv & H). cbn [mbind res_bind] in H.
  rewrite Hp, (bool_decide_eq_false_2 _ Hb) in H. cbn [orb] in H.
  apply bind_inv in H as (m & Hm' & [= <-]).
  assert (m = mtu) as ->.
  { destruct (commonMTU_same mtu ifaces 0 Hm Hi (or_introl eq_refl)) as [E|E]; rewrite E in Hm'.
    - rewrite Hr in Hm'. cbn in Hm'. congruence.
    - rewrite (proj2 (Z.eqb_neq _ _)) in Hm' by lia. congruence. }
  rewrite (proj2 (Z.leb_gt _ _)) by lia. unfold getTransportOverhead in Ho. f_equal.
  destruct (contains [colonByte] _); [by injection Ho as <-|].
  destruct (contains _ _); [by injection Ho as <-|done].
Qed.

Lemma split_first sep h (l : list gostring) : sep ∉ h -> exists rest, split sep (join [sep] (h :: l)) = h :: rest.
Proof.
  intros Hh. destruct l as [|x l]; [exists []; by rewrite split_absent|].
  change (join [sep] (h :: x :: l)) with (h ++ sep :: join [sep] (x :: l)).
  rewrite split_app by done. by eexists.
Qed.

(** The sender's scaler looks for the receiver's metrics: whatever the sender
    has collected, under the name spaces of its own components, it finds
    nothing and decides nothing. *)
Theorem sender_scaling_blind `{MO : MapOrder} stage interval retention ticks scaleInterval now now' mem g count b capacity qb :
  (forall ts m, m ∈ writtenIn interval retention 0 ticks ts -> exists ns, metNamespace m = NSSend :: ns) ->
  scaleStage stage (collected interval retention ticks) scaleInterval now now' mem g count b capacity qb
    = (NoChange, None).
Proof.
  intros Hns. unfold scaleStage, scaleProcessor. destruct (atLimit count b); [done|].
  set (found := Search _ _ _ _ _). enough (found = []) as -> by done.
  destruct found as [|m found'] eqn:E; [done|exfalso]. subst found.
  assert (m ∈ Search MTDepth [NSRecv; stage] (now - pastNIntervals * scaleInterval) now'
    (collected interval retention ticks)) as Hm by (rewrite E; by left).
  unfold Search in Hm. apply elem_of_flat_map in Hm as (ts & _ & Hm).
  destruct (_ !! ts) as [slice|] eqn:Es; [|by apply elem_of_nil in Hm].
  apply elem_of_sliceResults in Hm as (ns & n & Hs & Hpre & _).
  assert (lastWith ns n (writtenIn interval retention 0 ticks ts) = Some m) as Hl.
  { rewrite <- storedAt_collected. unfold storedAt. by rewrite Es. }
  destruct (lastWith_elem _ _ _ _ Hl) as [Hin Hk]. destruct (Hns _ _ Hin) as [rest Er].
  unfold metKey in Hk. rewrite Er in Hk. injection Hk as <- _.
  destruct (split_first slash NSSend rest) as [rest' Hh]; [by apply (bool_decide_unpack _)|].
  fold (joinNS (NSSend :: rest)) in Hh. rewrite Hh in Hpre. by apply prefix_cons_inv_1 in Hpre.
Qed.

(** An input for a file in a directory is looked for under its name and stored
    under its path: a second input for the same file is not refused, and
    replaces the first without stopping it; and an input that is removed twice
    panics. *)
Example same_file_twice :
  let path := str "/var/log/syslog" in
  (sources ← AddFileInstance path (Ok 1%nat) ∅;
   again ← AddFileInstance path (Ok 2%nat) sources;
   Ok (sources !! path, again !! path)) = Ok (Some (Some 1%nat), Some (Some 2%nat)).
Proof. by vm_compute. Qed.
Example removed_twice :
  let path := str "/var/log/syslog" in
  (sources ← RemoveFileInstance path (fun _ : nat => Ok tt) {[ path := Some 1%nat ]};
   again ← RemoveFileInstance path (fun _ => Ok tt) sources;
   Ok (again !! path)) = Panic.
Proof. by vm_compute. Qed.

(* ------------------------------------------------------------------ *)
(** * A run                                                             *)
(* ------------------------------------------------------------------ *)

Definition exampleConfig0 : ManagerConfig :=
  Packing.mkConfig 2048 8192 1 4 0 (str "192.0.2.1") 200 0 DefaultCryptoName (str "ed25519") 0 0 true 1 (10 ^ 6).
Definition exampleConfig : ManagerConfig := setSuites (setHost exampleConfig0 77 200) 1 1.
Definition exampleWorkload : list (Randomness * Message) := [(exampleRandomness, exampleMessage)].
(** The second push of the worker finds the queue full, as do its retries. *)
Definition fullAfterOne (n : nat) : bool := bool_decide (n = O).

Lemma exampleMessage_sendable :
  sendable exampleSender exampleReceiver exampleConfig exampleRandomness exampleMessage (str "web1").
Proof.
  constructor.
  - apply exampleRandomness_ok.
  - by vm_compute.
  - by vm_compute.
  - split; [|by vm_compute; repeat constructor; set_solver]. apply map_Forall_singleton. by vm_compute.
  - apply (knownPinned _ _ _ toySigKey); by vm_compute.
  - intros packets H. vm_compute in H. injection H as <-. by vm_compute.
Qed.
Lemma exampleWorkload_sendable r m :
  (r, m) ∈ exampleWorkload -> exists name, sendable exampleSender exampleReceiver exampleConfig r m name.
Proof. intros [= -> ->]%list_elem_of_singleton. eexists. apply exampleMessage_sendable. Qed.

(** A full queue drops the second packet; and with room, what is on the wire
    is the message, in whatever order its packets arrive. *)
Lemma wire_carries_messages_witness :
  (let w := assembleAll fullAfterOne exampleSender exampleConfig exampleWorkload idle in
   exists (pkt : bytes) (x : Payload),
     pkt ∈ outbox w /\ Packing.Dropped (Packing.Metrics w) = 1 /\
     extractPacket exampleReceiver pkt = Ok x /\ Hostname x = str "web1") /\
  Extract (SS := stableSort) exampleReceiver (rev examplePackets) =
    Ok (Some (mkMessage 1700000000123000000 (str "web1") {[ str "pid" := VInt64 42 ]}
                (str "kernel: eth0: link is up")), 77).
Proof.
  split.
  - destruct (wire_carries_messages (SS := stableSort) exampleSender exampleReceiver exampleConfig exampleConfig0
      (map z2b [0; 0; 0; 77]) (Ok 1432) (toyKey 9) (toyPub (toyKey 9)) fullAfterOne (fun _ => true)
      exampleWorkload eq_refl ltac:(by vm_compute) ltac:(by vm_compute) exampleWorkload_sendable) as [H _].
    destruct (H (hd [] examplePackets)) as (r & m & name & sig & ms & i & x & Hin & _ & Hx & _ & _ & Hsame & _).
    { vm_compute. by left. }
    exists (hd [] examplePackets), x. split; [vm_compute; by left|]. split; [by vm_compute|].
    split; [exact Hx|]. vm_compute in Hx. by injection Hx as <-.
  - etransitivity.
    + eapply (wire_carries_messages (SS := stableSort) exampleSender exampleReceiver exampleConfig exampleConfig0
        (map z2b [0; 0; 0; 77]) (Ok 1432) (toyKey 9) (toyPub (toyKey 9)) (fun _ => true) (fun _ => true)
        exampleWorkload eq_refl ltac:(by vm_compute) ltac:(by vm_compute) exampleWorkload_sendable);
        [done|done|by left|apply exampleMessage_sendable|by vm_compute|by vm_compute| |].
      * right. change (sentFields _) with ({[ str "pid" := VInt64 42 ]} : gmap gostring goval).
        by apply map_Forall_singleton.
      * symmetry. apply Permutation_rev.
    + by vm_compute.
Defined.
