(* ===== verification/IoModules.v ===== *)
(** What the input and output modules share ([internal/iomodules/consts.go],
    [internal/iomodules/syslog/lookup.go]), and the small ones: the generic
    module ([internal/iomodules/generic]), the program's own log events as
    messages ([internal/iomodules/internallogger/conversion.go]) and desktop
    notifications ([internal/iomodules/dbusnotify/format.go]). *)
From S2P Require Import Output Payload Packets.
From S2P Require Import Prelude Text Registry Context Consts Filtering Size NetAddr GoStrings.

(* ------------------------------------------------------------------ *)
(** * Syslog tables                                                     *)
(* ------------------------------------------------------------------ *)

Definition facilities : list (gostring * Z) :=
  [(str "kern", 0); (str "user", 1); (str "mail", 2); (str "daemon", 3); (str "auth", 4);
   (str "syslog", 5); (str "lpr", 6); (str "news", 7); (str "uucp", 8); (str "cron", 9);
   (str "authpriv", 10); (str "ftp", 11); (str "local0", 16); (str "local1", 17); (str "local2", 18);
   (str "local3", 19); (str "local4", 20); (str "local5", 21); (str "local6", 22); (str "local7", 23)].
Definition severities : list (gostring * Z) :=
  [(str "emerg", 0); (str "alert", 1); (str "crit", 2); (str "err", 3); (str "warning", 4);
   (str "notice", 5); (str "info", 6); (str "debug", 7)].

(** The maps from names to codes, and the reverse maps that [init] fills;
    codes are unique, so that the order of that loop does not matter. *)
Definition nameToCode (table : list (gostring * Z)) : gmap gostring Z := list_to_map table.
Definition codeToName (table : list (gostring * Z)) : gmap Z gostring :=
  list_to_map (map (fun kv => (kv.2, kv.1)) (map_to_list (nameToCode table))).
Definition lookupCode (table : list (gostring * Z)) (name : gostring) : res Z :=
  match nameToCode table !! name with Some code => Ok code | None => Err EMsg end.
Definition lookupName (table : list (gostring * Z)) (code : Z) : res gostring :=
  match codeToName table !! code with Some name => Ok name | None => Err EMsg end.
Definition FacilityToCode : gostring -> res Z := lookupCode facilities.
Definition SeverityToCode : gostring -> res Z := lookupCode severities.
Definition CodeToFacility : Z -> res gostring := lookupName facilities.
Definition CodeToSeverity : Z -> res gostring := lookupName severities.

(* ------------------------------------------------------------------ *)
(** * Messages from sources                                             *)
(* ------------------------------------------------------------------ *)

Definition DefaultFacility : gostring := str "daemon".
Definition DefaultSeverity : gostring := str "info".
Definition CtxKey : gostring := str "SourceSink".
Definition CFnamespace : gostring := str "Namespace".
Definition ProgBaseName : gostring := str "sdsyslog".

(** A source notes itself in its messages, and drops what a filter matches. *)
Definition withSource (source : gostring) (m : Message) : Message :=
  mkMessage (mTimestamp m) (mHostname m) (<[CtxKey := VString source]> (mFields m)) (mData m).
Definition dropped (sprint : goval -> gostring) (filters : list MessageFilter) (msg : Message) : bool :=
  existsb (fun filter => matchMessage sprint filter msg) filters.

(** The four fields every source gives its messages. *)
Definition sourceFields (appname : gostring) (processid : Z) (facility severity : gostring)
  : gmap gostring goval :=
  <[CFappname := VString appname]> (<[CFprocessid := VInt processid]>
    (<[CFfacility := VString facility]> {[ CFseverity := VString severity ]})).

(* ------------------------------------------------------------------ *)
(** * The generic module                                                *)
(* ------------------------------------------------------------------ *)

(** [read]'s rounds: what is left to read, the lines read and the queued
    messages. The push waits for room. *)
Record RawInput := mkRaw { rawSink : bytes; completeReads : Z; rawOutbox : list Message }.
(** The message of a line; [now] is the time it was read. *)
Definition rawMessage (localHostname : gostring) (pid : Z) (now : gotime) (line : bytes) : Message :=
  mkMessage now localHostname
    (<[CtxKey := VString (str "Raw")]> (sourceFields ProgBaseName pid DefaultFacility DefaultSeverity))
    (replaceAll [newline] [] line).
(** At the end of the input, what [ReadBytes] returns without a newline is
    thrown away. *)
Definition rawRound (localHostname : gostring) (pid : Z) (now : gotime) (m : RawInput) : RawInput :=
  match cutAt newline (rawSink m) with
  | (_, None) => mkRaw [] (completeReads m) (rawOutbox m)
  | (line, Some rest) =>
      mkRaw rest (completeReads m + 1)
        (rawOutbox m ++ [rawMessage localHostname pid now (line ++ [newline])])
  end.
(** [Write]: the bytes given to the sink. *)
Definition rawWrite (data : bytes) : bytes :=
  if (len data =? 0) || negb (hasSuffix [newline] data) then data ++ [newline] else data.

(* ------------------------------------------------------------------ *)
(** * The program's own log events                                      *)
(* ------------------------------------------------------------------ *)

(** [logctx.Event] *)
Record Event := mkEvent {
  evTimestamp : gotime;
  evSeverity : gostring;
  evTags : list gostring;
  evMessage : gostring
}.
Definition syslogSeverity (severity : gostring) : gostring :=
  if bool_decide (severity = str "Fatal") then str "crit"
  else if bool_decide (severity = str "Error") then str "err"
  else if bool_decide (severity = str "Warn") then str "warning"
  else if bool_decide (severity = str "Info") then str "info"
  else str "debug".
(** [hostname] is what [os.Hostname] gives, [pid] is [os.Getpid()]. *)
Definition loggerToProtocolMessage (hostname : res gostring) (pid : Z) (event : Event) : res Message :=
  hostname ← hostname;
  Ok (mkMessage (evTimestamp event) hostname
        (<[CtxKey := VString (str "Logctx")]>
          (<[CFnamespace := VString (join (str "/") (evTags event))]>
            (sourceFields ProgBaseName pid DefaultFacility (syslogSeverity (evSeverity event)))))
        (evMessage event)).
(** The address [::ffff:0:0:0:1]. *)
Definition simAddr : Addr := AddrV6 [0; 0; 0; 65535; 0; 0; 0; 1] [].
(** [newMessageID] are the bytes of [FourByte]. *)
Definition loggerToProtocolPayload (hostname : res gostring) (pid : Z) (event : Event) (hostID : Z)
    (newMessageID : res bytes) : res Payload :=
  msg ← loggerToProtocolMessage hostname pid event;
  newMessageID ← wrap newMessageID;
  Ok (mkPayload simAddr hostID (FourByte newMessageID) 0 0 (mTimestamp msg) (mHostname msg) 0 []
        (mFields msg) (mData msg) 23).

(* ------------------------------------------------------------------ *)
(** * Notifications                                                     *)
(* ------------------------------------------------------------------ *)

(** [notification]; the constant parts are left out. *)
Record notification := mkNotification {
  nAppname : gostring;
  nSummary : gostring;
  nBody : gostring;
  nUrgency : Z;
  nCategory : gostring
}.
(** The type assertions to [string]. *)
Definition textOr (fields : gmap gostring goval) (key default_ : gostring) : res gostring :=
  match fields !! key with
  | Some (VString s) => Ok s
  | Some _ => Err EMsg
  | None => Ok default_
  end.
Definition urgency (severityCode : Z) : Z :=
  if severityCode <=? 2 then 2 else if severityCode <=? 4 then 1 else 0.
Definition formatAsNotification (pid : Z) (msg : Payload) : res notification :=
  appname ← textOr (CustomFields msg) CFappname (str "-");
  severity ← textOr (CustomFields msg) CFseverity DefaultSeverity;
  facility ← textOr (CustomFields msg) CFfacility DefaultFacility;
  procID ← (match CustomFields msg !! CFprocessid with
            | Some (VInt64 procIDnum) => Ok (FormatInt procIDnum)
            | Some _ => Err EMsg
            | None => Ok (FormatInt pid)
            end);
  severityCode ← wrap (SeverityToCode severity);
  Ok (mkNotification (appname ++ str " (" ++ ProgBaseName ++ str ")")
        (appname ++ str "[" ++ procID ++ str "]" ++ str " - " ++ severity)
        (Data msg) (urgency severityCode) (ProgBaseName ++ str "." ++ facility ++ str ".alert")).

(* ------------------------------------------------------------------ *)
(** * The tables                                                        *)
(* ------------------------------------------------------------------ *)

Lemma table_inverse table name code :
  NoDup (map fst table) -> NoDup (map snd table) ->
  lookupCode table name = Ok code <-> lookupName table code = Ok name.
Proof.
  intros Hf Hs. unfold lookupCode, lookupName.
  assert (nameToCode table !! name = Some code <-> (name, code) ∈ table) as Hn
    by (symmetry; by apply elem_of_list_to_map).
  assert (codeToName table !! code = Some name <-> (name, code) ∈ table) as Hc.
  { pose proof (map_to_list_to_map (M := gmap gostring) table Hf) as Hp.
    unfold codeToName. rewrite <- elem_of_list_to_map.
    - unfold nameToCode. change map with (@fmap list _). rewrite Hp. rewrite list_elem_of_fmap. split.
      + by intros ([n c] & [= -> ->] & H).
      + intros H. by exists (name, code).
    - unfold nameToCode. change map with (@fmap list _). rewrite Hp, <- list_fmap_compose. exact Hs. }
  destruct (nameToCode table !! name) as [c|], (codeToName table !! code) as [n|];
    (split; intros E; try done; injection E as ->).
  - destruct Hn as [Hn _], Hc as [_ Hc]. specialize (Hc (Hn eq_refl)). congruence.
  - destruct Hc as [Hc _], Hn as [_ Hn]. specialize (Hn (Hc eq_refl)). congruence.
  - destruct Hn as [Hn _], Hc as [_ Hc]. by specialize (Hc (Hn eq_refl)).
  - destruct Hc as [Hc _], Hn as [_ Hn]. by specialize (Hn (Hc eq_refl)).
Qed.
(** Names and codes of severities and facilities are inverse to each other. *)
Lemma severity_roundtrip name code : SeverityToCode name = Ok code <-> CodeToSeverity code = Ok name.
Proof. apply table_inverse; apply (bool_decide_unpack _); by vm_compute. Qed.
Lemma facility_roundtrip name code : FacilityToCode name = Ok code <-> CodeToFacility code = Ok name.
Proof. apply table_inverse; apply (bool_decide_unpack _); by vm_compute. Qed.

(* ------------------------------------------------------------------ *)
(** * Lines                                                             *)
(* ------------------------------------------------------------------ *)

Lemma replaceFrom_other n k c s :
  k <> c -> replaceFrom [c] n O (k :: s) = k :: replaceFrom [c] n O s.
Proof. intros Hk. cbn [replaceFrom hasPrefix]. by rewrite bool_decide_eq_false_2. Qed.
Lemma replaceAll_newlines line : newline ∉ line -> replaceAll [newline] [] (line ++ [newline]) = line.
Proof.
  unfold replaceAll. induction line as [|c line IH]; [done|]. intros H.
  apply not_elem_of_cons in H as [H1 H2]. cbn [app]. rewrite replaceFrom_other by congruence. by rewrite IH.
Qed.

Lemma rawRound_line localHostname pid now line rest n out :
  newline ∉ line ->
  rawRound localHostname pid now (mkRaw ((line ++ [newline]) ++ rest) n out) =
    mkRaw rest (n + 1)
      (out ++ [mkMessage now localHostname
                 (<[CtxKey := VString (str "Raw")]>
                    (sourceFields ProgBaseName pid DefaultFacility DefaultSeverity)) line]).
Proof.
  intros H. unfold rawRound. cbn [rawSink]. rewrite <- app_assoc. cbn [app].
  rewrite cutAt_app by done. unfold rawMessage. by rewrite replaceAll_newlines.
Qed.

(** The generic input queues every line that ends in a newline, in order and
    without it; bytes after the last newline are lost at the end of the
    input. *)
Lemma raw_lines_read localHostname pid (lines : list (gotime * bytes)) last_ now n out :
  Forall (fun l => newline ∉ l.2) lines -> newline ∉ last_ ->
  rawRound localHostname pid now
    (foldl (fun m now => rawRound localHostname pid now m)
       (mkRaw (concat (map (fun l => l.2 ++ [newline]) lines) ++ last_) n out) (map fst lines)) =
  mkRaw [] (n + len lines)
    (out ++ map (fun l => mkMessage l.1 localHostname
                   (<[CtxKey := VString (str "Raw")]>
                      (sourceFields ProgBaseName pid DefaultFacility DefaultSeverity)) l.2) lines).
Proof.
  intros H Hlast. revert n out. induction H as [|[t l] lines Hl _ IH]; intros n out.
  - cbn [map concat foldl app]. unfold rawRound. cbn [rawSink]. rewrite cutAt_none by done.
    cbn [completeReads rawOutbox]. by rewrite app_nil_r, len_nil, Z.add_0_r.
  - cbn [map concat foldl fst snd] in *. rewrite <- app_assoc, rawRound_line, IH by done.
    rewrite len_cons, <- app_assoc. f_equal. lia.
Qed.

(* ------------------------------------------------------------------ *)
(** * Notifications of messages                                         *)
(* ------------------------------------------------------------------ *)

(** The receiver's own log events never appear as notifications. Their
    process identifier is an [int], the value [os.Getpid] gives, while the
    notification wants the [int64] that values have after the wire; with a
    desktop notification as an output every event of the receiver is an
    error instead. *)
Theorem own_events_not_notified hostname pid event hostID id p :
  loggerToProtocolPayload hostname pid event hostID id = Ok p ->
  formatAsNotification pid p = Err EMsg.
Proof.
  unfold loggerToProtocolPayload, loggerToProtocolMessage.
  destruct hostname as [h| |]; [|done..]. destruct id as [b| |]; [|done..]. cbn. intros [= <-]. done.
Qed.

Lemma own_events_not_notified_witness :
  let event := mkEvent 0 (str "Warn") [str "Receiver"] (str "queue full") in
  let sent := loggerToProtocolPayload (Ok (str "host")) 42 event 7 (Ok [z2b 1; z2b 2; z2b 3; z2b 4]) in
  match sent with
  | Ok p => Data p = str "queue full" /\ formatAsNotification 42 p = Err EMsg
  | _ => False
  end.
Proof.
  intros event sent. split; [reflexivity|].
  apply (own_events_not_notified (Ok (str "host")) 42 event 7 (Ok [z2b 1; z2b 2; z2b 3; z2b 4])). reflexivity.
Defined.

(** Keys that travel unchanged. *)
Definition plainKeys (m : gmap gostring goval) : Prop := map_Forall (fun k _ => cleanKey k = k) m.

Lemma plainKeys_distinct m : plainKeys m -> keys_distinct m.
Proof.
  intros H. unfold keys_distinct.
  replace (map _ (map_to_list m)) with (map_to_list m).*1; [apply NoDup_fst_map_to_list|].
  assert (forall kv, kv ∈ map_to_list m -> cleanKey kv.1 = kv.1) as Hk.
  { intros [k v] Hin. apply elem_of_map_to_list in Hin. by apply (H k v). }
  revert Hk. induction (map_to_list m) as [|[k v] l IH]; intros Hk; [done|].
  cbn. pose proof (Hk (k, v) ltac:(by left)) as E. cbn in E. rewrite E. f_equal. apply IH. intros kv Hin. apply Hk. by right.
Qed.
Lemma sentFields_lookup m k v :
  plainKeys m -> m !! k = Some v -> sentFields m !! k = Some (sentValue v).
Proof.
  intros H Hk. pose proof (plainKeys_distinct m H) as Hd. unfold sentFields.
  apply elem_of_list_to_map_1.
  - unfold keys_distinct in Hd. change (@fmap list _ _ _ fst) with (@map (bytes * goval) bytes fst).
    rewrite map_map. erewrite map_ext; [exact Hd|]. by intros [].
  - apply list_elem_of_fmap. exists (k, v). split; [|by apply elem_of_map_to_list].
    pose proof (H k v Hk) as E. cbn in E. cbn. by rewrite E.
Qed.

(** What a notification says of a message that came from a source: the four
    fields as they arrive, and the urgency of its severity. *)
Lemma severity_name_arrives sev code :
  SeverityToCode sev = Ok code -> orEmptyChar (cleanBytes sev) = sev /\ 0 <= code <= 7.
Proof.
  unfold SeverityToCode, lookupCode, nameToCode. destruct (list_to_map severities !! sev) as [c|] eqn:E; [|done].
  intros [= <-]. apply elem_of_list_to_map_2 in E.
  assert (Forall (fun nc => orEmptyChar (cleanBytes nc.1) = nc.1 /\ 0 <= nc.2 <= 7) severities) as H
    by (repeat (apply Forall_cons; split); try done; vm_compute; repeat split; by try discriminate).
  rewrite Forall_forall in H. exact (H _ E).
Qed.
Lemma arrived_notified pid (m : Message) (p : Payload) a z f sev code :
  plainKeys (mFields m) -> CustomFields p = sentFields (mFields m) ->
  mFields m !! CFappname = Some (VString a) -> mFields m !! CFprocessid = Some (VInt z) ->
  mFields m !! CFfacility = Some (VString f) -> mFields m !! CFseverity = Some (VString sev) ->
  SeverityToCode sev = Ok code ->
  formatAsNotification pid p =
    let a := orEmptyChar (cleanBytes a) in
    Ok (mkNotification (a ++ str " (sdsyslog)") (a ++ str "[" ++ FormatInt z ++ str "] - " ++ sev)
          (Data p) (urgency code) (str "sdsyslog." ++ orEmptyChar (cleanBytes f) ++ str ".alert")).
Proof.
  intros Hk Hp Ha Hz Hf Hs Hc. unfold formatAsNotification, textOr. rewrite Hp.
  rewrite (sentFields_lookup _ _ _ Hk Ha), (sentFields_lookup _ _ _ Hk Hz),
    (sentFields_lookup _ _ _ Hk Hf), (sentFields_lookup _ _ _ Hk Hs).
  cbn [sentValue wireValue mbind res_bind].
  destruct (severity_name_arrives _ _ Hc) as [-> _]. rewrite Hc. reflexivity.
Qed.
