(* ===== verification/Journal.v ===== *)
(** The systemd journal as an input and as an output
    ([internal/iomodules/journald/{field,parsing,read,state,write}.go]).

    A pipe or a request body is the list of its bytes. *)
From S2P Require Import Output Payload.
From S2P Require Import Prelude Text Registry Context Consts Filtering Size NetAddr GoStrings IoModules.

(* ------------------------------------------------------------------ *)
(** * Reading the export format                                         *)
(* ------------------------------------------------------------------ *)

Definition equalsByte : byte := z2b 61.
(** [binary.LittleEndian.Uint64] *)
Definition le_decode (b : bytes) : Z := be_decode (reverse b).
Definition le_encode (n : nat) (v : Z) : bytes := reverse (be_encode n v).
(** The limit on binary fields, 10 MB. *)
Definition maxBinaryField : Z := 1024 * 1024 * 10.

Abbreviation journalFields := (gmap gostring gostring).

(** [io.ReadFull] into [n] bytes, and what is left: a pipe that ends before
    them is used up. *)
Definition readFullPipe (n : Z) (reader : bytes) : option bytes * bytes :=
  if len reader <? n then (None, []) else (Some (take (Z.to_nat n) reader), drop (Z.to_nat n) reader).
(** The value of a binary field: its length, its bytes and a newline. *)
Definition readBinaryField (reader : bytes) : res bytes * bytes :=
  match readFullPipe 8 reader with
  | (None, reader) => (Err (EWrap EMsg), reader)
  | (Some lenField, reader) =>
      let size := le_decode lenField in
      if maxBinaryField <? size then (Err EMsg, reader)
      else match readFullPipe size reader with
      | (None, reader) => (Err (EWrap EMsg), reader)
      | (Some data, []) => (Err EMsg, [])
      | (Some data, b :: reader) =>
          if negb (bool_decide (b = newline)) then (Err EMsg, reader) else (Ok data, reader)
      end
  end.

(** [extractEntry] on what is left in the pipe, and what is left after it;
    every round takes at least a newline. At the end of the pipe the fields
    read so far are returned. *)
Fixpoint extractFrom (fuel : nat) (reader : bytes) (fields : journalFields) : res journalFields * bytes :=
  match fuel with
  | O => (Ok fields, reader)
  | S fuel =>
      match cutAt newline reader with
      | (_, None) => (Ok fields, [])
      | (line, Some reader) =>
          if bool_decide (line = []) then
            (if bool_decide (fields = ∅) then Err EMsg else Ok fields, reader)
          else match cutAt equalsByte line with
          | (key, Some value) => extractFrom fuel reader (<[key := value]> fields)
          | (key, None) =>
              match readBinaryField reader with
              | (Ok data, reader) => extractFrom fuel reader (<[key := data]> fields)
              | (Err e, reader) => (Err e, reader)
              | (Panic, reader) => (Panic, reader)
              end
          end
      end
  end.
Definition extractEntry (reader : bytes) : res journalFields * bytes :=
  extractFrom (S (length reader)) reader ∅.

(* ------------------------------------------------------------------ *)
(** * Messages from entries                                             *)
(* ------------------------------------------------------------------ *)

Definition FieldTruncationSuffix : gostring := str "[...TRUNCATED]".
Definition MaxTruncatedFieldLen : Z := MaxCtxValLen - len FieldTruncationSuffix.
Definition permittedJournalFields : list gostring :=
  [str "_EXE"; str "_COMM"; str "_CMDLINE"; str "_UID"; str "_GID"].

(** The first of the keys that is a field. *)
Fixpoint firstField (fields : journalFields) (candidates : list gostring) : option gostring :=
  match candidates with
  | [] => None
  | key :: candidates =>
      match fields !! key with Some val => Some val | None => firstField fields candidates end
  end.
Definition orErr {A} (o : option A) : res A := match o with Some a => Ok a | None => Err EMsg end.
Definition truncated (jrnlValue : gostring) : gostring :=
  if MaxCtxValLen <? len jrnlValue then before jrnlValue MaxTruncatedFieldLen ++ FieldTruncationSuffix
  else jrnlValue.
Definition addPermitted (fields : journalFields) (acc : gmap gostring goval) (field : gostring)
  : gmap gostring goval :=
  match fields !! field with
  | None => acc
  | Some jrnlValue => <[field := VString (truncated jrnlValue)]> acc
  end.

(** [parseFields]; [pid] is [os.Getpid()]. The codes are converted to
    [uint16]. *)
Definition parseFields (fields : journalFields) (localHostname : gostring) (pid : Z) : res Message :=
  rawData ← orErr (fields !! str "MESSAGE");
  rawTimestamp ← orErr (fields !! str "__REALTIME_TIMESTAMP");
  rawTimestampUs ← wrap (orErr (ParseInt0 rawTimestamp));
  let timestamp := Z.quot rawTimestampUs 1000000 * 10 ^ 9 + Z.rem rawTimestampUs 1000000 * 1000 in
  appname ← orErr (firstField fields [str "SYSLOG_IDENTIFIER"; str "_SYSTEMD_USER_UNIT"; str "_SYSTEMD_UNIT"]);
  let hostname := default localHostname (fields !! str "_HOSTNAME") in
  jrnlPriInt ← wrap (orErr (Atoi (default (str "6") (fields !! str "PRIORITY"))));
  severity ← wrap (CodeToSeverity (wrapU 16 jrnlPriInt));
  let pidStr := default [] (firstField fields [str "_PID"; str "SYSLOG_PID"]) in
  processid ← (if bool_decide (pidStr = []) then Ok pid else wrap (orErr (Atoi pidStr)));
  jrnlFacilityInt ← wrap (orErr (Atoi (default (str "3") (fields !! str "SYSLOG_FACILITY"))));
  facility ← wrap (CodeToFacility (wrapU 16 jrnlFacilityInt));
  let base : gmap gostring goval :=
    <[CFfacility := VString facility]> (<[CFprocessid := VInt processid]>
      (<[CFseverity := VString severity]> {[ CFappname := VString appname ]})) in
  Ok (mkMessage timestamp hostname (foldl (addPermitted fields) base permittedJournalFields) rawData).

(* ------------------------------------------------------------------ *)
(** * The reader                                                        *)
(* ------------------------------------------------------------------ *)

(** The reader: what is left in the pipe, the cursor of the last entry, the
    counters of lines and successes, the messages it has queued, [iter] and
    the host name it uses. *)
Record InModule := mkIn {
  sink : bytes;
  readPosition : gostring;
  linesRead : Z;
  success : Z;
  outbox : list Message;
  iter : Z;
  localHostname : gostring
}.

Definition refreshMask : Z := 1024 - 1.

Section reader.
(** [pushed n] tells whether [PushBlocking], when [iter] is [n], queues the
    message, and does not return because the context is done; [osHostname n]
    is the answer of the system when [iter] has become [n]. *)
Context (sprint : goval -> gostring) (filters : list MessageFilter) (pushed : Z -> bool)
  (osHostname : Z -> option gostring) (pid : Z) (source : gostring).

(** The refresh of the host name, at every 1024th message. *)
Definition refreshed (iter : Z) (localHostname : gostring) : gostring :=
  if Z.land iter refreshMask =? 0 then default localHostname (osHostname iter) else localHostname.
(** A round of [reader]; an error is logged and the next round goes on where
    the pipe is. Whether the message was queued is not asked. *)
Definition readRound (im : InModule) : InModule :=
  match extractEntry (sink im) with
  | (Err _, rest) | (Panic, rest) =>
      mkIn rest (readPosition im) (linesRead im) (success im) (outbox im) (iter im) (localHostname im)
  | (Ok fields, rest) =>
      if bool_decide (fields = ∅) then
        mkIn rest (readPosition im) (linesRead im) (success im) (outbox im) (iter im) (localHostname im)
      else
        let position := default [] (fields !! str "__CURSOR") in
        match parseFields fields (localHostname im) pid with
        | Err _ | Panic =>
            mkIn rest position (linesRead im) (success im) (outbox im) (iter im) (localHostname im)
        | Ok msg =>
            let msg := withSource source msg in
            let linesRead := linesRead im + 1 in
            if dropped sprint filters msg then
              mkIn rest position linesRead (success im) (outbox im) (iter im) (localHostname im)
            else
              let iter' := wrapU 64 (iter im + 1) in
              mkIn rest position linesRead (success im + 1)
                (outbox im ++ if pushed (iter im) then [msg] else []) iter' (refreshed iter' (localHostname im))
        end
  end.
End reader.

(** The position file: [savePosition] writes it, [getLastPosition] reads 256
    bytes of it. Errors of the file system are left out. *)
Definition savePosition (cursor : gostring) (file : bytes) : bytes :=
  if bool_decide (cursor = []) then file else cursor.
Definition semicolon : byte := z2b 59.
Definition getLastPosition (file : bytes) : gostring :=
  let cursor := TrimNewlines (take 256 file) in
  let testCursorFields := split semicolon cursor in
  let result := if len testCursorFields <? 3 then [] else cursor in
  if hasPrefix (str "s=") (hd [] testCursorFields) then [] else result.
(** The arguments of [journalctl] in [NewInput]. *)
Definition journalArgs (file : bytes) : list gostring :=
  let readPosition := getLastPosition file in
  [str "--output=export"; str "--follow"; str "--no-pager"] ++
  (if bool_decide (readPosition = []) then [] else [str "--after-cursor"; readPosition]).

(* ------------------------------------------------------------------ *)
(** * Writing                                                           *)
(* ------------------------------------------------------------------ *)

Section writer.
(** [Time.Format] and the text of floats. *)
Context (formatTime : gotime -> gostring) (formatFloat : Z -> Z -> gostring).

(** The fields of an entry; [order] is the order in which the loop meets the
    custom fields, [nowUs] the clock. *)
Definition addCustom (fields : journalFields) (kv : gostring * goval) : journalFields :=
  let key := TrimPrefix kv.1 (str "_") in
  let text := FormatValue formatFloat kv.2 in
  if bool_decide (text = []) then fields else <[key := text]> fields.
Definition entryFields (bootID : gostring) (nowUs : Z) (order : list (gostring * goval)) (msg : Payload)
  : journalFields :=
  foldl addCustom
    (list_to_map
      [(str "__REALTIME_TIMESTAMP", FormatInt nowUs); (str "_BOOT_ID", bootID);
       (str "MESSAGE", Data msg); (str "HOSTNAME", Hostname msg); (str "SYSLOG_HOSTNAME", Hostname msg);
       (str "SYSLOG_TIMESTAMP", formatTime (Timestamp msg)); (str "REMOTE_IP", AddrString (RemoteIP msg))])
    order.
(** The body of the request; [fields] in the order of the second loop. *)
Definition textField (kv : gostring * gostring) : bytes :=
  if bool_decide (kv.1 = []) || bool_decide (kv.2 = []) then []
  else kv.1 ++ [equalsByte] ++ kv.2 ++ [newline].
Definition exportEntry (fields : list (gostring * gostring)) : bytes :=
  concat (map textField fields) ++ [newline].
End writer.

(* ------------------------------------------------------------------ *)
(** * Reading what was exported                                         *)
(* ------------------------------------------------------------------ *)

(** The export format: a field is text, or its value follows its length. *)
Record field := mkField { fKey : gostring; fValue : gostring; fBinary : bool }.
Definition exportField (f : field) : bytes :=
  if fBinary f then fKey f ++ [newline] ++ le_encode 8 (len (fValue f)) ++ fValue f ++ [newline]
  else fKey f ++ [equalsByte] ++ fValue f ++ [newline].
Record field_ok (f : field) : Prop := {
  ok_key : fKey f <> [];
  ok_line : newline ∉ fKey f;
  ok_equals : equalsByte ∉ fKey f;
  ok_text : fBinary f = false -> newline ∉ fValue f;
  ok_size : len (fValue f) <= maxBinaryField
}.
Definition exportFields (fs : list field) : bytes := concat (map exportField fs) ++ [newline].
Definition fieldsOf (fs : list field) : journalFields :=
  foldl (fun m f => <[fKey f := fValue f]> m) ∅ fs.

Lemma le_roundtrip n v : 0 <= v < 256 ^ Z.of_nat n -> le_decode (le_encode n v) = v.
Proof. intros Hv. unfold le_decode, le_encode. by rewrite reverse_involutive, be_decode_encode_small. Qed.
Lemma len_le_encode n v : len (le_encode n v) = Z.of_nat n.
Proof. unfold le_encode, len. by rewrite length_reverse, length_be_encode. Qed.

Lemma readFullPipe_app (p rest : bytes) n : len p = n -> readFullPipe n (p ++ rest) = (Some p, rest).
Proof.
  intros <-. unfold readFullPipe. rewrite len_app. pose proof (len_nonneg rest).
  rewrite (proj2 (Z.ltb_ge _ _)) by lia. unfold len. rewrite Nat2Z.id.
  by rewrite take_app_length, drop_app_length.
Qed.
Lemma readBinaryField_app v rest :
  len v <= maxBinaryField ->
  readBinaryField (le_encode 8 (len v) ++ v ++ newline :: rest) = (Ok v, rest).
Proof.
  intros Hv. unfold readBinaryField. rewrite readFullPipe_app by apply len_le_encode.
  pose proof (len_nonneg v). rewrite le_roundtrip by (change (256 ^ Z.of_nat 8) with (2 ^ 64); unfold maxBinaryField in Hv; lia).
  cbv zeta. rewrite (proj2 (Z.ltb_ge _ _)) by lia. rewrite readFullPipe_app by done.
  by rewrite bool_decide_eq_true_2.
Qed.

Lemma extractFrom_field n f rest m :
  field_ok f -> extractFrom (S n) (exportField f ++ rest) m = extractFrom n rest (<[fKey f := fValue f]> m).
Proof.
  intros [Hk Hl He Ht Hs]. unfold exportField. cbn [extractFrom]. destruct (fBinary f).
  - rewrite <- !app_assoc. cbn [app]. rewrite cutAt_app by done. rewrite bool_decide_eq_false_2 by done.
    rewrite cutAt_none by done. by rewrite readBinaryField_app.
  - rewrite <- !app_assoc. cbn [app].
    replace (fKey f ++ equalsByte :: fValue f ++ newline :: rest)
      with ((fKey f ++ equalsByte :: fValue f) ++ newline :: rest) by by rewrite <- app_assoc.
    rewrite cutAt_app.
    + rewrite bool_decide_eq_false_2 by by destruct (fKey f). by rewrite cutAt_app.
    + intros [H|[H|H]%elem_of_cons]%elem_of_app; [done|done|by apply Ht].
Qed.
Lemma extractFrom_fields fs n rest m :
  Forall field_ok fs -> (length fs < n)%nat ->
  foldl (fun m f => <[fKey f := fValue f]> m) m fs <> ∅ ->
  extractFrom n (exportFields fs ++ rest) m =
    (Ok (foldl (fun m f => <[fKey f := fValue f]> m) m fs), rest).
Proof.
  intros Hfs. revert n m. induction Hfs as [|f fs Hf Hfs IH]; intros n m Hn Hne; destruct n as [|n]; cbn in Hn; try lia.
  - cbn [foldl] in *. cbn [exportFields map concat app extractFrom cutAt].
    rewrite !(bool_decide_eq_true_2 (_ = _)) by done. by rewrite bool_decide_eq_false_2.
  - unfold exportFields. cbn [map concat]. rewrite <- !app_assoc. rewrite extractFrom_field by done.
    rewrite app_assoc. apply IH; [lia|exact Hne].
Qed.

Lemma fieldsOf_nonempty fs m : fs <> [] -> foldl (fun m f => <[fKey f := fValue f]> m) m fs <> (∅ : journalFields).
Proof.
  intros Hne. destruct fs as [|f fs _] using rev_ind; [done|]. rewrite foldl_app. cbn [foldl].
  apply insert_non_empty.
Qed.
Lemma length_exportFields fs : Forall field_ok fs -> (length fs <= length (exportFields fs))%nat.
Proof.
  intros H. unfold exportFields. rewrite length_app. enough (length fs <= length (concat (map exportField fs)))%nat by lia.
  induction H as [|f fs Hf _ IH]; [done|]. cbn [map concat length]. rewrite length_app.
  enough (1 <= length (exportField f))%nat by lia. unfold exportField. destruct (fBinary f);
    rewrite !length_app; cbn; lia.
Qed.

(** An exported entry is read back, and nothing beyond it is taken. *)
Lemma extract_export fs rest :
  Forall field_ok fs -> fs <> [] -> extractEntry (exportFields fs ++ rest) = (Ok (fieldsOf fs), rest).
Proof.
  intros Hfs Hne. apply extractFrom_fields; [done| |by apply fieldsOf_nonempty].
  rewrite length_app. pose proof (length_exportFields fs Hfs). lia.
Qed.

(* ------------------------------------------------------------------ *)
(** * The journal as an input                                           *)
(* ------------------------------------------------------------------ *)

Section input.
Context (sprint : goval -> gostring) (filters : list MessageFilter) (pushed : Z -> bool)
  (osHostname : Z -> option gostring) (pid : Z) (source : gostring).
#[local] Abbreviation round := (readRound sprint filters pushed osHostname pid source).

(** The message an entry becomes at a host, unless it is refused or a filter
    drops it. *)
Definition parsed (host : gostring) (fs : list field) : option Message :=
  match parseFields (fieldsOf fs) host pid with Ok m => Some (withSource source m) | _ => None end.
Definition accepted (host : gostring) (fs : list field) : option Message :=
  m ← parsed host fs;
  if dropped sprint filters m then None else Some m.
Definition cursorOf (fs : list field) : gostring := default [] (fieldsOf fs !! str "__CURSOR").

(** The messages that are accepted of entries, each with its number, counting
    from [n], under the host name of its time; and the number and the name
    after them. *)
Fixpoint numbered (n : Z) (host : gostring) (entries : list (list field)) : list (Z * Message) * (Z * gostring) :=
  match entries with
  | [] => ([], (n, host))
  | fs :: entries =>
      match accepted host fs with
      | None => numbered n host entries
      | Some m =>
          let n' := wrapU 64 (n + 1) in
          let '(ms, last) := numbered n' (refreshed osHostname n' host) entries in
          ((n, m) :: ms, last)
      end
  end.
(** Those that are queued. *)
Definition queuedOf (ms : list (Z * Message)) : list Message := map snd (List.filter (fun nm => pushed nm.1) ms).

Lemma queuedOf_all ms : (forall n, pushed n = true) -> queuedOf ms = map snd ms.
Proof.
  intros H. unfold queuedOf. induction ms as [|[n m] ms IH]; [done|]. cbn. rewrite H. cbn. by rewrite IH.
Qed.
(** A host that keeps its name. *)
Lemma numbered_same_host n host entries :
  (forall k, default host (osHostname k) = host) ->
  map snd (numbered n host entries).1 = omap (accepted host) entries.
Proof.
  intros H. revert n. induction entries as [|fs entries IH]; intros n; [done|].
  cbn [numbered omap list_omap]. destruct (accepted host fs) as [m|]; [|apply IH].
  assert (forall k, refreshed osHostname k host = host) as -> by (intros k; unfold refreshed; by case_match).
  specialize (IH (wrapU 64 (n + 1))). destruct (numbered _ host entries) as [ms last]. cbn in *. by rewrite IH.
Qed.

(** Whether an entry can be parsed does not depend on the host's name. *)
Lemma same_outcome {A B} (x : res A) (f g : A -> res B) :
  (forall a, (exists r, f a = Ok r) <-> (exists r, g a = Ok r)) ->
  (exists r, (x ≫= f) = Ok r) <-> (exists r, (x ≫= g) = Ok r).
Proof. intros H. destruct x; cbn; [apply H|done..]. Qed.
Lemma parseFields_any_host fields host host' :
  (exists m, parseFields fields host pid = Ok m) <-> (exists m, parseFields fields host' pid = Ok m).
Proof. unfold parseFields. repeat (apply same_outcome; intros ?). split; eauto. Qed.
Lemma parsed_any_host host host' fs : len (option_list (parsed host fs)) = len (option_list (parsed host' fs)).
Proof.
  pose proof (parseFields_any_host (fieldsOf fs) host host') as [H1 H2]. unfold parsed.
  destruct (parseFields (fieldsOf fs) host pid) eqn:E, (parseFields (fieldsOf fs) host' pid) eqn:E'; try done.
  all: try (by destruct H1 as [? ?]; [eauto|]). all: by destruct H2 as [? ?]; [eauto|].
Qed.

Lemma readRound_entry fs rest pos l s out n host :
  Forall field_ok fs -> fs <> [] ->
  round (mkIn (exportFields fs ++ rest) pos l s out n host) =
    let added := numbered n host [fs] in
    mkIn rest (cursorOf fs) (l + len (option_list (parsed host fs))) (s + len added.1)
      (out ++ queuedOf added.1) added.2.1 added.2.2.
Proof.
  intros Hfs Hne. unfold readRound. cbn [sink]. rewrite extract_export by done.
  rewrite bool_decide_eq_false_2 by by apply fieldsOf_nonempty. cbv zeta. fold (cursorOf fs).
  cbn [numbered]. unfold accepted, parsed. cbn [localHostname].
  destruct (parseFields _ _ _) as [m|e|]; cbn [mbind option_bind linesRead success outbox iter];
    [|by rewrite ?app_nil_r, ?Z.add_0_r..].
  destruct (dropped _ filters _); cbn; [by rewrite ?app_nil_r, ?Z.add_0_r|]. unfold queuedOf. cbn.
  by destruct (pushed n).
Qed.
Lemma numbered_cons n host fs entries :
  numbered n host (fs :: entries) =
    let added := numbered n host [fs] in
    let others := numbered added.2.1 added.2.2 entries in (added.1 ++ others.1, others.2).
Proof.
  cbn [numbered]. destruct (accepted host fs); cbn; [|by destruct (numbered n host entries)].
  by destruct (numbered _ _ entries).
Qed.
Lemma queuedOf_app ms ms' : queuedOf (ms ++ ms') = queuedOf ms ++ queuedOf ms'.
Proof. unfold queuedOf. by rewrite List.filter_app, map_app. Qed.

(** C28: the journal is read completely and in order. When [journalctl] has
    exported any entries, whatever bytes their binary fields hold, one round
    of the reader for each of them takes exactly them from the pipe, accepts
    the message of each one that can be parsed and that no filter drops, under
    the host name of its time, queues those of them whose push is not given up
    because the reader is being stopped, and ends with the cursor of the last
    one. If no push is given up and the host keeps its name, all accepted
    messages are queued. *)
Theorem journal_read_in_order (entries : list (list field)) last rest l s host :
  Forall (fun fs => Forall field_ok fs /\ fs <> []) (entries ++ [last]) ->
  let result := Nat.iter (length (entries ++ [last])) round
    (mkIn (concat (map exportFields (entries ++ [last])) ++ rest) [] l s [] 0 host) in
  let found := numbered 0 host (entries ++ [last]) in
  result = mkIn rest (cursorOf last) (l + len (omap (parsed host) (entries ++ [last])))
             (s + len found.1) (queuedOf found.1) found.2.1 found.2.2 /\
  ((forall n, pushed n = true) -> (forall n, default host (osHostname n) = host) ->
    outbox result = omap (accepted host) (entries ++ [last]) /\
    success result = s + len (omap (accepted host) (entries ++ [last]))).
Proof.
  intros H. cbv zeta. set (found := numbered 0 host (entries ++ [last])).
  enough (Nat.iter (length (entries ++ [last])) round
    (mkIn (concat (map exportFields (entries ++ [last])) ++ rest) [] l s [] 0 host) =
    mkIn rest (cursorOf last) (l + len (omap (parsed host) (entries ++ [last])))
      (s + len found.1) (queuedOf found.1) found.2.1 found.2.2) as ->.
  { split; [done|]. intros Hp Hh. cbn [outbox success]. rewrite queuedOf_all by done.
    rewrite <- (numbered_same_host 0 host) by done. fold found. unfold len. by rewrite length_map. }
  subst found. generalize 0 as n. enough (forall pos out h n,
    Nat.iter (length (entries ++ [last])) round
      (mkIn (concat (map exportFields (entries ++ [last])) ++ rest) pos l s out n h) =
    let found := numbered n h (entries ++ [last]) in
    mkIn rest (cursorOf last) (l + len (omap (parsed host) (entries ++ [last])))
      (s + len found.1) (out ++ queuedOf found.1) found.2.1 found.2.2) as Hg by (intros n; apply Hg).
  revert l s. induction entries as [|fs entries IH]; intros l s pos out h n; cbn [app] in *.
  - apply Forall_cons in H as [[Hf Hne] _]. cbn [length map concat]. rewrite app_nil_r.
    rewrite Nat.iter_succ_r, readRound_entry, (parsed_any_host h host) by done. cbv zeta.
    cbn [Nat.iter nat_rect omap list_omap]. by destruct (parsed host last).
  - apply Forall_cons in H as [[Hf Hne] H]. cbn [length map concat]. rewrite Nat.iter_succ_r, <- app_assoc.
    rewrite readRound_entry by done. cbv zeta. rewrite IH by done. cbv zeta.
    rewrite (numbered_cons n h fs (entries ++ [last])). cbv zeta. cbn [fst snd].
    rewrite queuedOf_app, !len_app, <- app_assoc, (parsed_any_host h host). cbn [omap list_omap]. f_equal; [|lia].
    destruct (parsed host fs); cbn; rewrite ?len_cons, ?len_nil; lia.
Qed.
End input.

(** Two entries, the second with a message of two lines. *)
Lemma journal_read_in_order_witness :
  let sprint := fun _ => str "" in
  let entry := fun cursor text binary =>
    [mkField (str "__CURSOR") cursor false; mkField (str "__REALTIME_TIMESTAMP") (str "1700000000000001") false;
     mkField (str "SYSLOG_IDENTIFIER") (str "sshd") false; mkField (str "MESSAGE") text binary] in
  let first := entry (str "s=1;i=1;b=2") (str "one") false in
  let last := entry (str "s=1;i=2;b=2") (str "two" ++ [newline] ++ str "lines") true in
  Forall (fun fs => Forall field_ok fs /\ fs <> []) ([first] ++ [last]) /\
  let final := Nat.iter 2 (readRound sprint [] (fun _ => true) (fun _ => None) 7 (str "in"))
    (mkIn (concat (map exportFields ([first] ++ [last])) ++ str "rest") [] 0 0 [] 0 (str "host")) in
  sink final = str "rest" /\ readPosition final = str "s=1;i=2;b=2" /\
  map mData (outbox final) = [str "one"; str "two" ++ [newline] ++ str "lines"] /\
  map mTimestamp (outbox final) = [1700000000000001000; 1700000000000001000].
Proof.
  intros sprint entry first last.
  assert (Forall (fun fs => Forall field_ok fs /\ fs <> []) ([first] ++ [last])) as H.
  { unfold first, last, entry. cbn [app].
    repeat (apply Forall_cons; split); [split; [|done]|split; [|done]|done];
      repeat (apply Forall_cons; split); try done;
      (constructor; [done|apply (bool_decide_unpack _); by vm_compute..|intros; try done; apply (bool_decide_unpack _); by vm_compute|by vm_compute]). }
  split; [exact H|]. intros final.
  destruct (journal_read_in_order sprint [] (fun _ => true) (fun _ => None) 7 (str "in") [first] last (str "rest") 0 0
    (str "host") H) as [E _].
  assert (final = _) as -> by exact E. clear. repeat split; by vm_compute.
Defined.

(* ------------------------------------------------------------------ *)
(** * The position                                                      *)
(* ------------------------------------------------------------------ *)

Lemma trimLeft_newlines_prefix fuel l c q :
  c <> newline -> exists l', trimFuel fuel [[newline]] (l ++ c :: q) = l' ++ c :: q.
Proof.
  intros Hc. revert l. induction fuel as [|fuel IH]; intros l; [by exists l|].
  destruct l as [|b l]; cbn [app trimFuel cutLength hasPrefix].
  - rewrite bool_decide_eq_false_2 by done. by exists [].
  - case_bool_decide; [|by exists (b :: l)]. cbn [length]. change (drop 1 (b :: ?x)) with x. apply IH.
Qed.
Lemma TrimNewlines_prefix c d s : c <> newline -> d <> newline -> exists t, TrimNewlines (c :: d :: s) = c :: d :: t.
Proof.
  intros Hc Hd. unfold TrimNewlines, trimRight.
  assert (trimLeft [[newline]] (c :: d :: s) = c :: d :: s) as ->.
  { apply trimLeft_id. cbn. by rewrite bool_decide_eq_false_2 by congruence. }
  unfold trimLeft. change (map reverse [[newline]]) with [[newline]].
  replace (reverse (c :: d :: s)) with (reverse s ++ d :: [c]) by by rewrite !reverse_cons, <- app_assoc.
  destruct (trimLeft_newlines_prefix (length (reverse s ++ [d; c])) (reverse s) d [c] Hd) as [l' ->].
  exists (reverse l'). by rewrite reverse_app, !reverse_cons.
Qed.

(** A reader never resumes. Every cursor of the journal starts with its
    sequence number's [s=], and for every such cursor that was saved the next
    start reads the journal from its beginning: [journalctl] is run without
    a position. *)
Theorem journal_cursor_discarded cursor file :
  hasPrefix (str "s=") cursor = true ->
  journalArgs (savePosition cursor file) = [str "--output=export"; str "--follow"; str "--no-pager"].
Proof.
  intros [t ->]%hasPrefix_spec. change (str "s=" ++ t) with (z2b 115 :: z2b 61 :: t).
  unfold journalArgs, savePosition. rewrite (bool_decide_eq_false_2 (z2b 115 :: _ = [])) by done.
  assert (getLastPosition (z2b 115 :: z2b 61 :: t) = []) as ->; [|done].
  unfold getLastPosition.
  change (take 256 (z2b 115 :: z2b 61 :: t)) with (z2b 115 :: z2b 61 :: take 254 t).
  destruct (TrimNewlines_prefix (z2b 115) (z2b 61) (take 254 t)) as [u ->]; [done..|].
  assert (hasPrefix (str "s=") (hd [] (split semicolon (z2b 115 :: z2b 61 :: u))) = true) as ->; [|done].
  cbn [split]. rewrite !bool_decide_eq_false_2 by done. by destruct (split semicolon u).
Qed.
(** A cursor as the journal gives it. *)
Lemma journal_cursor_discarded_witness :
  let cursor := str "s=739ad463348b4ceca5a9e69c95a3c93f;i=4ece7;b=6c7c6013a26343b29e964691ff25d04c;m=4fc72436e;t=4c508a7251799;x=f8f0" in
  savePosition cursor [] = cursor /\
  journalArgs (savePosition cursor []) = [str "--output=export"; str "--follow"; str "--no-pager"].
Proof. split; [by vm_compute|]. apply journal_cursor_discarded. by vm_compute. Defined.

(* ------------------------------------------------------------------ *)
(** * The journal as an output                                          *)
(* ------------------------------------------------------------------ *)

(** What a written entry says when it is read: a newline in a value ends it,
    and the rest of the value is taken as another field. *)
Lemma textField_newline key v k w :
  key <> [] -> v <> [] -> k <> [] -> w <> [] ->
  textField (key, v ++ newline :: k ++ equalsByte :: w) = textField (key, v) ++ textField (k, w).
Proof.
  intros H1 H2 H3 H4. unfold textField. cbn [fst snd].
  rewrite !(bool_decide_eq_false_2 (_ = [])) by (done || by destruct v). cbn [orb].
  by app_norm.
Qed.
(** A message can write journal fields of its own. The entry that is
    written for a value [v], newline, [k]=[w] is the entry of the value [v]
    with the field [k] besides: whoever reads the journal cannot tell them
    apart. The values include the message's text, as it came from the network. *)
Theorem journal_injection before_ after_ key v k w :
  key <> [] -> v <> [] -> k <> [] -> w <> [] ->
  exportEntry (before_ ++ (key, v ++ newline :: k ++ equalsByte :: w) :: after_) =
    exportEntry (before_ ++ (key, v) :: (k, w) :: after_).
Proof.
  intros H1 H2 H3 H4. unfold exportEntry. rewrite !map_app, !concat_app. cbn [map concat].
  rewrite textField_newline by done. by rewrite <- !app_assoc.
Qed.
(** A message that forges the process it claims to come from. *)
Lemma journal_injection_witness :
  exportEntry [(str "MESSAGE", str "hello" ++ newline :: str "_EXE" ++ equalsByte :: str "/sbin/init"); (str "HOSTNAME", str "h")] =
    exportEntry [(str "MESSAGE", str "hello"); (str "_EXE", str "/sbin/init"); (str "HOSTNAME", str "h")].
Proof. apply (journal_injection [] [(str "HOSTNAME", str "h")]); done. Defined.

Definition clean (kv : gostring * gostring) : Prop :=
  (newline ∉ kv.1) /\ (equalsByte ∉ kv.1) /\ (newline ∉ kv.2) /\ len kv.2 <= maxBinaryField.
Definition kept (kv : gostring * gostring) : bool :=
  negb (bool_decide (kv.1 = []) || bool_decide (kv.2 = [])).

Lemma textField_export l :
  concat (map textField l) = concat (map exportField (map (fun kv => mkField kv.1 kv.2 false) (List.filter kept l))).
Proof.
  induction l as [|kv l IH]; [done|]. cbn [map concat List.filter]. rewrite IH. unfold textField, kept.
  by destruct (_ || _).
Qed.
(** What is written is what is meant, where no key or value holds a
    newline and no key an equals sign: an entry that is written is read back
    as exactly its fields, those with an empty key or value aside. *)
Theorem journal_write_read (fields : list (gostring * gostring)) rest :
  Forall clean fields -> NoDup (map fst fields) -> List.filter kept fields <> [] ->
  exists m, extractEntry (exportEntry fields ++ rest) = (Ok m, rest) /\
    (forall k v, (m !! k = Some v) <-> ((k, v) ∈ fields /\ k <> [] /\ v <> [])).
Proof.
  intros Hc Hnd Hne. set (fs := map (fun kv => mkField kv.1 kv.2 false) (List.filter kept fields)).
  assert (exportEntry fields = exportFields fs) as -> by (unfold exportEntry, exportFields; by rewrite textField_export).
  assert (forall kv, kv ∈ List.filter kept fields <-> kv ∈ fields /\ kv.1 <> [] /\ kv.2 <> []) as Hk.
  { intros kv. rewrite !list_elem_of_In, filter_In. unfold kept.
    rewrite negb_true_iff, orb_false_iff, !bool_decide_eq_false. done. }
  exists (fieldsOf fs). split.
  - apply extract_export; [|by intros ?%map_eq_nil]. apply Forall_forall. intros f Hf.
    apply list_elem_of_fmap in Hf as (kv & -> & H%Hk). rewrite Forall_forall in Hc.
    destruct H as (Hin & H1 & H2). destruct (Hc _ Hin) as (C1 & C2 & C3 & C4). by constructor.
  - assert (NoDup (map fst (List.filter kept fields))) as Hnd'.
    { clear -Hnd. induction fields as [|kv l IH]; [constructor|]. cbn [map List.filter] in *.
      apply NoDup_cons in Hnd as [Hn Hnd]. destruct (kept kv); [|by apply IH]. cbn [map]. constructor; [|by apply IH].
      intros Hin. apply Hn. apply list_elem_of_fmap in Hin as (y & E & Hy). rewrite E.
      apply list_elem_of_fmap_2. apply list_elem_of_In, filter_In in Hy as [Hy _]. by apply list_elem_of_In. }
    intros k v. rewrite <- (Hk (k, v)). subst fs. clear -Hnd'.
    induction (List.filter kept fields) as [|kv l IH] using rev_ind.
    { cbn. rewrite lookup_empty. split; [done|]. by intros ?%elem_of_nil. }
    rewrite map_app in Hnd'. apply NoDup_app in Hnd' as (Hnd & Hdisj & _).
    unfold fieldsOf in *. rewrite map_app, foldl_app. cbn [map foldl fKey fValue]. rewrite elem_of_app, list_elem_of_singleton.
    destruct (decide (kv.1 = k)) as [<-|Hne].
    + rewrite lookup_insert_eq. split.
      * intros [= <-]. right. by destruct kv.
      * intros [Hin|E]; [|by rewrite <- E]. exfalso. apply (Hdisj kv.1); [|by left].
        by apply (list_elem_of_fmap_2 fst l (kv.1, v)).
    + rewrite lookup_insert_ne, IH by done. split; [by left|]. intros [?|E]; [done|]. by rewrite <- E in Hne.
Qed.
Lemma journal_write_read_witness :
  let fields := [(str "MESSAGE", str "hello"); (str "EMPTY", []); (str "HOSTNAME", str "h")] in
  Forall clean fields /\ NoDup (map fst fields) /\
  exists m, extractEntry (exportEntry fields ++ str "rest") = (Ok m, str "rest") /\ m !! str "HOSTNAME" = Some (str "h").
Proof.
  intros fields. assert (Forall clean fields) as H1.
  { unfold fields. repeat (apply Forall_cons; split); try done;
      (split; [|split; [|split]]); try (apply (bool_decide_unpack _)); by vm_compute. }
  assert (NoDup (map fst fields)) as H2 by (apply (bool_decide_unpack _); by vm_compute).
  split; [exact H1|]. split; [exact H2|].
  destruct (journal_write_read fields (str "rest") H1 H2) as (m & E & Hm); [done|].
  exists m. split; [exact E|]. apply Hm. split; [|done]. apply (bool_decide_unpack _); by vm_compute.
Defined.

(* ------------------------------------------------------------------ *)
(** * From the journal to the desktop                                   *)
(* ------------------------------------------------------------------ *)

Lemma addPermitted_other fields acc l k :
  k ∉ l -> foldl (addPermitted fields) acc l !! k = acc !! k.
Proof.
  revert acc. induction l as [|f l IH]; intros acc H; [done|]. apply not_elem_of_cons in H as [Hn H].
  cbn [foldl]. rewrite IH by done. unfold addPermitted. destruct (fields !! f); [|done].
  by rewrite lookup_insert_ne.
Qed.
Lemma addPermitted_plain fields acc l :
  Forall (fun k => cleanKey k = k) l -> plainKeys acc -> plainKeys (foldl (addPermitted fields) acc l).
Proof.
  intros H. revert acc. induction H as [|k l Hk _ IH]; intros acc Ha; [done|]. cbn [foldl]. apply IH.
  unfold addPermitted. destruct (fields !! k); [|done]. by apply map_Forall_insert_2.
Qed.

(** The fields of a message from the journal. *)
Lemma parseFields_fields fields localHostname pid m :
  parseFields fields localHostname pid = Ok m ->
  plainKeys (mFields m) /\
  exists a z f sev prio, mFields m !! CFappname = Some (VString a) /\ mFields m !! CFprocessid = Some (VInt z) /\
    mFields m !! CFfacility = Some (VString f) /\ mFields m !! CFseverity = Some (VString sev) /\
    Atoi (default (str "6") (fields !! str "PRIORITY")) = Some prio /\
    SeverityToCode sev = Ok (wrapU 16 prio).
Proof.
  unfold parseFields. intros H.
  apply bind_Ok in H as (raw & _ & H). apply bind_Ok in H as (rt & _ & H). apply bind_Ok in H as (us & _ & H).
  apply bind_Ok in H as (a & _ & H). apply bind_Ok in H as (prio & Hp & H).
  apply bind_Ok in H as (sev & Hs & H). apply bind_Ok in H as (z & _ & H).
  apply bind_Ok in H as (fi & _ & H). apply bind_Ok in H as (f & _ & H). assert (forall X Y : Message, Ok X = Ok Y -> X = Y) as Hinj by congruence. apply Hinj in H as <-. cbn [mFields].
  split.
  - apply addPermitted_plain; [by repeat (apply Forall_cons; split)|].
    repeat (apply map_Forall_insert_2; [done|]). apply map_Forall_empty.
  - exists a, z, f, sev, prio. rewrite wrap_Ok in Hp. rewrite wrap_Ok in Hs. apply severity_roundtrip in Hs.
    assert (Atoi (default (str "6") (fields !! str "PRIORITY")) = Some prio) as -> by by destruct (Atoi _) in Hp |- *; [injection Hp as ->|].
    rewrite !addPermitted_other by by apply (bool_decide_unpack _); vm_compute. done.
Qed.

(** What the journal holds can be shown. Every entry that is accepted
    there, after it has crossed the network, makes a notification: its body
    is the data of the message and its urgency is that of the entry's
    priority. *)
Theorem journal_notified fields localHostname pid source pid' m p :
  parseFields fields localHostname pid = Ok m ->
  CustomFields p = sentFields (mFields (withSource source m)) ->
  exists n prio, formatAsNotification pid' p = Ok n /\ nBody n = Data p /\
    Atoi (default (str "6") (fields !! str "PRIORITY")) = Some prio /\
    nUrgency n = urgency (wrapU 16 prio).
Proof.
  intros (Hk & a & z & f & sev & prio & Ha & Hz & Hf & Hs & Hp & Hc)%parseFields_fields Hpay.
  pose proof (arrived_notified pid' (withSource source m) p a z f sev (wrapU 16 prio)) as Hn.
  eexists _, prio. split; [|split; [|split; [exact Hp|]]].
  - apply Hn; [by apply map_Forall_insert_2|done|cbn [mFields withSource]; by rewrite lookup_insert_ne..|done].
  - done.
  - done.
Qed.
(** A warning of the SSH daemon. *)
Lemma journal_notified_witness :
  let fields : journalFields := list_to_map
    [(str "MESSAGE", str "refused"); (str "__REALTIME_TIMESTAMP", str "1700000000000001");
     (str "SYSLOG_IDENTIFIER", str "sshd"); (str "PRIORITY", str "4"); (str "_PID", str "811")] in
  let m := mkMessage 1700000000000001000 (str "host")
             (<[CFfacility := VString (str "daemon")]> (<[CFprocessid := VInt 811]>
                (<[CFseverity := VString (str "warning")]> {[ CFappname := VString (str "sshd") ]})))
             (str "refused") in
  let p := mkPayload AddrZero 1 2 0 0 0 (str "host") 0 [] (sentFields (mFields (withSource (str "in") m))) (str "refused") 16 in
  parseFields fields (str "host") 7 = Ok m /\
  exists n prio, formatAsNotification 9 p = Ok n /\ nBody n = Data p /\
    Atoi (default (str "6") (fields !! str "PRIORITY")) = Some prio /\ nUrgency n = urgency (wrapU 16 prio).
Proof.
  intros fields m p. assert (parseFields fields (str "host") 7 = Ok m) as E by reflexivity.
  split; [exact E|]. exact (journal_notified fields (str "host") 7 (str "in") 9 m p E eq_refl).
Defined.
