(* ===== verification/FileInput.v ===== *)
(** The file source ([internal/iomodules/file/{read,rotation,state,parsing,new}.go]):
    following a file that grows, is rotated or truncated, the position it
    remembers over a restart, and the parser of log lines.

    Files are their contents by inode. The kernel may return fewer bytes than
    asked for at any position, and a read may fail. *)
From S2P Require Import Output Payload.
From S2P Require Import Prelude Text Registry Context Consts Filtering Size NetAddr GoStrings IoModules.

(* ------------------------------------------------------------------ *)
(** * Log lines                                                         *)
(* ------------------------------------------------------------------ *)

Definition space : byte := z2b 32.
Definition hash : byte := z2b 35.
Definition colon : byte := z2b 58.
Definition lbracket : byte := z2b 91.
Definition rbracket : byte := z2b 93.

Definition withTimestamp (t : gotime) (m : Message) : Message :=
  mkMessage t (mHostname m) (mFields m) (mData m).
Definition withHostname (h : gostring) (m : Message) : Message :=
  mkMessage (mTimestamp m) h (mFields m) (mData m).
Definition withField (k : gostring) (v : goval) (m : Message) : Message :=
  mkMessage (mTimestamp m) (mHostname m) (<[k := v]> (mFields m)) (mData m).
Definition withData (d : bytes) (m : Message) : Message :=
  mkMessage (mTimestamp m) (mHostname m) (mFields m) d.
(** [s[lo:hi]] *)
Definition between (s : gostring) (lo hi : Z) : gostring := after (before s hi) lo.
Definition withPid (text : gostring) (m : Message) : Message :=
  match Atoi text with Some pid => withField CFprocessid (VInt pid) m | None => m end.

Section parsing.
(** [time.Parse] of a layout and a text, [withCurrentYear], [strings.ToLower],
    the clock and the process. *)
Context (parseTime : gostring -> gostring -> option gotime) (withCurrentYear : gotime -> gotime)
  (toLower : gostring -> gostring) (now : gotime) (pid : Z) (localHostname : gostring).

Definition orField (k : gostring) (v : goval) (m : Message) : Message :=
  match mFields m !! k with Some _ => m | None => withField k v m end.
Definition setDefaults (raw : gostring) (m : Message) : Message :=
  let m := if mTimestamp m =? zeroTime then withTimestamp now m else m in
  let m := if bool_decide (mHostname m = []) then withHostname localHostname m else m in
  let m := if len (mData m) =? 0
           then withData (if bool_decide (raw = []) then str "-" else raw) m else m in
  orField CFseverity (VString DefaultSeverity)
    (orField CFfacility (VString DefaultFacility)
      (orField CFprocessid (VInt pid) (orField CFappname (VString (str "-")) m))).

(** Each format gives the message so far and whether the line was of that
    format; what a format that fails has set stays set. *)
Definition syslogFormat (line : gostring) (m : Message) : Message * bool :=
  if len line <? 15 then (m, false)
  else match parseTime (str "Jan _2 15:04:05") (before line 15) with
  | None => (m, false)
  | Some ts =>
      let rest := TrimSpace (after line 15) in
      let hostEnd := IndexByte rest space in
      if hostEnd <=? 0 then (m, false)
      else
        let m := withHostname (before rest hostEnd) m in
        let rest := TrimSpace (after rest (hostEnd + 1)) in
        let colonAt := IndexByte rest colon in
        if colonAt <=? 0 then (m, false)
        else
          let header := before rest colonAt in
          let m := withData (TrimSpace (after rest (colonAt + 1))) m in
          let lb := IndexByte header lbracket in
          let m :=
            if 0 <? lb then
              let m := withField CFappname (VString (before header lb)) m in
              let rb := IndexByte header rbracket in
              if lb + 1 <? rb then withPid (between header (lb + 1) rb) m else m
            else withField CFappname (VString header) m in
          (withTimestamp (withCurrentYear ts) m, true)
  end.
Definition syslog2Format (line : gostring) (m : Message) : Message * bool :=
  if (len line <? 33) || negb (bool_decide (line !! 10%nat = Some (z2b 84))) then (m, false)
  else match parseTime (str "2006-01-02T15:04:05.999999-07:00") (before line 32) with
  | None => (m, false)
  | Some ts =>
      let m := withTimestamp ts m in
      let rest := TrimSpace (after line 32) in
      let hostEnd := IndexByte rest space in
      if hostEnd <=? 0 then (m, true)
      else
        let m := withHostname (before rest hostEnd) m in
        let rest := TrimSpace (after rest (hostEnd + 1)) in
        let pidStart := IndexByte rest lbracket in
        let pidEnd := IndexByte rest rbracket in
        let '(m, rest) :=
          if (0 <? pidStart) && (pidStart <? pidEnd) then
            (withPid (between rest (pidStart + 1) pidEnd)
               (withField CFappname (VString (before rest pidStart)) m),
             TrimPrefix (after rest (pidEnd + 1)) (str ":"))
          else
            let colonIndex := IndexByte rest colon in
            if 0 <? colonIndex
            then (withField CFappname (VString (before rest colonIndex)) m, after rest (colonIndex + 1))
            else (m, rest) in
        (withData (TrimSpace rest) m, true)
  end.
Definition nginxFormat (line : gostring) (m : Message) : Message * bool :=
  if len line <? 19 then (m, false)
  else match parseTime (str "2006/01/02 15:04:05") (before line 19) with
  | None => (m, false)
  | Some ts =>
      let rest := TrimSpace (after line 19) in
      let rb := IndexByte rest rbracket in
      if negb (hasPrefix [lbracket] rest) || (rb <=? 1) then (m, false)
      else
        let m := withField CFseverity (VString (toLower (between rest 1 rb))) m in
        let rest := TrimSpace (after rest (rb + 1)) in
        let hashAt := IndexByte rest hash in
        let colonAt := IndexByte rest colon in
        if (hashAt <=? 0) || (colonAt <=? hashAt) then (m, false)
        else
          (withTimestamp ts (withData (TrimSpace (after rest (colonAt + 1))) (withPid (before rest hashAt) m)),
           true)
  end.
Definition dpkgFormat (line : gostring) (m : Message) : Message * bool :=
  if len line <? 19 then (m, false)
  else match parseTime (str "2006-01-02 15:04:05") (before line 19) with
  | None => (m, false)
  | Some ts => (withData (TrimSpace (after line 19)) (withTimestamp ts m), true)
  end.
(** The time of an Apache access log; the line goes on to the next format. *)
Definition apacheTime (line : gostring) (m : Message) : Message :=
  let lb := IndexByte line lbracket in
  if lb <? 0 then m
  else
    let rb := IndexByte (after line lb) rbracket in
    if rb <=? 0 then m
    else match parseTime (str "02/Jan/2006:15:04:05 -0700") (between line (lb + 1) (lb + rb)) with
    | Some ts => withTimestamp ts m
    | None => m
    end.
Definition phpFormat (line : gostring) (m : Message) : Message * bool :=
  let rb := IndexByte line rbracket in
  if negb (hasPrefix [lbracket] line) || (rb <=? 0) then (m, false)
  else match parseTime (str "02-Jan-2006 15:04:05") (between line 1 rb) with
  | None => (m, false)
  | Some ts =>
      let rest := TrimSpace (after line (rb + 1)) in
      let colonAt := IndexByte rest colon in
      let m := if 0 <? colonAt then withData (TrimSpace (after rest (colonAt + 1))) m else m in
      (withTimestamp ts m, true)
  end.

(** The first format that fits. *)
Definition orNext (next : Message -> Message) (r : Message * bool) : Message :=
  if r.2 then r.1 else next r.1.
Definition parseLine (rawLine : gostring) : Message :=
  let line := TrimSpace rawLine in
  setDefaults line
    (orNext (fun m => orNext (fun m => orNext (fun m => orNext (fun m =>
       (phpFormat line (apacheTime line m)).1)
       (dpkgFormat line m)) (nginxFormat line m)) (syslog2Format line m))
       (syslogFormat line (mkMessage zeroTime [] ∅ []))).
End parsing.

(* ------------------------------------------------------------------ *)
(** * The reader                                                        *)
(* ------------------------------------------------------------------ *)

(** The module: the open file as its inode and the position in it ([None]
    after a failed reopening, when the pointer is nil), the state it saves,
    the bytes of the line under way, its counters and what it has queued. *)
Record InModule := mkIn {
  sink : option (Z * Z);
  currentReadOffset : Z;
  currentReadIno : Z;
  lineBuf : bytes;
  linesRead : Z;
  success : Z;
  outbox : list Message
}.
Definition seekTo (s : option (Z * Z)) (offset : Z) (m : InModule) : InModule :=
  mkIn s offset (currentReadIno m) (lineBuf m) (linesRead m) (success m) (outbox m).
Definition resetLine (m : InModule) : InModule :=
  mkIn (sink m) 0 (currentReadIno m) [] (linesRead m) (success m) (outbox m).

(** The files, by inode, and what the kernel does with a read at a position:
    it fails, or returns at most so many bytes. *)
Abbreviation Files := (Z -> bytes).
Abbreviation Kernel := (Z -> option Z).

Section reader.
(** [lineMessage n] makes a message of the [n]-th line ([parseLine] at that
    time, with the source's name); [drop_] tells whether a filter drops it;
    [pushed n] whether [PushBlocking] queues it, and does not return because
    the context is done: it looks at the context first, then tries to push. *)
Context (lineMessage : Z -> gostring -> Message) (drop_ : Message -> bool) (pushed : Z -> bool).

(** A line is complete. Whether the message was queued is not asked: the
    counter and the offset go on. *)
Definition finishLine (m : InModule) : InModule :=
  let msg := lineMessage (linesRead m) (lineBuf m) in
  if drop_ msg
  then mkIn (sink m) (currentReadOffset m + 1) (currentReadIno m) [] (linesRead m + 1) (success m) (outbox m)
  else mkIn (sink m) (currentReadOffset m + 1) (currentReadIno m) [] (linesRead m + 1) (success m + 1)
         (outbox m ++ if pushed (linesRead m) then [msg] else []).
Fixpoint processFileChunk (buf : bytes) (m : InModule) : InModule :=
  match buf with
  | [] => m
  | char :: buf =>
      processFileChunk buf
        (if negb (bool_decide (char = newline)) then
           mkIn (sink m) (currentReadOffset m + 1) (currentReadIno m) (lineBuf m ++ [char]) (linesRead m)
             (success m) (outbox m)
         else finishLine m)
  end.

Definition bufferSize : Z := 65536.
(** How many of the [avail] bytes a read returns. *)
Definition readCount (k avail : Z) : Z := Z.min avail (Z.max 1 (Z.min k bufferSize)).

(** The loop of [fileReadAll]; the result is whether the error is nil. *)
Fixpoint readLoop (fuel : nat) (files : Files) (kernel : Kernel) (m : InModule) : bool * InModule :=
  match fuel with
  | O => (true, m)
  | S fuel =>
      match sink m with
      | None => (false, seekTo None 0 m)
      | Some (ino, pos) =>
          let m := seekTo (sink m) pos m in
          let avail := drop (Z.to_nat pos) (files ino) in
          match avail with
          | [] => (true, m)
          | _ =>
              match kernel pos with
              | None => (false, m)
              | Some k =>
                  let n := readCount k (len avail) in
                  readLoop fuel files kernel
                    (processFileChunk (take (Z.to_nat n) avail)
                       (seekTo (Some (ino, pos + n)) (currentReadOffset m) m))
              end
          end
      end
  end.
(** Every round but the last takes a byte. *)
Definition fileReadAll (files : Files) (kernel : Kernel) (m : InModule) : bool * InModule :=
  let fuel := match sink m with
              | None => 1%nat
              | Some (ino, pos) => S (length (drop (Z.to_nat pos) (files ino)))
              end in
  readLoop fuel files kernel m.

(** What [os.Stat] of the path says. *)
Inductive statResult := Found (ino : Z) | Denied | Unavailable.
Fixpoint statRetries (maxRetries : nat) (answers : nat -> statResult) : option Z :=
  match maxRetries with
  | O => None
  | S retries =>
      match answers O with
      | Found ino => Some ino
      | Denied => None
      | Unavailable => statRetries retries (fun n => answers (S n))
      end
  end.
(** [reopenLogfile]; [opened] is the inode of the file that [os.Open] gets. *)
Definition reopenLogfile (answers : nat -> statResult) (opened : option Z) (m : InModule) : bool * InModule :=
  match statRetries 5 answers with
  | None => (false, m)
  | Some newFileID =>
      if currentReadIno m =? newFileID then (true, m)
      else match opened with
      | None => (false, mkIn None (currentReadOffset m) newFileID (lineBuf m) (linesRead m) (success m) (outbox m))
      | Some ino => (true, mkIn (Some (ino, 0)) 0 newFileID (lineBuf m) (linesRead m) (success m) (outbox m))
      end
  end.

(** What happens around a round of [reader]: the files and the kernel before
    it waits and after it has woken up, and the path when it is reopened. *)
Record Happening := mkHappening {
  filesBefore : Files;
  kernelBefore : Kernel;
  filesAfter : Files;
  kernelAfter : Kernel;
  pathAnswers : nat -> statResult;
  pathOpened : option Z
}.
Inductive wake := Cancelled | FileChanged | FileRotated.

(** The end of a round: truncation, and the seek to the offset. *)
Definition checkTruncation (files : Files) (m : InModule) : InModule :=
  match sink m with
  | None => resetLine m
  | Some (ino, pos) =>
      if len (files ino) <? currentReadOffset m then resetLine m
      else seekTo (Some (ino, currentReadOffset m)) (currentReadOffset m) m
  end.
(** A round; when it was cancelled, with the inode and the offset it saves. *)
Definition readerRound (h : Happening) (w : wake) (m : InModule) : InModule * option (Z * Z) :=
  let '(_, m) := fileReadAll (filesBefore h) (kernelBefore h) m in
  match w with
  | Cancelled => (m, Some (currentReadIno m, currentReadOffset m))
  | FileChanged => (checkTruncation (filesAfter h) m, None)
  | FileRotated =>
      let '(ok, m) := fileReadAll (filesAfter h) (kernelAfter h) m in
      let m := if ok then (reopenLogfile (pathAnswers h) (pathOpened h) m).2 else m in
      (checkTruncation (filesAfter h) m, None)
  end.
(** Rounds until one is cancelled, or until the check at the top of the loop
    finds the context done, which saves nothing. *)
Fixpoint reader (rounds : list (Happening * wake)) (m : InModule) : InModule * option (Z * Z) :=
  match rounds with
  | [] => (m, None)
  | (h, w) :: rounds =>
      match readerRound h w m with
      | (m, Some saved) => (m, Some saved)
      | (m, None) => reader rounds m
      end
  end.
End reader.

(* ------------------------------------------------------------------ *)
(** * The position                                                      *)
(* ------------------------------------------------------------------ *)

Definition savePosition (inode position : Z) : bytes := FormatInt inode ++ str " " ++ FormatInt position.
(** [getLastPosition] on the contents of the state file, and what it leaves
    there; [stat] is the inode and the size of the log file. *)
Definition getLastPosition (stat : res (Z * Z)) (stateFile : bytes) : res (Z * Z) * bytes :=
  let content := TrimSpace (take 128 stateFile) in
  if bool_decide (content = []) then (Ok (0, 0), stateFile)
  else match Fields content with
  | [part0; part1] =>
      match ParseUint part0, Atoi part1 with
      | Some inodeParsed, Some posParsed =>
          match stat with
          | Ok (currentInode, fileSize) =>
              let posParsed := if fileSize <? posParsed then fileSize else posParsed in
              (Ok (if inodeParsed =? currentInode then (inodeParsed, posParsed) else (currentInode, 0)),
               stateFile)
          | Err e => (Err (EWrap e), stateFile)
          | Panic => (Panic, stateFile)
          end
      | _, _ => (Ok (0, 0), [])
      end
  | _ => (Ok (0, 0), [])
  end.
(** [NewInput] for the file [ino] at the path: an error of [getLastPosition]
    is logged, one of [Seek] is not. *)
Definition NewInput (files : Files) (ino : Z) (stateFile : bytes) : res InModule :=
  let '(inode, position) :=
    match (getLastPosition (Ok (ino, len (files ino))) stateFile).1 with
    | Ok r => r
    | _ => (0, 0)
    end in
  if position <? 0 then Err (EWrap EMsg)
  else Ok (mkIn (Some (ino, position)) position inode [] 0 0 []).

(* ------------------------------------------------------------------ *)
(** * Lines of a text                                                   *)
(* ------------------------------------------------------------------ *)

Definition completeLines (t : bytes) : list gostring := removelast (split newline t).
Definition lastLine (t : bytes) : gostring := List.last (split newline t) [].

Lemma split_nonempty c t : split c t <> [].
Proof. destruct t as [|b t]; [done|]. cbn. case_bool_decide; [done|]. by destruct (split c t). Qed.
Lemma completeLines_cut line t :
  newline ∉ line -> completeLines (line ++ newline :: t) = line :: completeLines t.
Proof.
  intros H. unfold completeLines. rewrite split_app by done. pose proof (split_nonempty newline t).
  by destruct (split newline t).
Qed.
Lemma lastLine_cut line t : newline ∉ line -> lastLine (line ++ newline :: t) = lastLine t.
Proof.
  intros H. unfold lastLine. rewrite split_app by done. pose proof (split_nonempty newline t).
  by destruct (split newline t).
Qed.
Lemma completeLines_none line : newline ∉ line -> completeLines line = [].
Proof. intros H. unfold completeLines. by rewrite split_absent. Qed.
Lemma lastLine_none line : newline ∉ line -> lastLine line = line.
Proof. intros H. unfold lastLine. by rewrite split_absent. Qed.
Lemma lastLine_clean t : newline ∉ lastLine t.
Proof.
  assert (Forall (fun l => newline ∉ l) (split newline t)) as H.
  { induction t as [|b t IH]; cbn [split]; [repeat constructor; apply not_elem_of_nil|].
    case_bool_decide; [constructor; [apply not_elem_of_nil|done]|].
    destruct IH as [|l ls Hl Hls]; repeat constructor; try done;
      apply not_elem_of_cons; (split; [congruence|done || apply not_elem_of_nil]). }
  unfold lastLine. pose proof (split_nonempty newline t) as Hne.
  rewrite Forall_forall in H. apply H. destruct (exists_last Hne) as (l & x & ->).
  rewrite last_last. apply elem_of_app. right. by left.
Qed.

(* ------------------------------------------------------------------ *)
(** * Following a file                                                  *)
(* ------------------------------------------------------------------ *)

(** A module with another place in its files. *)
Definition place (s : option (Z * Z)) (offset ino : Z) (m : InModule) : InModule :=
  mkIn s offset ino (lineBuf m) (linesRead m) (success m) (outbox m).

Section following.
Context (lineMessage : Z -> gostring -> Message) (drop_ : Message -> bool) (pushed : Z -> bool).
#[local] Abbreviation take_in := (processFileChunk lineMessage drop_ pushed).

(** The messages of lines, from the [n]-th on, that no filter drops; and
    those of them that are queued. *)
Fixpoint acceptedFrom (n : Z) (lines : list gostring) : list Message :=
  match lines with
  | [] => []
  | line :: lines =>
      let msg := lineMessage n line in
      (if drop_ msg then [] else [msg]) ++ acceptedFrom (n + 1) lines
  end.
Fixpoint queuedFrom (n : Z) (lines : list gostring) : list Message :=
  match lines with
  | [] => []
  | line :: lines =>
      let msg := lineMessage n line in
      (if drop_ msg || negb (pushed n) then [] else [msg]) ++ queuedFrom (n + 1) lines
  end.
Lemma queued_all n lines : (forall k, n <= k -> pushed k = true) -> queuedFrom n lines = acceptedFrom n lines.
Proof.
  revert n. induction lines as [|line lines IH]; intros n H; [done|]. cbn [queuedFrom acceptedFrom].
  rewrite H, orb_false_r, IH by (lia || (intros k Hk; apply H; lia)). done.
Qed.
Lemma queued_none n lines : (forall k, n <= k -> pushed k = false) -> queuedFrom n lines = [].
Proof.
  revert n. induction lines as [|line lines IH]; intros n H; [done|]. cbn [queuedFrom].
  rewrite H, orb_true_r, IH by (lia || (intros k Hk; apply H; lia)). done.
Qed.

Lemma place_place s o i s' o' i' m : place s o i (place s' o' i' m) = place s o i m.
Proof. done. Qed.
Lemma seekTo_place s o s' o' i m : seekTo s o (place s' o' i m) = place s o i m.
Proof. done. Qed.

Lemma processFileChunk_app t u m : take_in (t ++ u) m = take_in u (take_in t m).
Proof. revert m. induction t as [|c t IH]; intros m; [done|]. cbn. apply IH. Qed.
Lemma processFileChunk_place t s o i m :
  take_in t (place s o i m) = place s (o + len t) i (take_in t m).
Proof.
  revert o m. induction t as [|c t IH]; intros o m; [by cbn; rewrite len_nil, Z.add_0_r|].
  cbn [processFileChunk]. rewrite len_cons. case_bool_decide; cbn [negb].
  - replace (finishLine lineMessage drop_ pushed (place s o i m))
      with (place s (o + 1) i (finishLine lineMessage drop_ pushed m))
      by (unfold finishLine; cbn; by destruct (drop_ _)).
    rewrite IH. f_equal. lia.
  - match goal with |- take_in _ ?x = place _ _ _ (take_in _ ?y) =>
      change x with (place s (o + 1) i y) end.
    rewrite IH. f_equal. lia.
Qed.

(** What a text does to the module, wherever it comes from. *)
Lemma processFileChunk_lines t m :
  newline ∉ lineBuf m ->
  let text := lineBuf m ++ t in
  let m' := take_in t m in
  lineBuf m' = lastLine text /\ linesRead m' = linesRead m + len (completeLines text) /\
  outbox m' = outbox m ++ queuedFrom (linesRead m) (completeLines text) /\
  success m' = success m + len (acceptedFrom (linesRead m) (completeLines text)).
Proof.
  revert m. induction t as [|c t IH]; intros m Hm; cbv zeta.
  - rewrite app_nil_r, lastLine_none, completeLines_none by done. cbn.
    by rewrite len_nil, !Z.add_0_r, app_nil_r.
  - cbn [processFileChunk]. case_bool_decide as Hc; cbn [negb].
    + subst c. rewrite lastLine_cut, completeLines_cut by done.
      destruct (IH (finishLine lineMessage drop_ pushed m)) as (H1 & H2 & H3 & H4).
      { unfold finishLine. destruct (drop_ _); apply not_elem_of_nil. }
      cbv zeta in *. rewrite H1, H2, H3, H4. cbn [acceptedFrom queuedFrom]. rewrite len_cons.
      unfold finishLine. destruct (drop_ _), (pushed _); cbn [lineBuf linesRead outbox success app orb negb];
        rewrite ?app_nil_r, ?len_cons, <- ?app_assoc; repeat split; lia.
    + match goal with |- context[take_in t ?x] => destruct (IH x) as (H1 & H2 & H3 & H4) end.
      { cbn. intros [?|?%list_elem_of_singleton]%elem_of_app; [done|congruence]. }
      cbv zeta in *. cbn [lineBuf linesRead outbox success] in *. rewrite <- app_assoc in H1, H2, H3, H4.
      by rewrite H1, H2, H3, H4.
Qed.

(** A kernel that lets everything be read. *)
Definition readable (kernel : Kernel) : Prop := forall pos, kernel pos <> None.

Lemma readCount_bounds k avail : 0 < avail -> 1 <= readCount k avail <= avail.
Proof. unfold readCount, bufferSize. lia. Qed.

(** However the kernel cuts the file, [fileReadAll] reads it to the end. *)
Lemma readLoop_reads fuel files kernel ino pos o i m :
  readable kernel -> 0 <= pos <= len (files ino) ->
  (length (drop (Z.to_nat pos) (files ino)) < fuel)%nat ->
  readLoop lineMessage drop_ pushed fuel files kernel (place (Some (ino, pos)) o i m) =
    (true, place (Some (ino, len (files ino))) (len (files ino)) i
             (take_in (drop (Z.to_nat pos) (files ino)) m)).
Proof.
  intros Hk. revert pos o m. induction fuel as [|fuel IH]; intros pos o m Hpos Hfuel; [lia|].
  cbn [readLoop place sink]. rewrite seekTo_place.
  destruct (drop (Z.to_nat pos) (files ino)) as [|b rest] eqn:E.
  - cbn. assert (pos = len (files ino)) as ->; [|done].
    apply (f_equal length) in E. rewrite length_drop in E. unfold len in *. cbn in E. lia.
  - destruct (kernel pos) as [k|] eqn:Ek; [|by destruct (Hk pos)]. rewrite seekTo_place.
    cbn [place currentReadOffset]. set (avail := b :: rest) in *.
    assert (0 < len avail) as Ha by (unfold avail; rewrite len_cons; pose proof (len_nonneg rest); lia).
    pose proof (readCount_bounds k _ Ha) as Hn. set (n := readCount k (len avail)) in *.
    assert (len (take (Z.to_nat n) avail) = n) as Hlen.
    { unfold len in *. rewrite length_take. lia. }
    rewrite processFileChunk_place, Hlen.
    assert (len avail = len (files ino) - pos) as Hav.
    { rewrite <- E. unfold len in *. rewrite length_drop. lia. }
    assert (drop (Z.to_nat (pos + n)) (files ino) = drop (Z.to_nat n) avail) as Hd.
    { rewrite <- E, drop_drop. f_equal. lia. }
    rewrite IH.
    + f_equal. f_equal. rewrite Hd, <- processFileChunk_app. by rewrite take_drop.
    + lia.
    + rewrite Hd, length_drop. unfold len in *. lia.
Qed.
Lemma fileReadAll_reads files kernel ino pos o i m :
  readable kernel -> 0 <= pos <= len (files ino) ->
  fileReadAll lineMessage drop_ pushed files kernel (place (Some (ino, pos)) o i m) =
    (true, place (Some (ino, len (files ino))) (len (files ino)) i
             (take_in (drop (Z.to_nat pos) (files ino)) m)).
Proof. intros Hk Hpos. unfold fileReadAll. cbn [place sink]. apply readLoop_reads; [done..|lia]. Qed.
(** When the file has grown since it was read to its end. *)
Lemma fileReadAll_grown files kernel ino c d o i m :
  readable kernel -> files ino = c ++ d ->
  fileReadAll lineMessage drop_ pushed files kernel (place (Some (ino, len c)) o i m) =
    (true, place (Some (ino, len (c ++ d))) (len (c ++ d)) i (take_in d m)).
Proof.
  intros Hk Hf. rewrite fileReadAll_reads; [|done|].
  - rewrite Hf. unfold len at 3. by rewrite Nat2Z.id, drop_app_length.
  - rewrite Hf, len_app. pose proof (len_nonneg c). pose proof (len_nonneg d). lia.
Qed.

(** Rounds in which files are written to and rotated, as the kernel tells:
    the file that is followed, the inode the module knows for it ([0] when it
    has none yet), what it holds, and everything written meanwhile. In a
    round it grows by [d] before the wait, and by [e] while the module waits. *)
Inductive followed : Z -> Z -> bytes -> list (Happening * wake) -> Z -> Z -> bytes -> bytes -> Prop :=
  | followed_done ino i c : followed ino i c [] ino i c []
  | followed_changed ino i c d h rounds ino' i' c' t :
      readable (kernelBefore h) -> filesBefore h ino = c ++ d -> len (c ++ d) <= len (filesAfter h ino) ->
      followed ino i (c ++ d) rounds ino' i' c' t ->
      followed ino i c ((h, FileChanged) :: rounds) ino' i' c' (d ++ t)
  | followed_rotated ino i c d e h j rounds ino' i' c' t :
      readable (kernelBefore h) -> filesBefore h ino = c ++ d ->
      readable (kernelAfter h) -> filesAfter h ino = c ++ d ++ e ->
      statRetries 5 (pathAnswers h) = Some j -> i <> j -> pathOpened h = Some j ->
      followed j j [] rounds ino' i' c' t ->
      followed ino i c ((h, FileRotated) :: rounds) ino' i' c' (d ++ e ++ t)
  | followed_same ino c d e h rounds ino' i' c' t :
      readable (kernelBefore h) -> filesBefore h ino = c ++ d ->
      readable (kernelAfter h) -> filesAfter h ino = c ++ d ++ e ->
      statRetries 5 (pathAnswers h) = Some ino ->
      followed ino ino (c ++ d ++ e) rounds ino' i' c' t ->
      followed ino ino c ((h, FileRotated) :: rounds) ino' i' c' (d ++ e ++ t).

Lemma checkTruncation_fits files ino n o i m :
  o <= len (files ino) -> checkTruncation files (place (Some (ino, n)) o i m) = place (Some (ino, o)) o i m.
Proof. intros H. unfold checkTruncation. cbn. by rewrite (proj2 (Z.ltb_ge _ _)) by lia. Qed.

Lemma followed_reader ino i c rounds ino' i' c' t m :
  followed ino i c rounds ino' i' c' t ->
  reader lineMessage drop_ pushed rounds (place (Some (ino, len c)) (len c) i m) =
    (place (Some (ino', len c')) (len c') i' (take_in t m), None).
Proof.
  intros H. revert m. induction H as [ino i c|ino i c d h rounds ino' i' c' t Hk Hf Hl _ IH
    |ino i c d e h j rounds ino' i' c' t Hk Hf Hk' Hf' Hst Hij Ho _ IH
    |ino c d e h rounds ino' i' c' t Hk Hf Hk' Hf' Hst _ IH]; intros m; [done|..];
    cbn [reader]; unfold readerRound; rewrite (fileReadAll_grown _ _ _ _ _ _ _ _ Hk Hf).
  - rewrite checkTruncation_fits by done. by rewrite IH, processFileChunk_app.
  - assert (filesAfter h ino = (c ++ d) ++ e) as Hf2 by by rewrite <- app_assoc.
    rewrite (fileReadAll_grown _ _ _ _ _ _ _ _ Hk' Hf2). unfold reopenLogfile. rewrite Hst, Ho.
    cbn [place currentReadIno]. rewrite (proj2 (Z.eqb_neq _ _)) by done. cbn [snd].
    match goal with |- context[checkTruncation _ ?x] => change x with (place (Some (j, 0)) 0 j (take_in e (take_in d m))) end.
    rewrite checkTruncation_fits by apply len_nonneg.
    change (Some (j, 0)) with (Some (j, len (@nil byte))). rewrite IH.
    by rewrite <- !processFileChunk_app.
  - assert (filesAfter h ino = (c ++ d) ++ e) as Hf2 by by rewrite <- app_assoc.
    rewrite (fileReadAll_grown _ _ _ _ _ _ _ _ Hk' Hf2). unfold reopenLogfile. rewrite Hst.
    cbn [place currentReadIno]. rewrite Z.eqb_refl. cbn [snd].
    rewrite checkTruncation_fits by (rewrite Hf2; lia). rewrite <- app_assoc, IH.
    by rewrite <- !processFileChunk_app.
Qed.

(** C27: a file is followed completely. Starting at the beginning of a log
    file, and through rounds in which files only grow, reads do not fail, and a
    reported rotation finds the old file as long as it will ever be, the path
    answering within five tries and the new file being opened, the module
    queues, however the kernel cuts the reads, the message of every complete
    line of everything that was written, in order, except those that a filter
    drops and those whose push is given up because the module is stopped, which
    it counts as sent all the same; the line under way is in its buffer, and
    its position is the end of what it has read of the current file. A line cut
    in two by a rotation is one line. *)
Theorem file_followed files ino stateFile rounds ino' i' c' t m :
  NewInput files ino stateFile = Ok m -> currentReadOffset m = 0 ->
  followed ino (currentReadIno m) [] rounds ino' i' c' t ->
  let m' := (reader lineMessage drop_ pushed rounds m).1 in
  outbox m' = queuedFrom 0 (completeLines t) /\
  ((forall n, pushed n = true) -> outbox m' = acceptedFrom 0 (completeLines t)) /\
  linesRead m' = len (completeLines t) /\ success m' = len (acceptedFrom 0 (completeLines t)) /\
  lineBuf m' = lastLine t /\
  sink m' = Some (ino', len c') /\ currentReadOffset m' = len c'.
Proof.
  unfold NewInput. destruct (match (getLastPosition _ _).1 with Ok r => r | _ => _ end) as [inode position].
  case_match; [done|]. intros [= <-] Ho Hf. cbn [currentReadOffset currentReadIno] in *. subst position.
  set (m0 := mkIn (Some (ino, 0)) 0 inode [] 0 0 []).
  pose proof (followed_reader _ _ _ _ _ _ _ _ m0 Hf) as E. rewrite len_nil in E.
  change (place (Some (ino, 0)) 0 inode m0) with m0 in E. rewrite E. cbn.
  destruct (processFileChunk_lines t m0) as (H1 & H2 & H3 & H4); [apply not_elem_of_nil|].
  cbn in H1, H2, H3, H4. rewrite H1, H2, H3, H4. split_and!; try done. intros Hp. by apply queued_all.
Qed.

(** A truncated file is not read from its start. When a file that was
    read up to [p] has been cut below that, the module notices and logs that
    it seeks to the start, but it never seeks: it waits until the file is
    longer than [p] again and goes on there. The first [p] bytes of the new
    contents are lost. *)
Theorem truncated_start_lost rounds ino p m files kernel :
  sink m = Some (ino, p) -> 0 <= p -> rounds <> [] ->
  Forall (fun r => r.2 = FileChanged /\ len (filesBefore r.1 ino) <= p /\ len (filesAfter r.1 ino) < p) rounds ->
  readable kernel -> p <= len (files ino) ->
  let m' := (reader lineMessage drop_ pushed rounds m).1 in
  sink m' = Some (ino, p) /\ outbox m' = outbox m /\
  outbox (fileReadAll lineMessage drop_ pushed files kernel m').2 =
    outbox m ++ queuedFrom (linesRead m) (completeLines (drop (Z.to_nat p) (files ino))).
Proof.
  intros Hs Hp Hne Hr Hk Hf.
  assert (forall m, sink m = Some (ino, p) -> exists i, (reader lineMessage drop_ pushed rounds m).1 =
    mkIn (Some (ino, p)) 0 i [] (linesRead m) (success m) (outbox m)) as Hrun.
  { clear Hs m. induction Hr as [|[h w] rounds (Hw & Hb & Ha) Hr IH]; [done|]. cbn in Hw, Hb, Ha. subst w.
    intros m Hs. cbn [reader]. unfold readerRound, fileReadAll. rewrite Hs.
    assert (drop (Z.to_nat p) (filesBefore h ino) = []) as Ed by (apply drop_ge; unfold len in Hb; lia).
    rewrite Ed. cbn [readLoop length]. rewrite Hs. cbv beta iota zeta. rewrite Ed. cbv beta iota.
    unfold checkTruncation. cbn [sink seekTo currentReadOffset].
    rewrite (proj2 (Z.ltb_lt _ _)) by lia. destruct rounds as [|r rounds].
    - by eexists.
    - destruct (IH ltac:(done) (resetLine (seekTo (Some (ino, p)) p m))) as [i E]; [done|].
      exists i. exact E. }
  destruct (Hrun m Hs) as [i ->]. cbv zeta. split; [done|]. split; [done|].
  set (m1 := mkIn None 0 0 [] (linesRead m) (success m) (outbox m)).
  change (mkIn (Some (ino, p)) 0 i [] (linesRead m) (success m) (outbox m)) with (place (Some (ino, p)) 0 i m1).
  rewrite fileReadAll_reads by done. cbn [snd place outbox].
  destruct (processFileChunk_lines (drop (Z.to_nat p) (files ino)) m1) as (_ & _ & H & _); [apply not_elem_of_nil|].
  exact H.
Qed.

(** What a stop of the module saves: it has read the file to its end. *)
Lemma cancelled_saves h rounds ino i c d m :
  readable (kernelBefore h) -> filesBefore h ino = c ++ d ->
  reader lineMessage drop_ pushed ((h, Cancelled) :: rounds) (place (Some (ino, len c)) (len c) i m) =
    (place (Some (ino, len (c ++ d))) (len (c ++ d)) i (take_in d m), Some (i, len (c ++ d))).
Proof. intros Hk Hf. cbn [reader]. unfold readerRound. by rewrite (fileReadAll_grown _ _ _ _ _ _ _ _ Hk Hf). Qed.
End following.

(* ------------------------------------------------------------------ *)
(** * Stopping and starting                                             *)
(* ------------------------------------------------------------------ *)

Lemma savePosition_fields ino pos :
  0 <= ino < 2 ^ 64 -> 0 <= pos < 2 ^ 63 ->
  TrimSpace (take 128 (savePosition ino pos)) = savePosition ino pos /\
  Fields (savePosition ino pos) = [digits ino; digits pos] /\ savePosition ino pos <> [].
Proof.
  intros Hi Hp. unfold savePosition. rewrite !FormatInt_digits by lia. change (str " ") with [z2b 32].
  pose proof (length_digits 64 ino ltac:(lia) ltac:(lia)). pose proof (length_digits 63 pos ltac:(lia) ltac:(lia)).
  pose proof (digits_nonempty ino). pose proof (digits_nonempty pos).
  rewrite take_ge by (rewrite !length_app; cbn [length]; lia). split; [|split].
  - apply TrimSpace_id. apply trimmed_app; try done; apply digits_trimmed, digits_forallb; lia.
  - apply Fields_two; [done..| |]; apply Forall_forall; intros b Hb; apply digit_no_space.
    + pose proof (proj2 (digits_spec ino ltac:(lia))) as H'. rewrite Forall_forall in H'. by apply H'.
    + pose proof (proj2 (digits_spec pos ltac:(lia))) as H'. rewrite Forall_forall in H'. by apply H'.
  - by destruct (digits ino).
Qed.
(** The position that was saved is found again, unless the file at the path is
    another one, or is shorter. *)
Lemma getLastPosition_saved ino pos current size :
  0 <= ino < 2 ^ 64 -> 0 <= pos < 2 ^ 63 ->
  getLastPosition (Ok (current, size)) (savePosition ino pos) =
    (Ok (if ino =? current then (ino, Z.min pos size) else (current, 0)), savePosition ino pos).
Proof.
  intros Hi Hp. destruct (savePosition_fields ino pos Hi Hp) as (H1 & H2 & H3).
  unfold getLastPosition. rewrite H1. rewrite bool_decide_eq_false_2, H2 by done.
  rewrite ParseUint_digits by done. rewrite <- (FormatInt_digits pos) by lia.
  rewrite Atoi_FormatInt by lia. replace (if size <? pos then size else pos) with (Z.min pos size); [done|]. destruct (Z.ltb_spec size pos); lia.
Qed.

Section restart.
(** What is pushed in the run that is stopped, and in the next one. *)
Context (lineMessage : Z -> gostring -> Message) (drop_ : Message -> bool) (pushed pushed' : Z -> bool).



(** Lines that are read after the stop has begun are gone: [PushBlocking]
    queues nothing once the context is done, even if there is room; the module
    counts them as sent, saves the position after them, and the next run
    starts there. *)
Lemma stop_loses_lines h ino c d m :
  readable (kernelBefore h) -> sink m = Some (ino, len c) -> currentReadOffset m = len c ->
  currentReadIno m = ino -> lineBuf m = [] -> filesBefore h ino = c ++ d ->
  (forall n, linesRead m <= n -> pushed n = false) ->
  let stopped := reader lineMessage drop_ pushed [(h, Cancelled)] m in
  outbox stopped.1 = outbox m /\ stopped.2 = Some (ino, len (c ++ d)) /\
  success stopped.1 = success m + len (acceptedFrom lineMessage drop_ (linesRead m) (completeLines d)).
Proof.
  intros Hk Hs Ho Hino Hb Hf Hn. cbv zeta.
  assert (m = place (Some (ino, len c)) (len c) ino m) as Em
    by (unfold place; destruct m; cbn in *; congruence).
  rewrite Em, (cancelled_saves _ _ _ _ _ _ _ _ _ _ Hk Hf). cbn [fst snd place outbox success].
  destruct (processFileChunk_lines lineMessage drop_ pushed d m) as (_ & _ & H1 & H2).
  { rewrite Hb. apply not_elem_of_nil. }
  rewrite H1, H2, Hb, queued_none, app_nil_r by done. done.
Qed.

(** The first restart sends the whole file again. A module that starts
    without a saved position does not learn the inode of its file, so that
    the position it saves when it stops is that of inode 0; the next start
    takes the file for another one and reads it from its beginning. *)
Theorem first_restart_rereads h h' ino c e files files' :
  0 < ino < 2 ^ 64 -> len c < 2 ^ 63 -> readable (kernelBefore h) -> readable (kernelBefore h') ->
  filesBefore h ino = c -> filesBefore h' ino = c ++ e ->
  exists m saved m', NewInput files ino [] = Ok m /\
    (reader lineMessage drop_ pushed [(h, Cancelled)] m).2 = Some saved /\
    NewInput files' ino (savePosition saved.1 saved.2) = Ok m' /\
    outbox (reader lineMessage drop_ pushed [(h, Cancelled)] m).1 = queuedFrom lineMessage drop_ pushed 0 (completeLines c) /\
    outbox (reader lineMessage drop_ pushed' [(h', Cancelled)] m').1 =
      queuedFrom lineMessage drop_ pushed' 0 (completeLines (c ++ e)).
Proof.
  intros Hi Hl Hk Hk' Hf Hf'.
  set (m1 := mkIn None 0 0 [] 0 0 []).
  exists (place (Some (ino, len (@nil byte))) (len (@nil byte)) 0 m1), (0, len c),
    (place (Some (ino, len (@nil byte))) (len (@nil byte)) ino m1).
  rewrite (cancelled_saves lineMessage drop_ pushed h [] ino 0 [] c m1 Hk Hf).
  rewrite (cancelled_saves lineMessage drop_ pushed' h' [] ino ino [] (c ++ e) m1 Hk' Hf').
  split; [done|]. split; [done|]. split.
  - unfold NewInput. cbn [fst snd]. pose proof (len_nonneg c). rewrite getLastPosition_saved by lia.
    by rewrite (proj2 (Z.eqb_neq _ _)) by lia.
  - cbn [fst place outbox app].
    destruct (processFileChunk_lines lineMessage drop_ pushed c m1) as (_ & _ & H & _); [apply not_elem_of_nil|].
    destruct (processFileChunk_lines lineMessage drop_ pushed' (c ++ e) m1) as (_ & _ & H' & _); [apply not_elem_of_nil|].
    by rewrite H, H'.
Qed.
End restart.

(* ------------------------------------------------------------------ *)
(** * Messages of lines                                                 *)
(* ------------------------------------------------------------------ *)

Create HintDb typed.

Section lines.
Context (parseTime : gostring -> gostring -> option gotime) (withCurrentYear : gotime -> gotime)
  (toLower : gostring -> gostring) (now : gotime) (pid : Z) (localHostname : gostring).
#[local] Abbreviation parse := (parseLine parseTime withCurrentYear toLower now pid localHostname).

Definition int64 (z : Z) : Prop := - 2 ^ 63 <= z < 2 ^ 63.
(** What the formats may have set. *)
Definition typed (m : Message) : Prop :=
  map_Forall (fun k v => (k = CFappname /\ exists a, v = VString a) \/
                         (k = CFprocessid /\ exists z, v = VInt z /\ int64 z) \/
                         (k = CFseverity /\ exists s, v = VString s)) (mFields m).

Lemma Atoi_int64 s z : Atoi s = Some z -> int64 z.
Proof.
  unfold Atoi. destruct (signOf s) as [negative t]. unfold signed64, ParseUint, int64.
  destruct (bool_decide (t = []) || _ || _) eqn:E; [done|]. cbn.
  apply orb_false_iff in E as [E _]. apply orb_false_iff in E as [_ E]. apply negb_false_iff in E.
  assert (0 <= decimal t 0) as Hd.
  { assert (forall l acc, forallb isDigit l = true -> 0 <= acc -> 0 <= decimal l acc) as H.
    { clear. induction l as [|b l IH]; intros acc Hl Ha; [done|]. cbn in *. apply andb_prop in Hl as [Hb Hl].
      apply IH; [done|]. unfold isDigit in Hb. apply andb_prop in Hb as [Hb _]. apply Z.leb_le in Hb. lia. }
    by apply H. }
  destruct negative.
  - destruct (Z.ltb_spec (2 ^ 63) (decimal t 0)); [done|]. intros [= <-]. lia.
  - destruct (Z.leb_spec (2 ^ 63) (decimal t 0)); [done|]. intros [= <-]. lia.
Qed.

Lemma typed_timestamp t m : typed m -> typed (withTimestamp t m).
Proof. done. Qed.
Lemma typed_hostname h m : typed m -> typed (withHostname h m).
Proof. done. Qed.
Lemma typed_data d m : typed m -> typed (withData d m).
Proof. done. Qed.
Lemma typed_appname a m : typed m -> typed (withField CFappname (VString a) m).
Proof. intros H. apply map_Forall_insert_2; [|done]. left. eauto. Qed.
Lemma typed_severity a m : typed m -> typed (withField CFseverity (VString a) m).
Proof. intros H. apply map_Forall_insert_2; [|done]. right. right. eauto. Qed.
Lemma typed_pid t m : typed m -> typed (withPid t m).
Proof.
  intros H. unfold withPid. destruct (Atoi t) as [z|] eqn:E; [|done]. apply Atoi_int64 in E.
  apply map_Forall_insert_2; [|done]. right. left. eauto.
Qed.
#[local] Hint Resolve typed_timestamp typed_hostname typed_data typed_appname typed_severity typed_pid : typed.
#[local] Ltac typed := repeat (case_match; simplify_eq; cbn [fst snd]); eauto 10 with typed.

Lemma typed_parsed line :
  typed (orNext (fun m => orNext (fun m => orNext (fun m => orNext (fun m =>
           (phpFormat parseTime line (apacheTime parseTime line m)).1)
           (dpkgFormat parseTime line m)) (nginxFormat parseTime toLower line m))
           (syslog2Format parseTime line m))
           (syslogFormat parseTime withCurrentYear line (mkMessage zeroTime [] ∅ []))).
Proof.
  assert (forall m, typed m -> typed (syslogFormat parseTime withCurrentYear line m).1) as H1
    by (intros m Hm; unfold syslogFormat; typed).
  assert (forall m, typed m -> typed (syslog2Format parseTime line m).1) as H2
    by (intros m Hm; unfold syslog2Format; typed).
  assert (forall m, typed m -> typed (nginxFormat parseTime toLower line m).1) as H3
    by (intros m Hm; unfold nginxFormat; typed).
  assert (forall m, typed m -> typed (dpkgFormat parseTime line m).1) as H4
    by (intros m Hm; unfold dpkgFormat; typed).
  assert (forall m, typed m -> typed (phpFormat parseTime line (apacheTime parseTime line m)).1) as H5
    by (intros m Hm; unfold phpFormat, apacheTime; typed).
  assert (forall r (next : Message -> Message), typed r.1 -> (forall m, typed m -> typed (next m)) -> typed (orNext next r)) as Ho
    by (intros [m b] next Hm Hn; unfold orNext; cbn; destruct b; auto).
  repeat (apply Ho; [auto using map_Forall_empty|intros ? ?]). all: auto.
  apply H1. apply map_Forall_empty.
Qed.

Lemma orField_lookup k v m i :
  mFields (orField k v m) !! i = if decide (i = k) then Some (default v (mFields m !! k)) else mFields m !! i.
Proof.
  unfold orField. destruct (mFields m !! k) eqn:E; destruct (decide (i = k)) as [->|Hi]; cbn; try done.
  - by rewrite lookup_insert_eq.
  - by rewrite lookup_insert_ne.
Qed.
Lemma orField_rest k v m :
  mTimestamp (orField k v m) = mTimestamp m /\ mHostname (orField k v m) = mHostname m /\
  mData (orField k v m) = mData m.
Proof. unfold orField. by case_match. Qed.

Lemma setDefaults_rest raw m :
  localHostname <> [] -> now <> zeroTime ->
  let m' := setDefaults now pid localHostname raw m in
  mTimestamp m' <> zeroTime /\ mHostname m' <> [] /\ mData m' <> [].
Proof.
  intros Hh Hnow. cbv zeta. unfold setDefaults.
  repeat match goal with |- context[orField ?k ?v ?m] =>
    let H := fresh in destruct (orField_rest k v m) as (H & -> & ->); rewrite H; clear H end.
  set (m1 := if mTimestamp m =? zeroTime then _ else m).
  assert (mTimestamp m1 <> zeroTime) as H1 by (unfold m1; by destruct (Z.eqb_spec (mTimestamp m) zeroTime)).
  set (m2 := if bool_decide (mHostname m1 = []) then _ else m1).
  assert (mTimestamp m2 <> zeroTime) as H2 by (unfold m2; by case_match).
  assert (mHostname m2 <> []) as H3 by (unfold m2; by case_bool_decide).
  destruct (Z.eqb_spec (len (mData m2)) 0) as [_|Hl].
  - cbn. split_and!; [done..|]. by case_bool_decide.
  - split_and!; [done..|]. by intros E; rewrite E in Hl.
Qed.
Lemma setDefaults_fields raw m :
  int64 pid -> typed m ->
  exists a z s, int64 z /\
    mFields (setDefaults now pid localHostname raw m) = sourceFields a z DefaultFacility s.
Proof.
  intros Hpid Ht. unfold setDefaults.
  match goal with |- context[orField CFappname _ ?x] => set (m3 := x) end.
  assert (typed m3) as H by (unfold m3; typed). clearbody m3. clear Ht.
  assert (exists a, default (VString (str "-")) (mFields m3 !! CFappname) = VString a) as [a Ha].
  { destruct (mFields m3 !! CFappname) eqn:E; [|by eexists].
    destruct (H _ _ E) as [[_ [a ->]]|[[? _]|[? _]]]; [by exists a|done..]. }
  assert (exists z, int64 z /\ default (VInt pid) (mFields m3 !! CFprocessid) = VInt z) as (z & Hz & Hz').
  { destruct (mFields m3 !! CFprocessid) eqn:E; [|by eexists].
    destruct (H _ _ E) as [[? _]|[[_ (z & -> & Hz)]|[? _]]]; [done|by exists z|done]. }
  assert (exists s, default (VString DefaultSeverity) (mFields m3 !! CFseverity) = VString s) as [s Hs].
  { destruct (mFields m3 !! CFseverity) eqn:E; [|by eexists].
    destruct (H _ _ E) as [[? _]|[[? _]|[_ [s ->]]]]; [done..|by exists s]. }
  exists a, z, s. split; [done|]. apply map_eq. intros i. rewrite !orField_lookup. unfold sourceFields.
  repeat match goal with |- context[decide (?a = ?b)] => rewrite (decide_False (P := a = b)) by done end.
  destruct (decide (i = CFseverity)) as [->|H4]; [by rewrite Hs|].
  destruct (decide (i = CFfacility)) as [->|H3].
  { destruct (mFields m3 !! CFfacility) eqn:E; [|done]. by destruct (H _ _ E) as [[? _]|[[? _]|[? _]]]. }
  destruct (decide (i = CFprocessid)) as [->|H2]; [by rewrite Hz'|].
  destruct (decide (i = CFappname)) as [->|H1]; [by rewrite Ha|].
  rewrite !lookup_insert_ne, lookup_singleton_ne by done.
  destruct (mFields m3 !! i) eqn:E; [|done]. by destruct (H _ _ E) as [[? _]|[[? _]|[? _]]].
Qed.

(** Every line becomes a message a receiver can use. Whatever bytes a
    line holds, the message has a time, a name and some data, and exactly the
    four fields of a source, each of its type. *)
Theorem parseLine_typed rawLine :
  int64 pid -> localHostname <> [] -> now <> zeroTime ->
  let m := parse rawLine in
  mTimestamp m <> zeroTime /\ mHostname m <> [] /\ mData m <> [] /\
  exists a z s, int64 z /\ mFields m = sourceFields a z DefaultFacility s.
Proof.
  intros Hpid Hh Hnow. cbv zeta. unfold parseLine.
  match goal with |- context[setDefaults _ _ _ ?line ?m] =>
    pose proof (setDefaults_fields line m Hpid (typed_parsed _)) as Hf;
    destruct (setDefaults_rest line m Hh Hnow) as (H1 & H2 & H3) end.
  done.
Qed.

(** The lines of a system log are read as they are meant: time, host,
    program, process and text of a line in the traditional format become the
    message's. *)
Theorem parseLine_syslog stamp ts host app_ z text :
  length stamp = 15%nat -> trimmed stamp = true ->
  parseTime (str "Jan _2 15:04:05") stamp = Some ts -> withCurrentYear ts <> zeroTime ->
  host <> [] -> trimmed host = true -> space ∉ host ->
  app_ <> [] -> trimmed app_ = true -> colon ∉ app_ -> lbracket ∉ app_ -> rbracket ∉ app_ ->
  0 <= z < 2 ^ 63 -> text <> [] -> trimmed text = true ->
  parse (stamp ++ space :: host ++ space :: app_ ++ lbracket :: FormatInt z ++
           rbracket :: colon :: space :: text) =
    mkMessage (withCurrentYear ts) host (sourceFields app_ z DefaultFacility DefaultSeverity) text.
Proof.
  intros Hs1 Hs2 Hts Hyear Hh1 Hh2 Hh3 Ha1 Ha2 Ha3 Ha4 Ha5 Hz Ht1 Ht2.
  set (pidText := FormatInt z). assert (pidText = digits z) as Ep by (apply FormatInt_digits; lia).
  set (header := app_ ++ lbracket :: pidText ++ [rbracket]).
  set (rest2 := header ++ colon :: space :: text).
  assert (stamp ++ space :: host ++ space :: app_ ++ lbracket :: pidText ++ rbracket :: colon :: space :: text =
    stamp ++ space :: host ++ space :: rest2) as ->
    by (unfold rest2, header; by app_norm).
  assert (colon ∉ header) as Hcolon.
  { unfold header. rewrite Ep. pose proof (digits_without colon z eq_refl ltac:(lia)).
    apply not_elem_of_app; split; [done|]. apply not_elem_of_cons; split; [done|].
    apply not_elem_of_app; split; [done|]. by apply not_elem_of_cons; split; [|apply not_elem_of_nil]. }
  assert (trimmed rest2 = true) as Hr2.
  { replace rest2 with (app_ ++ (lbracket :: pidText ++ [rbracket; colon; space]) ++ text)
      by (unfold rest2, header; by app_norm). by apply trimmed_app. }
  assert (rest2 <> []) as Hr2n by by unfold rest2, header; destruct app_.
  assert (trimmed (host ++ space :: rest2) = true) as Hr1 by by apply (trimmed_app host [space] rest2).
  assert (forall s : bytes, s <> [] -> 0 < len s) as Hpos
    by (intros [|b s] H; [done|rewrite len_cons; pose proof (len_nonneg s); lia]).
  assert (syslogFormat parseTime withCurrentYear (stamp ++ space :: host ++ space :: rest2) (mkMessage zeroTime [] ∅ []) =
    (mkMessage (withCurrentYear ts) host (<[CFprocessid := VInt z]> {[CFappname := VString app_]}) text, true)) as Hf.
  { assert (len stamp = 15) as Hlen by (unfold len; lia). unfold syslogFormat.
    rewrite (proj2 (Z.ltb_ge _ _)) by (rewrite len_app; pose proof (len_nonneg (space :: host ++ space :: rest2)); lia).
    rewrite <- Hlen, before_app, Hts, after_app.
    assert (TrimSpace (space :: host ++ space :: rest2) = host ++ space :: rest2) as -> by by apply TrimSpace_space.
    rewrite IndexByte_app by done. cbv zeta. rewrite (proj2 (Z.leb_gt _ _)) by by apply Hpos.
    rewrite before_app, after_app_byte, (TrimSpace_id rest2) by done.
    assert (IndexByte rest2 colon = len header) as -> by by apply IndexByte_app.
    assert (before rest2 (len header) = header) as -> by apply before_app.
    assert (after rest2 (len header + 1) = space :: text) as -> by apply after_app_byte.
    assert (TrimSpace (space :: text) = text) as -> by by apply TrimSpace_space.
    rewrite (proj2 (Z.leb_gt _ _)) by (apply Hpos; unfold header; by destruct app_).
    assert (IndexByte header lbracket = len app_) as -> by by apply IndexByte_app.
    rewrite (proj2 (Z.ltb_lt _ _)) by by apply Hpos.
    assert (header = (app_ ++ lbracket :: pidText) ++ [rbracket]) as Hh by (unfold header; by app_norm).
    assert (IndexByte header rbracket = len (app_ ++ lbracket :: pidText)) as Hrb.
    { rewrite Hh. apply IndexByte_app. pose proof (digits_without rbracket z eq_refl ltac:(lia)). rewrite Ep.
      apply not_elem_of_app; split; [done|]. by apply not_elem_of_cons; split. }
    assert (between header (len app_ + 1) (len (app_ ++ lbracket :: pidText)) = pidText) as Hb.
    { unfold between. rewrite Hh, before_app. apply after_app_byte. }
    assert (before header (len app_) = app_) as -> by apply before_app.
    rewrite Hrb, Hb. unfold withPid, pidText. rewrite Atoi_FormatInt by lia.
    rewrite (proj2 (Z.ltb_lt _ _)); [done|].
    rewrite len_app, len_cons. pose proof (Hpos (digits z) (digits_nonempty z)). rewrite FormatInt_digits by lia. lia. }
  unfold parseLine. rewrite TrimSpace_id.
  2:{ apply (trimmed_app stamp [space] (host ++ space :: rest2)); [by destruct stamp|by destruct host|done|done]. }
  rewrite Hf. unfold orNext. cbn [fst snd]. unfold setDefaults. cbn [mTimestamp mHostname mData].
  rewrite (proj2 (Z.eqb_neq (withCurrentYear ts) zeroTime)) by done. cbn [mHostname].
  rewrite (bool_decide_eq_false_2 (host = [])) by done. cbn [mData].
  rewrite (proj2 (Z.eqb_neq (len text) 0)) by (pose proof (Hpos text Ht1); lia).
  unfold orField at 4. cbn [mFields]. rewrite lookup_insert_ne, lookup_singleton_eq by done.
  unfold orField at 3. cbn [mFields]. rewrite lookup_insert_eq.
  unfold orField at 2. cbn [mFields]. rewrite lookup_insert_ne, lookup_singleton_ne by done.
  unfold orField. cbn [mFields withField]. rewrite !lookup_insert_ne, lookup_singleton_ne by done.
  unfold withField, sourceFields. done.
Qed.
End lines.

(* ------------------------------------------------------------------ *)
(** * Examples                                                          *)
(* ------------------------------------------------------------------ *)

(** A parser of times that knows the stamps of these examples. *)
Definition exampleParseTime (layout value : gostring) : option gotime :=
  if bool_decide (layout = str "Jan _2 15:04:05") && bool_decide (value = str "Mar 14 09:26:53") then Some 7
  else if bool_decide (layout = str "2006-01-02T15:04:05.999999-07:00") &&
          bool_decide (value = str "2025-03-14T09:26:53.589793+01:00") then Some 11
  else if bool_decide (layout = str "2006/01/02 15:04:05") && bool_decide (value = str "2025/03/14 09:26:53")
  then Some 13 else None.
Definition exampleParse : gostring -> Message :=
  parseLine exampleParseTime (fun t => t) (fun s => s) 99 42 (str "localhost").
Definition exampleLine : Z -> gostring -> Message := fun _ line => exampleParse line.

Lemma parseLine_typed_witness :
  let m := exampleParse (str "[not a log line") in
  mData m = str "[not a log line" /\ mTimestamp m = 99 /\
  exists a z s, int64 z /\ mFields m = sourceFields a z DefaultFacility s.
Proof.
  intros m. split; [by vm_compute|]. split; [by vm_compute|].
  apply (parseLine_typed exampleParseTime (fun t => t) (fun s => s) 99 42 (str "localhost") (str "[not a log line"));
    [by vm_compute; split|done|done].
Defined.
Lemma parseLine_syslog_witness :
  exampleParse (str "Mar 14 09:26:53 web1 sshd[811]: Accepted: key") =
    mkMessage 7 (str "web1") (sourceFields (str "sshd") 811 DefaultFacility DefaultSeverity) (str "Accepted: key").
Proof.
  apply (parseLine_syslog exampleParseTime (fun t => t) (fun s => s) 99 42 (str "localhost")
           (str "Mar 14 09:26:53") 7 (str "web1") (str "sshd") 811 (str "Accepted: key"));
    try done; try (apply (bool_decide_unpack _); by vm_compute).
Defined.

(** A bracket in the text of a line with an ISO time is taken for the one
    before a process identifier: the program's name swallows the text. *)
Example bracket_in_text :
  let m := exampleParse (str "2025-03-14T09:26:53.589793+01:00 web1 app: query [slow] took 3s") in
  mFields m !! CFappname = Some (VString (str "app: query ")) /\ mData m = str "took 3s".
Proof. by vm_compute. Qed.
(** The severities of nginx are not those of syslog: such a message never
    becomes a notification. *)
Example nginx_severity_unknown :
  let m := exampleParse (str "2025/03/14 09:26:53 [error] 811#0: *1 open() failed") in
  mFields m !! CFseverity = Some (VString (str "error")) /\
  formatAsNotification 1 (mkPayload AddrZero 1 1 0 0 0 (str "h") 0 [] (sentFields (mFields m)) (mData m) 16)
    = Err (EWrap EMsg).
Proof. by vm_compute. Qed.
(** A source whose queue takes every message. *)
Definition always : Z -> bool := fun _ => true.
(** A line that is under way when the module stops loses its head. *)
Example partial_line_cut :
  let drop_ := fun _ => false in
  let stamp := str "one" ++ [newline] ++ str "tw" in
  let h files := mkHappening files (fun _ => Some 4096) files (fun _ => Some 4096) (fun _ => Unavailable) None in
  match NewInput (fun _ => stamp) 5 (savePosition 5 0) with
  | Ok m =>
      match reader exampleLine drop_ always [(h (fun _ => stamp), Cancelled)] m with
      | (m1, Some saved) =>
          let grown := stamp ++ str "o" ++ [newline] in
          match NewInput (fun _ => grown) 5 (savePosition saved.1 saved.2) with
          | Ok m' => (map mData (outbox m1),
                      map mData (outbox (reader exampleLine drop_ always [(h (fun _ => grown), Cancelled)] m').1))
          | _ => ([], [])
          end
      | _ => ([], [])
      end
  | _ => ([], [])
  end = ([str "one"], [str "o"]).
Proof. by vm_compute. Qed.

(** The second line is read when the stop has begun: it is in no run. *)
Example line_lost_at_stop :
  let drop_ := fun _ => false in
  let text := str "one" ++ [newline] ++ str "two" ++ [newline] in
  let h files := mkHappening files (fun _ => Some 4096) files (fun _ => Some 4096) (fun _ => Unavailable) None in
  match NewInput (fun _ => text) 5 (savePosition 5 0) with
  | Ok m =>
      match reader exampleLine drop_ (fun n => n <? 1) [(h (fun _ => text), Cancelled)] m with
      | (m1, Some saved) =>
          match NewInput (fun _ => text) 5 (savePosition saved.1 saved.2) with
          | Ok m' => (map mData (outbox m1), success m1, currentReadOffset m1,
                      map mData (outbox (reader exampleLine drop_ always [(h (fun _ => text), Cancelled)] m').1))
          | _ => ([], 0, 0, [])
          end
      | _ => ([], 0, 0, [])
      end
  | _ => ([], 0, 0, [])
  end = ([str "one"], 2, 8, []).
Proof. by vm_compute. Qed.

Definition exampleFiles (old new : gostring) : Files := fun ino => if ino =? 5 then old else new.
Definition slowly : Kernel := fun pos => Some (pos mod 3).
Definition exampleRound (old new old' new' : gostring) (path : statResult) (opened : option Z) : Happening :=
  mkHappening (exampleFiles old new) slowly (exampleFiles old' new') slowly (fun _ => path) opened.
Lemma slowly_readable : readable slowly.
Proof. done. Qed.

(** A file that grows, is rotated in the middle of a line, and goes on. *)
Lemma file_followed_witness :
  let nl := [newline] in
  let first := str "one" ++ nl ++ str "tw" in
  let old := first ++ str "o" ++ nl ++ str "th" in
  let new := str "ree" ++ nl ++ str "fo" in
  let rounds := [(exampleRound first [] first [] Unavailable None, FileChanged);
                 (exampleRound first [] old new (Found 6) (Some 6), FileRotated);
                 (exampleRound old new old new Unavailable None, FileChanged)] in
  exists m, NewInput (exampleFiles first []) 5 [] = Ok m /\
    let m' := (reader exampleLine (fun _ => false) always rounds m).1 in
    map mData (outbox m') = [str "one"; str "two"; str "three"] /\ lineBuf m' = str "fo" /\
    sink m' = Some (6, 6).
Proof.
  intros nl first old new rounds.
  eexists. split; [reflexivity|]. intros m'.
  destruct (file_followed exampleLine (fun _ => false) always (exampleFiles first []) 5 [] rounds 6 6 new
    (first ++ (str "" ++ (str "o" ++ nl ++ str "th") ++ new ++ []))
    (mkIn (Some (5, 0)) 0 0 [] 0 0 [])) as (H1 & _ & _ & _ & H4 & H5 & _);
    [reflexivity|reflexivity| |].
  - apply (followed_changed 5 0 [] first); [apply slowly_readable|reflexivity|by vm_compute|].
    apply (followed_rotated 5 0 ([] ++ first) (str "") (str "o" ++ nl ++ str "th") _ 6);
      [apply slowly_readable|reflexivity|apply slowly_readable|reflexivity|reflexivity|done|reflexivity|].
    apply (followed_changed 6 6 [] new); [apply slowly_readable|reflexivity|by vm_compute|].
    apply followed_done.
  - change m' with (reader exampleLine (fun _ => false) always rounds (mkIn (Some (5, 0)) 0 0 [] 0 0 [])).1.
    rewrite H1, H4, H5. subst nl first old new rounds; clear; split_and!; vm_compute; reflexivity.
Defined.

(** A file of twelve bytes that is truncated and written anew: of the new
    lines only what lies beyond the twelfth byte arrives. *)
Lemma truncated_start_lost_witness :
  let new := str "first" ++ [newline] ++ str "second" ++ [newline] ++ str "third" ++ [newline] in
  let m := mkIn (Some (5, 12)) 12 5 [] 2 2 [] in
  let h := exampleRound [] [] (str "fir") [] Unavailable None in
  let m' := (reader exampleLine (fun _ => false) always [(h, FileChanged)] m).1 in
  sink m' = Some (5, 12) /\
  map mData (outbox (fileReadAll exampleLine (fun _ => false) always (exampleFiles new []) slowly m').2) = [str "-"; str "third"].
Proof.
  intros new m h m'.
  destruct (truncated_start_lost exampleLine (fun _ => false) always [(h, FileChanged)] 5 12 m (exampleFiles new []) slowly)
    as (H1 & _ & H3); [done|done|done| |done|by vm_compute|].
  - apply Forall_singleton. split; [done|]. by vm_compute.
  - split; [exact H1|]. change m' with (reader exampleLine (fun _ => false) always [(h, FileChanged)] m).1.
    rewrite H3. by vm_compute.
Defined.


Lemma first_restart_rereads_witness :
  let c := str "one" ++ [newline] in
  let h := mkHappening (fun _ => c) slowly (fun _ => c) slowly (fun _ => Unavailable) None in
  exists m saved m', NewInput (fun _ => c) 5 [] = Ok m /\
    (reader exampleLine (fun _ => false) always [(h, Cancelled)] m).2 = Some saved /\
    NewInput (fun _ => c) 5 (savePosition saved.1 saved.2) = Ok m' /\
    map mData (outbox (reader exampleLine (fun _ => false) always [(h, Cancelled)] m').1) = [str "one"].
Proof.
  intros c h.
  destruct (first_restart_rereads exampleLine (fun _ => false) always always h h 5 c [] (fun _ => c) (fun _ => c))
    as (m & saved & m' & H1 & H2 & H3 & _ & H5);
    [lia|by vm_compute|apply slowly_readable|apply slowly_readable|reflexivity|reflexivity|].
  exists m, saved, m'. split; [exact H1|]. split; [exact H2|]. split; [exact H3|]. rewrite H5. by vm_compute.
Defined.
