(* ===== verification/Base64.v ===== *)
(** [encoding/base64], the standard encoding: how the program stores keys in
    its configuration ([sender/config.go], [sender/signingkey.go],
    [receiver/new.go], [receiver/signingkeys.go]). As Go's decoder does,
    [DecodeString] skips carriage returns and newlines and does not look at
    the bits that padding leaves over. *)
From S2P Require Import Prelude Text.

(* ------------------------------------------------------------------ *)
(** * The alphabet                                                      *)
(* ------------------------------------------------------------------ *)

Definition alphabet : bytes :=
  str "ABCDEFGHIJKLMNOPQRSTUVWXYZabcdefghijklmnopqrstuvwxyz0123456789+/".
Definition padChar : byte := z2b 61.

Definition encodeSextet (v : Z) : byte := nth (Z.to_nat v) alphabet padChar.
Definition decodeSextet (c : byte) : option Z :=
  fmap (fun p => Z.of_nat p.1) (list_find (fun d => d = c) alphabet).

Lemma decode_encodeSextet v : 0 <= v < 64 -> decodeSextet (encodeSextet v) = Some v.
Proof.
  intros Hv.
  assert (forallb (fun n => bool_decide (decodeSextet (encodeSextet (Z.of_nat n)) = Some (Z.of_nat n)))
            (seq 0 64) = true) as H by (vm_compute; reflexivity).
  rewrite forallb_forall in H. specialize (H (Z.to_nat v)).
  rewrite Z2Nat.id in H by lia. apply bool_decide_eq_true in H; [done|].
  apply in_seq. lia.
Qed.

(** What decoding skips: newlines and carriage returns. *)
Definition skipped (c : byte) : bool := (b2z c =? 10) || (b2z c =? 13).

Lemma sextet_clean v : 0 <= v < 64 ->
  encodeSextet v <> padChar /\ skipped (encodeSextet v) = false.
Proof.
  intros Hv. apply decode_encodeSextet in Hv. split.
  - intros E. rewrite E in Hv. by vm_compute in Hv.
  - destruct (skipped _) eqn:E; [|done]. unfold skipped in E.
    apply orb_true_iff in E as [E|E]; apply Z.eqb_eq, (f_equal z2b) in E;
      rewrite z2b_b2z in E; rewrite E in Hv; by vm_compute in Hv.
Qed.

(* ------------------------------------------------------------------ *)
(** * Encoding and decoding                                             *)
(* ------------------------------------------------------------------ *)

(** [base64.StdEncoding.EncodeToString] *)
Fixpoint EncodeToString (l : bytes) : gostring :=
  match l with
  | [] => []
  | [a] =>
      let v := b2z a * 16 in
      [encodeSextet (v / 64); encodeSextet (v mod 64); padChar; padChar]
  | [a; b] =>
      let v := (b2z a * 256 + b2z b) * 4 in
      [encodeSextet (v / 4096); encodeSextet (v / 64 mod 64); encodeSextet (v mod 64); padChar]
  | a :: b :: c :: l =>
      let v := b2z a * 65536 + b2z b * 256 + b2z c in
      encodeSextet (v / 262144) :: encodeSextet (v / 4096 mod 64) ::
      encodeSextet (v / 64 mod 64) :: encodeSextet (v mod 64) :: EncodeToString l
  end.

(** The quanta of four characters that are left when the characters that
    decoding skips are gone: what was decoded, up to an error, and whether
    there was none; [decodeQuantum]. *)
Fixpoint decodeQuanta (s : bytes) : bytes * bool :=
  match s with
  | [] => ([], true)
  | a :: b :: c :: d :: s =>
      match decodeSextet a, decodeSextet b with
      | Some x, Some y =>
          if bool_decide (c = padChar) then
            if bool_decide (d = padChar) then ([z2b (x * 4 + y / 16)], bool_decide (s = []))
            else ([], false)
          else match decodeSextet c with
          | None => ([], false)
          | Some z =>
              if bool_decide (d = padChar)
              then ([z2b (x * 4 + y / 16); z2b (y * 16 + z / 4)], bool_decide (s = []))
              else match decodeSextet d with
              | None => ([], false)
              | Some w =>
                  let '(rest, ok) := decodeQuanta s in
                  (z2b (x * 4 + y / 16) :: z2b (y * 16 + z / 4) :: z2b (z * 64 + w) :: rest, ok)
              end
          end
      | _, _ => ([], false)
      end
  | _ => ([], false)
  end.

(** [base64.StdEncoding.DecodeString]: the bytes, and whether there was no
    error. *)
Definition DecodeString (s : gostring) : bytes * bool :=
  decodeQuanta (List.filter (fun c => negb (skipped c)) s).

(* ------------------------------------------------------------------ *)
(** * Round trip                                                        *)
(* ------------------------------------------------------------------ *)

Lemma z2b_of (b : byte) z : z mod 256 = b2z b -> z2b z = b.
Proof. intros H. apply b2z_inj. by rewrite b2z_z2b. Qed.

(** Three bytes per step, the last step may be short. *)
Lemma triples_ind (P : bytes -> Prop) :
  P [] -> (forall a, P [a]) -> (forall a b, P [a; b]) ->
  (forall a b c l, P l -> P (a :: b :: c :: l)) -> forall l, P l.
Proof.
  intros H0 H1 H2 H3. assert (forall l, P l /\ (forall a, P (a :: l)) /\ (forall a b, P (a :: b :: l))) as H.
  { induction l as [|x l (I1 & I2 & I3)]; [done|]. split_and!; auto. }
  intros l. apply H.
Qed.

Ltac byteOf := apply z2b_of; Z.to_euclidean_division_equations; lia.

Lemma decodeQuanta_encoded l : decodeQuanta (EncodeToString l) = (l, true).
Proof.
  induction l as [|a|a b|a b c l IH] using triples_ind; [done| | |];
    pose proof (b2z_range a); try pose proof (b2z_range b); try pose proof (b2z_range c);
    cbn [EncodeToString decodeQuanta]; cbv zeta;
    rewrite !decode_encodeSextet by (Z.to_euclidean_division_equations; lia).
  - rewrite !bool_decide_eq_true_2 by done. do 2 f_equal. byteOf.
  - rewrite bool_decide_eq_false_2 by (apply sextet_clean; Z.to_euclidean_division_equations; lia).
    rewrite !bool_decide_eq_true_2 by done. f_equal. f_equal; [|f_equal]; byteOf.
  - rewrite !bool_decide_eq_false_2 by (apply sextet_clean; Z.to_euclidean_division_equations; lia).
    rewrite IH. f_equal. f_equal; [|f_equal; [|f_equal]]; byteOf.
Qed.

Lemma encoded_clean l : Forall (fun c => skipped c = false) (EncodeToString l).
Proof.
  induction l as [|a|a b|a b c l IH] using triples_ind; [constructor| | |];
    pose proof (b2z_range a); try pose proof (b2z_range b); try pose proof (b2z_range c);
    cbn [EncodeToString]; cbv zeta;
    repeat first [apply Forall_nil_2 | exact IH | apply Forall_cons_2];
    first [done | apply sextet_clean; Z.to_euclidean_division_equations; lia].
Qed.

Lemma filter_all {A} (f : A -> bool) l : Forall (fun c => f c = true) l -> List.filter f l = l.
Proof. induction 1 as [|x l H _ IH]; cbn [List.filter]; [done|]. by rewrite H, IH. Qed.

Lemma DecodeString_EncodeToString l : DecodeString (EncodeToString l) = (l, true).
Proof.
  unfold DecodeString. rewrite filter_all; [apply decodeQuanta_encoded|].
  eapply Forall_impl; [apply encoded_clean|]. cbn. by intros c ->.
Qed.

Example decode_padded : DecodeString (str "aGk=") = (str "hi", true).
Proof. by vm_compute. Qed.
Example decode_lines : DecodeString (str "aG" ++ [z2b 10] ++ str "k=" ++ [z2b 10]) = (str "hi", true).
Proof. by vm_compute. Qed.
Example decode_spare_bits : DecodeString (str "aGl=") = (str "hi", true).
Proof. by vm_compute. Qed.
Example decode_unpadded : DecodeString (str "YWJjaGk") = (str "abc", false).
Proof. by vm_compute. Qed.
