(* ===== verification/Network.v ===== *)
(** Socket addresses of both daemons: [internal/network/parsing.go] and the
    choice of the sender's own address in [internal/network/local.go]. Name
    resolution, random numbers, the clock and the kernel's choice of a route
    are arguments. *)
From S2P Require Import Prelude Text Registry Context Consts NetAddr GoStrings.

(* ------------------------------------------------------------------ *)
(** * [net.SplitHostPort] and [net.JoinHostPort]                        *)
(* ------------------------------------------------------------------ *)

Definition colon : byte := z2b 58.
Definition openBracket : byte := z2b 91.
Definition closeBracket : byte := z2b 93.

Definition hasByte (c : byte) (s : bytes) : bool := 0 <=? IndexByte s c.

(** The index of the last [c], or [-1]. *)
Fixpoint LastIndexByte (s : gostring) (c : byte) : Z :=
  match s with
  | [] => -1
  | b :: s =>
      let i := LastIndexByte s c in
      if 0 <=? i then i + 1 else if bool_decide (b = c) then 0 else -1
  end.

(** [None] is the error. *)
Definition SplitHostPort (hostport : gostring) : option (gostring * gostring) :=
  let i := LastIndexByte hostport colon in
  if i <? 0 then None
  else if bool_decide (head hostport = Some openBracket) then
    let close := IndexByte hostport closeBracket in
    if close <? 0 then None
    else if negb (close + 1 =? i) then None
    else if hasByte openBracket (after hostport 1) || hasByte closeBracket (after hostport (close + 1)) then None
    else Some (after (before hostport close) 1, after hostport (i + 1))
  else
    let host := before hostport i in
    if hasByte colon host then None
    else if hasByte openBracket hostport || hasByte closeBracket hostport then None
    else Some (host, after hostport (i + 1)).

Definition JoinHostPort (host port : gostring) : gostring :=
  if hasByte colon host then str "[" ++ host ++ str "]:" ++ port
  else host ++ str ":" ++ port.

(* ------------------------------------------------------------------ *)
(** * [ParseUDPAddress]                                                 *)
(* ------------------------------------------------------------------ *)

(** [net.UDPAddr] without the zone; [IP] is [None] for a nil slice, and an
    address with a four-byte form has it. *)
Record UDPAddr := mkUDPAddr {
  IP : option Addr;
  Port : Z
}.

Definition EphemeralPortMin : Z := 49152.
Definition EphemeralPortMax : Z := 65535.

(** The port inside the address, if there is one. *)
Definition embeddedPort (splitPort : gostring) : res (option Z) :=
  if bool_decide (splitPort = []) then Ok None
  else match Atoi splitPort with
  | None => Err (EWrap EMsg)
  | Some portNum =>
      if (portNum <? 0) || (65535 <? portNum) then Err EMsg else Ok (Some portNum)
  end.

(** Host and embedded port of an address text. *)
Definition splitAddress (address : gostring) : res (gostring * option Z) :=
  match SplitHostPort address with
  | Some (splitHost, splitPort) =>
      embedded ← embeddedPort splitPort;
      Ok (splitHost, embedded)
  | None => Ok (address, None)
  end.

(** The switch; [random] is what [NumberInRange] gives for the ephemeral
    range. *)
Definition finalPort (port : Z) (embedded : option Z) (random : res Z) : res Z :=
  if (0 <? port) && (port <=? 65535) then Ok port
  else match embedded with
  | Some p => Ok p
  | None => if port =? 0 then wrap random else Err EMsg
  end.

(** [resolve] is [net.ResolveUDPAddr("udp", _)]. *)
Definition ParseUDPAddress (random : res Z) (resolve : gostring -> option UDPAddr)
    (address : gostring) (port : Z) : res UDPAddr :=
  if bool_decide (address = []) then Err EMsg
  else
    '(host, embedded) ← splitAddress address;
    final ← finalPort port embedded random;
    match resolve (JoinHostPort host (FormatInt final)) with
    | None => Err (EWrap EMsg)
    | Some socket => Ok socket
    end.

(* ------------------------------------------------------------------ *)
(** * [GetLocalIPForDestination]                                        *)
(* ------------------------------------------------------------------ *)

(** [net.IP.IsLoopback] *)
Definition IsLoopback (ip : Addr) : bool :=
  match ip with
  | AddrV4 a _ _ _ => b2z a =? 127
  | AddrV6 groups _ => bool_decide (groups = [0; 0; 0; 0; 0; 0; 0; 1])
  | AddrZero => false
  end.
(** [destAddress.To4() != nil] *)
Definition isIPv4 (ip : Addr) : bool := match ip with AddrV4 _ _ _ _ => true | _ => false end.

(** What dialling tells: an error, something that has no IP of a UDP socket,
    or the local address. *)
Inductive dialed :=
  | DialFailed
  | NoUDPAddress
  | Local (ip : Addr).

Definition Microsecond : Z := 10 ^ 3.
Definition Second : Z := 10 ^ 9.
Definition maxRetries : nat := 30.
Definition maxWaitDuration : Z := 10 * Second.
Definition maxTotalRetryDuration : Z := 60 * Second.

(** How the search ends. *)
Inductive selection :=
  | Selected (ip : Addr)
  | Refused (** an error at once *)
  | Unavailable (** deadline or retries over *).

(** The loop from round [retryCount] on, with the waits it makes. [dial n] is
    what round [n] finds, [late n] tells whether its check of the deadline is
    too late. *)
Section selecting.
Context (dial : nat -> dialed) (late : nat -> bool).

Fixpoint selectSource (rounds retryCount : nat) (waitDuration : Z) : list Z * selection :=
  match rounds with
  | O => ([], Unavailable)
  | S rounds =>
      if late retryCount then ([], Unavailable)
      else
        let '(slept, waitDuration) :=
          if (1 <? retryCount)%nat
          then ([waitDuration], Z.min (waitDuration * 2) maxWaitDuration)
          else ([], waitDuration) in
        let again :=
          let '(waits, found) := selectSource rounds (S retryCount) waitDuration in
          (slept ++ waits, found) in
        match dial retryCount with
        | DialFailed => again
        | NoUDPAddress => (slept, Refused)
        | Local ip => if IsLoopback ip then again else (slept, Selected ip)
        end
  end.

Definition selected : list Z * selection := selectSource maxRetries 0 (500 * Microsecond).
End selecting.

Definition GetLocalIPForDestination (random : res Z) (resolve : gostring -> option UDPAddr)
    (dial : nat -> dialed) (late : nat -> bool) (destAddress : option Addr) : res UDPAddr :=
  match destAddress with
  | None => Err EMsg
  | Some dest =>
      if IsLoopback dest then
        ParseUDPAddress random resolve (if isIPv4 dest then str "127.0.0.1" else str "::1") 0
      else match (selected dial late).2 with
      | Selected ip => ParseUDPAddress random resolve (AddrString ip) 0
      | Refused => Err EMsg
      | Unavailable => Err (EWrap EMsg)
      end
  end.

(* ------------------------------------------------------------------ *)
(** * Facts                                                             *)
(* ------------------------------------------------------------------ *)

Lemma hasByte_spec c s : hasByte c s = true <-> c ∈ s.
Proof.
  unfold hasByte. induction s as [|b s IH]; cbn [IndexByte].
  - split; [done|]. by intros ?%elem_of_nil.
  - rewrite elem_of_cons. case_bool_decide as E.
    + subst. split; [by left|done].
    + destruct (IndexByte s c <? 0) eqn:L.
      * apply Z.ltb_lt in L. rewrite <- IH. split; [|intros [->|]; [done|]]; lia.
      * apply Z.ltb_ge in L. rewrite <- IH. split; [right|]; lia.
Qed.
Lemma hasByte_false c s : hasByte c s = false <-> c ∉ s.
Proof. by rewrite <- not_true_iff_false, hasByte_spec. Qed.

Lemma LastIndexByte_absent c s : c ∉ s -> LastIndexByte s c = -1.
Proof.
  induction s as [|b s IH]; cbn [LastIndexByte]; [done|]. intros H%not_elem_of_cons.
  destruct H as [Hb Hs]. rewrite IH by done. cbn. rewrite bool_decide_eq_false_2 by congruence. done.
Qed.
Lemma LastIndexByte_at c s t : c ∉ t -> LastIndexByte (s ++ c :: t) c = len s.
Proof.
  intros H. induction s as [|b s IH]; cbn [LastIndexByte app].
  - rewrite LastIndexByte_absent by done. cbn. by rewrite bool_decide_eq_true_2 by done.
  - rewrite IH. pose proof (len_nonneg s). rewrite len_cons.
    destruct (0 <=? len s) eqn:E; lia.
Qed.
Lemma IndexByte_first c s t : c ∉ s -> IndexByte (s ++ c :: t) c = len s.
Proof.
  induction s as [|b s IH]; cbn [IndexByte app]; intros H.
  - by rewrite bool_decide_eq_true_2 by done.
  - apply not_elem_of_cons in H as [Hb Hs].
    rewrite bool_decide_eq_false_2 by congruence. rewrite IH by done.
    pose proof (len_nonneg s). rewrite len_cons. cbv zeta. destruct (len s <? 0) eqn:E; lia.
Qed.

(** Neither brackets nor colons. *)
Definition plain (s : gostring) : Prop :=
  (colon ∉ s) /\ (openBracket ∉ s) /\ (closeBracket ∉ s).

Lemma SplitHostPort_bracketed host port :
  openBracket ∉ host -> closeBracket ∉ host -> plain port ->
  SplitHostPort (openBracket :: host ++ closeBracket :: colon :: port) = Some (host, port).
Proof.
  intros Ho Hc (Pc & Po & Pb). unfold SplitHostPort.
  set (h := openBracket :: host ++ closeBracket :: colon :: port).
  pose proof (len_nonneg host) as Hn.
  assert (h = (openBracket :: host ++ [closeBracket]) ++ colon :: port) as E1
    by (unfold h; cbn; by rewrite <- app_assoc).
  assert (h = (openBracket :: host) ++ closeBracket :: colon :: port) as E2 by done.
  assert (len (openBracket :: host ++ [closeBracket]) = len host + 2) as L1
    by (rewrite len_cons, len_app; change (len [closeBracket]) with 1; lia).
  assert (LastIndexByte h colon = len host + 2) as ->
    by (rewrite E1, LastIndexByte_at by done; exact L1).
  assert (IndexByte h closeBracket = len host + 1) as ->.
  { rewrite E2, IndexByte_first; [rewrite len_cons; lia|]. by apply not_elem_of_cons. }
  rewrite (proj2 (Z.ltb_ge _ _)) by lia. rewrite bool_decide_eq_true_2 by done.
  rewrite (proj2 (Z.ltb_ge _ _)) by lia. rewrite (proj2 (Z.eqb_eq _ _)) by lia. cbn [negb].
  assert (before h (len host + 1) = openBracket :: host) as ->.
  { rewrite E2. replace (len host + 1) with (len (openBracket :: host)) by (rewrite len_cons; lia).
    apply before_app. }
  assert (after h (len host + 1 + 1) = colon :: port) as ->.
  { rewrite E1. replace (len host + 1 + 1) with (len (openBracket :: host ++ [closeBracket])) by lia.
    apply after_app. }
  assert (after h (len host + 2 + 1) = port) as ->.
  { rewrite E1. replace (len host + 2) with (len (openBracket :: host ++ [closeBracket])) by lia.
    apply after_app_byte. }
  replace (after h 1) with (host ++ closeBracket :: colon :: port) by done.
  replace (after (openBracket :: host) 1) with host by done.
  rewrite (proj2 (hasByte_false _ _)).
  2:{ rewrite elem_of_app, !elem_of_cons. intros [|[|[|]]]; done. }
  rewrite (proj2 (hasByte_false _ _)) by (by apply not_elem_of_cons). done.
Qed.

Lemma SplitHostPort_plain host port :
  plain host -> plain port -> SplitHostPort (host ++ colon :: port) = Some (host, port).
Proof.
  intros (Hc & Ho & Hb) (Pc & Po & Pb). unfold SplitHostPort.
  pose proof (len_nonneg host). rewrite LastIndexByte_at by done.
  rewrite (proj2 (Z.ltb_ge _ _)) by lia. rewrite bool_decide_eq_false_2.
  2:{ destruct host; cbn; [done|]. intros [= ->]. by apply Ho, elem_of_cons; left. }
  rewrite before_app, after_app_byte, !(proj2 (hasByte_false _ _)); [done| | |done];
    rewrite elem_of_app, elem_of_cons; intros [|[|]]; done.
Qed.

Lemma SplitHostPort_JoinHostPort host port :
  openBracket ∉ host -> closeBracket ∉ host -> plain port ->
  SplitHostPort (JoinHostPort host port) = Some (host, port).
Proof.
  intros Ho Hb Hp. unfold JoinHostPort. destruct (hasByte colon host) eqn:E.
  - cbn. by apply SplitHostPort_bracketed.
  - apply hasByte_false in E. by apply SplitHostPort_plain.
Qed.

(** The port of a socket is a port, given that the random one is. *)
Lemma finalPort_range port embedded random p :
  (forall e, embedded = Some e -> 0 <= e <= 65535) ->
  (forall r, random = Ok r -> EphemeralPortMin <= r <= EphemeralPortMax) ->
  finalPort port embedded random = Ok p -> 0 <= p <= 65535.
Proof.
  unfold finalPort. intros He Hr. destruct (_ && _) eqn:E.
  - intros [= <-]. apply andb_true_iff in E as [? ?]. lia.
  - destruct embedded; [intros [= <-]; by apply He|].
    destruct (port =? 0); [|done]. rewrite wrap_Ok. intros H%Hr.
    unfold EphemeralPortMin, EphemeralPortMax in H. lia.
Qed.
Lemma splitAddress_port address host e :
  splitAddress address = Ok (host, Some e) -> 0 <= e <= 65535.
Proof.
  unfold splitAddress, embeddedPort. destruct (SplitHostPort _) as [[h p]|]; [|done].
  case_bool_decide; [done|]. destruct (Atoi p) as [n|]; [|done].
  destruct (_ || _) eqn:E; [done|]. intros [= _ <-]. apply orb_false_iff in E as [? ?]. lia.
Qed.
Lemma digits_plain z : 0 <= z -> plain (digits z).
Proof. intros Hz. by split_and!; apply digits_without. Qed.
(** An address text that carries a port is taken apart again. *)
Lemma splitAddress_joined host p :
  openBracket ∉ host -> closeBracket ∉ host -> 0 <= p <= 65535 ->
  splitAddress (JoinHostPort host (FormatInt p)) = Ok (host, Some p).
Proof.
  intros Ho Hb Hp. unfold splitAddress. rewrite FormatInt_digits by lia.
  rewrite SplitHostPort_JoinHostPort by (done || apply digits_plain; lia).
  unfold embeddedPort. rewrite bool_decide_eq_false_2 by apply digits_nonempty.
  rewrite <- (FormatInt_digits p), Atoi_FormatInt by lia.
  by rewrite (proj2 (Z.ltb_ge _ _)), (proj2 (Z.ltb_ge _ _)) by lia.
Qed.

(** The socket of an address: the resolved host with the explicit port; with
    port zero, the port of the text; with neither, a port of the ephemeral
    range. *)
Definition portChoice (port : Z) (embedded : option Z) (random : res Z) (p : Z) : Prop :=
  (0 < port <= 65535 -> p = port) /\
  (port = 0 -> forall e, embedded = Some e -> p = e) /\
  (port = 0 -> embedded = None -> random = Ok p).

(** What [ParseUDPAddress] resolves is always a host with a port from 0
    to 65535, chosen in the documented order: the explicit port, the port in
    the text, a random ephemeral one. *)
Theorem parsed_address random resolve address port socket :
  (forall r, random = Ok r -> EphemeralPortMin <= r <= EphemeralPortMax) ->
  ParseUDPAddress random resolve address port = Ok socket ->
  exists host embedded p,
    splitAddress address = Ok (host, embedded) /\ portChoice port embedded random p /\
    0 <= p <= 65535 /\ resolve (JoinHostPort host (FormatInt p)) = Some socket.
Proof.
  intros Hr H. unfold ParseUDPAddress in H. case_bool_decide; [done|].
  apply bind_Ok in H as ([host embedded] & Hs & H). apply bind_Ok in H as (p & Hp & H).
  destruct (resolve _) as [s|] eqn:R; [|done]. injection H as <-.
  exists host, embedded, p. split_and!; [done| |..|done].
  - unfold portChoice, finalPort in *. destruct (_ && _) eqn:E.
    + injection Hp as <-. apply andb_true_iff in E as [? ?]. split_and!; [done|lia|lia].
    + apply andb_false_iff in E. split_and!.
      * lia.
      * intros _ e ->. congruence.
      * intros -> ->. exact (wrap_inv _ _ Hp).
  - eapply finalPort_range; [|exact Hr|exact Hp]. intros e ->. by eapply splitAddress_port.
  - eapply finalPort_range; [|exact Hr|exact Hp]. intros e ->. by eapply splitAddress_port.
Qed.

(** A text that carries the port is its own address when no port is given
    beside it. *)
Lemma embedded_port_kept random resolve host p :
  openBracket ∉ host -> closeBracket ∉ host -> 0 <= p <= 65535 ->
  let address := JoinHostPort host (FormatInt p) in
  ParseUDPAddress random resolve address 0 =
  match resolve address with Some socket => Ok socket | None => Err (EWrap EMsg) end.
Proof.
  intros Ho Hb Hp address. unfold ParseUDPAddress. rewrite bool_decide_eq_false_2.
  2:{ unfold address, JoinHostPort. by case_match; destruct host. }
  unfold address at 1. by rewrite splitAddress_joined.
Qed.

(* ------------------------------------------------------------------ *)
(** * The search for a source address                                   *)
(* ------------------------------------------------------------------ *)

(** Round [n] decides nothing. *)
Definition passed (dial : nat -> dialed) (n : nat) : Prop :=
  match dial n with DialFailed => True | NoUDPAddress => False | Local ip => IsLoopback ip = true end.

Lemma selectSource_Selected dial late rounds n0 wait ip :
  (selectSource dial late rounds n0 wait).2 = Selected ip <->
  exists n, (n0 <= n < n0 + rounds)%nat /\ dial n = Local ip /\ IsLoopback ip = false /\
    (forall m, (n0 <= m < n)%nat -> passed dial m) /\ (forall m, (n0 <= m <= n)%nat -> late m = false).
Proof.
  revert n0 wait. induction rounds as [|rounds IH]; intros n0 wait; cbn [selectSource].
  { split; [done|]. intros (n & ? & _). lia. }
  destruct (late n0) eqn:L.
  { split; [done|]. intros (n & ? & _ & _ & _ & H). rewrite H in L; [done|lia]. }
  destruct (if (1 <? n0)%nat then _ else _) as [slept wait'] eqn:W. clear W.
  specialize (IH (S n0) wait'). destruct (selectSource dial late rounds (S n0) wait') as [waits found].
  cbn [snd] in IH.
  assert (passed dial n0 -> found = Selected ip <-> exists n, (n0 <= n < n0 + S rounds)%nat /\
    dial n = Local ip /\ IsLoopback ip = false /\
    (forall m, (n0 <= m < n)%nat -> passed dial m) /\ (forall m, (n0 <= m <= n)%nat -> late m = false)) as Hn.
  { intros P. rewrite IH. split; intros (n & Hr & Hd & Hl & Hm & Ht).
    - exists n. split_and!; [lia|lia|done|done| |]; intros m Hmn.
      + destruct (decide (m = n0)) as [->|]; [done|]. apply Hm. lia.
      + destruct (decide (m = n0)) as [->|]; [done|]. apply Ht. lia.
    - assert (n <> n0) as Hne.
      { intros ->. unfold passed in P. rewrite Hd in P. congruence. }
      exists n. split_and!; [lia|lia|done|done| |]; intros m Hmn; [apply Hm|apply Ht]; lia. }
  destruct (dial n0) as [| |a] eqn:D.
  - apply Hn. unfold passed. by rewrite D.
  - split; [done|]. intros (n & Hr & Hd & Hl & Hm & Ht). destruct (decide (n = n0)) as [->|]; [congruence|].
    specialize (Hm n0 ltac:(lia)). unfold passed in Hm. by rewrite D in Hm.
  - destruct (IsLoopback a) eqn:LB; [apply Hn; unfold passed; by rewrite D|].
    cbn [snd]. split.
    + intros [= <-]. exists n0. split_and!; [lia|lia|done|done|lia|].
      intros m ?. by replace m with n0 by lia.
    + intros (n & Hr & Hd & Hl & Hm & Ht). destruct (decide (n = n0)) as [->|]; [congruence|].
      specialize (Hm n0 ltac:(lia)). unfold passed in Hm. rewrite D in Hm. congruence.
Qed.

(** The waits that a search of all rounds would make. *)
Definition allWaits : list Z := (selected (fun _ => DialFailed) (fun _ => false)).1.

Lemma allWaits_bounded : Forall (fun w => 0 < w <= maxWaitDuration) allWaits.
Proof.
  assert (forallb (fun w => (0 <? w) && (w <=? maxWaitDuration)) allWaits = true) as H by by vm_compute.
  rewrite forallb_forall in H. apply List.Forall_forall. intros w Hw%H.
  apply andb_true_iff in Hw as [? ?]. lia.
Qed.

Lemma selectSource_waits dial late rounds n0 wait :
  (selectSource dial late rounds n0 wait).1 `prefix_of`
  (selectSource (fun _ => DialFailed) (fun _ => false) rounds n0 wait).1.
Proof.
  revert n0 wait. induction rounds as [|rounds IH]; intros n0 wait; cbn [selectSource]; [done|].
  destruct (late n0); [apply prefix_nil|].
  destruct (if (1 <? n0)%nat then _ else _) as [slept wait'] eqn:W. clear W.
  specialize (IH (S n0) wait'). destruct (selectSource dial late rounds (S n0) wait') as [waits found].
  destruct (selectSource (fun _ => DialFailed) _ rounds (S n0) wait') as [all f].
  cbn [fst] in *. destruct (dial n0) as [| |a]; [by apply prefix_app|by apply prefix_app_r|].
  destruct (IsLoopback a); [by apply prefix_app|by apply prefix_app_r].
Qed.

Definition total (l : list Z) : Z := foldr Z.add 0 l.
Lemma total_prefix l l' : Forall (fun w => 0 <= w) l' -> l `prefix_of` l' -> total l <= total l'.
Proof.
  intros Hf [k ->]. apply Forall_app in Hf as [_ Hk]. unfold total. rewrite foldr_app.
  assert (0 <= foldr Z.add 0 k) as Hp by (induction Hk; cbn; lia).
  induction l; cbn; lia.
Qed.

(** The search takes the first local address that is not a loopback
    address, in at most thirty rounds before the deadline; whatever happens,
    it waits less than three minutes. *)
Theorem source_selected dial late :
  (forall ip, (selected dial late).2 = Selected ip <->
     exists n, (n < 30)%nat /\ dial n = Local ip /\ IsLoopback ip = false /\
       (forall m, (m < n)%nat -> passed dial m) /\ (forall m, (m <= n)%nat -> late m = false)) /\
  total (selected dial late).1 <= 147 * Second /\
  Forall (fun w => 0 < w <= maxWaitDuration) (selected dial late).1.
Proof.
  pose proof (selectSource_waits dial late maxRetries 0 (500 * Microsecond)) as Hw.
  split_and!.
  - intros ip. unfold selected. rewrite selectSource_Selected. unfold maxRetries.
    split; intros (n & Hr & Hd & Hl & Hm & Ht); exists n;
      (split_and!; [lia|try lia..]; try done); intros m ?; try apply Hm; try apply Ht; lia.
  - etrans; [eapply total_prefix; [|exact Hw]|by vm_compute].
    eapply Forall_impl; [exact allWaits_bounded|]. cbn beta. lia.
  - destruct Hw as [k Hk]. pose proof allWaits_bounded as Hb. unfold allWaits, selected in Hb.
    rewrite Hk in Hb. by apply Forall_app in Hb as [? _].
Qed.

Definition exampleResolver (address : gostring) : option UDPAddr :=
  if bool_decide (address = str "[2001:db8::1]:9000")
  then Some (mkUDPAddr (Some (AddrV6 [0x2001; 0xdb8; 0; 0; 0; 0; 0; 1] [])) 9000) else None.
Lemma parsed_address_witness :
  exists host embedded p,
    splitAddress (str "[2001:db8::1]:9000") = Ok (host, embedded) /\ portChoice 0 embedded (Ok 50000) p /\
    0 <= p <= 65535 /\
    exampleResolver (JoinHostPort host (FormatInt p)) =
      Some (mkUDPAddr (Some (AddrV6 [0x2001; 0xdb8; 0; 0; 0; 0; 0; 1] [])) 9000).
Proof.
  apply (parsed_address (Ok 50000) exampleResolver (str "[2001:db8::1]:9000") 0).
  - intros r Hr. injection Hr as <-. unfold EphemeralPortMin, EphemeralPortMax. lia.
  - vm_compute. reflexivity.
Defined.

(** The second address is taken: the first is a loopback address. *)
Example second_address :
  selected (fun n => Local (AddrV4 (z2b (if (n =? 0)%nat then 127 else 10)) (z2b 0) (z2b 0) (z2b 1)))
    (fun _ => false) = ([], Selected (AddrV4 (z2b 10) (z2b 0) (z2b 0) (z2b 1))).
Proof. by vm_compute. Qed.
