(* ===== verification/Config.v ===== *)
(** The options of both daemons and what becomes of them: durations
    ([internal/parsing]), defaults and included inputs ([sender/config.go],
    [receiver/config.go]) and the managers that a start creates from them
    ([sender/runtime.go], [receiver/runtime.go] with the managers'
    [validate]). What JSON texts hold is an argument. *)
From S2P Require Import Prelude Text Registry ToyCrypto Context Consts Packets NetAddr GoStrings Filtering.
From S2P Require Import Mpmc Assembler Listener Sender Network.

(* ------------------------------------------------------------------ *)
(** * Durations                                                         *)
(* ------------------------------------------------------------------ *)

Definition Millisecond : Z := 10 ^ 6.
Definition Minute : Z := 60 * Second.
Definition Hour : Z := 60 * Minute.

(** [VerifyWholeDuration] *)
Definition parents : list Z := [Millisecond; Second; Minute].
Definition VerifyWholeDuration (interval : Z) : res unit :=
  if interval <=? 0 then Err EMsg
  else if existsb (fun parent => Z.rem parent interval =? 0) parents then Ok tt
  else Err EMsg.

(** [TrimDurationPrecision] of the text of a duration. *)
Definition dot : byte := z2b 46.
Fixpoint digitRun (s : gostring) : nat :=
  match s with
  | c :: s => if isDigit c then S (digitRun s) else O
  | [] => O
  end.
Definition TrimDurationPrecision (formatted : gostring) (numDecimals : Z) : gostring :=
  let dot := IndexByte formatted dot in
  if dot =? -1 then formatted
  else
    let i := dot + 1 + Z.of_nat (digitRun (after formatted (dot + 1))) in
    if numDecimals =? 0 then before formatted dot ++ after formatted i
    else if i - (dot + 1) <=? numDecimals then formatted
    else before formatted (dot + 1 + numDecimals) ++ after formatted i.

(* ------------------------------------------------------------------ *)
(** * Options                                                           *)
(* ------------------------------------------------------------------ *)

Definition DefaultMinQueueSize : Z := 2048.
Definition DefaultMaxQueueSize : Z := 8192.
Definition DefaultReceiverPort : Z := 8514.
Definition DefaultStateDir : gostring := str "/var/cache/sdsyslog".
Definition DefaultStateFile : gostring := DefaultStateDir ++ str "/last.state".
Definition DefaultMaxPacketDeadline : Z := Second.

(** [if x == 0 { x = d }], and the same for strings. *)
Definition orDefault (x d : Z) : Z := if x =? 0 then d else x.
Definition orText (s d : gostring) : gostring := if bool_decide (s = []) then d else s.
(** A minimum: at least one by default, and no more than there are CPUs. *)
Definition orMinimum (x cpus : Z) : Z :=
  let x := orDefault x 1 in if cpus <? x then cpus else x.

Record CryptoOptions := mkCrypto {
  TransportSuite : gostring;
  SignatureSuite : gostring
}.
Record MetricsOptions := mkMetricsOptions {
  Interval : Z;
  MaxAge : Z;
  EnableQueryServer : bool;
  QueryServerPort : Z
}.

Section crypto.
Context `{!Prims}.

Definition suiteNameOf (id : Z) (current : gostring) : gostring :=
  match GetSuiteInfo id with Some suiteInfo => suiteName suiteInfo | None => current end.
Definition sigNameOf (id : Z) (current : gostring) : gostring :=
  match GetSignatureInfo id with Some sigInfo => sigName sigInfo | None => current end.

(** The suites of either daemon; [keyPath] is where it finds its signing
    keys. *)
Definition defaultCrypto (opts : CryptoOptions) (keyPath : gostring) : CryptoOptions :=
  let transport :=
    if bool_decide (TransportSuite opts = []) then suiteNameOf 1 (TransportSuite opts)
    else TransportSuite opts in
  let signature :=
    if bool_decide (SignatureSuite opts = [])
    then sigNameOf (if bool_decide (keyPath = []) then 0 else 1) (SignatureSuite opts)
    else SignatureSuite opts in
  mkCrypto transport signature.
End crypto.

Definition defaultMetrics (opts : MetricsOptions) (port : Z) : MetricsOptions :=
  mkMetricsOptions (orDefault (Interval opts) (15 * Second)) (orDefault (MaxAge opts) Hour)
    (EnableQueryServer opts) (orDefault (QueryServerPort opts) port).

(* ------------------------------------------------------------------ *)
(** * The sender                                                        *)
(* ------------------------------------------------------------------ *)

Module SenderDaemon.

(** [map[string][]protocol.MessageFilter], nil as [None]. *)
Abbreviation FilterMap := (option (gmap gostring (list MessageFilter))).

Record JSONInputs := mkInputs {
  Include : gostring;
  DropFilters : FilterMap;
  FilePaths : list gostring;
  JournalEnabled : bool;
  SendInternalLogs : bool
}.
Record NetworkOptions := mkNetwork {
  SourceAddress : gostring;
  SourcePort : Z;
  Address : gostring;
  NetworkPort : Z;
  OverrideMaxPayloadSize : Z
}.
Record ScalingOptions := mkScaling {
  ScalingEnabled : bool;
  PollInterval : Z;
  MinOutputs : Z;
  MaxOutputs : Z;
  MinAssemblers : Z;
  MaxAssemblers : Z;
  MinOutputQueueSize : Z;
  MaxOutputQueueSize : Z;
  MinAssemblerQueueSize : Z;
  MaxAssemblerQueueSize : Z
}.
Record ThrottlingOptions := mkThrottling {
  Throttle : bool;
  MinFragmentThreshold : Z;
  PerFragmentDelay : Z
}.
Record JSONOptions := mkOptions {
  PublicKey : gostring;
  SigningKeyFile : gostring;
  Crypto : CryptoOptions;
  BaseFile : gostring;
  Network : NetworkOptions;
  Inputs : JSONInputs;
  MetricOptions : MetricsOptions;
  AutoScaling : ScalingOptions;
  Throttling : ThrottlingOptions
}.

Definition setInputs (opts : JSONOptions) (i : JSONInputs) : JSONOptions :=
  mkOptions (PublicKey opts) (SigningKeyFile opts) (Crypto opts) (BaseFile opts) (Network opts) i
    (MetricOptions opts) (AutoScaling opts) (Throttling opts).

Definition DefaultOutputThrottlingThreshold : Z := 25.
Definition DefaultOutputThrottlingTime : Z := 50 * Microsecond.
Definition ListenPortSender : Z := 10000 + DefaultReceiverPort.

(** The interval of the autoscaler. *)
Definition clampPoll (interval : Z) : Z :=
  let interval := if interval <? Second then 100 * Millisecond else interval in
  if Minute <? interval then Minute else interval.

Definition defaultScaling (cpus : Z) (o : ScalingOptions) : ScalingOptions :=
  mkScaling (ScalingEnabled o) (clampPoll (PollInterval o))
    (orMinimum (MinOutputs o) cpus) (orDefault (MaxOutputs o) cpus)
    (orMinimum (MinAssemblers o) cpus) (orDefault (MaxAssemblers o) cpus)
    (orDefault (MinOutputQueueSize o) DefaultMinQueueSize)
    (orDefault (MaxOutputQueueSize o) DefaultMaxQueueSize)
    (orDefault (MinAssemblerQueueSize o) DefaultMinQueueSize)
    (orDefault (MaxAssemblerQueueSize o) DefaultMaxQueueSize).

Definition setDefaults `{!Prims} (cpus : Z) (opts : JSONOptions) : JSONOptions :=
  mkOptions (PublicKey opts) (SigningKeyFile opts)
    (defaultCrypto (Crypto opts) (SigningKeyFile opts))
    (orText (BaseFile opts) DefaultStateFile)
    (mkNetwork (SourceAddress (Network opts)) (SourcePort (Network opts)) (Address (Network opts))
       (orDefault (NetworkPort (Network opts)) DefaultReceiverPort) (OverrideMaxPayloadSize (Network opts)))
    (Inputs opts)
    (defaultMetrics (MetricOptions opts) ListenPortSender)
    (defaultScaling cpus (AutoScaling opts))
    (mkThrottling (Throttle (Throttling opts))
       (orDefault (MinFragmentThreshold (Throttling opts)) DefaultOutputThrottlingThreshold)
       (orDefault (PerFragmentDelay (Throttling opts)) DefaultOutputThrottlingTime)).

(* ------------------------------------------------------------------ *)
(** ** Included inputs                                                  *)
(* ------------------------------------------------------------------ *)

Section inputs.
(** [json.Marshal] of a filter. *)
Context (marshal : MessageFilter -> option gostring).

Definition marshalOne (f : MessageFilter) : res gostring :=
  match marshal f with Some text => Ok text | None => Err (EWrap EMsg) end.
Fixpoint marshalAll (fs : list MessageFilter) : res (list gostring) :=
  match fs with
  | [] => Ok []
  | f :: fs => text ← marshalOne f; texts ← marshalAll fs; Ok (text :: texts)
  end.

(** Appends the filters whose text was not seen. *)
Fixpoint appendNew (seen : list gostring) (filters newFilters : list MessageFilter)
  : res (list MessageFilter) :=
  match newFilters with
  | [] => Ok filters
  | newFilter :: newFilters =>
      text ← marshalOne newFilter;
      if bool_decide (text ∈ seen) then appendNew seen filters newFilters
      else appendNew (text :: seen) (filters ++ [newFilter]) newFilters
  end.

(** The loop over [newCfg.DropFilters], whose entries come in [order]. *)
Fixpoint mergeFilters (order : list (gostring * list MessageFilter))
    (filters : gmap gostring (list MessageFilter)) : res (gmap gostring (list MessageFilter)) :=
  match order with
  | [] => Ok filters
  | (key, newFilters) :: order =>
      match filters !! key with
      | None => mergeFilters order (<[key := newFilters]> filters)
      | Some existing =>
          seen ← marshalAll existing;
          merged ← appendNew seen existing newFilters;
          mergeFilters order (<[key := merged]> filters)
      end
  end.

Definition addPath (paths : list gostring) (newPath : gostring) : list gostring :=
  if bool_decide (newPath ∈ paths) then paths else paths ++ [newPath].

(** [mergeConfigInputs] of the parsed file; [order] is the order of the map
    loop. *)
Definition mergeConfigInputs (newCfg : JSONInputs) (order : list (gostring * list MessageFilter))
    (opts : JSONInputs) : res JSONInputs :=
  if negb (bool_decide (Include newCfg = [])) then Err EMsg
  else
    let journal := if JournalEnabled newCfg then true else JournalEnabled opts in
    let paths := fold_left addPath (FilePaths newCfg) (FilePaths opts) in
    let opts := mkInputs (Include opts) (DropFilters opts) paths journal (SendInternalLogs opts) in
    let start :=
      match DropFilters opts with
      | Some filters => Some filters
      | None => if bool_decide (default ∅ (DropFilters newCfg) = ∅) then None else Some ∅
      end in
    match start with
    | None => Ok opts
    | Some filters =>
        filters ← mergeFilters order filters;
        Ok (mkInputs (Include opts) (Some filters) (FilePaths opts) (JournalEnabled opts)
              (SendInternalLogs opts))
    end.

(** What a path is, for [os.Stat]. *)
Inductive fileKind :=
  | Missing
  | StatFails
  | RegularFile
  | Directory
  | OtherFile.

(** [filepath.Ext(name) == ".json"], of a name without slashes. *)
Definition isJSON (name : gostring) : bool := hasSuffix (str ".json") name.

Definition hidden (name : gostring) : bool := hasPrefix (str ".") name.

Context (stat : gostring -> fileKind) (readDir : gostring -> option (list (gostring * bool)))
  (Join : gostring -> gostring -> gostring)
  (readInputs : gostring -> res (JSONInputs * list (gostring * list MessageFilter))).

(** Reading the file and merging it. *)
Definition mergeFile (fullPath : gostring) (opts : JSONInputs) : res JSONInputs :=
  '(newCfg, order) ← readInputs fullPath;
  mergeConfigInputs newCfg order opts.

(** The entries of a directory by name, with whether they are directories. *)
Definition entryLe (a b : gostring * bool) : Prop := bytesLe a.1 b.1.
#[export] Instance entryLe_dec : RelDecision entryLe.
Proof. intros a b. unfold entryLe. apply _. Defined.

Fixpoint mergeEntries (include : gostring) (entries : list (gostring * bool)) (opts : JSONInputs)
  : res JSONInputs :=
  match entries with
  | [] => Ok opts
  | (name, isDir) :: entries =>
      if isDir || hidden name || negb (isJSON name) then mergeEntries include entries opts
      else
        opts ← wrap (mergeFile (Join include name) opts);
        mergeEntries include entries opts
  end.

Definition loadInputs (opts : JSONInputs) : res JSONInputs :=
  let include := Include opts in
  if bool_decide (include = []) then Ok opts
  else match stat include with
  | Missing => Ok opts
  | StatFails => Err EMsg
  | RegularFile =>
      if hidden (Base include) then Err EMsg
      else if negb (isJSON (Base include)) then Err EMsg
      else wrap (mergeFile include opts)
  | Directory =>
      match readDir include with
      | None => Err (EWrap EMsg)
      | Some entries => mergeEntries include (merge_sort entryLe entries) opts
      end
  | OtherFile => Err EMsg
  end.
End inputs.

(* ------------------------------------------------------------------ *)
(** ** The start of the pipeline                                        *)
(* ------------------------------------------------------------------ *)

(** [Config], set by [Init]. *)
Record RunConfig := mkRunConfig {
  signingPrivateKey : bytes;
  sourceSocket : option UDPAddr;
  destSocket : option UDPAddr
}.

(** [net.IP.String] *)
Definition IPString (ip : option Addr) : gostring :=
  match ip with Some ip => AddrString ip | None => str "<nil>" end.

Definition outputConfig (opts : JSONOptions) (cfg : RunConfig) : Sending.ManagerConfig :=
  let o := AutoScaling opts in
  Sending.mkConfig (MinOutputQueueSize o) (MaxOutputQueueSize o) (wrapU 32 (MinOutputs o))
    (wrapU 32 (MaxOutputs o)) (bool_decide (is_Some (sourceSocket cfg)))
    (bool_decide (is_Some (destSocket cfg))).

Definition assemblerConfig (opts : JSONOptions) (destinationIP : gostring) : Packing.ManagerConfig :=
  let o := AutoScaling opts in
  Packing.mkConfig (MinAssemblerQueueSize o) (MaxAssemblerQueueSize o) (wrapU 32 (MinAssemblers o))
    (wrapU 32 (MaxAssemblers o)) 0 destinationIP (OverrideMaxPayloadSize (Network opts)) 0
    (TransportSuite (Crypto opts)) (SignatureSuite (Crypto opts)) 0 0
    (Throttle (Throttling opts)) (MinFragmentThreshold (Throttling opts))
    (PerFragmentDelay (Throttling opts)).

(** What runs when the managers are there: the workers of a stage are so many
    goroutines over its queue. *)
Record Pipeline (I : Type) := mkPipeline {
  outputQueue : QueueInst (V := bytes);
  outputWorkers : nat;
  assembling : Packing.ManagerConfig;
  assemblerWorkers : nat;
  fileSources : gmap gostring (option I)
}.
Arguments mkPipeline {I}.

Section start.
Context `{!Prims} {I : Type}.
(** Outside: the sockets of the output, random bytes, the packet size that
    fits, and what opening a log file gives. *)
Context (dialed : bool) (random : res bytes) (maxPayload : res Z) (opened : gostring -> res I).

Fixpoint addFiles (paths : list gostring) (sources : gmap gostring (option I))
  : res (gmap gostring (option I)) :=
  match paths with
  | [] => Ok sources
  | path :: paths =>
      sources ← wrap (AddFileInstance path (opened path) sources);
      addFiles paths sources
  end.

(** [Start] from the check of [initSuccess] to the file sources; [None] when
    only the configuration was to be tested. *)
Definition Start (initSuccess dryRun : bool) (opts : JSONOptions) (cfg : RunConfig)
  : res (option (Pipeline I)) :=
  if negb initSuccess then Err EMsg
  else if dryRun then Ok None
  else
    queue ← wrap (Sending.NewManager (outputConfig opts cfg) dialed);
    match destSocket cfg with
    | None => Panic
    | Some dest =>
        packing ← wrap (Packing.NewManager (assemblerConfig opts (IPString (IP dest))) true random maxPayload);
        sources ← addFiles (FilePaths (Inputs opts)) ∅;
        Ok (Some (mkPipeline queue (Z.to_nat (MinOutputs (AutoScaling opts))) packing
                    (Z.to_nat (MinAssemblers (AutoScaling opts))) sources))
    end.
End start.
End SenderDaemon.

(* ------------------------------------------------------------------ *)
(** * The receiver                                                      *)
(* ------------------------------------------------------------------ *)

(** [processor/manager.go] *)
Module ProcessorManager.
Record ManagerConfig := mkConfig {
  MinInstanceCount : Z;
  MaxInstanceCount : Z;
  MinQueueCapacity : Z;
  MaxQueueCapacity : Z;
  PastMsgCutoff : Z;
  FutureMsgCutoff : Z
}.
Definition validate (config : ManagerConfig) : bool :=
  negb ((MinQueueCapacity config =? 0) || (MaxQueueCapacity config =? 0) ||
        (MaxQueueCapacity config <=? MinQueueCapacity config) ||
        (MinInstanceCount config =? 0) || (MaxInstanceCount config =? 0) ||
        (MaxInstanceCount config <=? MinInstanceCount config) ||
        (PastMsgCutoff config =? 0) || (FutureMsgCutoff config =? 0)).
(** Up to the queue; what it holds does not matter here. *)
Definition NewManager (config : ManagerConfig) : res (QueueInst (V := unit)) :=
  if negb (validate config) then Err (EWrap EMsg)
  else match newQueueInst tt (wrapU 64 (MinQueueCapacity config)) with
  | None => Err EMsg
  | Some inQueue => Ok inQueue
  end.
End ProcessorManager.

(** [output/manager.go] *)
Module OutputManager.
Record ManagerConfig := mkConfig {
  FilePath : gostring;
  JournaldURL : gostring;
  BeatsAddress : gostring;
  hasRawWriter : bool;
  EnableDBUSNotify : bool;
  ConsecutiveFailureShutdownInterval : Z;
  MinQueueCapacity : Z;
  MaxQueueCapacity : Z
}.
Definition validate (config : ManagerConfig) : bool :=
  negb ((MinQueueCapacity config =? 0) || (MaxQueueCapacity config =? 0) ||
        (MaxQueueCapacity config <=? MinQueueCapacity config) ||
        (bool_decide (FilePath config = []) && bool_decide (JournaldURL config = []) &&
           bool_decide (BeatsAddress config = []) && negb (hasRawWriter config) &&
           negb (EnableDBUSNotify config)) ||
        (ConsecutiveFailureShutdownInterval config =? 0)).
Definition NewManager (config : ManagerConfig) : res (QueueInst (V := unit)) :=
  if negb (validate config) then Err (EWrap EMsg)
  else match newQueueInst tt (wrapU 64 (MinQueueCapacity config)) with
  | None => Err EMsg
  | Some inbox => Ok inbox
  end.
End OutputManager.

Module ReceiverDaemon.

Record ReplayOptions := mkReplay {
  ProtectionWindow : Z;
  PastValidityWindow : Z;
  FutureValidityWindow : Z
}.
Record OutputOptions := mkOutputs {
  FilePath : gostring;
  JournaldURL : gostring;
  BeatsAddress : gostring;
  DBUSNotify : bool;
  InternalLogs : bool;
  MaxConsecutiveFailures : Z
}.
Record ScalingOptions := mkScaling {
  ScalingEnabled : bool;
  PollInterval : Z;
  MinListeners : Z;
  MaxListeners : Z;
  MinProcessors : Z;
  MaxProcessors : Z;
  MinProcQueueSize : Z;
  MaxProcQueueSize : Z;
  MinDefrags : Z;
  MaxDefrags : Z;
  MinOutQueueSize : Z;
  MaxOutQueueSize : Z
}.
Record JSONOptions := mkOptions {
  PrivateKeyFile : gostring;
  PinnedSigningKeysPath : gostring;
  Crypto : CryptoOptions;
  ReplayProtection : ReplayOptions;
  IPCSocketDirectory : gostring;
  Address : gostring;
  NetworkPort : Z;
  Outputs : OutputOptions;
  MetricOptions : MetricsOptions;
  AutoScaling : ScalingOptions
}.

Definition DefaultReplayWindow : Z := 10 * Minute.
Definition DefaultPastValidityWindow : Z := 12 * Hour.
Definition DefaultFutureValidityWindow : Z := 4 * Hour.
Definition DefaultSocketDir : gostring := DefaultStateDir ++ str "/ipc".
Definition DefaultOutputFailureDuration : Z := 10 * Minute.
Definition ListenPortReceiver : Z := 20000 + DefaultReceiverPort.

Definition clampPoll (interval : Z) : Z :=
  let interval := orDefault interval (5 * Second) in
  let interval := if interval <? Second then 2 * DefaultMaxPacketDeadline else interval in
  if Minute <? interval then Minute else interval.

Definition defaultScaling (cpus : Z) (o : ScalingOptions) : ScalingOptions :=
  mkScaling (ScalingEnabled o) (clampPoll (PollInterval o))
    (orMinimum (MinListeners o) cpus) (orDefault (MaxListeners o) cpus)
    (orMinimum (MinProcessors o) cpus) (orDefault (MaxProcessors o) cpus)
    (orDefault (MinProcQueueSize o) DefaultMinQueueSize)
    (orDefault (MaxProcQueueSize o) DefaultMaxQueueSize)
    (orMinimum (MinDefrags o) cpus) (orDefault (MaxDefrags o) cpus)
    (orDefault (MinOutQueueSize o) DefaultMinQueueSize)
    (orDefault (MaxOutQueueSize o) DefaultMaxQueueSize).

Definition setDefaults `{!Prims} (cpus : Z) (opts : JSONOptions) : JSONOptions :=
  mkOptions (PrivateKeyFile opts) (PinnedSigningKeysPath opts)
    (defaultCrypto (Crypto opts) (PinnedSigningKeysPath opts))
    (mkReplay (orDefault (ProtectionWindow (ReplayProtection opts)) DefaultReplayWindow)
       (orDefault (PastValidityWindow (ReplayProtection opts)) DefaultPastValidityWindow)
       (orDefault (FutureValidityWindow (ReplayProtection opts)) DefaultFutureValidityWindow))
    (orText (IPCSocketDirectory opts) DefaultSocketDir)
    (orText (Address opts) (str "::"))
    (orDefault (NetworkPort opts) DefaultReceiverPort)
    (mkOutputs (FilePath (Outputs opts)) (JournaldURL (Outputs opts)) (BeatsAddress (Outputs opts))
       (DBUSNotify (Outputs opts)) (InternalLogs (Outputs opts))
       (orDefault (MaxConsecutiveFailures (Outputs opts)) DefaultOutputFailureDuration))
    (defaultMetrics (MetricOptions opts) ListenPortReceiver)
    (defaultScaling cpus (AutoScaling opts)).

(* ------------------------------------------------------------------ *)
(** ** The start of the pipeline                                        *)
(* ------------------------------------------------------------------ *)

Record Pipeline := mkPipeline {
  outputInbox : QueueInst (V := unit);
  assembler : Manager;
  assemblerWorkers : nat;
  processorInbox : QueueInst (V := unit);
  processorWorkers : nat;
  replay : replayCache;
  listenerWorkers : nat
}.

Definition outputConfig (opts : JSONOptions) (rawWriter : bool) : OutputManager.ManagerConfig :=
  let o := Outputs opts in
  OutputManager.mkConfig (FilePath o) (JournaldURL o) (BeatsAddress o) rawWriter (DBUSNotify o)
    (MaxConsecutiveFailures o) (MinOutQueueSize (AutoScaling opts)) (MaxOutQueueSize (AutoScaling opts)).
Definition assemblerConfig (opts : JSONOptions) : Assembler.ManagerConfig :=
  Assembler.mkConfig (wrapU 32 (MinDefrags (AutoScaling opts))) (wrapU 32 (MaxDefrags (AutoScaling opts)))
    (IPCSocketDirectory opts) 0.
Definition processorConfig (opts : JSONOptions) : ProcessorManager.ManagerConfig :=
  let o := AutoScaling opts in
  ProcessorManager.mkConfig (wrapU 32 (MinProcessors o)) (wrapU 32 (MaxProcessors o))
    (MinProcQueueSize o) (MaxProcQueueSize o) (PastValidityWindow (ReplayProtection opts))
    (FutureValidityWindow (ReplayProtection opts)).
Definition listenerConfig (opts : JSONOptions) (sourceSocket : option UDPAddr) : Listener.ManagerConfig :=
  let o := AutoScaling opts in
  Listener.mkConfig (wrapU 32 (MinListeners o)) (wrapU 32 (MaxListeners o))
    (bool_decide (is_Some sourceSocket)) (ProtectionWindow (ReplayProtection opts)) 0.

(** [Start] up to the workers of the listener. [ebpf]: the kernel program is
    loaded; [outputs] is what starting the output worker gives; [listens n]:
    the socket of the [n]-th listener opens. *)
Fixpoint addListeners (listens : nat -> bool) (n : nat) : res unit :=
  match n with
  | O => Ok tt
  | S n => _ ← addListeners listens n; if listens n then Ok tt else Err (EWrap EMsg)
  end.

Definition Start (ebpf rawWriter : bool) (outputs : res unit) (listens : nat -> bool)
    (initSuccess dryRun : bool) (opts : JSONOptions) (sourceSocket : option UDPAddr)
  : res (option Pipeline) :=
  let o := AutoScaling opts in
  if negb initSuccess then Err EMsg
  else if dryRun then Ok None
  else if negb ebpf then Err (EWrap EMsg)
  else
    outputInbox ← wrap (OutputManager.NewManager (outputConfig opts rawWriter));
    _ ← wrap outputs;
    assembler ← wrap (Assembler.NewManager (assemblerConfig opts) true);
    processorInbox ← wrap (ProcessorManager.NewManager (processorConfig opts));
    replay ← wrap (Listener.NewManager (listenerConfig opts sourceSocket));
    _ ← addListeners listens (Z.to_nat (MinListeners o));
    Ok (Some (mkPipeline outputInbox assembler (Z.to_nat (MinDefrags o)) processorInbox
                (Z.to_nat (MinProcessors o)) replay (Z.to_nat (MinListeners o)))).
End ReceiverDaemon.

(* ------------------------------------------------------------------ *)
(** * Facts about durations                                             *)
(* ------------------------------------------------------------------ *)

(** The three parents are one condition, since each divides the next. *)
Lemma VerifyWholeDuration_Ok d :
  VerifyWholeDuration d = Ok tt <-> 0 < d /\ (d | Minute).
Proof.
  unfold VerifyWholeDuration. destruct (Z.leb_spec d 0) as [Hd|Hd].
  { split; [done|lia]. }
  assert (forall parent, Z.rem parent d = 0 <-> (d | parent)) as Hrem
    by (intros p; apply Z.rem_divide; lia).
  destruct (existsb _ _) eqn:E.
  - split; [intros _|done]. split; [done|].
    apply existsb_exists in E as (p & Hin & Hp). apply Z.eqb_eq, Hrem in Hp.
    etrans; [exact Hp|].
    destruct Hin as [<-|[<-|[<-|[]]]]; [exists 60000|exists 60|exists 1]; by vm_compute.
  - split; [done|]. intros [_ H%Hrem]. apply not_true_iff_false in E. destruct E.
    apply existsb_exists. exists Minute. split; [cbn; auto|by apply Z.eqb_eq].
Qed.

Lemma digitRun_app s t :
  forallb isDigit s = true -> (forall c, hd_error t = Some c -> isDigit c = false) ->
  digitRun (s ++ t) = length s.
Proof.
  intros Hs Ht. induction s as [|b s IH]; cbn in *.
  - destruct t as [|c t]; cbn; [done|]. by rewrite Ht.
  - apply andb_true_iff in Hs as [-> Hs]. by rewrite IH.
Qed.

(** Trimming the text of a duration keeps everything but the decimals
    past the wanted number; the dot goes with the last of them. *)
Theorem TrimDurationPrecision_spec whole fraction unit numDecimals :
  dot ∉ whole -> forallb isDigit fraction = true ->
  (forall c, hd_error unit = Some c -> isDigit c = false) -> 0 <= numDecimals ->
  TrimDurationPrecision (whole ++ dot :: fraction ++ unit) numDecimals =
  if numDecimals =? 0 then whole ++ unit
  else whole ++ dot :: take (Z.to_nat numDecimals) fraction ++ unit.
Proof.
  intros Hw Hf Hu Hn. unfold TrimDurationPrecision. rewrite IndexByte_first by done.
  pose proof (len_nonneg whole). rewrite (proj2 (Z.eqb_neq _ _)) by lia.
  rewrite after_app_byte, digitRun_app, before_app by done.
  assert (after (whole ++ dot :: fraction ++ unit) (len whole + 1 + Z.of_nat (length fraction)) = unit) as ->.
  { replace (whole ++ dot :: fraction ++ unit) with ((whole ++ dot :: fraction) ++ unit)
      by (by rewrite <- app_assoc).
    replace (len whole + 1 + Z.of_nat (length fraction)) with (len (whole ++ dot :: fraction))
      by (rewrite len_app, len_cons; unfold len; lia).
    apply after_app. }
  destruct (numDecimals =? 0) eqn:E0; [done|].
  destruct (Z.leb_spec (len whole + 1 + Z.of_nat (length fraction) - (len whole + 1)) numDecimals).
  - by rewrite take_ge by lia.
  - unfold before. replace (Z.to_nat (len whole + 1 + numDecimals))
      with (length whole + S (Z.to_nat numDecimals))%nat by (unfold len in *; lia).
    rewrite take_app_add'; [|lia]. cbn [firstn]. rewrite take_app_le by lia.
    by rewrite <- !app_assoc.
Qed.

(* ------------------------------------------------------------------ *)
(** * Facts about defaults                                              *)
(* ------------------------------------------------------------------ *)

Lemma orDefault_idem x d : orDefault (orDefault x d) d = orDefault x d.
Proof. unfold orDefault. destruct (x =? 0) eqn:E; [by destruct (d =? 0)|by rewrite E]. Qed.
Lemma orDefault_nonzero x d : d <> 0 -> orDefault x d <> 0.
Proof. unfold orDefault. destruct (Z.eqb_spec x 0); lia. Qed.
Lemma orDefault_keep x d : x <> 0 -> orDefault x d = x.
Proof. unfold orDefault. intros H. by rewrite (proj2 (Z.eqb_neq _ _)). Qed.
Lemma orText_idem s d : orText (orText s d) d = orText s d.
Proof. unfold orText. repeat case_bool_decide; congruence. Qed.
Lemma orText_nonempty s d : d <> [] -> orText s d <> [].
Proof. unfold orText. by case_bool_decide. Qed.
Lemma orMinimum_idem x cpus : 1 <= cpus -> orMinimum (orMinimum x cpus) cpus = orMinimum x cpus.
Proof.
  intros Hc. unfold orMinimum. pose proof (orDefault_nonzero x 1 ltac:(lia)) as H.
  destruct (Z.ltb_spec cpus (orDefault x 1)).
  - rewrite orDefault_keep by lia. by destruct (cpus <? cpus).
  - rewrite orDefault_idem. by rewrite (proj2 (Z.ltb_ge _ _)).
Qed.

Lemma defaultCrypto_idem `{!Prims} opts path :
  defaultCrypto (defaultCrypto opts path) path = defaultCrypto opts path.
Proof.
  unfold defaultCrypto. cbn [TransportSuite SignatureSuite].
  destruct (bool_decide (TransportSuite opts = [])) eqn:E1;
    destruct (bool_decide (SignatureSuite opts = [])) eqn:E2;
    destruct (bool_decide (path = [])) eqn:E3; rewrite ?E1, ?E2; reflexivity.
Qed.
Lemma defaultMetrics_idem opts port : defaultMetrics (defaultMetrics opts port) port = defaultMetrics opts port.
Proof. unfold defaultMetrics. cbn. by rewrite !orDefault_idem. Qed.

(** Whatever was asked for, the autoscalers poll at most once a minute; the
    sender's falls back to ten times a second where less than a second was
    asked for, the receiver's to every two seconds. *)
Lemma sender_clampPoll i :
  SenderDaemon.clampPoll i = 100 * Millisecond \/ Second <= SenderDaemon.clampPoll i <= Minute.
Proof.
  unfold SenderDaemon.clampPoll. cbv zeta. destruct (Z.ltb_spec i Second); [by left|right].
  destruct (Z.ltb_spec Minute i); unfold Minute, Second in *; lia.
Qed.
Lemma sender_clampPoll_idem i : SenderDaemon.clampPoll (SenderDaemon.clampPoll i) = SenderDaemon.clampPoll i.
Proof.
  destruct (sender_clampPoll i) as [->|H]; [done|]. set (c := SenderDaemon.clampPoll i) in *.
  unfold SenderDaemon.clampPoll. cbv zeta. rewrite (proj2 (Z.ltb_ge c Second)) by lia.
  by rewrite (proj2 (Z.ltb_ge Minute c)) by lia.
Qed.
Lemma receiver_clampPoll i : Second <= ReceiverDaemon.clampPoll i <= Minute.
Proof.
  unfold ReceiverDaemon.clampPoll, DefaultMaxPacketDeadline. cbv zeta.
  set (d := orDefault _ _). destruct (Z.ltb_spec d Second); [by vm_compute|].
  destruct (Z.ltb_spec Minute d); unfold Minute, Second in *; lia.
Qed.
Lemma receiver_clampPoll_idem i :
  ReceiverDaemon.clampPoll (ReceiverDaemon.clampPoll i) = ReceiverDaemon.clampPoll i.
Proof.
  pose proof (receiver_clampPoll i) as H. set (c := ReceiverDaemon.clampPoll i) in *.
  unfold ReceiverDaemon.clampPoll. cbv zeta.
  rewrite (orDefault_keep c) by (unfold Second in H; lia).
  rewrite (proj2 (Z.ltb_ge c Second)) by lia. by rewrite (proj2 (Z.ltb_ge Minute c)) by lia.
Qed.

(** Defaults are settled at once: setting them again, as a daemon that is
    initialised a second time does, changes nothing. *)
Lemma sender_defaults_idem `{!Prims} cpus opts :
  1 <= cpus ->
  SenderDaemon.setDefaults cpus (SenderDaemon.setDefaults cpus opts) = SenderDaemon.setDefaults cpus opts.
Proof.
  intros Hc. unfold SenderDaemon.setDefaults. cbn -[defaultCrypto defaultMetrics SenderDaemon.clampPoll orMinimum].
  rewrite defaultCrypto_idem, defaultMetrics_idem, orText_idem, !orDefault_idem.
  unfold SenderDaemon.defaultScaling. cbn -[SenderDaemon.clampPoll orMinimum].
  by rewrite sender_clampPoll_idem, !orMinimum_idem, !orDefault_idem.
Qed.
Lemma receiver_defaults_idem `{!Prims} cpus opts :
  1 <= cpus ->
  ReceiverDaemon.setDefaults cpus (ReceiverDaemon.setDefaults cpus opts) = ReceiverDaemon.setDefaults cpus opts.
Proof.
  intros Hc. unfold ReceiverDaemon.setDefaults. cbn -[defaultCrypto defaultMetrics ReceiverDaemon.clampPoll orMinimum].
  rewrite defaultCrypto_idem, defaultMetrics_idem, !orText_idem, !orDefault_idem.
  unfold ReceiverDaemon.defaultScaling. cbn -[ReceiverDaemon.clampPoll orMinimum].
  by rewrite receiver_clampPoll_idem, !orMinimum_idem, !orDefault_idem.
Qed.

(* ------------------------------------------------------------------ *)
(** * When a daemon starts                                              *)
(* ------------------------------------------------------------------ *)

(** The scaling section of the configuration says nothing about counts and
    sizes. *)
Definition sender_unscaled (o : SenderDaemon.ScalingOptions) : Prop :=
  SenderDaemon.MinOutputs o = 0 /\ SenderDaemon.MaxOutputs o = 0 /\
  SenderDaemon.MinAssemblers o = 0 /\ SenderDaemon.MaxAssemblers o = 0 /\
  SenderDaemon.MinOutputQueueSize o = 0 /\ SenderDaemon.MaxOutputQueueSize o = 0 /\
  SenderDaemon.MinAssemblerQueueSize o = 0 /\ SenderDaemon.MaxAssemblerQueueSize o = 0.
Definition receiver_unscaled (o : ReceiverDaemon.ScalingOptions) : Prop :=
  ReceiverDaemon.MinListeners o = 0 /\ ReceiverDaemon.MaxListeners o = 0 /\
  ReceiverDaemon.MinProcessors o = 0 /\ ReceiverDaemon.MaxProcessors o = 0 /\
  ReceiverDaemon.MinDefrags o = 0 /\ ReceiverDaemon.MaxDefrags o = 0 /\
  ReceiverDaemon.MinProcQueueSize o = 0 /\ ReceiverDaemon.MaxProcQueueSize o = 0 /\
  ReceiverDaemon.MinOutQueueSize o = 0 /\ ReceiverDaemon.MaxOutQueueSize o = 0.

Lemma queue_of_default {V : Type} (zero : V) : exists q, newQueueInst zero (wrapU 64 DefaultMinQueueSize) = Some q.
Proof. unfold newQueueInst. eexists. reflexivity. Qed.

Lemma is_Some_true {A} (x : A) : bool_decide (is_Some (Some x)) = true.
Proof. by apply bool_decide_eq_true_2. Qed.
Lemma nonempty_false {A} `{!EqDecision A} (l : list A) : l <> [] -> bool_decide (l = []) = false.
Proof. apply bool_decide_eq_false_2. Qed.

(** What the sender finds outside when it starts: the socket and the sizes
    are there, the log files open, and the suites of its options exist. *)
Record sender_ready `{!Prims} {I} (random : res bytes) (maxPayload : res Z)
    (opened : gostring -> res I) (opts : SenderDaemon.JSONOptions) (cfg : SenderDaemon.RunConfig) : Prop := {
  sr_source : is_Some (SenderDaemon.sourceSocket cfg);
  sr_dest : exists dest, SenderDaemon.destSocket cfg = Some dest /\ SenderDaemon.IPString (IP dest) <> [];
  sr_host : exists b, random = Ok b /\ FourByte b <> 0;
  sr_size : exists n, maxPayload = Ok n /\ n <> 0;
  sr_suite : is_Some (SuiteNameToID (TransportSuite (SenderDaemon.Crypto opts)));
  sr_signature : is_Some (SignatureNameToID (SignatureSuite (SenderDaemon.Crypto opts)));
  sr_files : isOk (SenderDaemon.addFiles opened (SenderDaemon.FilePaths (SenderDaemon.Inputs opts)) ∅) = true
}.

(** No suite has an empty name. *)
Lemma suite_named `{!Prims} name : is_Some (SuiteNameToID name) -> name <> [].
Proof. intros [id Hid] ->. by vm_compute in Hid. Qed.
Lemma signature_named `{!Prims} name : is_Some (SignatureNameToID name) -> name <> [].
Proof. intros [id Hid] ->. by vm_compute in Hid. Qed.

Lemma wrapU_count n : 1 <= n < 2 ^ 32 -> wrapU 32 n = n.
Proof. intros H. apply wrapU_small. lia. Qed.
Lemma fewest cpus : 1 <= cpus -> orMinimum 0 cpus = 1.
Proof. intros H. unfold orMinimum. cbn. by rewrite (proj2 (Z.ltb_ge _ _)). Qed.

(** The queue of a manager with default sizes. *)
Lemma default_manager {V} (zero : V) (A : Type) (f : QueueInst -> res A) (P : A -> Prop) :
  (forall q, exists p, f q = Ok p /\ P p) ->
  exists p, match newQueueInst zero (wrapU 64 2048) with None => Err EMsg | Some q => f q end = Ok p /\ P p.
Proof. intros H. destruct (queue_of_default zero) as [q Hq]. unfold DefaultMinQueueSize in Hq. by rewrite Hq. Qed.

(** A stage with [lo] to [hi] instances. *)
Lemma sender_output_starts lo hi :
  1 <= lo -> 1 <= hi -> Sending.validate (Sending.mkConfig 2048 8192 lo hi true true) = (lo <? hi).
Proof.
  intros Hl Hh. unfold Sending.validate. cbn -[Z.leb Z.eqb]. destruct (Z.eqb_spec lo 0), (Z.eqb_spec hi 0); try lia.
Qed.

Lemma sender_assembler_starts `{!Prims} lo hi ip override crypto sig throttle threshold time b n :
  1 <= lo < hi -> ip <> [] -> FourByte b <> 0 -> n <> 0 -> threshold <> 0 -> time <> 0 ->
  is_Some (SuiteNameToID crypto) -> is_Some (SignatureNameToID sig) ->
  exists p, Packing.NewManager
    (Packing.mkConfig 2048 8192 lo hi 0 ip override 0 crypto sig 0 0 throttle threshold time)
    true (Ok b) (Ok n) = Ok p.
Proof.
  intros Hc Hip Hb Hn Ht Hd Hcr Hsi. unfold Packing.NewManager. cbn [negb wrap mbind res_bind].
  set (size := if negb (Packing.OverrideMaxPayloadSize _ =? 0) then _ else n).
  assert (size <> 0) as Hsize by (unfold size; cbn; by destruct (Z.eqb_spec override 0)).
  assert (Packing.validate (Packing.setHost (Packing.mkConfig 2048 8192 lo hi 0 ip override 0 crypto
    sig 0 0 throttle threshold time) (FourByte b) size) = true) as ->.
  { unfold Packing.validate, Packing.setHost. cbn -[Z.leb Z.eqb FourByte bool_decide size].
    apply negb_true_iff. repeat apply orb_false_intro;
      try (by apply Z.eqb_neq); try (apply Z.leb_gt; lia); try (apply Z.eqb_neq; lia);
      try (apply nonempty_false; first [done | by apply suite_named | by apply signature_named]).
    rewrite !(proj2 (Z.eqb_neq _ 0)) by done. apply andb_false_r. }
  cbn [negb]. destruct (queue_of_default tt) as [q Hq]. unfold DefaultMinQueueSize in Hq.
  cbn [Packing.setHost Packing.MinQueueCapacity Packing.CryptoSuiteName Packing.SigSuiteName].
  rewrite Hq. destruct Hcr as [c ->], Hsi as [s ->]. eauto.
Qed.

Lemma sender_start_iff `{!Prims} {I} random maxPayload (opened : gostring -> res I) opts cfg cpus :
  1 <= cpus < 2 ^ 32 -> sender_unscaled (SenderDaemon.AutoScaling opts) ->
  sender_ready random maxPayload opened (SenderDaemon.setDefaults cpus opts) cfg ->
  (exists p, SenderDaemon.Start true random maxPayload opened true false
               (SenderDaemon.setDefaults cpus opts) cfg = Ok (Some p)) <-> 2 <= cpus.
Proof.
  intros Hc (H1 & H2 & H3 & H4 & H5 & H6 & H7 & H8) [[src Hs] (dest & Hd & Hip) (b & -> & Hb) (n & -> & Hn) Hsu Hsi Hf].
  unfold SenderDaemon.Start. cbn [negb]. rewrite Hd.
  set (o := SenderDaemon.setDefaults cpus opts) in *.
  assert (SenderDaemon.outputConfig o cfg = Sending.mkConfig 2048 8192 1 cpus true true) as ->.
  { unfold SenderDaemon.outputConfig. rewrite Hs, Hd. unfold o. cbn -[orMinimum wrapU orDefault bool_decide].
    rewrite H1, H2, H5, H6, fewest by lia. cbn -[wrapU bool_decide]. by rewrite !wrapU_count by lia. }
  unfold Sending.NewManager. rewrite sender_output_starts by lia. replace (1 <? cpus) with (2 <=? cpus) by lia.
  destruct (Z.leb_spec 2 cpus) as [Hc2|Hc2]; cbn [negb]; [|split; [by intros [p ?]|lia]].
  split; [done|intros _].
  destruct (queue_of_default (V := bytes) []) as [q Hq]. cbn [Sending.MinQueueCapacity].
  unfold DefaultMinQueueSize in Hq. rewrite Hq. cbn [wrap mbind res_bind].
  assert (SenderDaemon.assemblerConfig o (SenderDaemon.IPString (IP dest)) =
    Packing.mkConfig 2048 8192 1 cpus 0 (SenderDaemon.IPString (IP dest))
      (SenderDaemon.OverrideMaxPayloadSize (SenderDaemon.Network opts)) 0
      (TransportSuite (SenderDaemon.Crypto o)) (SignatureSuite (SenderDaemon.Crypto o)) 0 0
      (SenderDaemon.Throttle (SenderDaemon.Throttling opts))
      (SenderDaemon.MinFragmentThreshold (SenderDaemon.Throttling o))
      (SenderDaemon.PerFragmentDelay (SenderDaemon.Throttling o))) as ->.
  { unfold SenderDaemon.assemblerConfig. unfold o at 1 2 3 4. cbn -[orMinimum wrapU orDefault bool_decide o].
    rewrite H3, H4, H7, H8, fewest by lia. cbn -[wrapU bool_decide o]. by rewrite !wrapU_count by lia. }
  edestruct (sender_assembler_starts 1 cpus (SenderDaemon.IPString (IP dest))) as [p Hp];
    [lia|exact Hip|exact Hb|exact Hn| | |exact Hsu|exact Hsi|rewrite Hp].
  { by apply orDefault_nonzero. }
  { by apply orDefault_nonzero. }
  cbn [wrap mbind res_bind].
  destruct (SenderDaemon.addFiles _ _ _) as [sources| |]; [|done..]. eexists. reflexivity.
Qed.

(** What the receiver finds: the kernel program, its socket, an output that
    starts, listeners that start, and a replay window that is long enough to
    be halved. *)
Record receiver_ready (ebpf rawWriter : bool) (outputs : res unit) (listens : nat -> bool)
    (opts : ReceiverDaemon.JSONOptions) (socket : option UDPAddr) : Prop := {
  rr_ebpf : ebpf = true;
  rr_socket : is_Some socket;
  rr_outputs : outputs = Ok tt;
  rr_listens : forall n, listens n = true;
  rr_window : 2 <= ReceiverDaemon.ProtectionWindow (ReceiverDaemon.ReplayProtection opts);
  rr_some_output :
    ReceiverDaemon.FilePath (ReceiverDaemon.Outputs opts) <> [] \/
    ReceiverDaemon.JournaldURL (ReceiverDaemon.Outputs opts) <> [] \/
    ReceiverDaemon.BeatsAddress (ReceiverDaemon.Outputs opts) <> [] \/
    rawWriter = true \/ ReceiverDaemon.DBUSNotify (ReceiverDaemon.Outputs opts) = true
}.

Lemma listeners_added listens n :
  (forall n, listens n = true) -> ReceiverDaemon.addListeners listens n = Ok tt.
Proof. intros H. induction n as [|n IH]; cbn; [done|]. by rewrite IH, H. Qed.

Lemma receiver_output_starts opts rawWriter :
  OutputManager.MinQueueCapacity (ReceiverDaemon.outputConfig opts rawWriter) = 2048 ->
  OutputManager.MaxQueueCapacity (ReceiverDaemon.outputConfig opts rawWriter) = 8192 ->
  ReceiverDaemon.MaxConsecutiveFailures (ReceiverDaemon.Outputs opts) <> 0 ->
  (ReceiverDaemon.FilePath (ReceiverDaemon.Outputs opts) <> [] \/
   ReceiverDaemon.JournaldURL (ReceiverDaemon.Outputs opts) <> [] \/
   ReceiverDaemon.BeatsAddress (ReceiverDaemon.Outputs opts) <> [] \/
   rawWriter = true \/ ReceiverDaemon.DBUSNotify (ReceiverDaemon.Outputs opts) = true) ->
  exists q, OutputManager.NewManager (ReceiverDaemon.outputConfig opts rawWriter) = Ok q.
Proof.
  intros H1 H2 H3 H4. unfold OutputManager.NewManager.
  assert (OutputManager.validate (ReceiverDaemon.outputConfig opts rawWriter) = true) as ->.
  { unfold OutputManager.validate. rewrite H1, H2. apply negb_true_iff.
    repeat apply orb_false_intro; [done..| |by apply Z.eqb_neq].
    cbn -[bool_decide]. destruct H4 as [H|[H|[H|[->| ->]]]]; rewrite ?(bool_decide_eq_false_2 _ H);
      rewrite ?andb_false_r; reflexivity. }
  cbn [negb]. rewrite H1. destruct (queue_of_default tt) as [q Hq]. unfold DefaultMinQueueSize in Hq.
  rewrite Hq. eauto.
Qed.

(** The three stages, refused alike when the bounds are not apart. *)
Lemma receiver_assembler_starts lo hi dir deadline :
  1 <= lo -> 1 <= hi -> dir <> [] ->
  isOk (Assembler.NewManager (Assembler.mkConfig lo hi dir deadline) true) = (lo <? hi).
Proof.
  intros Hl Hh Hd. unfold Assembler.NewManager, Assembler.validate. cbn -[Z.leb Z.eqb bool_decide].
  rewrite nonempty_false by done. rewrite (proj2 (Z.eqb_neq lo 0)), (proj2 (Z.eqb_neq hi 0)) by lia. cbn -[Z.leb].
  by destruct (Z.leb_spec hi lo), (Z.ltb_spec lo hi); try lia.
Qed.
Lemma receiver_processor_starts lo hi past future :
  1 <= lo < hi -> past <> 0 -> future <> 0 ->
  exists q, ProcessorManager.NewManager (ProcessorManager.mkConfig lo hi 2048 8192 past future) = Ok q.
Proof.
  intros Hc Hp Hf. unfold ProcessorManager.NewManager.
  assert (ProcessorManager.validate (ProcessorManager.mkConfig lo hi 2048 8192 past future) = true) as ->.
  { apply negb_true_iff. repeat apply orb_false_intro; cbn -[Z.eqb Z.leb];
      solve [done | by apply Z.eqb_neq | apply Z.eqb_neq; lia | apply Z.leb_gt; lia]. }
  destruct (queue_of_default tt) as [q Hq]. cbn -[newQueueInst wrapU]. exists q.
  unfold DefaultMinQueueSize in Hq. by rewrite Hq.
Qed.
Lemma receiver_listener_starts lo hi window interval :
  1 <= lo < hi -> 2 <= window ->
  exists cache, Listener.NewManager (Listener.mkConfig lo hi true window interval) = Ok cache.
Proof.
  intros Hc Hw. unfold Listener.NewManager. cbn -[Z.quot Listener.validate].
  assert (1 <= Z.quot window 2) as Hq by (change 1 with (Z.quot 2 2); by apply Z.quot_le_mono).
  assert (Listener.validate (Listener.mkConfig lo hi true window (Z.quot window 2)) = true) as ->.
  { apply negb_true_iff. repeat apply orb_false_intro; cbn -[Z.eqb Z.leb Z.quot];
      solve [done | apply Z.eqb_neq; lia | apply Z.leb_gt; lia]. }
  cbn [negb]. rewrite (proj2 (Z.leb_gt _ 0)) by lia. eauto.
Qed.

Lemma receiver_start_iff `{!Prims} ebpf rawWriter outputs listens opts socket cpus :
  1 <= cpus < 2 ^ 32 -> receiver_unscaled (ReceiverDaemon.AutoScaling opts) ->
  receiver_ready ebpf rawWriter outputs listens (ReceiverDaemon.setDefaults cpus opts) socket ->
  (exists p, ReceiverDaemon.Start ebpf rawWriter outputs listens true false
               (ReceiverDaemon.setDefaults cpus opts) socket = Ok (Some p)) <-> 2 <= cpus.
Proof.
  intros Hc (H1 & H2 & H3 & H4 & H5 & H6 & H7 & H8 & H9 & H10) [-> [src ->] -> Hl Hw Ho].
  unfold ReceiverDaemon.Start. cbn [negb]. set (o := ReceiverDaemon.setDefaults cpus opts) in *.
  edestruct (receiver_output_starts o rawWriter) as [q Hq]; [| | |exact Ho|].
  { cbn. by rewrite H9. }
  { cbn. by rewrite H10. }
  { by apply orDefault_nonzero. }
  rewrite Hq. cbn [wrap mbind res_bind].
  assert (ReceiverDaemon.assemblerConfig o =
    Assembler.mkConfig 1 cpus (ReceiverDaemon.IPCSocketDirectory o) 0) as ->.
  { unfold ReceiverDaemon.assemblerConfig. unfold o at 1 2. cbn -[orMinimum wrapU orDefault o].
    rewrite H5, H6, fewest by lia. change (orDefault 0 cpus) with cpus.
    by rewrite !wrapU_count by lia. }
  assert (ReceiverDaemon.IPCSocketDirectory o <> []) as Hdir by (by apply orText_nonempty).
  pose proof (receiver_assembler_starts 1 cpus (ReceiverDaemon.IPCSocketDirectory o) 0 ltac:(lia) ltac:(lia) Hdir) as Ha.
  replace (1 <? cpus) with (2 <=? cpus) in Ha by lia. revert Ha. destruct (Z.leb_spec 2 cpus) as [Hc2|Hc2]; intros Ha.
  2:{ destruct (Assembler.NewManager _ _) as [m| |]; cbn [isOk] in Ha;
        [done|cbn [wrap mbind res_bind]..]; (split; [by intros [p ?]|lia]). }
  split; [done|intros _]. destruct (Assembler.NewManager _ _) as [m| |]; cbn [isOk] in Ha; [|done..].
  cbn [wrap mbind res_bind].
  assert (ReceiverDaemon.processorConfig o = ProcessorManager.mkConfig 1 cpus 2048 8192
    (ReceiverDaemon.PastValidityWindow (ReceiverDaemon.ReplayProtection o))
    (ReceiverDaemon.FutureValidityWindow (ReceiverDaemon.ReplayProtection o))) as ->.
  { unfold ReceiverDaemon.processorConfig. unfold o at 1 2 3 4. cbn -[orMinimum wrapU orDefault o].
    rewrite H3, H4, H7, H8, fewest by lia. change (orDefault 0 cpus) with cpus.
    by rewrite !wrapU_count by lia. }
  edestruct (receiver_processor_starts 1 cpus) as [qp Hp];
    [lia| | |rewrite Hp; clear Hp]; [by apply orDefault_nonzero..|].
  assert (ReceiverDaemon.listenerConfig o (Some src) = Listener.mkConfig 1 cpus true
    (ReceiverDaemon.ProtectionWindow (ReceiverDaemon.ReplayProtection o)) 0) as ->.
  { unfold ReceiverDaemon.listenerConfig. unfold o at 1 2. cbn -[orMinimum wrapU orDefault o].
    rewrite H1, H2, fewest by lia. change (orDefault 0 cpus) with cpus.
    by rewrite !wrapU_count by lia. }
  cbn [wrap mbind res_bind].
  destruct (receiver_listener_starts 1 cpus _ 0 ltac:(lia) Hw) as [cache ->]. cbn [wrap mbind res_bind].
  rewrite listeners_added by done. eexists. reflexivity.
Qed.

(** A configuration that leaves instance counts and queue sizes to the
    defaults starts its daemon exactly on a machine with at least two CPUs:
    with one, the minimum and the maximum of every stage are both one, which
    the checks of both daemons' managers refuse. *)
Theorem starts_iff_two_cpus `{!Prims} {I} random maxPayload (opened : gostring -> res I) sopts cfg
    ebpf rawWriter outputs listens ropts socket cpus :
  1 <= cpus < 2 ^ 32 ->
  sender_unscaled (SenderDaemon.AutoScaling sopts) ->
  sender_ready random maxPayload opened (SenderDaemon.setDefaults cpus sopts) cfg ->
  receiver_unscaled (ReceiverDaemon.AutoScaling ropts) ->
  receiver_ready ebpf rawWriter outputs listens (ReceiverDaemon.setDefaults cpus ropts) socket ->
  ((exists p, SenderDaemon.Start true random maxPayload opened true false
                (SenderDaemon.setDefaults cpus sopts) cfg = Ok (Some p)) <-> 2 <= cpus) /\
  ((exists p, ReceiverDaemon.Start ebpf rawWriter outputs listens true false
                (ReceiverDaemon.setDefaults cpus ropts) socket = Ok (Some p)) <-> 2 <= cpus).
Proof.
  intros Hc Hs Hsr Hr Hrr. split; [by apply sender_start_iff|by apply receiver_start_iff].
Qed.

Definition exampleInputs : SenderDaemon.JSONInputs :=
  SenderDaemon.mkInputs [] None [str "/var/log/syslog"] true false.
(** A configuration as the documentation shows it: only what must be given. *)
Definition exampleSendOptions : SenderDaemon.JSONOptions :=
  SenderDaemon.mkOptions (str "key") [] (mkCrypto [] []) []
    (SenderDaemon.mkNetwork [] 0 (str "192.0.2.1") 0 0) exampleInputs
    (mkMetricsOptions (15 * Second) 0 false 0)
    (SenderDaemon.mkScaling false 0 0 0 0 0 0 0 0 0) (SenderDaemon.mkThrottling false 0 0).
Definition exampleRecvOptions : ReceiverDaemon.JSONOptions :=
  ReceiverDaemon.mkOptions (str "/etc/sdsyslog/private.key") [] (mkCrypto [] [])
    (ReceiverDaemon.mkReplay 0 0 0) [] [] 0
    (ReceiverDaemon.mkOutputs (str "/var/log/remote.log") [] [] false false 0)
    (mkMetricsOptions (15 * Second) 0 false 0)
    (ReceiverDaemon.mkScaling false 0 0 0 0 0 0 0 0 0 0 0).
Definition exampleSocket : UDPAddr :=
  mkUDPAddr (Some (AddrV4 (z2b 192) (z2b 0) (z2b 2) (z2b 1))) 8514.
Definition exampleRunConfig : SenderDaemon.RunConfig :=
  SenderDaemon.mkRunConfig [] (Some exampleSocket) (Some exampleSocket).

Lemma example_sender_ready cpus : cpus = 4 \/ cpus = 1 ->
  sender_ready (Ok [z2b 1]) (Ok 1400) (fun path => Ok path)
    (SenderDaemon.setDefaults cpus exampleSendOptions) exampleRunConfig.
Proof.
  intros [-> | ->]; (split; [by eexists|exists exampleSocket; split; [done|by vm_compute]
    |exists [z2b 1]; by vm_compute|exists 1400; by vm_compute|exists 1; by vm_compute|exists 0; by vm_compute
    |by vm_compute]).
Qed.
Lemma example_receiver_ready cpus : cpus = 4 \/ cpus = 1 ->
  receiver_ready true false (Ok tt) (fun _ => true)
    (ReceiverDaemon.setDefaults cpus exampleRecvOptions) (Some exampleSocket).
Proof.
  intros [-> | ->]; (split; [done|by eexists|done|done|by vm_compute|left; by vm_compute]).
Qed.

Lemma starts_iff_two_cpus_witness :
  (exists p, SenderDaemon.Start true (Ok [z2b 1]) (Ok 1400) (fun path => Ok path) true false
               (SenderDaemon.setDefaults 4 exampleSendOptions) exampleRunConfig = Ok (Some p)) /\
  ~ exists p, ReceiverDaemon.Start true false (Ok tt) (fun _ => true) true false
                (ReceiverDaemon.setDefaults 1 exampleRecvOptions) (Some exampleSocket) = Ok (Some p).
Proof.
  split.
  - apply (starts_iff_two_cpus (Ok [z2b 1]) (Ok 1400) (fun path => Ok path) exampleSendOptions
      exampleRunConfig true false (Ok tt) (fun _ => true) exampleRecvOptions (Some exampleSocket) 4);
      [lia|by split_and!|exact (example_sender_ready 4 ltac:(by left))|by split_and!
      |exact (example_receiver_ready 4 ltac:(by left))|lia].
  - intros H. apply (starts_iff_two_cpus (Ok [z2b 1]) (Ok 1400) (fun path => Ok path) exampleSendOptions
      exampleRunConfig true false (Ok tt) (fun _ => true) exampleRecvOptions (Some exampleSocket) 1) in H;
      [done|lia|by split_and!|exact (example_sender_ready 1 ltac:(by right))|by split_and!
      |exact (example_receiver_ready 1 ltac:(by right))].
Defined.

(* ------------------------------------------------------------------ *)
(** * Included inputs                                                   *)
(* ------------------------------------------------------------------ *)

Section merging.
Import SenderDaemon.
(** Filters are structures of strings and flags, which [json.Marshal] does
    not refuse. *)
Context (marshal : MessageFilter -> option gostring).
Hypothesis Hmarshal : forall f, is_Some (marshal f).

Definition text (f : MessageFilter) : gostring := default [] (marshal f).

(** Specification: the new filters whose text is not there yet. *)
Fixpoint unseen (seen : list gostring) (newFilters : list MessageFilter) : list MessageFilter :=
  match newFilters with
  | [] => []
  | f :: newFilters =>
      if bool_decide (text f ∈ seen) then unseen seen newFilters
      else f :: unseen (text f :: seen) newFilters
  end.
Definition combine (existing newFilters : list MessageFilter) : list MessageFilter :=
  existing ++ unseen (map text existing) newFilters.
Definition mergedMap (old new : gmap gostring (list MessageFilter)) : gmap gostring (list MessageFilter) :=
  union_with (fun e n => Some (combine e n)) old new.
Definition merged (newCfg opts : JSONInputs) : JSONInputs :=
  let new := default ∅ (DropFilters newCfg) in
  let filters :=
    match DropFilters opts with
    | Some old => Some (mergedMap old new)
    | None => if bool_decide (new = ∅) then None else Some new
    end in
  mkInputs (Include opts) filters (fold_left addPath (FilePaths newCfg) (FilePaths opts))
    (JournalEnabled newCfg || JournalEnabled opts) (SendInternalLogs opts).

Lemma marshalOne_text f : marshalOne marshal f = Ok (text f).
Proof. unfold marshalOne, text. by destruct (Hmarshal f) as [t ->]. Qed.
Lemma marshalAll_texts fs : marshalAll marshal fs = Ok (map text fs).
Proof. induction fs as [|f fs IH]; cbn; [done|]. by rewrite marshalOne_text; cbn; rewrite IH. Qed.
Lemma appendNew_unseen seen filters new :
  appendNew marshal seen filters new = Ok (filters ++ unseen seen new).
Proof.
  revert seen filters. induction new as [|f new IH]; intros seen filters; cbn; [by rewrite app_nil_r|].
  rewrite marshalOne_text. cbn. case_bool_decide; [apply IH|]. rewrite IH. by rewrite <- app_assoc.
Qed.

Lemma mergedMap_lookup old new k :
  mergedMap old new !! k =
  match old !! k, new !! k with
  | Some e, Some n => Some (combine e n)
  | None, n => n
  | e, None => e
  end.
Proof. unfold mergedMap. rewrite lookup_union_with. by destruct (old !! k), (new !! k). Qed.
Lemma mergedMap_empty new : mergedMap ∅ new = new.
Proof. apply map_eq. intros k. by rewrite mergedMap_lookup, lookup_empty. Qed.

(** The map loop gives the same map in every order. *)
Lemma mergeFilters_merged order old :
  NoDup order.*1 -> mergeFilters marshal order old = Ok (mergedMap old (list_to_map order)).
Proof.
  revert old. induction order as [|[k n] order IH]; intros old Hnd; cbn [mergeFilters list_to_map foldr].
  { f_equal. apply map_eq. intros k. rewrite mergedMap_lookup, lookup_empty. by destruct (old !! k). }
  cbn in Hnd. apply NoDup_cons in Hnd as [Hk Hnd].
  assert (list_to_map order !! k = (None : option (list MessageFilter))) as Hn
    by (by apply not_elem_of_list_to_map_1).
  destruct (old !! k) as [e|] eqn:E.
  - rewrite marshalAll_texts. cbn. rewrite appendNew_unseen. cbn. rewrite IH by done. f_equal.
    apply map_eq. intros j. rewrite !mergedMap_lookup. destruct (decide (j = k)) as [->|Hj].
    + by rewrite !lookup_insert_eq, E, Hn.
    + by rewrite !lookup_insert_ne by done.
  - rewrite IH by done. f_equal. apply map_eq. intros j. rewrite !mergedMap_lookup.
    destruct (decide (j = k)) as [->|Hj].
    + by rewrite !lookup_insert_eq, E, Hn.
    + by rewrite !lookup_insert_ne by done.
Qed.

(** The order of the loop over the new filters. *)
Definition loop_order (newCfg : JSONInputs) (order : list (gostring * list MessageFilter)) : Prop :=
  order ≡ₚ map_to_list (default ∅ (DropFilters newCfg)).

(** Merging does what its specification says, whatever the order of the map
    loop. *)
Lemma mergeConfigInputs_merged newCfg order opts :
  Include newCfg = [] -> loop_order newCfg order ->
  mergeConfigInputs marshal newCfg order opts = Ok (merged newCfg opts).
Proof.
  intros Hi Ho. unfold mergeConfigInputs, merged. rewrite bool_decide_eq_true_2 by done. cbn [negb].
  set (new := default ∅ (DropFilters newCfg)) in *.
  assert (NoDup order.*1) as Hnd by (unfold loop_order in Ho; rewrite Ho; apply NoDup_fst_map_to_list).
  assert (list_to_map order = new) as Hm
    by (rewrite <- (list_to_map_to_list new); apply list_to_map_proper; [done|exact Ho]).
  cbn [DropFilters]. replace (if JournalEnabled newCfg then true else JournalEnabled opts)
    with (JournalEnabled newCfg || JournalEnabled opts) by done.
  destruct (DropFilters opts) as [old|].
  - by rewrite mergeFilters_merged, Hm by done.
  - case_bool_decide; [done|]. by rewrite mergeFilters_merged, Hm, mergedMap_empty by done.
Qed.

(** ** What is there already is not added again *)

Lemma addPath_elem paths new p : p ∈ addPath paths new <-> p ∈ paths \/ p = new.
Proof.
  unfold addPath. case_bool_decide as E.
  - split; [by left|]. by intros [?| ->].
  - by rewrite elem_of_app, list_elem_of_singleton.
Qed.
Lemma addPaths_elem new paths p : p ∈ fold_left addPath new paths <-> p ∈ paths \/ p ∈ new.
Proof.
  revert paths. induction new as [|n new IH]; intros paths; cbn.
  { split; [by left|]. by intros [|?%elem_of_nil]. }
  rewrite IH, addPath_elem, elem_of_cons. tauto.
Qed.
Lemma addPaths_prefix new paths : paths `prefix_of` fold_left addPath new paths.
Proof.
  revert paths. induction new as [|n new IH]; intros paths; cbn; [done|].
  etrans; [|apply IH]. unfold addPath. case_bool_decide; [done|]. by apply prefix_app_r.
Qed.
Lemma addPaths_known new paths : (forall p, p ∈ new -> p ∈ paths) -> fold_left addPath new paths = paths.
Proof.
  induction new as [|n new IH]; intros H; cbn; [done|]. unfold addPath at 2.
  rewrite bool_decide_eq_true_2 by (apply H; by left). apply IH. intros p ?. apply H. by right.
Qed.

Lemma unseen_known seen new : (forall f, f ∈ new -> text f ∈ seen) -> unseen seen new = [].
Proof.
  induction new as [|f new IH]; intros H; cbn; [done|].
  rewrite bool_decide_eq_true_2 by (apply H; by left). apply IH. intros g ?. apply H. by right.
Qed.
Lemma unseen_covers seen new f :
  f ∈ new -> text f ∈ seen \/ text f ∈ map text (unseen seen new).
Proof.
  revert seen. induction new as [|g new IH]; intros seen; cbn; [by intros ?%elem_of_nil|].
  intros [->|Hf]%elem_of_cons; case_bool_decide as E.
  - by left.
  - right. cbn. by left.
  - by apply IH.
  - destruct (IH (text g :: seen) Hf) as [[->|]%elem_of_cons|]; [right; by left|by left|right; by right].
Qed.

(** Everything the included configuration says is there. *)
Definition absorbed (newCfg opts : JSONInputs) : Prop :=
  (JournalEnabled newCfg = true -> JournalEnabled opts = true) /\
  (forall p, p ∈ FilePaths newCfg -> p ∈ FilePaths opts) /\
  (forall k n, default ∅ (DropFilters newCfg) !! k = Some n ->
     exists e, default ∅ (DropFilters opts) !! k = Some e /\ forall f, f ∈ n -> text f ∈ map text e).

Lemma merged_filters newCfg opts :
  default ∅ (DropFilters (merged newCfg opts)) =
  mergedMap (default ∅ (DropFilters opts)) (default ∅ (DropFilters newCfg)).
Proof.
  cbn. destruct (DropFilters opts); [done|]. cbn. case_bool_decide as E; cbn; [|by rewrite mergedMap_empty].
  by rewrite E, mergedMap_empty.
Qed.

Lemma merged_absorbed newCfg opts : absorbed newCfg (merged newCfg opts).
Proof.
  split_and!.
  - cbn. by intros ->.
  - intros p Hp. cbn. rewrite addPaths_elem. by right.
  - intros k n Hn. rewrite merged_filters, mergedMap_lookup, Hn.
    destruct (default ∅ (DropFilters opts) !! k) as [e|]; eexists; (split; [done|]); intros f Hf.
    + unfold combine. rewrite map_app, elem_of_app. by apply unseen_covers.
    + apply list_elem_of_In, in_map, list_elem_of_In, Hf.
Qed.
Lemma absorbed_merged newCfg other opts : absorbed newCfg opts -> absorbed newCfg (merged other opts).
Proof.
  intros (Hj & Hp & Hf). split_and!.
  - intros E%Hj. cbn. rewrite E. apply orb_true_r.
  - intros p ?%Hp. cbn. rewrite addPaths_elem. by left.
  - intros k n (e & He & Ht)%Hf. rewrite merged_filters, mergedMap_lookup, He.
    destruct (default ∅ (DropFilters other) !! k) as [m|]; [|by eauto].
    eexists. split; [done|]. intros f ?%Ht. unfold combine. rewrite map_app, elem_of_app. by left.
Qed.
Lemma absorbed_stable newCfg opts : absorbed newCfg opts -> merged newCfg opts = opts.
Proof.
  intros (Hj & Hp & Hf). unfold merged. rewrite addPaths_known by done.
  replace (JournalEnabled newCfg || JournalEnabled opts) with (JournalEnabled opts)
    by (destruct (JournalEnabled newCfg); [by rewrite Hj|done]).
  destruct opts as [inc filters paths j l]. cbn in *. f_equal. destruct filters as [old|].
  - f_equal. apply map_eq. intros k. rewrite mergedMap_lookup.
    destruct (old !! k) as [e|] eqn:E; destruct (default ∅ _ !! k) as [n|] eqn:N; try done.
    + apply Hf in N as (e' & He & Ht). cbn in He. simplify_eq. unfold combine.
      by rewrite unseen_known, app_nil_r.
    + apply Hf in N as (e' & He & _). cbn in He. congruence.
  - rewrite bool_decide_eq_true_2; [done|]. apply map_eq. intros k. rewrite lookup_empty.
    destruct (default ∅ (DropFilters newCfg) !! k) as [n|] eqn:N; [|done].
    apply Hf in N as (e & He & _). cbn in He. by rewrite lookup_empty in He.
Qed.

(** Nothing is lost or reordered: what was configured stays in front. *)
Definition extends (opts opts' : JSONInputs) : Prop :=
  Include opts' = Include opts /\ SendInternalLogs opts' = SendInternalLogs opts /\
  (JournalEnabled opts = true -> JournalEnabled opts' = true) /\
  FilePaths opts `prefix_of` FilePaths opts' /\
  (forall k e, default ∅ (DropFilters opts) !! k = Some e ->
     exists more, default ∅ (DropFilters opts') !! k = Some (e ++ more)).
#[export] Instance extends_preorder : PreOrder extends.
Proof.
  split.
  - intros opts. split_and!; try done. intros k e ->. exists []. by rewrite app_nil_r.
  - intros a b c (A1 & A2 & A3 & A4 & A5) (B1 & B2 & B3 & B4 & B5).
    split_and!; [congruence|congruence|auto|by etrans|].
    intros k e (m & Hm)%A5. destruct (B5 _ _ Hm) as (m' & Hm'). exists (m ++ m'). by rewrite app_assoc.
Qed.
Lemma merged_extends newCfg opts : extends opts (merged newCfg opts).
Proof.
  split_and!; [done|done| |apply addPaths_prefix|].
  - cbn. intros ->. apply orb_true_r.
  - intros k e He. rewrite merged_filters, mergedMap_lookup, He.
    destruct (default ∅ (DropFilters newCfg) !! k) as [n|]; [|exists []; by rewrite app_nil_r].
    by exists (unseen (map text e) n).
Qed.

(** ** Loading *)

Context (stat : gostring -> fileKind) (readDir : gostring -> option (list (gostring * bool)))
  (Join : gostring -> gostring -> gostring)
  (readInputs : gostring -> res (JSONInputs * list (gostring * list MessageFilter))).
(** The loop over a map meets every entry once. *)
Hypothesis Horder : forall path newCfg order, readInputs path = Ok (newCfg, order) -> loop_order newCfg order.

Definition absorbedFile (path : gostring) (opts : JSONInputs) : Prop :=
  exists newCfg order, readInputs path = Ok (newCfg, order) /\ Include newCfg = [] /\ absorbed newCfg opts.

Lemma mergeFile_Ok path opts opts' :
  mergeFile marshal readInputs path opts = Ok opts' ->
  exists newCfg order, readInputs path = Ok (newCfg, order) /\ Include newCfg = [] /\ opts' = merged newCfg opts.
Proof.
  intros ([newCfg order] & Hr & H)%bind_Ok. exists newCfg, order. split; [done|].
  assert (Include newCfg = []) as Hi.
  { unfold mergeConfigInputs in H. by case_bool_decide. }
  split; [done|]. rewrite mergeConfigInputs_merged in H by eauto. by injection H.
Qed.
Lemma mergeFile_absorbed path opts : absorbedFile path opts -> mergeFile marshal readInputs path opts = Ok opts.
Proof.
  intros (newCfg & order & Hr & Hi & Ha). unfold mergeFile. rewrite Hr. cbn.
  rewrite mergeConfigInputs_merged by eauto. by rewrite absorbed_stable.
Qed.
Lemma absorbedFile_merged path newCfg opts : absorbedFile path opts -> absorbedFile path (merged newCfg opts).
Proof. intros (c & o & Hr & Hi & Ha). exists c, o. split_and!; [done..|]. by apply absorbed_merged. Qed.

(** After the entries of a directory were merged, merging them is a no-op;
    [done] are files merged before. *)
Lemma mergeEntries_stable include entries opts opts' :
  mergeEntries marshal Join readInputs include entries opts = Ok opts' ->
  extends opts opts' /\
  (forall path, absorbedFile path opts -> absorbedFile path opts') /\
  mergeEntries marshal Join readInputs include entries opts' = Ok opts'.
Proof.
  revert opts. induction entries as [|[name isDir] entries IH]; intros opts; cbn [mergeEntries].
  { intros [= ->]. done. }
  destruct (_ || _) eqn:E; [by apply IH|].
  intros (mid & Hm%wrap_inv & H)%bind_Ok. destruct (IH _ H) as (I1 & I2 & I3).
  apply mergeFile_Ok in Hm as (newCfg & order & Hr & Hi & ->).
  split_and!.
  - etrans; [apply merged_extends|exact I1].
  - intros path Hp. by apply I2, absorbedFile_merged.
  - rewrite mergeFile_absorbed; [exact I3|]. apply I2. exists newCfg, order.
    split_and!; [done..|apply merged_absorbed].
Qed.

(** Loading included inputs keeps what was configured, in its order, and
    is settled at once: loading the same files again, as a daemon that is
    initialised a second time does, adds nothing. *)
Theorem inputs_settle opts opts' :
  loadInputs marshal stat readDir Join readInputs opts = Ok opts' ->
  extends opts opts' /\ loadInputs marshal stat readDir Join readInputs opts' = Ok opts'.
Proof.
  unfold loadInputs. intros H.
  destruct (bool_decide (Include opts = [])) eqn:E0.
  { injection H as <-. by rewrite E0. }
  destruct (stat (Include opts)) eqn:Es; try done.
  - injection H as <-. rewrite E0, Es. done.
  - destruct (hidden _) eqn:Eh; [done|]. destruct (negb _) eqn:Ej; [done|].
    apply wrap_inv, mergeFile_Ok in H as (newCfg & order & Hr & Hi & ->).
    pose proof (merged_extends newCfg opts) as Hx. split; [exact Hx|].
    destruct Hx as (-> & _). rewrite E0, Es, Eh, Ej.
    rewrite mergeFile_absorbed; [done|]. exists newCfg, order.
    split_and!; [done..|apply merged_absorbed].
  - destruct (readDir _) as [entries|] eqn:Er; [|done].
    apply mergeEntries_stable in H as (Hx & _ & H). split; [exact Hx|].
    destruct Hx as (-> & _). by rewrite E0, Es, Er.
Qed.
End merging.

Definition exampleFilter (useAnd : bool) : MessageFilter := mkMessageFilter None None None useAnd.
Definition exampleMarshal (f : MessageFilter) : option gostring :=
  Some (if fUseAnd f then str "and" else str "or").
Definition exampleInclude : SenderDaemon.JSONInputs :=
  SenderDaemon.mkInputs [] (Some {[ str "journal" := [exampleFilter true; exampleFilter false] ]})
    [str "/var/log/auth.log"; str "/var/log/syslog"] false true.
Definition exampleRead (path : gostring)
  : res (SenderDaemon.JSONInputs * list (gostring * list MessageFilter)) :=
  if bool_decide (path = str "/etc/inputs/a.json")
  then Ok (exampleInclude, map_to_list (default ∅ (SenderDaemon.DropFilters exampleInclude)))
  else Err EMsg.
Definition exampleMain : SenderDaemon.JSONInputs :=
  SenderDaemon.mkInputs (str "/etc/inputs") (Some {[ str "journal" := [exampleFilter true] ]})
    [str "/var/log/syslog"] true false.
Definition exampleLoad : SenderDaemon.JSONInputs -> res SenderDaemon.JSONInputs :=
  SenderDaemon.loadInputs exampleMarshal (fun _ => SenderDaemon.Directory)
    (fun _ => Some [(str "b.txt", false); (str "a.json", false); (str ".a.json", false)])
    (fun dir name => dir ++ str "/" ++ name) exampleRead.

Lemma read_order c newCfg order :
  Ok (c, map_to_list (default ∅ (SenderDaemon.DropFilters c))) = Ok (newCfg, order) -> loop_order newCfg order.
Proof. intros H. injection H as <- <-. unfold loop_order. reflexivity. Qed.

(** Only what is new comes along; the flag for the program's own logs stays as
    the main file has it. *)
Lemma inputs_settle_witness :
  exampleLoad exampleMain =
    Ok (SenderDaemon.mkInputs (str "/etc/inputs")
          (Some {[ str "journal" := [exampleFilter true; exampleFilter false] ]})
          [str "/var/log/syslog"; str "/var/log/auth.log"] true false) /\
  (exists opts', exampleLoad exampleMain = Ok opts' /\ exampleLoad opts' = Ok opts').
Proof.
  assert (exampleLoad exampleMain =
    Ok (SenderDaemon.mkInputs (str "/etc/inputs")
          (Some {[ str "journal" := [exampleFilter true; exampleFilter false] ]})
          [str "/var/log/syslog"; str "/var/log/auth.log"] true false)) as H by (vm_compute; reflexivity).
  split; [exact H|]. eexists. split; [exact H|].
  eapply (inputs_settle exampleMarshal); [by eexists| |exact H].
  intros path newCfg order. unfold exampleRead. case_bool_decide; [apply read_order|discriminate].
Defined.

(* ------------------------------------------------------------------ *)
(** * The destination of the sender                                     *)
(* ------------------------------------------------------------------ *)

(** An address that carries its port is not sent to on that port. The
    parser takes the port of the text when none is given beside it, but the
    daemon has set its default port by then. *)
Theorem embedded_port_ignored `{!Prims} random resolve cpus opts host p :
  openBracket ∉ host -> closeBracket ∉ host -> 0 <= p <= 65535 ->
  let address := JoinHostPort host (FormatInt p) in
  SenderDaemon.Address (SenderDaemon.Network opts) = address ->
  SenderDaemon.NetworkPort (SenderDaemon.Network opts) = 0 ->
  let o := SenderDaemon.Network (SenderDaemon.setDefaults cpus opts) in
  ParseUDPAddress random resolve (SenderDaemon.Address o) (SenderDaemon.NetworkPort o) =
  match resolve (JoinHostPort host (str "8514")) with Some socket => Ok socket | None => Err (EWrap EMsg) end.
Proof.
  intros Ho Hb Hp address Ha Hn o. assert (SenderDaemon.NetworkPort o = 8514) as ->.
  { unfold o. cbn. by rewrite Hn. }
  assert (SenderDaemon.Address o = address) as -> by exact Ha.
  unfold ParseUDPAddress. rewrite bool_decide_eq_false_2.
  2:{ unfold address, JoinHostPort. by case_match; destruct host. }
  unfold address. rewrite splitAddress_joined by done. reflexivity.
Qed.

Definition exampleResolve (address : gostring) : option UDPAddr :=
  if bool_decide (address = str "192.0.2.1:8514") then Some exampleSocket
  else if bool_decide (address = str "192.0.2.1:9000") then
    Some (mkUDPAddr (IP exampleSocket) 9000)
  else None.
Definition exampleAddressOptions : SenderDaemon.JSONOptions :=
  SenderDaemon.mkOptions (str "key") [] (mkCrypto [] []) []
    (SenderDaemon.mkNetwork [] 0 (str "192.0.2.1:9000") 0 0) exampleInputs
    (mkMetricsOptions (15 * Second) 0 false 0)
    (SenderDaemon.mkScaling false 0 0 0 0 0 0 0 0 0) (SenderDaemon.mkThrottling false 0 0).
Lemma embedded_port_ignored_witness :
  ParseUDPAddress (Ok 50000) exampleResolve (str "192.0.2.1:9000") 0 =
    Ok (mkUDPAddr (IP exampleSocket) 9000) /\
  ParseUDPAddress (Ok 50000) exampleResolve (str "192.0.2.1:9000")
    (SenderDaemon.NetworkPort (SenderDaemon.Network (SenderDaemon.setDefaults 4 exampleAddressOptions))) =
    Ok exampleSocket.
Proof.
  split; [vm_compute; reflexivity|].
  exact (embedded_port_ignored (Ok 50000) exampleResolve 4 exampleAddressOptions (str "192.0.2.1") 9000
    ltac:(apply hasByte_false; reflexivity) ltac:(apply hasByte_false; reflexivity)
    ltac:(lia) eq_refl eq_refl).
Defined.

Lemma TrimDurationPrecision_spec_witness :
  TrimDurationPrecision (str "12.345678ms") 2 = str "12.34ms".
Proof.
  exact (TrimDurationPrecision_spec (str "12") (str "345678") (str "ms") 2
    ltac:(apply hasByte_false; reflexivity) eq_refl
    ltac:(intros c Hc; injection Hc as <-; reflexivity) ltac:(lia)).
Defined.
