(* ===== verification/Keys.v ===== *)
(** Where both daemons get their keys and how they change them while running:
    [Init] and [ReloadSigningKeys] of [sender/{new,config}.go] and
    [receiver/{new,config}.go], the commands that edit key files
    ([receiver/signingkeys.go], [sender/signingkey.go]), and the signal that
    tells a running daemon ([lifecycle/pinnedkeys.go]). Files are what reading
    them gives; what their JSON says is an argument. *)
From S2P Require Import Prelude State Text Registry ToyCrypto Wrappers Context Consts NetAddr GoStrings.
From S2P Require Import Filtering Base64 Network Config.

(* ------------------------------------------------------------------ *)
(** * Files                                                             *)
(* ------------------------------------------------------------------ *)

(** [os.ReadFile] *)
Inductive fileRead :=
  | Contents (data : bytes)
  | NotExist
  | ReadFails.

(* ------------------------------------------------------------------ *)
(** * Keys in files                                                     *)
(* ------------------------------------------------------------------ *)

(** Both decoders of a key: what was decoded is there even with an error. *)
Definition decodeKey (encoded : gostring) : bytes * res unit :=
  let '(key, ok) := DecodeString encoded in (key, if ok then Ok tt else Err (EWrap EMsg)).

(** [loadSigningKey] *)
Definition loadSigningKey (file : fileRead) : bytes * res unit :=
  match file with
  | Contents encoded => decodeKey (TrimSpace (TrimNewlines encoded))
  | _ => ([], Err (EWrap EMsg))
  end.
(** [LoadKey] of the receiver; the sender's [LoadPubKey] is [decodeKey]. *)
Definition LoadKey (file : fileRead) : bytes * res unit :=
  match file with
  | Contents encoded => decodeKey encoded
  | _ => ([], Err (EWrap EMsg))
  end.

(** A map of encoded keys: [None] when one does not decode. *)
Definition decodeKeys (texts : gmap gostring gostring) : option (gmap gostring bytes) :=
  if bool_decide (map_Forall (fun _ text => (DecodeString text).2 = true) texts)
  then Some ((fun text => (DecodeString text).1) <$> texts) else None.

(* ------------------------------------------------------------------ *)
(** * The sender                                                        *)
(* ------------------------------------------------------------------ *)

Module Sender.
Import SenderDaemon.

(** [env] are the process-wide functions of [internal/crypto/wrappers]. *)
Record Daemon := mkDaemon {
  configPath : gostring;
  opts : JSONOptions;
  cfg : RunConfig;
  env : CryptoEnv;
  initSuccess : bool
}.
Definition setConfigPath (p : gostring) (d : Daemon) : Daemon :=
  mkDaemon p (opts d) (cfg d) (env d) (initSuccess d).
Definition setOpts (o : JSONOptions) (d : Daemon) : Daemon :=
  mkDaemon (configPath d) o (cfg d) (env d) (initSuccess d).
Definition setCfg (c : RunConfig) (d : Daemon) : Daemon :=
  mkDaemon (configPath d) (opts d) c (env d) (initSuccess d).
Definition setEnv (e : CryptoEnv) (d : Daemon) : Daemon :=
  mkDaemon (configPath d) (opts d) (cfg d) e (initSuccess d).
Definition setInit (b : bool) (d : Daemon) : Daemon :=
  mkDaemon (configPath d) (opts d) (cfg d) (env d) b.
Definition setKey (key : bytes) (d : Daemon) : Daemon :=
  setCfg (mkRunConfig key (sourceSocket (cfg d)) (destSocket (cfg d))) d.
Definition setDest (socket : UDPAddr) (d : Daemon) : Daemon :=
  setCfg (mkRunConfig (signingPrivateKey (cfg d)) (sourceSocket (cfg d)) (Some socket)) d.
Definition setSource (socket : UDPAddr) (d : Daemon) : Daemon :=
  setCfg (mkRunConfig (signingPrivateKey (cfg d)) (Some socket) (destSocket (cfg d))) d.

Section sender.
Context `{!Prims}.
(** [json.Unmarshal] into the options that are there: the options afterwards,
    and whether there was no error. *)
Context (read : gostring -> fileRead) (unmarshal : bytes -> JSONOptions -> JSONOptions * bool).

Definition LoadConfig (path : gostring) : st Daemon unit :=
  match read path with
  | Contents data =>
      _ ← modify (setConfigPath path);
      d ← get;
      let '(o, ok) := unmarshal data (opts d) in
      _ ← modify (setOpts o);
      lift (if ok then Ok tt else Err (EWrap EMsg))
  | _ => lift (Err (EWrap EMsg))
  end.

(** The signing function for a key; the name of its suite is the options'. *)
Definition setupSigning (key : bytes) : st Daemon unit :=
  if len key <=? 0 then mret tt
  else
    d ← get;
    match SignatureNameToID (SignatureSuite (Crypto (opts d))) with
    | None => lift (Err EMsg)
    | Some signatureSuiteID =>
        match GetSignatureInfo signatureSuiteID with
        | None => lift (Err EMsg)
        | Some info =>
            _ ← lift (sigValidateKey info key);
            modify (fun d => setEnv (SetupCreateSignature (env d) key) d)
        end
    end.

(** Reading the signing key into the daemon: what was decoded is stored
    before the error is looked at. *)
Definition readSigningKey (path : gostring) : st Daemon unit :=
  let '(key, result) := loadSigningKey (read path) in
  _ ← modify (setKey key);
  lift result.

Context (cpus : Z) (loadInputs : JSONInputs -> res JSONInputs).
Context (parse : gostring -> Z -> res UDPAddr) (localFor : option Addr -> res UDPAddr).

(** [Init]. When loading inputs fails, what was merged before is not
    represented: the process ends. *)
Definition Init (serverPub : bytes) : st Daemon unit :=
  d ← get;
  let path := SigningKeyFile (opts d) in
  _ ← (if bool_decide (path = []) then mret tt else readSigningKey path);
  inputs ← lift (wrap (loadInputs (Inputs (opts d))));
  _ ← modify (fun d => setOpts (setInputs (opts d) inputs) d);
  _ ← lift (wrap (VerifyWholeDuration (Interval (MetricOptions (opts d)))));
  _ ← modify (fun d => setOpts (setDefaults cpus (opts d)) d);
  _ ← modify (fun d => setEnv (SetupEncryptInnerPayload (env d) serverPub) d);
  d ← get;
  if bool_decide (SigningKeyFile (opts d) = []) &&
     negb (bool_decide (SignatureSuite (Crypto (opts d)) = NoSigName))
  then lift (Err EMsg)
  else
    _ ← setupSigning (signingPrivateKey (cfg d));
    dest ← lift (wrap (parse (Address (Network (opts d))) (NetworkPort (Network (opts d)))));
    _ ← modify (setDest dest);
    source ← lift (wrap
      (if bool_decide (SourceAddress (Network (opts d)) = []) then localFor (IP dest)
       else parse (SourceAddress (Network (opts d))) (SourcePort (Network (opts d)))));
    _ ← modify (setSource source);
    modify (setInit true).

(** [ReloadSigningKeys]; the result counts the modifications. *)
Definition ReloadSigningKeys : st Daemon Z :=
  d ← get;
  let oldCfg := opts d in
  _ ← LoadConfig (configPath d);
  d ← get;
  let newCfg := opts d in
  _ ← modify (setOpts oldCfg);
  if bool_decide (SigningKeyFile newCfg = []) then mret 0
  else
    _ ← readSigningKey (SigningKeyFile newCfg);
    d ← get;
    _ ← setupSigning (signingPrivateKey (cfg d));
    mret 1.
End sender.
End Sender.

(* ------------------------------------------------------------------ *)
(** * The receiver                                                      *)
(* ------------------------------------------------------------------ *)

Module Receiver.
Import ReceiverDaemon.

Record Daemon := mkDaemon {
  configPath : gostring;
  opts : JSONOptions;
  PinnedSigningKeys : gmap gostring bytes;
  sourceSocket : option UDPAddr;
  env : CryptoEnv;
  initSuccess : bool
}.
Definition setConfigPath (p : gostring) (d : Daemon) : Daemon :=
  mkDaemon p (opts d) (PinnedSigningKeys d) (sourceSocket d) (env d) (initSuccess d).
Definition setOpts (o : JSONOptions) (d : Daemon) : Daemon :=
  mkDaemon (configPath d) o (PinnedSigningKeys d) (sourceSocket d) (env d) (initSuccess d).
Definition setPinned (keys : gmap gostring bytes) (d : Daemon) : Daemon :=
  mkDaemon (configPath d) (opts d) keys (sourceSocket d) (env d) (initSuccess d).
Definition setSource (socket : UDPAddr) (d : Daemon) : Daemon :=
  mkDaemon (configPath d) (opts d) (PinnedSigningKeys d) (Some socket) (env d) (initSuccess d).
Definition setEnv (e : CryptoEnv) (d : Daemon) : Daemon :=
  mkDaemon (configPath d) (opts d) (PinnedSigningKeys d) (sourceSocket d) e (initSuccess d).
Definition setInit (b : bool) (d : Daemon) : Daemon :=
  mkDaemon (configPath d) (opts d) (PinnedSigningKeys d) (sourceSocket d) (env d) b.

Section receiver.
Context `{!Prims}.
(** [parseKeys]: the JSON object of a key file as texts; [null] is an object
    without members here. *)
Context (read : gostring -> fileRead) (unmarshal : bytes -> JSONOptions -> JSONOptions * bool)
  (parseKeys : bytes -> option (gmap gostring gostring)).

Definition LoadConfig (path : gostring) : st Daemon unit :=
  match read path with
  | Contents data =>
      _ ← modify (setConfigPath path);
      d ← get;
      let '(o, ok) := unmarshal data (opts d) in
      _ ← modify (setOpts o);
      lift (if ok then Ok tt else Err (EWrap EMsg))
  | _ => lift (Err (EWrap EMsg))
  end.

(** The keys of a file, read as base64 text ([Init]) or by the JSON decoder of
    byte slices ([ReloadSigningKeys]). A key written as an array of numbers,
    which only the latter takes, is not represented. *)
Definition keysOfFile (data : bytes) : res (gmap gostring bytes) :=
  match parseKeys data with
  | None => Err (EWrap EMsg)
  | Some texts =>
      match decodeKeys texts with
      | None => Err (EWrap EMsg)
      | Some keys => Ok keys
      end
  end.

(** [info.DerivePublicKey], which the testing suite has left nil. *)
Definition DerivePublicKey (transportSuiteID : Z) (key : bytes) : res bytes :=
  if transportSuiteID =? 1 then DerivePersistentPublicKey key else Panic.

Context (cpus : Z) (parse : gostring -> Z -> res UDPAddr).

Definition loadPinnedKeys : st Daemon unit :=
  d ← get;
  let path := PinnedSigningKeysPath (opts d) in
  if bool_decide (path = []) then modify (setPinned ∅)
  else match read path with
  | Contents data =>
      keys ← lift (keysOfFile data);
      modify (setPinned keys)
  | _ => lift (Err (EWrap EMsg))
  end.

(** The crypto entry points for the server's key. *)
Definition setupServerKey (serverPriv : bytes) : st Daemon unit :=
  d ← get;
  match SuiteNameToID (TransportSuite (Crypto (opts d))) with
  | None => lift (Err EMsg)
  | Some transportSuiteID =>
      match GetSuiteInfo transportSuiteID with
      | None => lift (Err EMsg)
      | Some info =>
          _ ← lift (ValidateKey info serverPriv);
          serverPub ← lift (DerivePublicKey transportSuiteID serverPriv);
          _ ← modify (fun d => setEnv (SetupEncryptInnerPayload (env d) serverPub) d);
          _ ← modify (fun d => setEnv (SetupDecryptInnerPayload (env d) serverPriv) d);
          d ← get;
          e ← lift (wrap (SetupGetSharedSecret (env d) serverPriv));
          modify (setEnv e)
      end
  end.

(** [Init]. When a key does not decode, the keys that were stored before it
    are not represented: the process ends. *)
Definition Init (serverPriv : bytes) : st Daemon unit :=
  d ← get;
  _ ← lift (wrap (VerifyWholeDuration (Interval (MetricOptions (opts d)))));
  _ ← modify (fun d => setOpts (setDefaults cpus (opts d)) d);
  d ← get;
  if bool_decide (PinnedSigningKeysPath (opts d) = []) &&
     negb (bool_decide (SignatureSuite (Crypto (opts d)) = NoSigName))
  then lift (Err EMsg)
  else
    _ ← loadPinnedKeys;
    _ ← setupServerKey serverPriv;
    _ ← modify (fun d => setEnv (SetupVerifySignature (env d) (PinnedSigningKeys d)) d);
    socket ← lift (wrap (parse (Address (opts d)) (NetworkPort (opts d))));
    _ ← modify (setSource socket);
    modify (setInit true).

(** The keys that are new or changed, and those that are gone. *)
Definition diffCount (oldPinnedKeys newPinnedKeys : gmap gostring bytes) : Z :=
  Z.of_nat (size (filter (fun kv => oldPinnedKeys !! kv.1 <> Some kv.2) newPinnedKeys)) +
  Z.of_nat (size (filter (fun kv => newPinnedKeys !! kv.1 = None) oldPinnedKeys)).

Definition ReloadSigningKeys : st Daemon Z :=
  d ← get;
  let oldCfg := opts d in
  _ ← LoadConfig (configPath d);
  d ← get;
  let newCfg := opts d in
  _ ← modify (setOpts oldCfg);
  if bool_decide (PinnedSigningKeysPath newCfg = []) then mret 0
  else match read (PinnedSigningKeysPath newCfg) with
  | ReadFails => lift (Err (EWrap EMsg))
  | NotExist => mret 0
  | Contents data =>
      newPinnedKeys ← lift (keysOfFile data);
      _ ← modify (fun d => setEnv (NewPinnedSenders (env d) newPinnedKeys) d);
      d ← get;
      let count := diffCount (PinnedSigningKeys d) newPinnedKeys in
      _ ← modify (setPinned newPinnedKeys);
      mret count
  end.
End receiver.
End Receiver.

(* ------------------------------------------------------------------ *)
(** * Reloading                                                         *)
(* ------------------------------------------------------------------ *)

(** The hosts whose key is not the same in both maps. *)
Definition differing (old new : gmap gostring bytes) : gset gostring :=
  filter (fun h => old !! h <> new !! h) (dom old ∪ dom new).

Lemma changed_hosts (old new : gmap gostring bytes) h :
  h ∈@{gset gostring} dom (filter (fun kv : gostring * bytes => old !! kv.1 <> Some kv.2) new) <->
  is_Some (new !! h) /\ old !! h <> new !! h.
Proof.
  rewrite elem_of_dom. unfold is_Some. setoid_rewrite map_lookup_filter_Some. cbn. split.
  - intros (v & -> & Hv). by eauto.
  - intros [[v E] Hv]. exists v. by rewrite <- E.
Qed.
Lemma gone_hosts (old new : gmap gostring bytes) h :
  h ∈@{gset gostring} dom (filter (fun kv : gostring * bytes => new !! kv.1 = None) old) <->
  is_Some (old !! h) /\ new !! h = None.
Proof.
  rewrite elem_of_dom. unfold is_Some. setoid_rewrite map_lookup_filter_Some. cbn. split.
  - intros (v & -> & Hv). by eauto.
  - intros [[v E] Hv]. by exists v.
Qed.

Lemma diffCount_differing old new :
  Receiver.diffCount old new = Z.of_nat (size (differing old new)).
Proof.
  unfold Receiver.diffCount. rewrite <- !(size_dom (D := gset gostring)), <- Nat2Z.inj_add, <- size_union.
  - do 2 f_equal. apply leibniz_equiv. intros h.
    rewrite elem_of_union, changed_hosts, gone_hosts. unfold differing.
    rewrite elem_of_filter, elem_of_union, !elem_of_dom.
    destruct (old !! h) as [a|], (new !! h) as [b|]; split.
    + intros [[_ H]|[_ H]]; [by eauto|done].
    + intros [H _]. left. by eauto.
    + intros _. split; [done|by eauto].
    + intros _. right. by eauto.
    + intros [[_ H]|[H _]]; [by eauto|by destruct H].
    + intros [H _]. left. by eauto.
    + intros [[[? H] _]|[[? H] _]]; done.
    + intros [H _]. done.
  - intros h. rewrite changed_hosts, gone_hosts. intros [[? H] _] [_ H']. congruence.
Qed.

Lemma receiver_loaded read unmarshal path d c o ok :
  read path = Contents c -> unmarshal c (Receiver.opts d) = (o, ok) ->
  Receiver.LoadConfig read unmarshal path d =
  (Receiver.setOpts o (Receiver.setConfigPath path d), if ok then Ok tt else Err (EWrap EMsg)).
Proof.
  intros Hr Hu. unfold Receiver.LoadConfig. rewrite Hr. unfold mbind, st_bind, modify, get, lift. cbn.
  by rewrite Hu.
Qed.

(** C17: a reload puts the keys of the file to use, for every host at once,
    counts the hosts whose key was added, changed or removed, and leaves the
    rest of the daemon as it was. *)
Theorem receiver_reload `{!Prims} read unmarshal parseKeys d c o data keys :
  read (Receiver.configPath d) = Contents c ->
  unmarshal c (Receiver.opts d) = (o, true) ->
  ReceiverDaemon.PinnedSigningKeysPath o <> [] ->
  read (ReceiverDaemon.PinnedSigningKeysPath o) = Contents data ->
  Receiver.keysOfFile parseKeys data = Ok keys ->
  exists d',
    Receiver.ReloadSigningKeys read unmarshal parseKeys d =
      (d', Ok (Z.of_nat (size (differing (Receiver.PinnedSigningKeys d) keys)))) /\
    Receiver.PinnedSigningKeys d' = keys /\
    (forall h, LookupPinnedSender (Receiver.env d') h = keys !! h) /\
    Receiver.opts d' = Receiver.opts d /\ Receiver.sourceSocket d' = Receiver.sourceSocket d /\
    encKey (Receiver.env d') = encKey (Receiver.env d) /\
    decKey (Receiver.env d') = decKey (Receiver.env d) /\
    verifyReady (Receiver.env d') = verifyReady (Receiver.env d) /\
    secret (Receiver.env d') = secret (Receiver.env d).
Proof.
  intros Hr Hu Hp Hd Hk. unfold Receiver.ReloadSigningKeys.
  unfold mbind, st_bind, modify, get, lift. rewrite (receiver_loaded _ _ _ _ _ _ _ Hr Hu). cbn -[bool_decide].
  rewrite bool_decide_eq_false_2 by done. rewrite Hd, Hk. rewrite <- diffCount_differing.
  eexists. split; [reflexivity|]. split_and!; try done. intros h. by rewrite LookupPinnedSender_eq.
Qed.

(** Splits a call into its steps, as long as they can be told apart. *)
Ltac steps := unfold mbind, st_bind, mret, st_ret, modify, get, lift in *.

(** A reload that fails leaves every key in use as it was, in both
    daemons: whatever is wrong with the configuration or the key files, the
    signing function of the sender and the pinned keys of the receiver stay. *)
Theorem failed_reload_keeps_keys `{!Prims} :
  (forall read unmarshal d d' e,
     Sender.ReloadSigningKeys read unmarshal d = (d', Err e) -> Sender.env d' = Sender.env d) /\
  (forall read unmarshal parseKeys d d' e,
     Receiver.ReloadSigningKeys read unmarshal parseKeys d = (d', Err e) ->
     Receiver.env d' = Receiver.env d /\ Receiver.PinnedSigningKeys d' = Receiver.PinnedSigningKeys d).
Proof.
  split.
  - intros read unmarshal d d' e. unfold Sender.ReloadSigningKeys, Sender.LoadConfig.
    steps. destruct (read (Sender.configPath d)) as [c| |]; [|by intros [= <- _]..].
    cbn -[bool_decide SignatureNameToID GetSignatureInfo]. destruct (unmarshal c (Sender.opts d)) as [o []]; cbn -[bool_decide SignatureNameToID GetSignatureInfo];
      [|by intros [= <- _]].
    case_bool_decide; [done|]. unfold Sender.readSigningKey, Sender.setupSigning. steps.
    destruct (loadSigningKey _) as [key [| |]]; cbn -[Z.leb SignatureNameToID GetSignatureInfo]; [|by intros [= <- _]..].
    destruct (len key <=? 0); [done|]. cbn -[SignatureNameToID GetSignatureInfo].
    destruct (SignatureNameToID _) as [id|]; [|by intros [= <- _]].
    destruct (GetSignatureInfo id) as [info|]; [|by intros [= <- _]]. cbn [fst snd].
    destruct (sigValidateKey info key); [done|by intros [= <- _]..].
  - intros read unmarshal parseKeys d d' e. unfold Receiver.ReloadSigningKeys, Receiver.LoadConfig.
    steps. destruct (read (Receiver.configPath d)) as [c| |]; [|by intros [= <- _]..].
    cbn -[bool_decide SignatureNameToID GetSignatureInfo]. destruct (unmarshal c (Receiver.opts d)) as [o []]; cbn -[bool_decide SignatureNameToID GetSignatureInfo];
      [|by intros [= <- _]].
    case_bool_decide; [done|].
    destruct (read (ReceiverDaemon.PinnedSigningKeysPath o)) as [data| |]; [|done|by intros [= <- _]].
    destruct (Receiver.keysOfFile parseKeys data); [done|by intros [= <- _]..].
Qed.

(* ------------------------------------------------------------------ *)
(** * Telling a running daemon                                          *)
(* ------------------------------------------------------------------ *)

(** [bufio.ScanLines] with the scanner's limit: a line that does not fit ends
    the scan. *)
Definition carriageReturn : byte := z2b 13.
Definition dropCR (line : gostring) : gostring :=
  if bool_decide (List.last line newline = carriageReturn) then removelast line else line.
Definition rawLines (s : bytes) : list gostring :=
  let l := split newline s in
  if bool_decide (List.last l [] = []) then removelast l else l.
Definition MaxScanTokenSize : Z := 65536.
Fixpoint fitting (lines : list gostring) : list gostring :=
  match lines with
  | line :: lines => if len line <? MaxScanTokenSize then dropCR line :: fitting lines else []
  | [] => []
  end.
Definition scanLines (s : bytes) : list gostring := fitting (rawLines s).

(** The PID field of a line that is about the wanted program. *)
Definition matchLine (programName configPath line : gostring) : option gostring :=
  match Fields line with
  | pid :: prog :: arg :: args =>
      let args := join (str " ") (arg :: args) in
      let prog := TrimNewlines (TrimSpace prog) in
      if negb (bool_decide (prog = programName)) then None
      else if negb (contains (str "--config " ++ configPath) args) &&
              negb (contains (str "-c " ++ configPath) args) then None
      else Some pid
  | _ => None
  end.

(** The loop, with [foundPID]. *)
Fixpoint findProcess (programName configPath : gostring) (lines : list gostring) (foundPID : Z) : res Z :=
  match lines with
  | [] => Ok foundPID
  | line :: lines =>
      match matchLine programName configPath line with
      | None => findProcess programName configPath lines foundPID
      | Some pid =>
          if negb (foundPID =? 0) then Err EMsg
          else match Atoi pid with
          | None => Err (EWrap EMsg)
          | Some n => findProcess programName configPath lines n
          end
      end
  end.

(** [IssueLiveSigningKeyReload]: the process that was signalled, if any.
    [ps] is the output of the process list, [kill] tells whether a signal
    could be sent. *)
Definition IssueLiveSigningKeyReload (ps : option bytes) (kill : Z -> bool)
    (configPath programName : gostring) : res (option Z) :=
  match ps with
  | None => Err (EWrap EMsg)
  | Some out =>
      foundPID ← findProcess (Base programName) configPath (scanLines out) 0;
      if foundPID =? 0 then Ok None
      else if kill foundPID then Ok (Some foundPID) else Err (EWrap EMsg)
  end.

(* ------------------------------------------------------------------ *)
(** * Commands that edit key files                                      *)
(* ------------------------------------------------------------------ *)

Record Disk := mkDisk {
  files : gmap gostring bytes;
  reachable : gostring -> bool;
  readable : gostring -> bool;
  writable : gostring -> bool
}.
(** [os.Stat]: whether the file exists. *)
Definition Stat (disk : Disk) (path : gostring) : res bool :=
  if reachable disk path then Ok (bool_decide (is_Some (files disk !! path))) else Err EMsg.
Definition ReadFile (disk : Disk) (path : gostring) : fileRead :=
  if reachable disk path
  then match files disk !! path with
  | None => NotExist
  | Some data => if readable disk path then Contents data else ReadFails
  end
  else ReadFails.
(** [os.WriteFile] *)
Definition WriteFile (path : gostring) (data : bytes) : st Disk unit := fun disk =>
  if writable disk path
  then (mkDisk (<[path := data]> (files disk)) (reachable disk) (readable disk) (writable disk), Ok tt)
  else (disk, Err (EWrap EMsg)).

Section commands.
(** JSON texts of the receiver's options and of key maps; a key map that is
    [null] has no map ([Some None]). *)
Context (unmarshal : bytes -> option ReceiverDaemon.JSONOptions)
  (marshal : ReceiverDaemon.JSONOptions -> bytes)
  (unmarshalKeys : bytes -> option (option (gmap gostring bytes)))
  (marshalKeys : gmap gostring bytes -> bytes).
(** The certificate at a path, with whether it is an ed25519 one; and telling
    the daemon. *)
Context (certificate : gostring -> res (bytes * bool)) (reload : gostring -> res (option Z)).

Definition pathSeparator : byte := z2b 124.

(** [retrieveKeyBytes] *)
Definition retrieveKeyBytes (disk : Disk) (location : gostring) : res bytes :=
  match DecodeString location with
  | (publicKey, true) => Ok publicKey
  | (_, false) =>
      match Stat disk location with
      | Ok true =>
          match wrap (certificate location) with
          | Ok (publicKey, isEd25519) => if isEd25519 then Ok publicKey else Err EMsg
          | Err e => Err e
          | Panic => Panic
          end
      | _ => Err EMsg
      end
  end.

Definition pinnedPath (opts : ReceiverDaemon.JSONOptions) (path : gostring) : ReceiverDaemon.JSONOptions :=
  ReceiverDaemon.mkOptions (ReceiverDaemon.PrivateKeyFile opts) path (ReceiverDaemon.Crypto opts)
    (ReceiverDaemon.ReplayProtection opts) (ReceiverDaemon.IPCSocketDirectory opts)
    (ReceiverDaemon.Address opts) (ReceiverDaemon.NetworkPort opts) (ReceiverDaemon.Outputs opts)
    (ReceiverDaemon.MetricOptions opts) (ReceiverDaemon.AutoScaling opts).

(** The options of the receiver's configuration file. *)
Definition readOptions (disk : Disk) (confPath : gostring) : res ReceiverDaemon.JSONOptions :=
  match ReadFile disk confPath with
  | Contents data => match unmarshal data with Some opts => Ok opts | None => Err (EWrap EMsg) end
  | _ => Err (EWrap EMsg)
  end.

(** Host name and key location of a request. *)
Definition parseRequest (addRequest : gostring) : res (gostring * gostring) :=
  match split pathSeparator addRequest with
  | [hostname; keyLocation] =>
      if bool_decide (hostname = []) then Err EMsg
      else if bool_decide (keyLocation = []) then Err EMsg
      else Ok (hostname, keyLocation)
  | _ => Err EMsg
  end.

(** [AddPinnedKey]; [defaultKeyFile] is the path beside the configuration,
    [filepath.Join(filepath.Dir(confPath), "pinned-sender-keys.json")]. *)
Definition AddPinnedKey (defaultKeyFile confPath addRequest : gostring) : st Disk (option Z) :=
  disk ← get;
  if bool_decide (addRequest = []) then lift (Err EMsg)
  else if bool_decide (confPath = []) then lift (Err EMsg)
  else
    opts ← lift (readOptions disk confPath);
    '(hostname, keyLocation) ← lift (parseRequest addRequest);
    publicKey ← lift (retrieveKeyBytes disk keyLocation);
    let path := ReceiverDaemon.PinnedSigningKeysPath opts in
    let pinKeyFileMissing :=
      if bool_decide (path = []) then true
      else match Stat disk path with Ok false => true | _ => false end in
    pinnedKeys ← lift
      (if pinKeyFileMissing then Ok {[ hostname := publicKey ]}
       else match ReadFile disk path with
       | Contents data =>
           match unmarshalKeys data with
           | None => Err (EWrap EMsg)
           | Some None => Panic
           | Some (Some pinnedKeys) => Ok (<[hostname := publicKey]> pinnedKeys)
           end
       | _ => Err (EWrap EMsg)
       end);
    let opts := if pinKeyFileMissing then pinnedPath opts defaultKeyFile else opts in
    _ ← WriteFile (ReceiverDaemon.PinnedSigningKeysPath opts) (marshalKeys pinnedKeys);
    _ ← (if pinKeyFileMissing then WriteFile confPath (marshal opts) else mret tt);
    lift (wrap (reload confPath)).

(** [RemovePinnedKey]; nothing to do is no error. *)
Definition RemovePinnedKey (confPath removeHostname : gostring) : st Disk (option Z) :=
  disk ← get;
  if bool_decide (removeHostname = []) then lift (Err EMsg)
  else if bool_decide (confPath = []) then lift (Err EMsg)
  else
    opts ← lift (readOptions disk confPath);
    let path := ReceiverDaemon.PinnedSigningKeysPath opts in
    if bool_decide (path = []) then mret None
    else match ReadFile disk path with
    | ReadFails => lift (Err (EWrap EMsg))
    | NotExist => mret None
    | Contents data =>
        match unmarshalKeys data with
        | None => lift (Err (EWrap EMsg))
        | Some pinnedKeys =>
            match default ∅ pinnedKeys !! removeHostname with
            | None => mret None
            | Some _ =>
                _ ← WriteFile path (marshalKeys (delete removeHostname (default ∅ pinnedKeys)));
                lift (wrap (reload confPath))
            end
        end
    end.
End commands.

(** [WriteNewSigningKey] of the sender; the result tells whether a key was
    written. *)
Definition DefaultSendSigningKey : gostring := str "/etc/sdsyslog/sender-signer.key".

Section signing.
Context (unmarshal : bytes -> option SenderDaemon.JSONOptions)
  (marshal : SenderDaemon.JSONOptions -> bytes) (reload : gostring -> res (option Z)).

Definition signingPath (opts : SenderDaemon.JSONOptions) (path : gostring) : SenderDaemon.JSONOptions :=
  SenderDaemon.mkOptions (SenderDaemon.PublicKey opts) path (SenderDaemon.Crypto opts)
    (SenderDaemon.BaseFile opts) (SenderDaemon.Network opts) (SenderDaemon.Inputs opts)
    (SenderDaemon.MetricOptions opts) (SenderDaemon.AutoScaling opts) (SenderDaemon.Throttling opts).

Definition WriteNewSigningKey (configPath : gostring) (stdin : res bytes) : st Disk bool :=
  disk ← get;
  match ReadFile disk configPath with
  | Contents data =>
      match unmarshal data with
      | None => lift (Err (EWrap EMsg))
      | Some opts =>
          if negb (bool_decide (SenderDaemon.SigningKeyFile opts = [])) then mret false
          else
            keyBytes ← lift stdin;
            newSigningKey ← lift
              (match DecodeString (TrimNewlines (TrimSpace keyBytes)) with
               | (key, true) => Ok key
               | _ => Err (EWrap EMsg)
               end);
            let opts := signingPath opts DefaultSendSigningKey in
            match Stat disk DefaultSendSigningKey with
            | Ok true => mret false
            | Ok false =>
                _ ← WriteFile DefaultSendSigningKey (EncodeToString newSigningKey);
                _ ← WriteFile configPath (marshal opts);
                _ ← lift (wrap (reload configPath));
                mret true
            | _ => lift (Err (EWrap EMsg))
            end
      end
  | _ => lift (Err (EWrap EMsg))
  end.
End signing.

(* ------------------------------------------------------------------ *)
(** * Who is signalled                                                  *)
(* ------------------------------------------------------------------ *)

Lemma findProcess_found programName configPath lines foundPID n :
  foundPID <> 0 -> findProcess programName configPath lines foundPID = Ok n ->
  n = foundPID /\ Forall (fun line => matchLine programName configPath line = None) lines.
Proof.
  intros Hf. induction lines as [|line lines IH]; cbn; [by intros [= ->]|].
  destruct (matchLine _ _ line) as [pid|] eqn:M.
  - by rewrite (proj2 (Z.eqb_neq _ _)).
  - intros [? ?]%IH. by split; [|constructor].
Qed.
Lemma findProcess_only programName configPath lines foundPID n line t self :
  findProcess programName configPath lines foundPID = Ok n ->
  line ∈ lines -> matchLine programName configPath line = Some t -> Atoi t = Some self -> self <> 0 ->
  n = self /\ foundPID = 0.
Proof.
  intros H Hin Hm Ha Hs. revert foundPID H. induction lines as [|l lines IH]; intros foundPID H.
  { by apply elem_of_nil in Hin. }
  cbn in H. apply elem_of_cons in Hin as [<-|Hin].
  - rewrite Hm in H. destruct (foundPID =? 0) eqn:E; cbn [negb] in H; [|done].
    apply Z.eqb_eq in E. rewrite Ha in H. by apply findProcess_found in H as [-> _].
  - destruct (matchLine _ _ l) as [pid|]; [|by apply IH].
    destruct (foundPID =? 0) eqn:E; cbn [negb] in H; [|done]. apply Z.eqb_eq in E.
    destruct (Atoi pid) as [m|]; [|done]. by apply (IH Hin) in H as [-> _].
Qed.
Lemma findProcess_not_Panic programName configPath lines foundPID :
  findProcess programName configPath lines foundPID <> Panic.
Proof.
  revert foundPID. induction lines as [|line lines IH]; intros foundPID; cbn; [done|].
  repeat case_match; try done; by apply IH.
Qed.

(** A command that is run with the path of the configuration on its own
    command line, as the documentation shows it, finds itself in the list of
    processes. It then fails or signals itself; a running daemon is never
    told. *)
Theorem reload_finds_itself out kill configPath programName line t self :
  line ∈ scanLines out -> matchLine (Base programName) configPath line = Some t ->
  Atoi t = Some self -> self <> 0 ->
  (exists e, IssueLiveSigningKeyReload (Some out) kill configPath programName = Err e) \/
  IssueLiveSigningKeyReload (Some out) kill configPath programName = Ok (Some self).
Proof.
  intros Hin Hm Ha Hs. cbn.
  destruct (findProcess _ _ _ 0) as [n|e|] eqn:F.
  - destruct (findProcess_only _ _ _ _ _ _ _ _ F Hin Hm Ha Hs) as [-> _]. cbn.
    rewrite (proj2 (Z.eqb_neq _ _)) by done. destruct (kill self); eauto.
  - left. by exists e.
  - by apply findProcess_not_Panic in F.
Qed.

Definition confPath : gostring := str "/etc/sdsyslog/sdsyslog.json".
Definition daemonLine : gostring :=
  str "   1643 sdsyslog        /usr/local/bin/sdsyslog receive --config /etc/sdsyslog/sdsyslog.json".
(** The command of the documentation. *)
Definition commandLine : gostring :=
  str "   2001 sdsyslog        sdsyslog receive --config /etc/sdsyslog/sdsyslog.json --trust-sender web|a2V5".
Definition exampleList (lines : list gostring) : bytes :=
  join [newline] (str "    PID COMMAND         COMMAND" :: lines) ++ [newline].

(** Without the command itself the daemon would be found. *)
Lemma reload_finds_itself_witness :
  IssueLiveSigningKeyReload (Some (exampleList [daemonLine])) (fun _ => true) confPath
    (str "/usr/local/bin/sdsyslog") = Ok (Some 1643) /\
  IssueLiveSigningKeyReload (Some (exampleList [daemonLine; commandLine])) (fun _ => true) confPath
    (str "sdsyslog") = Err EMsg /\
  IssueLiveSigningKeyReload (Some (exampleList [commandLine])) (fun _ => true) confPath
    (str "sdsyslog") = Ok (Some 2001).
Proof.
  split; [vm_compute; reflexivity|]. split; [vm_compute; reflexivity|].
  destruct (reload_finds_itself (exampleList [commandLine]) (fun _ => true) confPath (str "sdsyslog")
    commandLine (str "2001") 2001) as [[e He]|H]; [|vm_compute; reflexivity..|lia| |exact H].
  - apply (bool_decide_unpack _). vm_compute. exact I.
  - vm_compute in He. discriminate He.
Defined.

(* ------------------------------------------------------------------ *)
(** * Starting again                                                    *)
(* ------------------------------------------------------------------ *)

(** A receiver cannot be initialised again without its private key: the
    restart after a failed update, which passes none, always fails. *)
Theorem receiver_needs_key `{!Prims} read parseKeys cpus parse d :
  (Receiver.Init read parseKeys cpus parse [] d).2 <> Ok tt.
Proof.
  unfold Receiver.Init. steps. destruct (wrap (VerifyWholeDuration _)); [|done..].
  cbn -[bool_decide SuiteNameToID GetSuiteInfo ReceiverDaemon.setDefaults].
  set (d0 := Receiver.setOpts _ d). destruct (_ && _); [done|].
  assert (forall d, (Receiver.setupServerKey [] d).2 <> Ok tt) as Hs.
  { clear. intros d. unfold Receiver.setupServerKey. steps.
    destruct (SuiteNameToID _) as [id|]; [|done]. destruct (GetSuiteInfo id) as [info|] eqn:E; [|done].
    apply GetSuiteInfo_Some in E as [[-> ->]|[-> ->]]; done. }
  destruct (Receiver.loadPinnedKeys read parseKeys d0) as [d1 [| |]]; [|done..].
  specialize (Hs d1). destruct (Receiver.setupServerKey [] d1) as [d2 [[]| |]]; [|done..].
  by destruct Hs.
Qed.

(** Verifying an interval that was verified and is not zero is settled by the
    defaults. *)
Lemma verified_interval d port opts :
  VerifyWholeDuration (Interval opts) = Ok tt ->
  VerifyWholeDuration (Interval (defaultMetrics opts port)) = Ok d.
Proof.
  intros H. destruct d. cbn. pose proof (proj1 (VerifyWholeDuration_Ok _) H) as [? _].
  by rewrite orDefault_keep by lia.
Qed.

(** The key is empty, or one that the named suite takes. *)
Definition signing_ok `{!Prims} (key : bytes) (suite : gostring) : Prop :=
  len key <= 0 \/
  exists id info, SignatureNameToID suite = Some id /\ GetSignatureInfo id = Some info /\
    sigValidateKey info key = Ok tt.

Lemma setupSigning_Ok `{!Prims} key d d' :
  Sender.setupSigning key d = (d', Ok tt) <->
  signing_ok key (SignatureSuite (SenderDaemon.Crypto (Sender.opts d))) /\
  d' = Sender.setEnv (SetupCreateSignature (Sender.env d) key) d.
Proof.
  unfold Sender.setupSigning, signing_ok. destruct (Z.leb_spec (len key) 0) as [Hk|Hk].
  - assert (SetupCreateSignature (Sender.env d) key = Sender.env d) as ->
      by (unfold SetupCreateSignature; by rewrite (proj2 (Z.leb_le _ _))).
    assert (Sender.setEnv (Sender.env d) d = d) as -> by by destruct d.
    split; [intros [= <-]; by split; [left|]|by intros [_ ->]].
  - steps. destruct (SignatureNameToID _) as [id|] eqn:E1.
    2:{ split; [done|]. by intros [[|(? & ? & ? & _)] _]; [lia|]. }
    destruct (GetSignatureInfo id) as [info|] eqn:E2.
    2:{ split; [done|]. intros [[|(? & ? & ? & ? & _)] _]; [lia|congruence]. }
    destruct (sigValidateKey info key) as [[]| |] eqn:E3; split.
    + intros [= <-]. split; [|done]. right. by exists id, info.
    + by intros [_ ->].
    + done.
    + intros [[|(? & ? & ? & ? & ?)] _]; [lia|congruence].
    + done.
    + intros [[|(? & ? & ? & ? & ?)] _]; [lia|congruence].
Qed.

Section reinit.
Context `{!Prims} (read : gostring -> fileRead) (cpus : Z)
  (loadInputs : SenderDaemon.JSONInputs -> res SenderDaemon.JSONInputs)
  (parse : gostring -> Z -> res UDPAddr) (localFor : option Addr -> res UDPAddr).

(** The signing key of a start: the file's, or the one that is there. *)
Definition key_from (d : Sender.Daemon) (key : bytes) : Prop :=
  let path := SenderDaemon.SigningKeyFile (Sender.opts d) in
  if bool_decide (path = []) then key = SenderDaemon.signingPrivateKey (Sender.cfg d)
  else loadSigningKey (read path) = (key, Ok tt).
(** Where the packets come from. *)
Definition source_from (o : SenderDaemon.NetworkOptions) (dest : UDPAddr) : res UDPAddr :=
  if bool_decide (SenderDaemon.SourceAddress o = []) then localFor (IP dest)
  else parse (SenderDaemon.SourceAddress o) (SenderDaemon.SourcePort o).

Lemma key_step d d1 :
  (if bool_decide (SenderDaemon.SigningKeyFile (Sender.opts d) = []) then mret tt
   else Sender.readSigningKey read (SenderDaemon.SigningKeyFile (Sender.opts d))) d = (d1, Ok tt) <->
  exists key, key_from d key /\ d1 = Sender.setKey key d.
Proof.
  unfold key_from. destruct (bool_decide _).
  - split.
    + intros [= <-]. eexists. split; [done|]. by destruct d as [? ? [] ? ?].
    + intros (key & -> & ->). by destruct d as [? ? [] ? ?].
  - unfold Sender.readSigningKey. destruct (loadSigningKey _) as [key result]. steps. split.
    + intros [= <- ->]. by exists key.
    + by intros (k & [= -> ->] & ->).
Qed.

(** All that [Init] does when it succeeds. *)
Lemma Init_Ok pub d d' :
  Sender.Init read cpus loadInputs parse localFor pub d = (d', Ok tt) <->
  exists key inputs dest source,
    let o := SenderDaemon.setDefaults cpus (SenderDaemon.setInputs (Sender.opts d) inputs) in
    key_from d key /\ loadInputs (SenderDaemon.Inputs (Sender.opts d)) = Ok inputs /\
    VerifyWholeDuration (Interval (SenderDaemon.MetricOptions (Sender.opts d))) = Ok tt /\
    (SenderDaemon.SigningKeyFile (Sender.opts d) = [] -> SignatureSuite (SenderDaemon.Crypto o) = NoSigName) /\
    signing_ok key (SignatureSuite (SenderDaemon.Crypto o)) /\
    parse (SenderDaemon.Address (SenderDaemon.Network o)) (SenderDaemon.NetworkPort (SenderDaemon.Network o)) = Ok dest /\
    source_from (SenderDaemon.Network o) dest = Ok source /\
    d' = Sender.mkDaemon (Sender.configPath d) o (SenderDaemon.mkRunConfig key (Some source) (Some dest))
           (SetupCreateSignature (SetupEncryptInnerPayload (Sender.env d) pub) key) true.
Proof.
  split.
  - unfold Sender.Init. intros R. apply st_bind_inv in R as (t & a & E & R). injection E as <- <-.
    apply st_bind_inv in R as (d1 & [] & E & R). apply key_step in E as (key & Hk & ->).
    apply st_bind_inv in R as (d2 & inputs & E & R). injection E as <- Hi%wrap_inv.
    apply st_bind_inv in R as (d3 & [] & E & R). injection E as <-.
    apply st_bind_inv in R as (d4 & [] & E & R). injection E as <- Hv%wrap_inv.
    apply st_bind_inv in R as (d5 & [] & E & R). injection E as <-.
    apply st_bind_inv in R as (d6 & [] & E & R). injection E as <-.
    apply st_bind_inv in R as (d7 & d7' & E & R). injection E as <- <-.
    destruct (_ && _) eqn:Hs; [done|].
    apply st_bind_inv in R as (d8 & [] & E & R). apply setupSigning_Ok in E as (Hsig & ->).
    apply st_bind_inv in R as (d9 & dest & E & R). injection E as <- Hdest%wrap_inv.
    apply st_bind_inv in R as (d10 & [] & E & R). injection E as <-.
    apply st_bind_inv in R as (d11 & source & E & R). injection E as <- Hsrc%wrap_inv.
    apply st_bind_inv in R as (d12 & [] & E & R). injection E as <-. injection R as <-.
    exists key, inputs, dest, source. cbv zeta. split_and!; try done.
    intros Hp. apply andb_false_iff in Hs as [Hs|Hs].
    + by apply bool_decide_eq_false in Hs.
    + apply negb_false_iff in Hs. by apply bool_decide_eq_true in Hs.
  - intros (key & inputs & dest & source & Hk & Hi & Hv & Hs & Hsig & Hdest & Hsrc & ->).
    unfold Sender.Init. rewrite st_bind_eq. cbn [get]. rewrite st_bind_eq.
    rewrite (proj2 (key_step d (Sender.setKey key d))) by eauto.
    rewrite st_bind_eq. unfold lift at 1. rewrite Hi. cbn [wrap].
    rewrite st_bind_eq. cbn [modify]. rewrite st_bind_eq. unfold lift at 1. rewrite Hv. cbn [wrap].
    rewrite st_bind_eq. cbn [modify]. rewrite st_bind_eq. cbn [modify]. rewrite st_bind_eq. cbn [get].
    set (o := SenderDaemon.setDefaults cpus (SenderDaemon.setInputs (Sender.opts d) inputs)) in *.
    set (D := Sender.setEnv _ _). change (Sender.opts D) with o.
    assert (bool_decide (SenderDaemon.SigningKeyFile o = []) &&
      negb (bool_decide (SignatureSuite (SenderDaemon.Crypto o) = NoSigName)) = false) as ->.
    { case_bool_decide as Hp; [|done]. rewrite bool_decide_eq_true_2; [done|]. by apply Hs. }
    rewrite st_bind_eq. change (SenderDaemon.signingPrivateKey (Sender.cfg D)) with key.
    rewrite (proj2 (setupSigning_Ok key D _) (conj Hsig eq_refl)).
    rewrite st_bind_eq. unfold lift at 1. rewrite Hdest. cbn [wrap].
    rewrite st_bind_eq. cbn [modify]. rewrite st_bind_eq. unfold lift at 1.
    fold (source_from (SenderDaemon.Network o) dest). rewrite Hsrc. cbn [wrap].
    rewrite st_bind_eq. reflexivity.
Qed.

(** A sender that was started can be initialised again without its key:
    nothing about it changes, its options, keys and addresses are the same. *)
Theorem sender_reinit pub d d' :
  1 <= cpus ->
  (forall i i', loadInputs i = Ok i' -> loadInputs i' = Ok i') ->
  Sender.Init read cpus loadInputs parse localFor pub d = (d', Ok tt) ->
  Sender.Init read cpus loadInputs parse localFor [] d' = (d', Ok tt).
Proof.
  intros Hc Hl R. apply Init_Ok in R as (key & inputs & dest & source & R). cbv zeta in R.
  set (o := SenderDaemon.setDefaults cpus (SenderDaemon.setInputs (Sender.opts d) inputs)) in R.
  destruct R as (Hk & Hi & Hv & Hs & Hsig & Hdest & Hsrc & ->).
  assert (SenderDaemon.setInputs o inputs = o) as Ho by reflexivity.
  assert (SenderDaemon.setDefaults cpus o = o) as Hd by (by apply sender_defaults_idem).
  apply Init_Ok. exists key, inputs, dest, source. cbn [Sender.opts Sender.env Sender.configPath].
  change (SenderDaemon.Inputs o) with inputs. rewrite Ho, Hd.
  split_and!; try done.
  - unfold key_from in *. cbn [Sender.opts Sender.cfg]. change (SenderDaemon.SigningKeyFile o) with
      (SenderDaemon.SigningKeyFile (Sender.opts d)). by destruct (bool_decide _).
  - by eapply Hl.
  - by apply verified_interval.
  - f_equal. unfold SetupEncryptInnerPayload at 2. cbn [len length Z.of_nat Z.leb].
    unfold SetupCreateSignature. by destruct (len key <=? 0).
Qed.
End reinit.

(** With an empty key file a sender starts, and then no message of it can be
    signed: the suite of its options is a real one, the signing function is
    still the one that fails. *)
Theorem empty_signing_key `{!Prims} read cpus loadInputs parse localFor pub d d' :
  SenderDaemon.SigningKeyFile (Sender.opts d) <> [] ->
  read (SenderDaemon.SigningKeyFile (Sender.opts d)) = Contents [] ->
  sigKey (Sender.env d) = None ->
  Sender.Init read cpus loadInputs parse localFor pub d = (d', Ok tt) ->
  Sender.initSuccess d' = true /\
  forall data id, CreateSignature (Sender.env d') data id = Err EMsg.
Proof.
  intros Hp Hr Hk R. apply Init_Ok in R as (key & inputs & dest & source & R). cbv zeta in R.
  destruct R as (Hkey & _ & _ & _ & _ & _ & _ & ->). unfold key_from in Hkey.
  rewrite bool_decide_eq_false_2, Hr in Hkey by done. injection Hkey as <-.
  split; [done|]. intros data id. cbn [Sender.env].
  change (SetupCreateSignature (SetupEncryptInnerPayload (Sender.env d) pub) [])
    with (SetupEncryptInnerPayload (Sender.env d) pub).
  assert (sigKey (SetupEncryptInnerPayload (Sender.env d) pub) = None) as E
    by (unfold SetupEncryptInnerPayload; by destruct (len pub <=? 0)).
  unfold CreateSignature. by rewrite E.
Qed.

Lemma empty_signing_key_reads : loadSigningKey (Contents []) = ([], Ok tt).
Proof. reflexivity. Qed.

(* ------------------------------------------------------------------ *)
(** * Key files                                                         *)
(* ------------------------------------------------------------------ *)

Lemma encoded_chars l : Forall (fun c => c ∈ padChar :: alphabet) (EncodeToString l).
Proof.
  assert (forall v, encodeSextet v ∈ padChar :: alphabet) as He.
  { intros v. unfold encodeSextet. destruct (nth_in_or_default (Z.to_nat v) alphabet padChar) as [H| ->].
    - right. by apply list_elem_of_In.
    - left. }
  induction l as [|a|a b|a b c l IH] using triples_ind; cbn [EncodeToString]; cbv zeta;
    repeat first [apply Forall_nil_2 | exact IH | apply Forall_cons_2; [first [apply He | left]|]].
Qed.

Lemma trim_none cut s :
  Forall (fun c => startsNone cut c = true /\ startsNone (map reverse cut) c = true) s ->
  trimRight cut (trimLeft cut s) = s.
Proof.
  intros Hs. assert (trimLeft cut s = s) as ->.
  { destruct Hs as [|c s [Hc _]]; [done|]. by apply trimLeft_id. }
  unfold trimRight. destruct (reverse s) as [|c r] eqn:E.
  - rewrite <- (reverse_involutive s), E. by rewrite trimLeft_nil.
  - rewrite trimLeft_id; [by rewrite <- E, reverse_involutive|].
    rewrite Forall_forall in Hs. apply (Hs c). apply elem_of_reverse. rewrite E. left.
Qed.

(** Neither white space nor a newline starts or ends encoded text. *)
Lemma encoded_trimmed l : TrimSpace (TrimNewlines (EncodeToString l)) = EncodeToString l.
Proof.
  assert (forallb (fun c => startsNone spaces c && startsNone (map reverse spaces) c &&
    startsNone [[newline]] c && startsNone (map reverse [[newline]]) c) (padChar :: alphabet) = true) as Hc
    by (vm_compute; reflexivity).
  rewrite forallb_forall in Hc.
  assert (forall c, c ∈ padChar :: alphabet ->
    (startsNone spaces c = true /\ startsNone (map reverse spaces) c = true) /\
    startsNone [[newline]] c = true /\ startsNone (map reverse [[newline]]) c = true) as Ha.
  { intros c Hin%list_elem_of_In%Hc. by apply andb_prop in Hin as [[[? ?]%andb_prop ?]%andb_prop ?]. }
  unfold TrimSpace, TrimNewlines. rewrite (trim_none [[newline]]), (trim_none spaces); [done|..];
    (eapply Forall_impl; [apply encoded_chars|]; cbn beta; intros c Hin; apply (Ha c Hin)).
Qed.

(** A signing key that was written is the key that is loaded. *)
Lemma signing_key_stored key : loadSigningKey (Contents (EncodeToString key)) = (key, Ok tt).
Proof.
  unfold loadSigningKey, decodeKey. by rewrite encoded_trimmed, DecodeString_EncodeToString.
Qed.

(** The key that the sender is given is the key it signs with after it
    was written to its file and loaded from there. *)
Theorem signing_key_roundtrip unmarshal marshal reload configPath stdin disk disk' :
  configPath <> DefaultSendSigningKey ->
  readable disk DefaultSendSigningKey = true ->
  WriteNewSigningKey unmarshal marshal reload configPath (Ok stdin) disk = (disk', Ok true) ->
  exists key, DecodeString (TrimNewlines (TrimSpace stdin)) = (key, true) /\
    loadSigningKey (ReadFile disk' DefaultSendSigningKey) = (key, Ok tt).
Proof.
  intros Hne Hread. unfold WriteNewSigningKey. steps.
  destruct (ReadFile disk configPath) as [data| |]; [|done..].
  destruct (unmarshal data) as [opts|]; [|done]. destruct (negb _); [done|].
  destruct (DecodeString _) as [key [|]]; [|done].
  destruct (Stat disk DefaultSendSigningKey) as [[|]| |] eqn:Es; [done| |done..].
  unfold WriteFile. destruct (writable disk DefaultSendSigningKey); [|done]. cbn [files reachable readable writable].
  destruct (writable disk configPath); [|done].
  destruct (wrap (reload configPath)); [|done..]. intros [= <-]. exists key. split; [done|].
  unfold Stat in Es. unfold ReadFile. cbn [files reachable readable].
  destruct (reachable disk DefaultSendSigningKey); [|done].
  rewrite lookup_insert_ne, lookup_insert_eq, Hread by done. apply signing_key_stored.
Qed.

Section pinning.
Context (unmarshal : bytes -> option ReceiverDaemon.JSONOptions)
  (marshal : ReceiverDaemon.JSONOptions -> bytes)
  (unmarshalKeys : bytes -> option (option (gmap gostring bytes)))
  (marshalKeys : gmap gostring bytes -> bytes)
  (certificate : gostring -> res (bytes * bool)) (reload : gostring -> res (option Z)).

Abbreviation Add := (AddPinnedKey unmarshal marshal unmarshalKeys marshalKeys certificate reload).
Abbreviation Remove := (RemovePinnedKey unmarshal unmarshalKeys marshalKeys reload).

(** A receiver whose key file is there. *)
Record has_keys (disk : Disk) (conf : gostring) (opts : ReceiverDaemon.JSONOptions)
    (keys : gmap gostring bytes) : Prop := {
  hk_conf : conf <> [];
  hk_opts : readOptions unmarshal disk conf = Ok opts;
  hk_path : ReceiverDaemon.PinnedSigningKeysPath opts <> [] /\ ReceiverDaemon.PinnedSigningKeysPath opts <> conf;
  hk_file : exists data, ReadFile disk (ReceiverDaemon.PinnedSigningKeysPath opts) = Contents data /\
    unmarshalKeys data = Some (Some keys);
  hk_write : writable disk (ReceiverDaemon.PinnedSigningKeysPath opts) = true
}.
Definition stored (disk : Disk) (path : gostring) (data : bytes) : Disk :=
  mkDisk (<[path := data]> (files disk)) (reachable disk) (readable disk) (writable disk).

Lemma ReadFile_Contents disk path data :
  ReadFile disk path = Contents data <->
  reachable disk path = true /\ readable disk path = true /\ files disk !! path = Some data.
Proof.
  unfold ReadFile. destruct (reachable disk path); [|by split; [|intros [? _]]].
  destruct (files disk !! path); [|by split; [|intros (_ & _ & ?)]].
  destruct (readable disk path); split; [by intros [= ->]|by intros (_ & _ & [= ->])|done|by intros (_ & ? & _)].
Qed.

(** The request is stored, whether or not the daemon can be told. *)
Lemma AddPinnedKey_stored disk conf opts keys def request hostname location key :
  has_keys disk conf opts keys -> request <> [] ->
  parseRequest request = Ok (hostname, location) ->
  retrieveKeyBytes certificate disk location = Ok key ->
  Add def conf request disk =
    (stored disk (ReceiverDaemon.PinnedSigningKeysPath opts) (marshalKeys (<[hostname := key]> keys)),
     wrap (reload conf)).
Proof.
  intros [Hc Ho [Hp Hne] (data & Hf & Hu) Hw] Hr Hreq Hk. unfold AddPinnedKey. steps.
  rewrite !bool_decide_eq_false_2 by done. rewrite Ho, Hreq, Hk.
  assert (Stat disk (ReceiverDaemon.PinnedSigningKeysPath opts) = Ok true) as ->.
  { apply ReadFile_Contents in Hf as (H1 & _ & H2). unfold Stat. rewrite H1, H2. reflexivity. }
  rewrite bool_decide_eq_false_2 by done. rewrite Hf, Hu. cbv beta iota. unfold WriteFile. rewrite Hw. reflexivity.
Qed.

Lemma RemovePinnedKey_stored disk conf opts keys hostname key :
  has_keys disk conf opts keys -> hostname <> [] -> keys !! hostname = Some key ->
  Remove conf hostname disk =
    (stored disk (ReceiverDaemon.PinnedSigningKeysPath opts) (marshalKeys (delete hostname keys)),
     wrap (reload conf)).
Proof.
  intros [Hc Ho [Hp Hne] (data & Hf & Hu) Hw] Hh Hk. unfold RemovePinnedKey. steps.
  rewrite !bool_decide_eq_false_2 by done. rewrite Ho. rewrite bool_decide_eq_false_2 by done.
  rewrite Hf, Hu. change (default ∅ (Some keys)) with keys. rewrite Hk. unfold WriteFile. rewrite Hw. reflexivity.
Qed.

Lemma has_keys_stored disk conf opts keys keys' :
  has_keys disk conf opts keys -> unmarshalKeys (marshalKeys keys') = Some (Some keys') ->
  has_keys (stored disk (ReceiverDaemon.PinnedSigningKeysPath opts) (marshalKeys keys')) conf opts keys'.
Proof.
  intros [Hc Ho [Hp Hne] (data & Hf & Hu) Hw] Hj. apply ReadFile_Contents in Hf as (H1 & H2 & _). split; try done.
  - unfold readOptions, ReadFile in *. cbn. rewrite lookup_insert_ne by done. exact Ho.
  - exists (marshalKeys keys'). split; [|done]. apply ReadFile_Contents. cbn. by rewrite lookup_insert_eq.
Qed.

(** Trusting a new host and distrusting it again leaves the key file
    with the keys it had; in between, a reload finds the new key. *)
Theorem trust_then_distrust disk conf opts keys def request hostname location key :
  has_keys disk conf opts keys -> request <> [] ->
  parseRequest request = Ok (hostname, location) ->
  retrieveKeyBytes certificate disk location = Ok key ->
  unmarshalKeys (marshalKeys (<[hostname := key]> keys)) = Some (Some (<[hostname := key]> keys)) ->
  unmarshalKeys (marshalKeys keys) = Some (Some keys) ->
  keys !! hostname = None ->
  let disk1 := (Add def conf request disk).1 in
  let disk2 := (Remove conf hostname disk1).1 in
  has_keys disk1 conf opts (<[hostname := key]> keys) /\ has_keys disk2 conf opts keys.
Proof.
  intros Hd Hr Hreq Hk J1 J2 Hn disk1 disk2.
  assert (hostname <> []) as Hh.
  { unfold parseRequest in Hreq. destruct (split _ _) as [|a [|b [|]]]; try done.
    case_bool_decide; [done|]. case_bool_decide; [done|]. by injection Hreq as -> _. }
  assert (disk1 = stored disk (ReceiverDaemon.PinnedSigningKeysPath opts)
    (marshalKeys (<[hostname := key]> keys))) as E1
    by (unfold disk1; by rewrite (AddPinnedKey_stored _ _ _ _ _ _ _ _ _ Hd Hr Hreq Hk)).
  assert (has_keys disk1 conf opts (<[hostname := key]> keys)) as H1
    by (rewrite E1; by apply has_keys_stored with keys).
  split; [exact H1|]. unfold disk2.
  rewrite (RemovePinnedKey_stored _ _ _ _ _ _ H1 Hh (lookup_insert_eq _ _ _)). cbn [fst].
  rewrite delete_insert_id by done. by apply has_keys_stored with (<[hostname := key]> keys).
Qed.

(** A path that reads as base64 is stored as if it were the key, whatever is
    in the file. *)
Lemma path_taken_for_key disk :
  retrieveKeyBytes certificate disk (str "/etc/key") =
    Ok (map z2b [0xfd; 0xeb; 0x5c; 0xfe; 0x47; 0xb2]).
Proof. vm_compute. reflexivity. Qed.

(** A key file that says [null] makes the command panic. *)
Lemma null_keys_panic disk conf opts def request hostname location key data :
  conf <> [] -> request <> [] -> readOptions unmarshal disk conf = Ok opts ->
  ReceiverDaemon.PinnedSigningKeysPath opts <> [] ->
  ReadFile disk (ReceiverDaemon.PinnedSigningKeysPath opts) = Contents data ->
  unmarshalKeys data = Some None ->
  parseRequest request = Ok (hostname, location) -> retrieveKeyBytes certificate disk location = Ok key ->
  (Add def conf request disk).2 = Panic.
Proof.
  intros Hc Hr Ho Hp Hf Hu Hreq Hk. unfold AddPinnedKey. steps.
  rewrite !bool_decide_eq_false_2 by done. rewrite Ho, Hreq, Hk.
  assert (Stat disk (ReceiverDaemon.PinnedSigningKeysPath opts) = Ok true) as ->.
  { apply ReadFile_Contents in Hf as (H1 & _ & H2). unfold Stat. rewrite H1, H2. reflexivity. }
  rewrite bool_decide_eq_false_2 by done. by rewrite Hf, Hu.
Qed.
End pinning.

(* ------------------------------------------------------------------ *)
(** * Reloading what was loaded                                         *)
(* ------------------------------------------------------------------ *)

Lemma setupServerKey_keeps `{!Prims} key d d1 :
  Receiver.setupServerKey key d = (d1, Ok tt) -> exists e, d1 = Receiver.setEnv e d.
Proof.
  unfold Receiver.setupServerKey. steps. destruct (SuiteNameToID _) as [id|]; [|done].
  destruct (GetSuiteInfo id) as [info|]; [|done]. destruct (ValidateKey info key); [|done..].
  destruct (Receiver.DerivePublicKey id key); [|done..].
  destruct (wrap _); [|done..]. intros [= <-]. by eexists.
Qed.

Lemma loadPinnedKeys_Ok read parseKeys d d1 :
  Receiver.loadPinnedKeys read parseKeys d = (d1, Ok tt) ->
  exists keys, d1 = Receiver.setPinned keys d /\
    (ReceiverDaemon.PinnedSigningKeysPath (Receiver.opts d) <> [] ->
     exists data, read (ReceiverDaemon.PinnedSigningKeysPath (Receiver.opts d)) = Contents data /\
       Receiver.keysOfFile parseKeys data = Ok keys).
Proof.
  unfold Receiver.loadPinnedKeys. steps. case_bool_decide as E.
  { intros [= <-]. by exists ∅. }
  destruct (read _) as [data| |]; [|done..]. destruct (Receiver.keysOfFile parseKeys data) as [keys| |] eqn:K; [|done..].
  intros [= <-]. exists keys. split; [done|]. intros _. by exists data.
Qed.

(** What a started receiver has: the keys of its file, in use. *)
Lemma receiver_started `{!Prims} read parseKeys cpus parse priv d d' :
  Receiver.Init read parseKeys cpus parse priv d = (d', Ok tt) ->
  pinned (Receiver.env d') = Some (Receiver.PinnedSigningKeys d') /\
  (ReceiverDaemon.PinnedSigningKeysPath (Receiver.opts d') <> [] ->
   exists data, read (ReceiverDaemon.PinnedSigningKeysPath (Receiver.opts d')) = Contents data /\
     Receiver.keysOfFile parseKeys data = Ok (Receiver.PinnedSigningKeys d')).
Proof.
  unfold Receiver.Init. intros R. apply st_bind_inv in R as (t & a & E & R). injection E as <- <-.
  apply st_bind_inv in R as (d1 & [] & E & R). injection E as <- _.
  apply st_bind_inv in R as (d2 & [] & E & R). injection E as <-.
  apply st_bind_inv in R as (d3 & d3' & E & R). injection E as <- <-.
  destruct (_ && _); [done|].
  apply st_bind_inv in R as (d4 & [] & E & R). apply loadPinnedKeys_Ok in E as (keys & -> & Hk).
  apply st_bind_inv in R as (d5 & [] & E & R). apply setupServerKey_keeps in E as (e & ->).
  apply st_bind_inv in R as (d6 & [] & E & R). injection E as <-.
  apply st_bind_inv in R as (d7 & socket & E & R). injection E as <- _.
  apply st_bind_inv in R as (d8 & [] & E & R). injection E as <-. injection R as <-. done.
Qed.

(** As long as the files say the same, reloading the keys of a started
    receiver changes nothing and counts no modification. *)
Theorem reload_settled `{!Prims} read unmarshal parseKeys cpus parse priv d d' c o :
  Receiver.Init read parseKeys cpus parse priv d = (d', Ok tt) ->
  read (Receiver.configPath d') = Contents c ->
  unmarshal c (Receiver.opts d') = (o, true) ->
  ReceiverDaemon.PinnedSigningKeysPath o = ReceiverDaemon.PinnedSigningKeysPath (Receiver.opts d') ->
  Receiver.ReloadSigningKeys read unmarshal parseKeys d' = (d', Ok 0).
Proof.
  intros [Hpin Hkeys]%receiver_started Hr Hu Hp. unfold Receiver.ReloadSigningKeys.
  steps. rewrite (receiver_loaded _ _ _ _ _ _ _ Hr Hu). cbn [Receiver.setOpts Receiver.opts].
  rewrite Hp. case_bool_decide as E.
  { by destruct d'. }
  destruct (Hkeys E) as (data & -> & ->). rewrite diffCount_differing.
  assert (size (differing (Receiver.PinnedSigningKeys d') (Receiver.PinnedSigningKeys d')) = O) as Hz.
  { unfold differing. apply size_empty_iff. intros h. rewrite elem_of_filter. split; [by intros [[] _]|by intros ?%elem_of_empty]. }
  cbn [Receiver.PinnedSigningKeys Receiver.setEnv Receiver.setOpts Receiver.setConfigPath]. rewrite Hz.
  destruct d' as [p op ks s e i]. cbn in *. unfold NewPinnedSenders. rewrite <- Hpin. by destruct e.
Qed.

(* ------------------------------------------------------------------ *)
(** * Examples                                                          *)
(* ------------------------------------------------------------------ *)

Definition exampleEmpty : fileRead := Contents [].
Definition exampleSender (keyFile : gostring) : Sender.Daemon :=
  Sender.mkDaemon (str "/etc/sdsyslog/sdsyslog-sender.json") (signingPath exampleSendOptions keyFile)
    (SenderDaemon.mkRunConfig [] None None) initEnv false.
Definition startSender (read : gostring -> fileRead) (pub : bytes) (d : Sender.Daemon) : Sender.Daemon * res unit :=
  Sender.Init read 4 (fun i => Ok i) (fun _ _ => Ok exampleSocket) (fun _ => Ok exampleSocket) pub d.

Lemma sender_reinit_witness :
  let d' := (startSender (fun _ => NotExist) [z2b 7] (exampleSender [])).1 in
  startSender (fun _ => NotExist) [z2b 7] (exampleSender []) = (d', Ok tt) /\
  startSender (fun _ => NotExist) [] d' = (d', Ok tt).
Proof.
  intros d'. assert (startSender (fun _ => NotExist) [z2b 7] (exampleSender []) = (d', Ok tt)) as E
    by (subst d'; vm_compute; reflexivity).
  split; [exact E|].
  apply (sender_reinit (fun _ => NotExist) 4 (fun i => Ok i) (fun _ _ => Ok exampleSocket)
    (fun _ => Ok exampleSocket) [z2b 7] (exampleSender []) d'); [lia| |exact E].
  intros i i' Hi. injection Hi as <-. reflexivity.
Defined.

Lemma empty_signing_key_witness :
  let d' := (startSender (fun _ => exampleEmpty) [z2b 7] (exampleSender (str "/k"))).1 in
  SignatureSuite (SenderDaemon.Crypto (Sender.opts d')) = str "ed25519" /\
  CreateSignature (Sender.env d') (str "data") 1 = Err EMsg.
Proof.
  intros d'. split; [vm_compute; reflexivity|].
  apply (empty_signing_key (fun _ => exampleEmpty) 4 (fun i => Ok i) (fun _ _ => Ok exampleSocket)
    (fun _ => Ok exampleSocket) [z2b 7] (exampleSender (str "/k"))).
  - discriminate.
  - reflexivity.
  - reflexivity.
  - subst d'. vm_compute. reflexivity.
Defined.

(** A receiver with one trusted host; the key file is given as its map. *)
Definition exampleHost : gostring := str "web".
Definition exampleDaemon : Receiver.Daemon :=
  Receiver.mkDaemon (str "/c") exampleRecvOptions {[ exampleHost := str "key" ]} None
    (mkCryptoEnv None None None true (Some {[ exampleHost := str "key" ]}) None) true.
Definition pinnedOptions : ReceiverDaemon.JSONOptions := pinnedPath exampleRecvOptions (str "/p").
Definition exampleParse (data : bytes) : option (gmap gostring gostring) :=
  if bool_decide (data = str "two")
  then Some {[ exampleHost := str "bmV3"; str "db" := str "a2V5" ]}
  else if bool_decide (data = str "one") then Some {[ exampleHost := str "a2V5" ]} else None.
Definition exampleFiles (pinnedFile path : gostring) : fileRead :=
  if bool_decide (path = str "/p") then Contents pinnedFile else Contents [].
Definition exampleUnmarshal (_ : bytes) (_ : ReceiverDaemon.JSONOptions)
  : ReceiverDaemon.JSONOptions * bool := (pinnedOptions, true).

Definition exampleKeys : gmap gostring bytes :=
  (fun text => (DecodeString text).1) <$> default ∅ (exampleParse (str "two")).
Lemma keysOfFile_decoded parseKeys data texts :
  forallb (fun kv : gostring * gostring => (DecodeString kv.2).2) (map_to_list texts) = true ->
  parseKeys data = Some texts ->
  Receiver.keysOfFile parseKeys data = Ok ((fun text => (DecodeString text).1) <$> texts).
Proof.
  intros Hf Hp. unfold Receiver.keysOfFile, decodeKeys. rewrite Hp, bool_decide_eq_true_2; [done|].
  intros k t Hk. rewrite forallb_forall in Hf. apply (Hf (k, t)).
  by apply list_elem_of_In, elem_of_map_to_list.
Qed.

(** One key changed, one host is new. *)
Lemma receiver_reload_witness :
  exists d', Receiver.ReloadSigningKeys (exampleFiles (str "two")) exampleUnmarshal exampleParse exampleDaemon =
      (d', Ok 2) /\
    LookupPinnedSender (Receiver.env d') exampleHost = Some (str "new") /\
    LookupPinnedSender (Receiver.env d') (str "db") = Some (str "key") /\
    LookupPinnedSender (Receiver.env d') (str "mail") = None.
Proof.
  destruct (receiver_reload (exampleFiles (str "two")) exampleUnmarshal exampleParse exampleDaemon []
    pinnedOptions (str "two") exampleKeys)
    as (d' & H & _ & L & _); [reflexivity|reflexivity|discriminate|reflexivity| |].
  - apply keysOfFile_decoded; [vm_compute; reflexivity|reflexivity].
  - exists d'. split; [etransitivity; [exact H|]; vm_compute; reflexivity|].
    split; [rewrite L; vm_compute; reflexivity|]. split; rewrite L; vm_compute; reflexivity.
Defined.

Definition exampleKeyed : Receiver.Daemon :=
  Receiver.mkDaemon (str "/c") pinnedOptions ∅ None initEnv false.
Definition startReceiver (d : Receiver.Daemon) : Receiver.Daemon * res unit :=
  Receiver.Init (exampleFiles (str "one")) exampleParse 4 (fun _ _ => Ok exampleSocket)
    (repeat (z2b 1) 32) d.
Lemma reload_settled_witness :
  let d' := (startReceiver exampleKeyed).1 in
  Receiver.PinnedSigningKeys d' !! exampleHost = Some (str "key") /\
  Receiver.ReloadSigningKeys (exampleFiles (str "one")) exampleUnmarshal exampleParse d' = (d', Ok 0).
Proof.
  intros d'. split; [subst d'; vm_compute; reflexivity|].
  apply (reload_settled (exampleFiles (str "one")) exampleUnmarshal exampleParse 4
    (fun _ _ => Ok exampleSocket) (repeat (z2b 1) 32) exampleKeyed d' [] pinnedOptions).
  - subst d'. vm_compute. reflexivity.
  - subst d'. vm_compute. reflexivity.
  - reflexivity.
  - subst d'. vm_compute. reflexivity.
Defined.

(** JSON texts of the examples: the host's name, or nothing. *)
Definition exampleDisk : Disk :=
  mkDisk {[ str "/c" := str "conf"; str "/p" := str "{}" ]} (fun _ => true) (fun _ => true) (fun _ => true).
Definition exampleMarshalKeys (keys : gmap gostring bytes) : bytes :=
  if bool_decide (keys = ∅) then str "{}" else str "web".
Definition exampleUnmarshalKeys (data : bytes) : option (option (gmap gostring bytes)) :=
  if bool_decide (data = str "{}") then Some (Some ∅)
  else if bool_decide (data = str "web") then Some (Some {[ exampleHost := str "key" ]})
  else None.
Definition exampleRequest : gostring := str "web|a2V5".

Lemma trust_then_distrust_witness :
  let Add := AddPinnedKey (fun _ => Some pinnedOptions) (fun _ => []) exampleUnmarshalKeys
    exampleMarshalKeys (fun _ => Err EMsg) (fun _ => Ok None) in
  let Remove := RemovePinnedKey (fun _ => Some pinnedOptions) exampleUnmarshalKeys
    exampleMarshalKeys (fun _ => Ok None) in
  let disk1 := (Add (str "/d") (str "/c") exampleRequest exampleDisk).1 in
  files disk1 !! str "/p" = Some (str "web") /\
  has_keys (fun _ => Some pinnedOptions) exampleUnmarshalKeys
    (Remove (str "/c") exampleHost disk1).1 (str "/c") pinnedOptions ∅.
Proof.
  intros Add Remove disk1. split; [subst disk1 Add; vm_compute; reflexivity|].
  destruct (trust_then_distrust (fun _ => Some pinnedOptions) (fun _ => []) exampleUnmarshalKeys
    exampleMarshalKeys (fun _ => Err EMsg) (fun _ => Ok None) exampleDisk (str "/c") pinnedOptions ∅
    (str "/d") exampleRequest exampleHost (str "a2V5") (str "key")) as [_ H];
    [|discriminate|reflexivity|reflexivity|reflexivity|reflexivity|reflexivity|exact H].
  split; [discriminate|reflexivity|split; discriminate| |reflexivity].
  exists (str "{}"). split; reflexivity.
Defined.

Definition senderDisk : Disk :=
  mkDisk {[ str "/c" := str "conf" ]} (fun _ => true) (fun _ => true) (fun _ => true).
Lemma signing_key_roundtrip_witness :
  exists key,
    DecodeString (TrimNewlines (TrimSpace (str "a2V5" ++ [newline]))) = (key, true) /\
    loadSigningKey (ReadFile (WriteNewSigningKey (fun _ => Some exampleSendOptions) (fun _ => [])
      (fun _ => Ok None) (str "/c") (Ok (str "a2V5" ++ [newline])) senderDisk).1 DefaultSendSigningKey) = (key, Ok tt).
Proof.
  apply (signing_key_roundtrip (fun _ => Some exampleSendOptions) (fun _ => []) (fun _ => Ok None)
    (str "/c") (str "a2V5" ++ [newline]) senderDisk).
  - discriminate.
  - reflexivity.
  - vm_compute. reflexivity.
Defined.
