(* ===== verification/Lifecycle.v ===== *)
(** The life of a daemon process, [internal/lifecycle]: signals
    ([signals.go]), the update that starts a temporary child, hands over to it
    and replaces the process ([update.go], [ipc.go]), and what the replaced
    process does about the child. What system calls give is an argument; what
    the program does is a trace of effects. *)
From S2P Require Import Prelude State Text Registry ToyCrypto Wrappers Context Consts NetAddr GoStrings.
From S2P Require Import Network Config Keys.

(* ------------------------------------------------------------------ *)
(** * The readiness pipe                                                *)
(* ------------------------------------------------------------------ *)

Definition ReadyMessage : gostring := str "READY".

(** [readinessReceiver]; [data] is what can be read from the pipe before its
    deadline or its end, [deadline] tells whether the deadline could be set. *)
Definition readinessReceiver (deadline : bool) (data : bytes) : res unit :=
  if negb deadline then Err (EWrap EMsg)
  else if len data <? len ReadyMessage then Err (EWrap EMsg)
  else if bool_decide (take (length ReadyMessage) data = ReadyMessage) then Ok tt
  else Err EMsg.

(** The writing loop of [ReadinessSender]: [write n] is the number of bytes
    that the [n]-th write takes, or its error. What was written, and whether
    it is everything. A write that takes nothing and gives no error would be
    tried forever: [fuel] bounds the writes. *)
Fixpoint sendReady (fuel n : nat) (write : nat -> option nat) (msg : bytes) : bytes * option bool :=
  match msg with
  | [] => ([], Some true)
  | _ =>
      match fuel with
      | O => ([], None)
      | S fuel =>
          match write n with
          | None => ([], Some false)
          | Some bytesWritten =>
              let '(sent, ok) := sendReady fuel (S n) write (drop bytesWritten msg) in
              (take bytesWritten msg ++ sent, ok)
          end
      end
  end.

(** [ReadinessSender]: the environment variable, whether the descriptor opens
    and closes. *)
Definition ReadinessSender (fdStr : gostring) (opens closes : bool) (write : nat -> option nat)
  : bytes * res unit :=
  if bool_decide (fdStr = []) then ([], Ok tt)
  else match Atoi fdStr with
  | None => ([], Err (EWrap EMsg))
  | Some _ =>
      if negb opens then ([], Err EMsg)
      else
        let '(sent, ok) := sendReady (length ReadyMessage) 0 write ReadyMessage in
        (sent, if bool_decide (ok = Some true) then (if closes then Ok tt else Err (EWrap EMsg))
               else Err (EWrap EMsg))
  end.

(* ------------------------------------------------------------------ *)
(** * The executable                                                    *)
(* ------------------------------------------------------------------ *)

Inductive exeStat :=
  | ExeFails
  | ExeMissing
  | ExeFound (isDir executable : bool).

(** [getExecutablePath] over its three sources. *)
Fixpoint getExecutablePath (stat : gostring -> exeStat) (exePriorityList : list gostring) : res gostring :=
  match exePriorityList with
  | [] => Err EMsg
  | exePath :: rest =>
      if bool_decide (exePath = []) then getExecutablePath stat rest
      else match stat exePath with
      | ExeFails => Err (EWrap EMsg)
      | ExeMissing => getExecutablePath stat rest
      | ExeFound isDir executable =>
          if isDir then getExecutablePath stat rest
          else if negb executable then getExecutablePath stat rest
          else Ok exePath
      end
  end.

(* ------------------------------------------------------------------ *)
(** * Daemons                                                           *)
(* ------------------------------------------------------------------ *)

(** [DaemonLike], with whether its context, which the signal handler watches,
    was cancelled. *)
Class DaemonLike (D : Type) := {
  Init : bytes -> D -> D * res unit;
  Start : D -> D * res unit;
  Shutdown : D -> D;
  StartFIPR : D -> D * res unit;
  StopFIPR : D -> D;
  ReloadSigningKeys : D -> D * res Z;
  cancelled : D -> bool
}.

(** What the handler could rely on: a shutdown cancels the context, and neither
    [Init] nor a [Start] that succeeds makes another one. *)
Class DaemonLaws (D : Type) `{!DaemonLike D} : Prop := {
  shutdown_cancels d : cancelled (Shutdown d) = true;
  init_keeps key d : cancelled (Init key d).1 = cancelled d;
  start_keeps d : (Start d).2 = Ok tt -> cancelled (Start d).1 = cancelled d
}.

Inductive signal :=
  | Terminate        (** [SIGINT], [SIGQUIT], [SIGTERM] *)
  | FullUpdateSignal
  | SigningKeyReloadSignal
  | NotASignal.

Inductive effect :=
  | NotifiedReload
  | NotifiedStatus
  | NotifiedReady
  | KeysReloaded (result : res Z)
  | FIPRStarted (result : res unit)
  | ChildStarted (pid : Z)
  | ChildReady (pid : Z)
  | ChildTerminated (pid : Z)
  | DidShutdown
  | Execve (childPID : Z)
  | DidInit (result : res unit)
  | DidStart (result : res unit).

(** What the system gives during an update. *)
Record World := mkWorld {
  notifies : bool;          (** the service manager takes the reload message *)
  pipes : bool;
  exePath : res gostring;   (** [getExecutablePath] *)
  workingDir : bool;
  childPID : option Z;      (** the process that was started *)
  pipeDeadline : bool;
  pipeData : bytes;         (** what the child writes *)
  execFails : bool
}.

Definition SendMode : gostring := str "send".

(** [preUpdate]: the child, if the mode has one. *)
Definition preUpdate (mode : option gostring) (w : World) : list effect * res (option Z) :=
  match mode with
  | None => ([], Err EMsg)
  | Some mode =>
      if bool_decide (mode = SendMode) then ([], Ok None)
      else if negb (pipes w) then ([], Err (EWrap EMsg))
      else match exePath w with
      | Ok _ =>
          if negb (workingDir w) then ([], Err (EWrap EMsg))
          else match childPID w with
          | None => ([], Err (EWrap EMsg))
          | Some pid =>
              match readinessReceiver (pipeDeadline w) (pipeData w) with
              | Ok _ => ([ChildStarted pid; ChildReady pid], Ok (Some pid))
              | Err e => ([ChildStarted pid; ChildTerminated pid], Err e)
              | Panic => ([ChildStarted pid], Panic)
              end
          end
      | Err e => ([], Err (EWrap e))
      | Panic => ([], Panic)
      end
  end.

(** What becomes of the process after a round. *)
Inductive outcome (D : Type) :=
  | Continue (d : D)
  | Returned (d : D)   (** the handler returns, the program ends *)
  | Replaced.          (** another program runs in its place *)
Arguments Continue {D} d.
Arguments Returned {D} d.
Arguments Replaced {D}.

(** [logNotifyFailed] *)
Definition notifyFailed : list effect := [NotifiedStatus; NotifiedReady].

Section handler.
Context {D : Type} `{!DaemonLike D} (mode : option gostring).

(** After the shutdown: the replacement, or the restart. [pid] is zero
    without a child. *)
Definition replaceProcess (w : World) (childProc : option Z) (d : D) : list effect * outcome D :=
  let pid := default 0 childProc in
  if negb (execFails w) then ([Execve pid], Replaced)
  else
    let '(d, initialised) := Init [] d in
    match initialised with
    | Ok _ =>
        let '(d, started) := Start d in
        match started with
        | Ok _ =>
            ([Execve pid; DidInit initialised; DidStart started] ++
               match childProc with Some pid => [ChildTerminated pid] | None => [] end ++ notifyFailed,
             Continue d)
        | _ => ([Execve pid; DidInit initialised; DidStart started], Returned d)
        end
    | _ => ([Execve pid; DidInit initialised], Returned d)
    end.

(** A round of [SignalHandler] on a signal. *)
Definition handle (sig : signal) (w : World) (d : D) : list effect * outcome D :=
  match sig with
  | NotASignal => ([], Continue d)
  | SigningKeyReloadSignal =>
      let '(d, result) := ReloadSigningKeys d in ([KeysReloaded result], Continue d)
  | Terminate => ([DidShutdown], Returned (Shutdown d))
  | FullUpdateSignal =>
      if negb (notifies w) then (notifyFailed, Continue d)
      else
        let '(d, fipr) := StartFIPR d in
        match fipr with
        | Ok _ =>
            let '(tr, child) := preUpdate mode w in
            match child with
            | Ok childProc =>
                let '(tr', out) := replaceProcess w childProc (Shutdown d) in
                ([NotifiedReload; FIPRStarted fipr] ++ tr ++ [DidShutdown] ++ tr', out)
            | _ => ([NotifiedReload; FIPRStarted fipr] ++ tr ++ notifyFailed, Continue d)
            end
        | _ => ([NotifiedReload; FIPRStarted fipr] ++ notifyFailed, Continue d)
        end
  end.

(** What the [select] at the head of the loop takes: the end of the context,
    or a signal. *)
Inductive event :=
  | ContextDone
  | Delivered (sig : signal) (w : World).

(** [SignalHandler] on the events it takes; the end of a context that was not
    cancelled cannot be taken, and the handler is left waiting. *)
Fixpoint SignalHandler (events : list event) (d : D) : list effect * outcome D :=
  match events with
  | [] => ([], Continue d)
  | ContextDone :: events =>
      if cancelled d then ([], Returned d) else SignalHandler events d
  | Delivered sig w :: events =>
      match handle sig w d with
      | (tr, Continue d) => let '(tr', out) := SignalHandler events d in (tr ++ tr', out)
      | done => done
      end
  end.
End handler.

(* ------------------------------------------------------------------ *)
(** * The end of the child                                              *)
(* ------------------------------------------------------------------ *)

Inductive childEffect :=
  | SentTerm
  | SentKill
  | Gone       (** it has exited and was reaped, by whomever *)
  | LeftAlone. (** an error: it may still run *)

(** [terminateChildProcess]: whether a signal reaches the process, whether
    [SIGTERM] does, and whether it exits within ten seconds of waiting. After
    [SIGKILL] the wait for its exit is not limited. *)
Definition terminateChildProcess (alive terms exits : bool) : list childEffect :=
  if negb alive then []
  else
    (if terms then [SentTerm] else []) ++ (if exits then [Gone] else [SentKill; Gone]).

Inductive waitResult :=
  | Reaped
  | NoChild     (** [ECHILD] *)
  | StillRunning
  | WaitFails.

(** The polling loop of [PostUpdateActions] from poll [n] on: [wait n] is what
    the poll gives, [late n] tells whether the deadline has passed after it,
    [kills] whether [SIGKILL] could be sent, [forced] what the blocking wait
    gives. [None]: more polls than [fuel]. *)
Fixpoint pollExit (fuel n : nat) (wait : nat -> waitResult) (late : nat -> bool)
    (kills : bool) (forced : waitResult) : option (list childEffect) :=
  match fuel with
  | O => None
  | S fuel =>
      match wait n with
      | Reaped | NoChild => Some [Gone]
      | _ =>
          if late n then
            if negb kills then Some [LeftAlone]
            else Some [SentKill; match forced with Reaped | NoChild => Gone | _ => LeftAlone end]
          else pollExit fuel (S n) wait late kills forced
      end
  end.

(** [PostUpdateActions], with [polls] as the fuel of its loop; the text is the
    environment variable that the replaced process left. *)
Definition PostUpdateActions {D} `{!DaemonLike D} (childPID : gostring) (terms : bool) (polls : nat)
    (wait : nat -> waitResult) (late : nat -> bool) (kills : bool) (forced : waitResult) (d : D)
  : option (list childEffect) * D :=
  if bool_decide (childPID = []) then (Some [], d)
  else
    let d' := StopFIPR (StartFIPR d).1 in
    match Atoi childPID with
    | None => (Some [LeftAlone], d')
    | Some _ =>
        if negb terms then (Some [LeftAlone], d')
        else ((fun tr => SentTerm :: tr) <$> pollExit polls 0 wait late kills forced, d')
    end.

(* ------------------------------------------------------------------ *)
(** * The daemons                                                       *)
(* ------------------------------------------------------------------ *)

(** What a process is besides its daemon record: whether its pipeline runs,
    whether it takes fragments of other processes, and its context. *)
Record Process (Daemon : Type) := mkProcess {
  daemon : Daemon;
  running : bool;
  fipr : bool;
  ctxDone : bool
}.
Arguments mkProcess {Daemon}.
Arguments daemon {Daemon}.
Arguments running {Daemon}.
Arguments fipr {Daemon}.
Arguments ctxDone {Daemon}.

Section receiver.
Context `{!Prims} (read : gostring -> fileRead)
  (unmarshal : bytes -> ReceiverDaemon.JSONOptions -> ReceiverDaemon.JSONOptions * bool)
  (parseKeys : bytes -> option (gmap gostring gostring)) (cpus : Z)
  (parse : gostring -> Z -> res UDPAddr)
  (ebpf : bool) (outputs : res unit) (listens : nat -> bool) (socketListens : bool).

(** The receiver; a start makes the pipeline of [ReceiverDaemon.Start].
    Shutdown cancels the context, and neither [Init] nor [Start] makes a new
    one. What a start that fails has begun and stopped again is not
    represented: the handler returns then, and the program ends. *)
Definition receiverInit (key : bytes) (p : Process Receiver.Daemon) : Process Receiver.Daemon * res unit :=
  let '(d, result) := Receiver.Init read parseKeys cpus parse key (daemon p) in
  (mkProcess d (running p) (fipr p) (ctxDone p), result).
Definition receiverStart (p : Process Receiver.Daemon) : Process Receiver.Daemon * res unit :=
  let d := daemon p in
  match ReceiverDaemon.Start ebpf false outputs listens (Receiver.initSuccess d) false
          (Receiver.opts d) (Receiver.sourceSocket d) with
  | Ok _ => (mkProcess d true (fipr p) (ctxDone p), Ok tt)
  | Err e => (p, Err e)
  | Panic => (p, Panic)
  end.
(** [StartFIPR]: without a shared secret there is no instance. *)
Definition receiverStartFIPR (p : Process Receiver.Daemon) : Process Receiver.Daemon * res unit :=
  match GetSharedSecret (Receiver.env (daemon p)) with
  | Ok _ =>
      (mkProcess (daemon p) (running p) true (ctxDone p), if socketListens then Ok tt else Err (EWrap EMsg))
  | Err e => (mkProcess (daemon p) (running p) false (ctxDone p), Err e)
  | Panic => (p, Panic)
  end.
Definition receiverReload (p : Process Receiver.Daemon) : Process Receiver.Daemon * res Z :=
  let '(d, result) := Receiver.ReloadSigningKeys read unmarshal parseKeys (daemon p) in
  (mkProcess d (running p) (fipr p) (ctxDone p), result).

Instance receiverProcess : DaemonLike (Process Receiver.Daemon) := {
  Init := receiverInit;
  Start := receiverStart;
  Shutdown p := mkProcess (daemon p) false false true;
  StartFIPR := receiverStartFIPR;
  StopFIPR p := mkProcess (daemon p) (running p) false (ctxDone p);
  ReloadSigningKeys := receiverReload;
  cancelled := ctxDone
}.
Instance receiverProcess_laws : DaemonLaws (Process Receiver.Daemon).
Proof.
  split; [done| |].
  - intros key p. cbn. unfold receiverInit. by destruct (Receiver.Init _ _ _ _ _ _).
  - intros p _. cbn. unfold receiverStart. by destruct (ReceiverDaemon.Start _ _ _ _ _ _ _ _).
Qed.
End receiver.

Section sender.
Context `{!Prims} (read : gostring -> fileRead)
  (unmarshal : bytes -> SenderDaemon.JSONOptions -> SenderDaemon.JSONOptions * bool) (cpus : Z)
  (loadInputs : SenderDaemon.JSONInputs -> res SenderDaemon.JSONInputs)
  (parse : gostring -> Z -> res UDPAddr) (localFor : option Addr -> res UDPAddr)
  (dialed : bool) (random : res bytes) (maxPayload : res Z) (opened : gostring -> res unit).

Definition senderInit (key : bytes) (p : Process Sender.Daemon) : Process Sender.Daemon * res unit :=
  let '(d, result) := Sender.Init read cpus loadInputs parse localFor key (daemon p) in
  (mkProcess d (running p) (fipr p) (ctxDone p), result).
Definition senderStart (p : Process Sender.Daemon) : Process Sender.Daemon * res unit :=
  let d := daemon p in
  match SenderDaemon.Start dialed random maxPayload opened (Sender.initSuccess d) false
          (Sender.opts d) (Sender.cfg d) with
  | Ok _ => (mkProcess d true (fipr p) (ctxDone p), Ok tt)
  | Err e => (p, Err e)
  | Panic => (p, Panic)
  end.
Definition senderReload (p : Process Sender.Daemon) : Process Sender.Daemon * res Z :=
  let '(d, result) := Sender.ReloadSigningKeys read unmarshal (daemon p) in
  (mkProcess d (running p) (fipr p) (ctxDone p), result).

(** The sender has no part in the routing of fragments. *)
Instance senderProcess : DaemonLike (Process Sender.Daemon) := {
  Init := senderInit;
  Start := senderStart;
  Shutdown p := mkProcess (daemon p) false false true;
  StartFIPR p := (p, Ok tt);
  StopFIPR p := p;
  ReloadSigningKeys := senderReload;
  cancelled := ctxDone
}.
Instance senderProcess_laws : DaemonLaws (Process Sender.Daemon).
Proof.
  split; [done| |].
  - intros key p. cbn. unfold senderInit. by destruct (Sender.Init _ _ _ _ _ _ _).
  - intros p _. cbn. unfold senderStart. by destruct (SenderDaemon.Start _ _ _ _ _ _ _ _).
Qed.
End sender.

(* ------------------------------------------------------------------ *)
(** * Readiness                                                         *)
(* ------------------------------------------------------------------ *)

Lemma sendReady_all fuel n write msg sent :
  sendReady fuel n write msg = (sent, Some true) -> sent = msg.
Proof.
  revert n msg sent. induction fuel as [|fuel IH]; intros n msg sent; destruct msg as [|c msg]; cbn [sendReady];
    [by intros [= <-]|done|by intros [= <-]|].
  destruct (write n) as [k|]; [|done]. destruct (sendReady fuel (S n) write _) as [s ok] eqn:E.
  intros [= <- ->]. apply IH in E as ->. apply take_drop.
Qed.
(** Writes that take something are enough. *)
Lemma sendReady_ends fuel n write msg :
  (length msg <= fuel)%nat -> (forall m, write m <> Some O) -> (sendReady fuel n write msg).2 <> None.
Proof.
  intros Hf Hw. revert n msg Hf. induction fuel as [|fuel IH]; intros n msg Hf;
    destruct msg as [|c msg]; cbn [sendReady length] in *; [done|lia|done|].
  destruct (write n) as [k|] eqn:E; [|done]. assert (k <> O) by (intros ->; by apply (Hw n)).
  specialize (IH (S n) (drop k (c :: msg))). destruct (sendReady fuel (S n) write _) as [s ok].
  apply IH. rewrite length_drop. cbn [length]. lia.
Qed.

(** What a child that started successfully has written is what the parent
    waits for, whatever pieces the pipe took it in. *)
Lemma readiness_roundtrip fdStr opens closes write sent :
  fdStr <> [] -> ReadinessSender fdStr opens closes write = (sent, Ok tt) ->
  readinessReceiver true sent = Ok tt.
Proof.
  intros Hfd. unfold ReadinessSender. rewrite bool_decide_eq_false_2 by done.
  destruct (Atoi fdStr); [|done]. destruct (negb opens); [done|].
  destruct (sendReady _ _ _ _) as [s ok] eqn:E. case_bool_decide as Hok; [|done]. subst ok.
  intros [= <- _]. apply sendReady_all in E as ->. reflexivity.
Qed.

(** The path that is run is the first of the list that is an executable
    file. *)
Definition runnable (stat : gostring -> exeStat) (path : gostring) : Prop :=
  path <> [] /\ stat path = ExeFound false true.
Lemma getExecutablePath_runnable stat l path :
  getExecutablePath stat l = Ok path ->
  runnable stat path /\ exists pre post, l = pre ++ path :: post /\ Forall (fun p => ~ runnable stat p) pre.
Proof.
  induction l as [|p l IH]; cbn; [done|].
  assert (~ runnable stat p -> getExecutablePath stat l = Ok path ->
    runnable stat path /\ exists pre post, p :: l = pre ++ path :: post /\ Forall (fun p => ~ runnable stat p) pre) as Hnext.
  { intros Hp (Hr & pre & post & -> & Hf)%IH. split; [done|]. exists (p :: pre), post.
    split; [done|by constructor]. }
  case_bool_decide as E; [apply Hnext; by intros [? _]|].
  destruct (stat p) as [| |isDir executable] eqn:S; [done| |].
  { apply Hnext. intros [_ H]. congruence. }
  destruct isDir; [apply Hnext; intros [_ H]; congruence|].
  destruct executable; cbn; [|apply Hnext; intros [_ H]; congruence].
  intros [= <-]. split; [done|]. by exists [], l.
Qed.

(* ------------------------------------------------------------------ *)
(** * Updates                                                           *)
(* ------------------------------------------------------------------ *)

(** [x ∉ l] for a list of other effects. *)
Ltac absent :=
  let H := fresh in
  intros H; repeat (apply elem_of_cons in H as [H|H]; [discriminate H|]); by apply elem_of_nil in H.

Lemma preUpdate_child mode w tr pid :
  preUpdate (Some mode) w = (tr, Ok (Some pid)) ->
  tr = [ChildStarted pid; ChildReady pid] /\ readinessReceiver (pipeDeadline w) (pipeData w) = Ok tt.
Proof.
  unfold preUpdate. case_bool_decide; [done|]. destruct (negb (pipes w)); [done|].
  destruct (exePath w); [|done..]. destruct (negb _); [done|]. destruct (childPID w) as [p|]; [|done].
  destruct (readinessReceiver _ _) as [[]| |]; [|done..]. by intros [= <- ->].
Qed.
Lemma preUpdate_no_child mode w tr :
  preUpdate (Some mode) w = (tr, Ok None) -> mode = SendMode /\ tr = [].
Proof.
  unfold preUpdate. case_bool_decide as E; [by intros [= <-]|]. destruct (negb (pipes w)); [done|].
  destruct (exePath w); [|done..]. destruct (negb _); [done|]. destruct (childPID w) as [p|]; [|done].
  by destruct (readinessReceiver _ _).
Qed.
Lemma preUpdate_no_shutdown mode w tr r :
  preUpdate mode w = (tr, r) -> (DidShutdown ∉ tr) /\ (forall pid, Execve pid ∉ tr).
Proof.
  unfold preUpdate. repeat case_match; intros [= <- _]; (split; [|intros pid]); absent.
Qed.

(** A daemon that was shut down for an update: what came before. *)
Lemma shut_down_for_update {D} `{!DaemonLike D} mode w d tr out :
  handle mode FullUpdateSignal w d = (tr, out) -> DidShutdown ∈ tr ->
  exists d1 before childProc after,
    StartFIPR d = (d1, Ok tt) /\ preUpdate mode w = (before, Ok childProc) /\
    replaceProcess w childProc (Shutdown d1) = (after, out) /\
    tr = [NotifiedReload; FIPRStarted (Ok tt)] ++ before ++ [DidShutdown] ++ after.
Proof.
  assert (forall before r, preUpdate mode w = (before, r) ->
    DidShutdown ∉ [NotifiedReload; FIPRStarted (Ok tt)] ++ before ++ notifyFailed) as Hno.
  { intros before r [Hb _]%preUpdate_no_shutdown. intros Hs. cbn in Hs.
    do 2 (apply elem_of_cons in Hs as [Hs|Hs]; [discriminate Hs|]).
    apply elem_of_app in Hs as [Hs|Hs]; [done|]. revert Hs. absent. }
  unfold handle. destruct (negb (notifies w)).
  { intros [= <- _] Hs. exfalso. revert Hs. absent. }
  destruct (StartFIPR d) as [d1 fipr]. destruct fipr as [[]| |];
    [|intros [= <- _] Hs; exfalso; revert Hs; absent..].
  destruct (preUpdate _ _) as [before child] eqn:P. destruct child as [childProc| |].
  - destruct (replaceProcess _ _ _) as [after out'] eqn:R. intros [= <- <-] _. by exists d1, before, childProc, after.
  - intros [= <- _] Hs. by destruct (Hno _ _ eq_refl Hs).
  - intros [= <- _] Hs. by destruct (Hno _ _ eq_refl Hs).
Qed.

(** C23: a daemon with a temporary child is shut down for an update only when
    that child has said that it is ready: nobody is shut down while nobody
    else takes the traffic. *)
Theorem update_hands_over {D} `{!DaemonLike D} mode w d tr out :
  mode <> SendMode ->
  handle (Some mode) FullUpdateSignal w d = (tr, out) -> DidShutdown ∈ tr ->
  exists pid post,
    tr = [NotifiedReload; FIPRStarted (Ok tt); ChildStarted pid; ChildReady pid; DidShutdown; Execve pid] ++ post /\
    readinessReceiver (pipeDeadline w) (pipeData w) = Ok tt /\ (out = Replaced <-> execFails w = false).
Proof.
  intros Hm Hh Hs. destruct (shut_down_for_update _ _ _ _ _ Hh Hs) as (d1 & before & childProc & after & _ & P & R & ->).
  destruct childProc as [pid|]; [|by apply preUpdate_no_child in P as [? _]].
  apply preUpdate_child in P as [-> Hr]. unfold replaceProcess in R. cbn [default] in R.
  destruct (execFails w); cbn [negb] in R.
  - destruct (Init [] _) as [d2 i]. destruct i as [[]| |]; [destruct (Start d2) as [d3 st]; destruct st as [[]| |]|..];
      injection R as <- <-; exists pid; eexists; (split; [reflexivity|by split]).
  - injection R as <- <-. exists pid, []. split; [reflexivity|by split].
Qed.

(** After a shutdown the daemon may run again, but under a context that is
    over. *)
Lemma restarted_cancelled {D} `{!DaemonLike D} `{!DaemonLaws D} mode w d tr d' :
  handle mode FullUpdateSignal w d = (tr, Continue d') -> DidShutdown ∈ tr -> cancelled d' = true.
Proof.
  intros Hh Hs. destruct (shut_down_for_update _ _ _ _ _ Hh Hs) as (d1 & _ & childProc & after & _ & _ & R & _).
  unfold replaceProcess in R. destruct (negb _); [done|].
  pose proof (init_keeps [] (Shutdown d1)) as Hi. rewrite shutdown_cancels in Hi.
  destruct (Init [] (Shutdown d1)) as [d2 i]. destruct i as [[]| |]; [|done..].
  pose proof (start_keeps d2) as Hst. destruct (Start d2) as [d3 st]. destruct st as [[]| |]; [|done..].
  injection R as _ <-. specialize (Hst eq_refl). cbn in *. congruence.
Qed.

(** An update that cannot replace the process ends the daemon. A receiver
    is not started again, because it is initialised without its private key,
    and its child is left running. A sender is started again under a context
    that its shutdown has cancelled, so that its signal handler may return at
    once and leave the new pipeline undrained. *)
Theorem failed_update_ends_daemon `{!Prims} :
  (forall read unmarshal parseKeys cpus parse ebpf outputs listens socketListens,
   let _ := receiverProcess read unmarshal parseKeys cpus parse ebpf outputs listens socketListens in
   forall mode w (p : Process Receiver.Daemon) tr out,
     mode <> SendMode -> execFails w = true ->
     handle (Some mode) FullUpdateSignal w p = (tr, out) -> DidShutdown ∈ tr ->
     (exists p', out = Returned p' /\ running p' = false) /\
     (exists pid, ChildStarted pid ∈ tr) /\ forall pid, ChildTerminated pid ∉ tr) /\
  (forall read unmarshal cpus loadInputs parse localFor dialed random maxPayload opened,
   let _ := senderProcess read unmarshal cpus loadInputs parse localFor dialed random maxPayload opened in
   forall w (p p' : Process Sender.Daemon) tr events,
     handle (Some SendMode) FullUpdateSignal w p = (tr, Continue p') -> DidShutdown ∈ tr ->
     running p' = true /\ SignalHandler (Some SendMode) (ContextDone :: events) p' = ([], Returned p')).
Proof.
  split.
  - intros read unmarshal parseKeys cpus parse ebpf outputs listens socketListens I mode w p tr out Hm Hw Hh Hs.
    destruct (shut_down_for_update _ _ _ _ _ Hh Hs) as (d1 & before & childProc & after & _ & P & R & ->).
    destruct childProc as [pid|]; [|by apply preUpdate_no_child in P as [? _]].
    apply preUpdate_child in P as [-> _]. unfold replaceProcess in R. rewrite Hw in R. cbn in R.
    unfold receiverInit in R. cbn [daemon] in R.
    pose proof (receiver_needs_key read parseKeys cpus parse (daemon d1)) as Hk.
    destruct (Receiver.Init _ _ _ _ _ _) as [d2 i]. cbn [snd] in Hk.
    destruct i as [[]| |]; [done|..]; injection R as <- <-;
      (split; [by eexists|split; [exists pid; cbn; set_unfold; tauto|intros q; absent]]).
  - intros read unmarshal cpus loadInputs parse localFor dialed random maxPayload opened I w p p' tr events Hh Hs.
    pose proof (senderProcess_laws read unmarshal cpus loadInputs parse localFor dialed random
      maxPayload opened) as L.
    assert (cancelled p' = true) as Hc by (eapply restarted_cancelled; eassumption).
    split; [|cbn [SignalHandler]; by rewrite Hc].
    destruct (shut_down_for_update _ _ _ _ _ Hh Hs) as (d1 & _ & childProc & after & _ & _ & R & _).
    unfold replaceProcess in R. destruct (negb _); [done|].
    destruct (Init [] _) as [d2 i]. destruct i as [[]| |]; [|done..].
    cbn in R. unfold senderStart in R. destruct (SenderDaemon.Start _ _ _ _ _ _ _ _); [|done..].
    by injection R as _ <-.
Qed.

(** An update that fails before the shutdown leaves the daemon running, but
    with the receiver for other processes' fragments started: nothing stops
    it again. *)
Lemma failed_update_keeps_fipr {D} `{!DaemonLike D} mode w d d1 tr out :
  notifies w = true -> StartFIPR d = (d1, Ok tt) -> (forall c, (preUpdate mode w).2 <> Ok c) ->
  handle mode FullUpdateSignal w d = (tr, out) -> out = Continue d1 /\ DidShutdown ∉ tr.
Proof.
  intros Hn Hf Hp Hh. assert (DidShutdown ∉ tr) as Hs.
  { intros Hs. destruct (shut_down_for_update _ _ _ _ _ Hh Hs) as (? & ? & c & ? & _ & P & _).
    specialize (Hp c). by rewrite P in Hp. }
  split; [|done]. unfold handle in Hh. rewrite Hn, Hf in Hh. cbn [negb] in Hh.
  destruct (preUpdate mode w) as [before child]. cbn [snd] in Hp.
  destruct child as [c| |]; [by destruct (Hp c)|by injection Hh as _ <-..].
Qed.

(* ------------------------------------------------------------------ *)
(** * The child after an update                                         *)
(* ------------------------------------------------------------------ *)

Definition still (r : waitResult) : Prop := r = StillRunning \/ r = WaitFails.

Lemma pollExit_ends fuel n n0 wait late kills forced :
  late n0 = true -> (n <= n0)%nat -> (n0 < n + fuel)%nat ->
  exists tr, pollExit fuel n wait late kills forced = Some tr /\
    (tr = [Gone] \/
     (tr = [LeftAlone] /\ kills = false \/
      exists last, tr = [SentKill; last] /\ kills = true /\
        (last = Gone <-> forced = Reaped \/ forced = NoChild)) /\
     exists m, (n <= m <= n0)%nat /\ late m = true /\ forall k, (n <= k <= m)%nat -> still (wait k)).
Proof.
  intros Hl. revert n. induction fuel as [|fuel IH]; intros n Hn Hf; [lia|]. cbn [pollExit].
  assert (still (wait n) -> exists tr,
    (if late n then if negb kills then Some [LeftAlone]
     else Some [SentKill; match forced with Reaped | NoChild => Gone | _ => LeftAlone end]
     else pollExit fuel (S n) wait late kills forced) = Some tr /\
    (tr = [Gone] \/
     (tr = [LeftAlone] /\ kills = false \/
      exists last, tr = [SentKill; last] /\ kills = true /\
        (last = Gone <-> forced = Reaped \/ forced = NoChild)) /\
     exists m, (n <= m <= n0)%nat /\ late m = true /\ forall k, (n <= k <= m)%nat -> still (wait k))) as Hw.
  { intros Hst. destruct (late n) eqn:L.
    - assert (exists m, (n <= m <= n0)%nat /\ late m = true /\ forall k, (n <= k <= m)%nat -> still (wait k)) as Hm.
      { exists n. split; [lia|]. split; [done|]. intros k ?. by replace k with n by lia. }
      destruct kills; cbn [negb]; eexists; (split; [reflexivity|]); right; (split; [|exact Hm]); [right|by left].
      eexists. split; [reflexivity|]. split; [done|]. destruct forced; intuition discriminate.
    - assert (n <> n0) as Hne by congruence.
      destruct (IH (S n) ltac:(lia) ltac:(lia)) as (tr & Ht & H). exists tr. split; [exact Ht|].
      destruct H as [H|[H (m & Hm & Hlm & Hk)]]; [by left|right]. split; [exact H|].
      exists m. split; [lia|]. split; [done|]. intros k ?.
      destruct (decide (k = n)) as [->|]; [done|]. apply Hk. lia. }
  destruct (wait n) eqn:W; [eexists; split; [done|by left]..| |]; apply Hw; [by left|by right].
Qed.

(** The process that takes over after an update asks the child to stop,
    waits for it until its deadline and kills it only then; its wait ends
    whatever the child does, and it stops taking the child's fragments. *)
Theorem child_is_stopped {D} `{!DaemonLike D} childPID pid polls n0 wait late kills forced (d : D) :
  Atoi childPID = Some pid -> late n0 = true -> (n0 < polls)%nat ->
  exists tr,
    PostUpdateActions childPID true polls wait late kills forced d =
      (Some (SentTerm :: tr), StopFIPR (StartFIPR d).1) /\
    (SentKill ∈ tr -> exists m, (m <= n0)%nat /\ late m = true /\ forall k, (k <= m)%nat -> still (wait k)) /\
    (kills = true -> forced = Reaped \/ forced = NoChild -> Gone ∈ tr).
Proof.
  intros Ha Hl Hp. assert (childPID <> []) as Hne by (by intros ->).
  unfold PostUpdateActions. rewrite bool_decide_eq_false_2, Ha by done. cbn [negb].
  destruct (pollExit_ends polls 0 n0 wait late kills forced Hl ltac:(lia) ltac:(lia)) as (tr & -> & H).
  exists tr. split; [done|]. split.
  - intros Hk. destruct H as [->|[_ (m & Hm & Hlm & Hs)]].
    { exfalso. revert Hk. absent. }
    exists m. split; [lia|]. split; [done|]. intros k ?. apply Hs. lia.
  - intros -> Hf. destruct H as [->|[[[_ ?]|(last & -> & _ & Hg)] _]]; [left|done|].
    apply Hg in Hf as ->. right. left.
Qed.

(* ------------------------------------------------------------------ *)
(** * Examples                                                          *)
(* ------------------------------------------------------------------ *)

Definition exampleWorld (data : bytes) (fails : bool) : World :=
  mkWorld true true (Ok (str "/usr/local/bin/sdsyslog")) true (Some 4242) true data fails.
Definition exampleProcess : Process Receiver.Daemon := mkProcess (startReceiver exampleKeyed).1 true false false.
#[local] Instance exampleReceiver : DaemonLike (Process Receiver.Daemon) :=
  receiverProcess (exampleFiles (str "one")) exampleUnmarshal exampleParse 4 (fun _ _ => Ok exampleSocket)
    true (Ok tt) (fun _ => true) true.
Definition RecvMode : gostring := str "receive".

(** The child reports, the parent stops, the exec fails: the receiver is
    gone. *)
Lemma update_hands_over_witness :
  let '(tr, out) := handle (Some RecvMode) FullUpdateSignal (exampleWorld (str "READY") true) exampleProcess in
  (exists pid post,
    tr = [NotifiedReload; FIPRStarted (Ok tt); ChildStarted pid; ChildReady pid; DidShutdown; Execve pid] ++ post) /\
  (exists p, out = Returned p /\ running p = false).
Proof.
  destruct (handle (Some RecvMode) FullUpdateSignal (exampleWorld (str "READY") true) exampleProcess)
    as [tr out] eqn:E.
  assert (match out with Returned p => running p = false | _ => False end /\
    existsb (fun e => match e with DidShutdown => true | _ => false end) tr = true) as [Ho Ht].
  { rewrite <- (f_equal fst E : _ = tr), <- (f_equal snd E : _ = out). vm_compute. split; reflexivity. }
  split.
  - destruct (update_hands_over RecvMode (exampleWorld (str "READY") true) exampleProcess tr out)
      as (pid & post & H & _); [discriminate|exact E| |exists pid, post; exact H].
    clear E Ho. apply existsb_exists in Ht as (e & He & Hd). apply list_elem_of_In in He.
    destruct e; first [discriminate Hd|exact He].
  - clear E Ht. destruct out as [p|p|]; [destruct Ho|exists p; split; [reflexivity|exact Ho]|destruct Ho].
Defined.

Lemma child_is_stopped_witness :
  exists tr,
    PostUpdateActions (str "4242") true 10 (fun _ => StillRunning) (fun n => (3 <=? n)%nat) true Reaped exampleProcess =
      (Some (SentTerm :: tr), StopFIPR (StartFIPR exampleProcess).1) /\ Gone ∈ tr.
Proof.
  destruct (child_is_stopped (str "4242") 4242 10 3 (fun _ => StillRunning) (fun n => (3 <=? n)%nat) true
    Reaped exampleProcess) as (tr & H & _ & Hg); [reflexivity|reflexivity|lia|].
  exists tr. split; [exact H|]. apply Hg; [reflexivity|by left].
Defined.

(** A child that says something else is stopped and the daemon keeps
    running. *)
Example silent_child :
  (handle (Some RecvMode) FullUpdateSignal (exampleWorld (str "REDY!") true) exampleProcess).1 =
  [NotifiedReload; FIPRStarted (Ok tt); ChildStarted 4242; ChildTerminated 4242; NotifiedStatus; NotifiedReady].
Proof. vm_compute. reflexivity. Qed.

(** The update of a sender that cannot be replaced. *)
Definition senderAfterStart : Process Sender.Daemon :=
  mkProcess (startSender (fun _ => NotExist) [z2b 7] (exampleSender [])).1 true false false.
#[local] Instance exampleSenderProcess : DaemonLike (Process Sender.Daemon) :=
  senderProcess (fun _ => NotExist) (fun _ o => (o, true)) 4 (fun i => Ok i) (fun _ _ => Ok exampleSocket)
    (fun _ => Ok exampleSocket) true (Ok [z2b 1]) (Ok 1400) (fun _ => Ok tt).
Example failed_sender_update :
  let '(tr, out) := SignalHandler (Some SendMode)
    [Delivered FullUpdateSignal (exampleWorld [] true); ContextDone] senderAfterStart in
  tr = [NotifiedReload; FIPRStarted (Ok tt); DidShutdown; Execve 0; DidInit (Ok tt); DidStart (Ok tt);
        NotifiedStatus; NotifiedReady] /\
  match out with Returned p => running p | _ => false end = true.
Proof. vm_compute. split; reflexivity. Qed.
