(* ===== verification/Logger.v ===== *)
(** The logger of both daemons, [internal/logctx]: the filter and the queue of
    events ([entry.go], [internal.go]), the writer behind it with its
    suppression of repetitions ([output.go], [internal.go]), the text of an
    event ([format.go]) and the tags of a context ([tagging.go]). Printing of
    times is an argument. *)
From S2P Require Import Prelude Text Registry Context Consts NetAddr GoStrings IoModules.

(* ------------------------------------------------------------------ *)
(** * Tags                                                              *)
(* ------------------------------------------------------------------ *)

(** The tag list of a context; every context owns its list. *)
Definition AppendCtxTag (oldTags : list gostring) (newTag : gostring) : list gostring := oldTags ++ [newTag].
Definition RemoveLastCtxTag (oldTags : list gostring) : list gostring := take (length oldTags - 1) oldTags.
Definition OverwriteCtxTag (oldTags newTags : list gostring) : list gostring := newTags.

Lemma tag_scope tags tag : RemoveLastCtxTag (AppendCtxTag tags tag) = tags.
Proof.
  unfold RemoveLastCtxTag, AppendCtxTag. rewrite length_app. cbn [length].
  replace (length tags + 1 - 1)%nat with (length tags) by lia. apply take_app_length.
Qed.

(* ------------------------------------------------------------------ *)
(** * Text                                                              *)
(* ------------------------------------------------------------------ *)

Definition ErrorLog : gostring := str "Error".

(** [strings.LastIndex] of one byte, [-1] when it is absent. *)
Fixpoint lastIndex (c : byte) (s : gostring) : Z :=
  match s with
  | [] => -1
  | b :: s =>
      let i := lastIndex c s in
      if 0 <=? i then i + 1 else if bool_decide (b = c) then 0 else -1
  end.

(** [padTimestamp] of what [timestamp.Format(time.RFC3339Nano)] gives. *)
Fixpoint padLeft (zeros : nat) (nanoseconds : gostring) : gostring :=
  match zeros with O => nanoseconds | S n => str "0" ++ padLeft n nanoseconds end.
Definition padTimestamp (formatted : gostring) : gostring :=
  let lastColon := lastIndex (z2b 58) formatted in
  if lastColon =? -1 then formatted
  else
    let majorFields := split (z2b 46) formatted in
    if (2 <? len majorFields) || (len majorFields <? 1) then formatted
    else
      let formatted :=
        if len majorFields =? 1
        then before formatted (lastColon + 3) ++ str ".000000000" ++ after formatted (lastColon + 3)
        else formatted in
      match split (z2b 46) formatted with
      | [tsPrefix; fraction] =>
          match split (z2b 45) fraction with
          | [nanoseconds; timezoneOffset] =>
              tsPrefix ++ str "." ++ padLeft (9 - length nanoseconds) nanoseconds ++ str "-" ++ timezoneOffset
          | _ => formatted
          end
      | _ => formatted
      end.

(** [Event.Format]; the zero time is not printed. *)
Definition Format (rfc3339 : gotime -> gostring) (event : Event) : gostring :=
  join (str " ")
    ((if evTimestamp event =? zeroTime then []
      else [str "[" ++ padTimestamp (rfc3339 (evTimestamp event)) ++ str "]"]) ++
     (if bool_decide (evTags event = []) then []
      else [str "[" ++ join (str "/") (evTags event) ++ str "]"]) ++
     (if bool_decide (evSeverity event = []) then [] else [str "[" ++ evSeverity event ++ str "]"]) ++
     (if bool_decide (evMessage event = []) then [] else [evMessage event])).

(** [LogEvent]'s text; [sprintf] is [fmt.Sprintf] with the variables, [vars]
    tells whether there are any. *)
Definition eventText (sprintf : gostring -> gostring) (vars : bool) (message : gostring) : gostring :=
  if negb vars || negb (contains (str "%") message) then message
  else sprintf (replaceAll (str "%w") (str "%v") message).

(* ------------------------------------------------------------------ *)
(** * Repetitions                                                       *)
(* ------------------------------------------------------------------ *)

Definition dedupWindow : Z := 5 * 10 ^ 9.
Definition minRepeats : Z := 10.
Definition suppressCooldown : Z := 60 * 10 ^ 9.

Record dedupState := mkDedup {
  lastMsg : gostring;
  repeatCount : Z;
  lastSuppressTime : gotime
}.
Definition initDedup : dedupState := mkDedup [] 0 zeroTime.

Definition suppressed (count : Z) (msg : gostring) : gostring :=
  str "Suppressed " ++ FormatInt count ++ str " repeated messages: " ++ msg.

(** [handleDuplication]: what is printed, if anything. *)
Definition handleDuplication (now : gotime) (latestEvent : Event) (state : dedupState)
  : option Event * dedupState :=
  if negb (bool_decide (evMessage latestEvent = [])) &&
     (now - evTimestamp latestEvent <=? dedupWindow) &&
     bool_decide (evMessage latestEvent = lastMsg state) then
    let repeatCount := repeatCount state + 1 in
    if (minRepeats <=? repeatCount) && (suppressCooldown <=? now - lastSuppressTime state) then
      (Some (mkEvent (evTimestamp latestEvent) (evSeverity latestEvent) (evTags latestEvent)
               (suppressed repeatCount (lastMsg state))),
       mkDedup (lastMsg state) 0 now)
    else (None, mkDedup (lastMsg state) repeatCount (lastSuppressTime state))
  else (Some latestEvent, mkDedup (evMessage latestEvent) 1 (lastSuppressTime state)).

(* ------------------------------------------------------------------ *)
(** * The logger                                                        *)
(* ------------------------------------------------------------------ *)

(** [formatted] and [raw] are what the outputs got so far, [None] when there
    is no such output; [locked] tells that a goroutine has gone with the
    mutex. *)
Record Logger := mkLogger {
  PrintLevel : Z;
  queue : list Event;
  dedup : dedupState;
  formatted : option (list gostring);
  raw : option (list Event);
  locked : bool;
  attempts : nat
}.
Definition setQueue (q : list Event) (l : Logger) : Logger :=
  mkLogger (PrintLevel l) q (dedup l) (formatted l) (raw l) (locked l) (attempts l).

(** [log]; [None]: the caller waits for the mutex forever. *)
Definition log (eventLevel : Z) (event : Event) (l : Logger) : option Logger :=
  if locked l then None
  else if (PrintLevel l <? eventLevel) && negb (bool_decide (evSeverity event = ErrorLog)) then Some l
  else Some (setQueue (queue l ++ [event]) l).

Definition maxOutputWriteFailures : nat := 12.

(** One of twelve attempts; [ok n] tells whether the [n]-th attempt of the
    writer's life succeeds. *)
Fixpoint try (tries n : nat) (ok : nat -> bool) : bool * nat :=
  match tries with
  | O => (false, n)
  | S tries => if ok n then (true, S n) else try tries (S n) ok
  end.

Section writer.
Context (rfc3339 : gotime -> gostring) (ok : nat -> bool).

(** Writing to the outputs there are. *)
Definition writeRaw (event : Event) (l : Logger) : Logger :=
  match raw l with
  | None => l
  | Some events =>
      let '(written, n) := try maxOutputWriteFailures (attempts l) ok in
      mkLogger (PrintLevel l) (queue l) (dedup l) (formatted l)
        (Some (if written then events ++ [event] else events)) (locked l) n
  end.
Definition writeFormatted (event : Event) (l : Logger) : Logger :=
  match formatted l with
  | None => l
  | Some texts =>
      let '(written, n) := try maxOutputWriteFailures (attempts l) ok in
      mkLogger (PrintLevel l) (queue l) (dedup l)
        (Some (if written then texts ++ [Format rfc3339 event] else texts)) (raw l) (locked l) n
  end.

Inductive writerResult :=
  | Exits (l : Logger)
  | Waits (l : Logger)
  | Goes (l : Logger).

(** A round of [outputWriter] at time [now]; [done] tells whether the logger
    was told to end. Without an output the writer returns, and it has not
    unlocked the mutex then. *)
Definition outputWriter (done : bool) (now : gotime) (l : Logger) : writerResult :=
  match queue l with
  | [] => if done then Exits l else Waits l
  | event :: rest =>
      match formatted l, raw l with
      | None, None =>
          Exits (mkLogger (PrintLevel l) (queue l) (dedup l) (formatted l) (raw l) true (attempts l))
      | _, _ =>
          let '(newEvent, state) := handleDuplication now event (dedup l) in
          let l := mkLogger (PrintLevel l) rest state (formatted l) (raw l) (locked l) (attempts l) in
          Goes (match newEvent with
                | None => l
                | Some newEvent => writeFormatted newEvent (writeRaw newEvent l)
                end)
      end
  end.

(** Rounds at the given times, until the writer stops or waits. *)
Fixpoint runWriter (done : bool) (times : list gotime) (l : Logger) : writerResult :=
  match times with
  | [] => Goes l
  | now :: times =>
      match outputWriter done now l with
      | Goes l => runWriter done times l
      | r => r
      end
  end.
End writer.

(** [GetFormattedLogLines]: a stable sort, by time with the zero time last. *)
Definition earlier (a b : Event) : bool :=
  if evTimestamp a =? zeroTime then false
  else if evTimestamp b =? zeroTime then true
  else evTimestamp a <? evTimestamp b.
Fixpoint insertEvent (e : Event) (l : list Event) : list Event :=
  match l with
  | [] => [e]
  | f :: l => if earlier f e then f :: insertEvent e l else e :: f :: l
  end.
Definition sortEvents (l : list Event) : list Event := foldr insertEvent [] l.
Definition GetFormattedLogLines (rfc3339 : gotime -> gostring) (l : Logger) : list gostring :=
  map (fun e => let msg := Format rfc3339 e in
                if hasSuffix [newline] msg then msg else msg ++ [newline]) (sortEvents (queue l)).

(* ------------------------------------------------------------------ *)
(** * What is printed                                                   *)
(* ------------------------------------------------------------------ *)

(** The printed events of a sequence, and the state after it. *)
Fixpoint printed (events : list (gotime * Event)) (state : dedupState) : list Event * dedupState :=
  match events with
  | [] => ([], state)
  | (now, event) :: events =>
      let '(newEvent, state) := handleDuplication now event state in
      let '(out, state) := printed events state in
      (match newEvent with Some e => e :: out | None => out end, state)
  end.

(** The events that say something else than the one before. *)
Fixpoint fresh (last : gostring) (events : list Event) : list Event :=
  match events with
  | [] => []
  | e :: events =>
      if bool_decide (evMessage e = last) then fresh (evMessage e) events
      else e :: fresh (evMessage e) events
  end.

(** The state follows the last message, whatever is printed. *)
Lemma handleDuplication_last now event state :
  lastMsg (handleDuplication now event state).2 = evMessage event.
Proof.
  unfold handleDuplication. destruct (_ && _) eqn:E; [|done].
  apply andb_true_iff in E as [_ E]. apply bool_decide_eq_true in E.
  by destruct (_ && _).
Qed.
(** What says something new is printed as it is; so is an empty message and
    one that has waited for more than five seconds. *)
Lemma handleDuplication_new now event state :
  evMessage event <> lastMsg state \/ evMessage event = [] \/ dedupWindow < now - evTimestamp event ->
  (handleDuplication now event state).1 = Some event.
Proof.
  intros H. unfold handleDuplication. destruct (_ && _) eqn:E; [|done]. exfalso.
  apply andb_true_iff in E as [[E1 E2]%andb_true_iff E3].
  apply negb_true_iff, bool_decide_eq_false in E1. apply bool_decide_eq_true in E3.
  destruct H as [|[|]]; [done|done|lia].
Qed.

Lemma printed_fresh events state :
  sublist (fresh (lastMsg state) (map snd events)) (printed events state).1.
Proof.
  revert state. induction events as [|[now event] events IH]; intros state; cbn [printed fresh map snd]; [done|].
  pose proof (handleDuplication_last now event state) as Hl.
  pose proof (handleDuplication_new now event state) as Hn.
  destruct (handleDuplication now event state) as [newEvent s]. cbn [fst snd] in *. subst.
  specialize (IH s). rewrite Hl in IH. destruct (printed events s) as [out s']. cbn [fst] in *.
  case_bool_decide as E.
  - destruct newEvent; [by apply sublist_cons|done].
  - rewrite Hn by (by left). by apply sublist_skip.
Qed.
Lemma printed_length events state : (length (printed events state).1 <= length events)%nat.
Proof.
  revert state. induction events as [|[now event] events IH]; intros state; cbn [printed]; [done|].
  destruct (handleDuplication now event state) as [newEvent s]. specialize (IH s).
  destruct (printed events s) as [out s']. cbn [fst length] in *. destruct newEvent; cbn [length]; lia.
Qed.

(** Notices about repetitions come at most once a minute. *)
Lemma notice_cooldown now event state e s :
  handleDuplication now event state = (Some e, s) -> e <> event ->
  suppressCooldown <= now - lastSuppressTime state /\ lastSuppressTime s = now /\
  minRepeats <= repeatCount state + 1 /\
  evMessage e = suppressed (repeatCount state + 1) (lastMsg state).
Proof.
  unfold handleDuplication. destruct (_ && _); [|by intros [= -> _]].
  destruct (_ && _) eqn:E; [|done]. intros [= <- <-] _. apply andb_true_iff in E as [E1 E2].
  apply Z.leb_le in E1, E2. done.
Qed.

Section writing.
Context (rfc3339 : gotime -> gostring).
Abbreviation good := (fun _ : nat => true).

Lemma round_prints done now event rest l texts :
  queue l = event :: rest -> formatted l = Some texts ->
  exists l', outputWriter rfc3339 good done now l = Goes l' /\ queue l' = rest /\
    dedup l' = (handleDuplication now event (dedup l)).2 /\
    formatted l' = Some (texts ++ match (handleDuplication now event (dedup l)).1 with
                                  | Some e => [Format rfc3339 e] | None => [] end) /\
    PrintLevel l' = PrintLevel l /\ locked l' = locked l.
Proof.
  intros Hq Hf. unfold outputWriter. rewrite Hq, Hf.
  destruct (handleDuplication now event (dedup l)) as [[e|] s]; cbn [fst snd].
  - eexists. split; [reflexivity|]. unfold writeRaw, writeFormatted. cbn [raw].
    destruct (raw l); cbn; by split_and!.
  - eexists. split; [reflexivity|]. cbn. by rewrite app_nil_r.
Qed.

(** The writer prints the queue in its order and to its end: every event
    that says something else than the one before it is printed as it is, and
    nothing is printed that was not asked for. *)
Theorem writer_prints_queue done times l texts :
  formatted l = Some texts -> length times = length (queue l) ->
  exists l' out,
    runWriter rfc3339 good done times l = Goes l' /\ queue l' = [] /\
    formatted l' = Some (texts ++ map (Format rfc3339) out) /\
    out = (printed (zip times (queue l)) (dedup l)).1 /\
    sublist (fresh (lastMsg (dedup l)) (queue l)) out /\ (length out <= length (queue l))%nat.
Proof.
  intros Hf Ht.
  assert (exists l', runWriter rfc3339 good done times l = Goes l' /\ queue l' = [] /\
    formatted l' = Some (texts ++ map (Format rfc3339) (printed (zip times (queue l)) (dedup l)).1)) as (l' & H1 & H2 & H3).
  { clear - Hf Ht. revert l texts Hf Ht. induction times as [|now times IH]; intros l texts Hf Ht.
    - exists l. destruct (queue l) eqn:E; [|done]. cbn. by rewrite app_nil_r.
    - destruct (queue l) as [|event rest] eqn:E; [done|].
      destruct (round_prints done now event rest l texts E Hf) as (l1 & R & Hq & Hd & Hf1 & _).
      cbn [runWriter]. rewrite R. destruct (IH l1 _ Hf1) as (l' & G & Q & F); [rewrite Hq; by injection Ht|].
      exists l'. split; [done|]. split; [done|]. rewrite F, Hq, Hd. cbn [zip zip_with printed].
      destruct (handleDuplication now event (dedup l)) as [newEvent s]. cbn [fst snd].
      destruct (printed (zip times rest) s) as [out s']. cbn [fst]. f_equal.
      rewrite <- app_assoc. f_equal. by destruct newEvent. }
  exists l', (printed (zip times (queue l)) (dedup l)).1. split_and!; [done..| |].
  - pose proof (printed_fresh (zip times (queue l)) (dedup l)) as Hp.
    assert (map snd (zip times (queue l)) = queue l) as Hz by (apply snd_zip; lia).
    by rewrite Hz in Hp.
  - etrans; [apply printed_length|]. rewrite length_zip. lia.
Qed.

(** Without an output the writer returns with the mutex: nobody can log any
    more. *)
Lemma writer_keeps_lock ok done now l event rest :
  queue l = event :: rest -> formatted l = None -> raw l = None ->
  exists l', outputWriter rfc3339 ok done now l = Exits l' /\
    forall level e, log level e l' = None.
Proof.
  intros Hq Hf Hr. unfold outputWriter. rewrite Hq, Hf, Hr. eexists. split; [reflexivity|]. done.
Qed.
End writing.

(** Errors are logged at every level, all else up to the level of the
    logger. *)
Lemma log_filter level event l :
  locked l = false ->
  exists l', log level event l = Some l' /\
    queue l' = queue l ++ (if (level <=? PrintLevel l) || bool_decide (evSeverity event = ErrorLog) then [event] else []).
Proof.
  intros Hl. unfold log. rewrite Hl.
  destruct (Z.ltb_spec (PrintLevel l) level), (Z.leb_spec level (PrintLevel l)); try lia; cbn;
    [case_bool_decide|]; cbn; eexists; (split; [reflexivity|]); cbn; by rewrite ?app_nil_r.
Qed.

(* ------------------------------------------------------------------ *)
(** * The order of the buffered lines                                   *)
(* ------------------------------------------------------------------ *)

Lemma insertEvent_perm e l : insertEvent e l ≡ₚ e :: l.
Proof.
  induction l as [|f l IH]; cbn; [done|]. destruct (earlier f e); [|done].
  rewrite IH. apply Permutation_swap.
Qed.
Lemma sortEvents_perm l : sortEvents l ≡ₚ l.
Proof. induction l as [|e l IH]; cbn; [done|]. by rewrite insertEvent_perm, IH. Qed.

(** No event is earlier than one before it. *)
Definition notLater (a b : Event) : Prop := earlier b a = false.
Lemma earlier_asym a b : earlier a b = true -> earlier b a = false.
Proof.
  unfold earlier. destruct (Z.eqb_spec (evTimestamp a) zeroTime), (Z.eqb_spec (evTimestamp b) zeroTime); try done.
  intros ?%Z.ltb_lt. apply Z.ltb_ge. lia.
Qed.
Lemma notLater_trans a b c : notLater a b -> notLater b c -> notLater a c.
Proof.
  unfold notLater, earlier.
  destruct (Z.eqb_spec (evTimestamp a) zeroTime), (Z.eqb_spec (evTimestamp b) zeroTime),
    (Z.eqb_spec (evTimestamp c) zeroTime); try done; try congruence.
  intros ?%Z.ltb_ge ?%Z.ltb_ge. apply Z.ltb_ge. lia.
Qed.
Lemma insertEvent_sorted e l : StronglySorted notLater l -> StronglySorted notLater (insertEvent e l).
Proof.
  induction 1 as [|f l Hs IH Hf]; cbn; [repeat constructor|].
  destruct (earlier f e) eqn:E.
  - constructor; [done|]. rewrite insertEvent_perm. constructor; [by apply earlier_asym|done].
  - constructor; [by constructor|]. constructor; [done|].
    eapply Forall_impl; [exact Hf|]. intros g Hg. by apply notLater_trans with f.
Qed.
(** Events of the same time keep their order. *)
Definition sameTime (t : gotime) (e : Event) : bool := evTimestamp e =? t.
Lemma insertEvent_stable t e l :
  List.filter (sameTime t) (insertEvent e l) = List.filter (sameTime t) (e :: l).
Proof.
  induction l as [|f l IH]; cbn [insertEvent]; [done|]. destruct (earlier f e) eqn:E; [|done].
  cbn [List.filter] in *. rewrite IH. unfold sameTime in *.
  destruct (Z.eqb_spec (evTimestamp e) t), (Z.eqb_spec (evTimestamp f) t); try done.
  subst. unfold earlier in E. destruct (Z.eqb_spec (evTimestamp f) zeroTime); [done|].
  destruct (Z.eqb_spec (evTimestamp e) zeroTime); [congruence|]. apply Z.ltb_lt in E. lia.
Qed.

(** The buffered events are listed from the oldest to the newest, events
    without a time last, and events of the same time in the order they were
    logged. *)
Theorem lines_chronological rfc3339 l :
  exists events,
    GetFormattedLogLines rfc3339 l =
      map (fun e => let msg := Format rfc3339 e in
                    if hasSuffix [newline] msg then msg else msg ++ [newline]) events /\
    events ≡ₚ queue l /\ StronglySorted notLater events /\
    forall t, List.filter (sameTime t) events = List.filter (sameTime t) (queue l).
Proof.
  exists (sortEvents (queue l)). split; [done|]. split; [apply sortEvents_perm|].
  generalize (queue l) as q. induction q as [|e q [Hs Hf]]; [split; [constructor|done]|].
  split; [by apply insertEvent_sorted|]. intros t. cbn [sortEvents foldr].
  rewrite insertEvent_stable. cbn [List.filter]. by rewrite Hf.
Qed.

(* ------------------------------------------------------------------ *)
(** * Examples                                                          *)
(* ------------------------------------------------------------------ *)

Definition exampleEvent (msg : gostring) : Event := mkEvent 1 (str "Warn") [] msg.
Definition exampleLogger (q : list Event) : Logger := mkLogger 1 q initDedup (Some []) None false 0.

Lemma writer_prints_queue_witness :
  exists l', runWriter (fun _ => []) (fun _ => true) false [1; 2; 3]
      (exampleLogger [exampleEvent (str "a"); exampleEvent (str "a"); exampleEvent (str "b")]) = Goes l' /\
    queue l' = [] /\ formatted l' = Some [str "[] [Warn] a"; str "[] [Warn] b"].
Proof.
  destruct (writer_prints_queue (fun _ => []) false [1; 2; 3]
    (exampleLogger [exampleEvent (str "a"); exampleEvent (str "a"); exampleEvent (str "b")]) [])
    as (l' & out & H1 & H2 & H3 & Ho & _); [reflexivity|reflexivity|].
  exists l'. split; [exact H1|]. split; [exact H2|]. rewrite H3, Ho. vm_compute. reflexivity.
Defined.

(** Twelve repetitions within a minute, then another message: the notice
    counts the first, printed one as suppressed, and the last two repetitions
    are never mentioned. *)
Example repetitions_forgotten :
  map evMessage (printed (map (fun e => (1, e)) (repeat (exampleEvent (str "x")) 12 ++ [exampleEvent (str "y")]))
    initDedup).1 = [str "x"; str "Suppressed 10 repeated messages: x"; str "y"].
Proof. vm_compute. reflexivity. Qed.

(** Half a second west of Greenwich becomes five nanoseconds. *)
Example half_second_lost :
  padTimestamp (str "2026-01-31T12:34:56.5-08:00") = str "2026-01-31T12:34:56.000000005-08:00".
Proof. vm_compute. reflexivity. Qed.
Example zero_padded : padTimestamp (str "2026-01-31T12:34:56Z") = str "2026-01-31T12:34:56.000000000Z".
Proof. vm_compute. reflexivity. Qed.
