(* ===== verification/Watch.v ===== *)
(** The watcher that wakes the reader of a log file, [iomodules/file/inotify]:
    the events of the kernel as they lie in the buffer of a read, what becomes
    of each, and the watcher together with the kernel and the reader, a step
    for every operation. *)
From S2P Require Import Prelude Text GoStrings Journal.

(* ------------------------------------------------------------------ *)
(** * Events                                                            *)
(* ------------------------------------------------------------------ *)

(** [unix.InotifyEvent], whose size is [unix.SizeofInotifyEvent]. *)
Record InotifyEvent := mkEvent {
  Wd : Z;
  Mask : Z;
  Cookie : Z;
  Len : Z
}.
#[export] Instance InotifyEvent_eq_dec : EqDecision InotifyEvent.
Proof. solve_decision. Defined.
Definition eventSize : Z := 16.

Definition IN_MODIFY : Z := 2.
Definition IN_CLOSE_WRITE : Z := 8.
Definition IN_MOVED_TO : Z := 128.
Definition IN_CREATE : Z := 256.

(** [binary.Read] of an event. *)
Definition readEvent (b : bytes) : InotifyEvent :=
  mkEvent (wrapS 32 (le_decode (slice b 0 4))) (le_decode (slice b 4 8))
    (le_decode (slice b 8 12)) (le_decode (slice b 12 16)).

(** The watcher's state; of the channels, which hold one element, whether it
    is there. *)
Record Watcher := mkWatcher {
  fileName : gostring;
  fileFD : Z;
  dirFD : Z;
  fileHasChanged : bool;
  fileHasRotated : bool
}.

(** What [InotifyAddWatch] gives: a watch, an error that waiting may solve, or
    another one. *)
Inductive addResult :=
  | Added (wd : Z)
  | AddLater
  | AddFails.

Definition has (mask bit : Z) : bool := negb (Z.land mask bit =? 0).
Definition fileChange (w : Watcher) (event : InotifyEvent) : bool :=
  (Wd event =? fileFD w) && (has (Mask event) IN_MODIFY || has (Mask event) IN_CLOSE_WRITE).
Definition rotation (w : Watcher) (event : InotifyEvent) (name : gostring) : bool :=
  (Wd event =? dirFD w) && bool_decide (name = fileName w) &&
  (has (Mask event) IN_CREATE || has (Mask event) IN_MOVED_TO).

Section watcher.
(** The results of the calls of [InotifyAddWatch], by their number. *)
Context (add : nat -> addResult).

(** [rotateInode] from call [n] on, with the tries that are left: the new
    watch, and the number of the next call. *)
Fixpoint rotateInode (tries n : nat) : option Z * nat :=
  match tries with
  | O => (None, n)
  | S tries =>
      match add n with
      | Added wd => (Some wd, S n)
      | AddFails => (None, S n)
      | AddLater => rotateInode tries (S n)
      end
  end.
Definition maxRetries : nat := 5.

(** What is done about one event, with the error it leaves. *)
Definition handleEvent (event : InotifyEvent) (name : gostring) (s : Watcher * nat)
  : (Watcher * nat) * res unit :=
  let '(w, n) := s in
  let w := mkWatcher (fileName w) (fileFD w) (dirFD w)
             (if fileChange w event then true else fileHasChanged w) (fileHasRotated w) in
  if rotation w event name then
    let '(newFileFD, n) := rotateInode maxRetries n in
    match newFileFD with
    | Some wd => ((mkWatcher (fileName w) wd (dirFD w) (fileHasChanged w) true, n), Ok tt)
    | None => ((w, n), Err (EWrap EMsg))
    end
  else ((w, n), Ok tt).

(** [processEvent] from [offset] on; the error is the last one. *)
Fixpoint processFrom (fuel : nat) (buf : bytes) (readEndIndex offset : Z) (s : Watcher * nat)
    (err : res unit) : res ((Watcher * nat) * res unit) :=
  match fuel with
  | O => Panic
  | S fuel =>
      if wrapU 32 (offset + eventSize) <=? wrapU 32 readEndIndex then
        eventBytes ← goSlice buf offset (wrapU 32 (offset + eventSize));
        let event := readEvent eventBytes in
        let end_ := wrapU 32 (wrapU 32 (offset + eventSize) + Len event) in
        nameBytes ← goSlice buf (wrapU 32 (offset + eventSize)) end_;
        let name := trimRight [[z2b 0]] nameBytes in
        let '(s, err) := handleEvent event name s in
        processFrom fuel buf readEndIndex end_ s err
      else Ok (s, err)
  end.
Definition processEvent (buf : bytes) (readEndIndex : Z) (s : Watcher * nat)
  : res ((Watcher * nat) * res unit) :=
  processFrom (S (length buf)) buf readEndIndex 0 s (Ok tt).

(** A sequence of events with their names. *)
Fixpoint handleAll (events : list (InotifyEvent * gostring)) (s : Watcher * nat) (err : res unit)
  : (Watcher * nat) * res unit :=
  match events with
  | [] => (s, err)
  | (event, name) :: events => let '(s, err) := handleEvent event name s in handleAll events s err
  end.
End watcher.

(* ------------------------------------------------------------------ *)
(** * The bytes of a read                                               *)
(* ------------------------------------------------------------------ *)

(** An event as the kernel writes it: its name is padded with zeros. *)
Record rawEvent := mkRaw { rawOf : InotifyEvent; rawName : gostring; rawPad : nat }.
Definition eventBytes (r : rawEvent) : bytes :=
  le_encode 4 (Wd (rawOf r)) ++ le_encode 4 (Mask (rawOf r)) ++ le_encode 4 (Cookie (rawOf r)) ++
  le_encode 4 (Len (rawOf r)) ++ rawName r ++ repeat (z2b 0) (rawPad r).
Record raw_ok (r : rawEvent) : Prop := {
  raw_wd : - 2 ^ 31 <= Wd (rawOf r) < 2 ^ 31;
  raw_mask : 0 <= Mask (rawOf r) < 2 ^ 32;
  raw_cookie : 0 <= Cookie (rawOf r) < 2 ^ 32;
  raw_len : Len (rawOf r) = len (rawName r) + Z.of_nat (rawPad r);
  raw_name : z2b 0 ∉ rawName r
}.
Definition named (r : rawEvent) : InotifyEvent * gostring := (rawOf r, rawName r).

Lemma trimFuel_zeros fuel k l :
  (k <= fuel)%nat -> (forall c, head l = Some c -> c <> z2b 0) ->
  trimFuel fuel [[z2b 0]] (repeat (z2b 0) k ++ l) = l.
Proof.
  intros Hk Hl. revert k Hk. induction fuel as [|fuel IH]; intros k Hk.
  - assert (k = O) as -> by lia. done.
  - destruct k as [|k]; cbn [repeat app trimFuel cutLength].
    + destruct l as [|c l]; [done|]. cbn. rewrite bool_decide_eq_false_2; [done|].
      intros <-. by apply (Hl (z2b 0)).
    + cbn [hasPrefix]. rewrite bool_decide_eq_true_2 by done. cbn [andb length drop]. apply IH. lia.
Qed.

Lemma rev_repeat_zero k : repeat (z2b 0) k = reverse (repeat (z2b 0) k).
Proof.
  induction k as [|k IH]; [done|]. cbn [repeat]. rewrite reverse_cons, <- IH.
  clear IH. induction k as [|k IH]; [done|]. cbn [repeat app]. by rewrite <- IH.
Qed.

Lemma trim_padded name k : z2b 0 ∉ name -> trimRight [[z2b 0]] (name ++ repeat (z2b 0) k) = name.
Proof.
  intros Hn. unfold trimRight, trimLeft. cbn [map]. change (reverse [z2b 0]) with [z2b 0].
  rewrite reverse_app.
  assert (reverse (repeat (z2b 0) k) = repeat (z2b 0) k) as ->.
  { symmetry. apply rev_repeat_zero. }
  rewrite trimFuel_zeros; [apply reverse_involutive| |].
  - rewrite length_app, repeat_length. lia.
  - intros c Hc ->. apply Hn. apply elem_of_reverse. destruct (reverse name); [done|].
    injection Hc as ->. by left.
Qed.

Lemma le_encode_decode32 z : 0 <= z < 2 ^ 32 -> le_decode (le_encode 4 z) = z.
Proof. intros. by apply le_roundtrip. Qed.

Lemma readEvent_head r : raw_ok r -> Len (rawOf r) < 2 ^ 32 ->
  readEvent (slice (eventBytes r) 0 16) = rawOf r.
Proof.
  intros [H1 H2 H3 H4 _] Hl. pose proof (len_nonneg (rawName r)).
  unfold eventBytes. destruct r as [[wd mask cookie l] name pad]. cbn [rawOf Wd Mask Cookie Len rawName rawPad] in *.
  set (a := le_encode 4 wd). set (b := le_encode 4 mask). set (c := le_encode 4 cookie). set (d := le_encode 4 l).
  assert (len a = 4 /\ len b = 4 /\ len c = 4 /\ len d = 4) as (Ha & Hb & Hc & Hd)
    by (by split_and!; apply len_le_encode).
  assert (slice (a ++ b ++ c ++ d ++ name ++ repeat (z2b 0) pad) 0 16 = a ++ b ++ c ++ d) as ->.
  { pose proof (slice_0 (a ++ b ++ c ++ d) (name ++ repeat (z2b 0) pad) 16) as E.
    rewrite <- !app_assoc in E. apply E. rewrite !len_app. lia. }
  unfold readEvent. f_equal.
  - rewrite slice_0 by done. unfold le_decode, a, le_encode. rewrite reverse_involutive, be_decode_encode.
    change (256 ^ Z.of_nat 4) with (2 ^ 32). by apply wrapS_wrapU.
  - rewrite slice_app by (done || lia). by apply le_encode_decode32.
  - rewrite (app_assoc a b), slice_app by (rewrite ?len_app; lia). by apply le_encode_decode32.
  - rewrite (app_assoc b c), (app_assoc a), slice_end by (rewrite ?len_app; lia).
    apply le_encode_decode32. lia.
Qed.

Lemma len_eventBytes r : raw_ok r -> len (eventBytes r) = 16 + Len (rawOf r).
Proof.
  intros [_ _ _ H _]. unfold eventBytes. rewrite !len_app, !len_le_encode, H. unfold len at 2.
  rewrite repeat_length. lia.
Qed.

Lemma slice_shift pre (l : bytes) lo hi :
  0 <= lo -> slice (pre ++ l) (len pre + lo) (len pre + hi) = slice l lo hi.
Proof.
  intros Hlo. unfold slice, len. rewrite drop_app, skipn_all2 by lia. cbn [app].
  replace (Z.to_nat (Z.of_nat (length pre) + lo) - length pre)%nat with (Z.to_nat lo) by lia.
  by replace (Z.of_nat (length pre) + hi - (Z.of_nat (length pre) + lo)) with (hi - lo) by lia.
Qed.

(** The two slices of an event that follows [pre]. *)
Lemma event_head pre r tail : raw_ok r -> Len (rawOf r) < 2 ^ 32 ->
  exists b, goSlice (pre ++ eventBytes r ++ tail) (len pre) (len pre + 16) = Ok b /\ readEvent b = rawOf r.
Proof.
  intros Hr Hl. pose proof (len_eventBytes r Hr) as Hb. pose proof (raw_len r Hr).
  pose proof (len_nonneg (rawName r)). pose proof (len_nonneg pre). pose proof (len_nonneg tail).
  exists (slice (eventBytes r) 0 16). split; [|by apply readEvent_head].
  rewrite goSlice_ok by (rewrite ?len_app; lia). f_equal.
  transitivity (slice (pre ++ eventBytes r ++ tail) (len pre + 0) (len pre + 16)); [by rewrite Z.add_0_r|].
  rewrite slice_shift by lia. unfold slice. rewrite !drop_0, take_app_le; [done|]. unfold len in Hb. lia.
Qed.

Lemma event_name pre r tail : raw_ok r ->
  exists b, goSlice (pre ++ eventBytes r ++ tail) (len pre + 16) (len pre + 16 + Len (rawOf r)) = Ok b /\
    trimRight [[z2b 0]] b = rawName r.
Proof.
  intros Hr. pose proof (len_eventBytes r Hr) as Hb. pose proof (raw_len r Hr) as Hl.
  pose proof (len_nonneg (rawName r)). pose proof (len_nonneg pre). pose proof (len_nonneg tail).
  exists (rawName r ++ repeat (z2b 0) (rawPad r)). split; [|by apply trim_padded, raw_name].
  rewrite goSlice_ok by (rewrite ?len_app; lia). f_equal.
  replace (len pre + 16 + Len (rawOf r)) with (len pre + (16 + Len (rawOf r))) by lia.
  rewrite slice_shift by lia. unfold eventBytes.
  set (h := le_encode 4 (Wd (rawOf r)) ++ le_encode 4 (Mask (rawOf r)) ++ le_encode 4 (Cookie (rawOf r)) ++
            le_encode 4 (Len (rawOf r))).
  assert (len h = 16) by (unfold h; rewrite !len_app, !len_le_encode; lia).
  transitivity (slice (h ++ (rawName r ++ repeat (z2b 0) (rawPad r)) ++ tail) 16 (16 + Len (rawOf r))).
  { unfold h. by rewrite <- !app_assoc. }
  apply slice_app; [done|]. rewrite len_app, Hl. unfold len at 3. rewrite repeat_length. lia.
Qed.

(** A batch is handled event by event. *)
Lemma processFrom_batch add rs pre rest fuel s err :
  Forall raw_ok rs -> (length rs < fuel)%nat ->
  len (pre ++ concat (map eventBytes rs) ++ rest) < 2 ^ 31 ->
  processFrom add fuel (pre ++ concat (map eventBytes rs) ++ rest)
    (len pre + len (concat (map eventBytes rs))) (len pre) s err =
    Ok (handleAll add (map named rs) s err).
Proof.
  intros Hok. revert pre fuel s err. induction Hok as [|r rs Hr Hok IH]; intros pre fuel s err Hf Hl;
    (destruct fuel as [|fuel]; [cbn in Hf; lia|]); cbn [processFrom map concat handleAll named] in *;
    rewrite ?len_app in Hl; pose proof (len_nonneg pre); pose proof (len_nonneg rest); unfold eventSize.
  - rewrite !len_nil in *. rewrite !wrapU_small by lia. by rewrite (proj2 (Z.leb_gt _ _)) by lia.
  - pose proof (len_eventBytes r Hr) as Hb. pose proof (len_nonneg (concat (map eventBytes rs))).
    assert (0 <= Len (rawOf r)) by (rewrite (raw_len _ Hr); pose proof (len_nonneg (rawName r)); lia).
    rewrite len_app, (wrapU_small 32 (len pre + 16)), (wrapU_small 32 (len pre + (_ + _))) by lia.
    rewrite (proj2 (Z.leb_le _ _)) by lia. rewrite <- app_assoc.
    destruct (event_head pre r (concat (map eventBytes rs) ++ rest) Hr) as (b & -> & Hread); [lia|].
    cbn [mbind res_bind]. rewrite Hread, wrapU_small by lia.
    destruct (event_name pre r (concat (map eventBytes rs) ++ rest) Hr) as (nb & -> & Hname).
    cbn [mbind res_bind]. rewrite Hname. destruct (handleEvent _ _ _ _) as [s' err'] eqn:E.
    specialize (IH (pre ++ eventBytes r) fuel s' err').
    rewrite !len_app, Hb, <- !app_assoc in IH.
    replace (len pre + 16 + Len (rawOf r)) with (len pre + (16 + Len (rawOf r))) by lia.
    rewrite Hb, Z.add_assoc. apply IH; [cbn in Hf; lia|]. lia.
Qed.

Lemma concat_events_length rs : (length rs <= length (concat (map eventBytes rs)))%nat.
Proof.
  induction rs as [|r rs IH]; [done|]. cbn [map concat length]. rewrite length_app.
  assert (16 <= length (eventBytes r))%nat; [|lia].
  unfold eventBytes. rewrite !length_app. pose proof (len_le_encode 4 (Wd (rawOf r))).
  pose proof (len_le_encode 4 (Mask (rawOf r))). pose proof (len_le_encode 4 (Cookie (rawOf r))).
  pose proof (len_le_encode 4 (Len (rawOf r))). unfold len in *. lia.
Qed.


(** A read of the kernel's queue is taken apart into exactly the events
    that were written, whatever the padding of their names and whatever an
    earlier read has left behind them in the buffer, and each is handled in
    its order. *)
Theorem batch_processed add rs rest s :
  Forall raw_ok rs -> len (concat (map eventBytes rs) ++ rest) < 2 ^ 31 ->
  processEvent add (concat (map eventBytes rs) ++ rest) (len (concat (map eventBytes rs))) s =
    Ok (handleAll add (map named rs) s (Ok tt)).
Proof.
  intros Hok Hl. unfold processEvent. apply (processFrom_batch add rs [] rest); [done| |done].
  pose proof (concat_events_length rs). rewrite length_app. lia.
Qed.

(** The error of a rotation is forgotten when another event follows in the
    same read. *)
Lemma rotation_error_forgotten add event name event' name' s s1 s2 :
  handleEvent add event name s = (s1, Err (EWrap EMsg)) ->
  handleEvent add event' name' s1 = (s2, Ok tt) ->
  handleAll add [(event, name); (event', name')] s (Ok tt) = (s2, Ok tt).
Proof. intros H1 H2. cbn [handleAll]. by rewrite H1, H2. Qed.

(* ------------------------------------------------------------------ *)
(** * Kernel, watcher and reader                                        *)
(* ------------------------------------------------------------------ *)

(** How far [NewInput] and [inotify.New] have come: the file is open at its
    position; it is watched; its directory is watched too, and the watcher and
    the reader run. *)
Inductive startPhase := Opened | FileWatched | Watching.
#[export] Instance startPhase_eq_dec : EqDecision startPhase.
Proof. solve_decision. Defined.

(** [lens] are the lengths of the files by inode, [path] is the inode at the
    watched path, [watches] the watches on inodes, [kq] the kernel's queue of
    events. [rIno] and [rOff] are the inode and the offset of the reader
    ([FileInput.reader]), which either reads or waits for a channel. [missed]
    is no state of the program: it says that something happened that the
    program cannot notice or does not recover from, and that the watcher has
    followed no rotation to a file that the reader has not open since. *)
Record Sys := mkSys {
  lens : gmap Z Z;
  path : Z;
  watches : gmap Z Z;
  nextWd : Z;
  kq : list (InotifyEvent * gostring);
  watcher : Watcher;
  rIno : Z;
  rOff : Z;
  waiting : bool;
  at_ : startPhase;
  missed : bool
}.

Definition lenOf (s : Sys) (ino : Z) : Z := default 0 (lens s !! ino).
Definition modified (wd : Z) : InotifyEvent * gostring := (mkEvent wd IN_MODIFY 0 0, []).
Definition setKernel (kq_ : list (InotifyEvent * gostring)) (missed_ : bool) (s : Sys) : Sys :=
  mkSys (lens s) (path s) (watches s) (nextWd s) kq_ (watcher s) (rIno s) (rOff s) (waiting s) (at_ s) missed_.
Definition enqueue (events : list (InotifyEvent * gostring)) (s : Sys) : Sys :=
  setKernel (kq s ++ events) (missed s) s.
Definition setLen (ino n : Z) (s : Sys) : Sys :=
  mkSys (<[ino := n]> (lens s)) (path s) (watches s) (nextWd s) (kq s) (watcher s) (rIno s) (rOff s) (waiting s)
    (at_ s) (missed s).
Definition setPath (ino : Z) (s : Sys) : Sys :=
  mkSys (lens s) ino (watches s) (nextWd s) (kq s) (watcher s) (rIno s) (rOff s) (waiting s) (at_ s) (missed s).
Definition setWatch (watches_ : gmap Z Z) (nextWd_ : Z) (w : Watcher) (s : Sys) : Sys :=
  mkSys (lens s) (path s) watches_ nextWd_ (kq s) w (rIno s) (rOff s) (waiting s) (at_ s) (missed s).
Definition setPhase (p : startPhase) (s : Sys) : Sys :=
  mkSys (lens s) (path s) (watches s) (nextWd s) (kq s) (watcher s) (rIno s) (rOff s) (waiting s) p (missed s).
Definition setMissed (b : bool) (s : Sys) : Sys := setKernel (kq s) b s.
Definition setReader (ino off : Z) (wait : bool) (w : Watcher) (s : Sys) : Sys :=
  mkSys (lens s) (path s) (watches s) (nextWd s) (kq s) w ino off wait (at_ s) (missed s).
Definition tookChanged (w : Watcher) : Watcher := mkWatcher (fileName w) (fileFD w) (dirFD w) false (fileHasRotated w).
Definition tookRotated (w : Watcher) : Watcher := mkWatcher (fileName w) (fileFD w) (dirFD w) (fileHasChanged w) false.
Definition withFileFD (wd : Z) (w : Watcher) : Watcher :=
  mkWatcher (fileName w) wd (dirFD w) (fileHasChanged w) (fileHasRotated w).
Definition withDirFD (wd : Z) (w : Watcher) : Watcher :=
  mkWatcher (fileName w) (fileFD w) wd (fileHasChanged w) (fileHasRotated w).

(** What the kernel does with an event: it queues it, merges it with the same
    one at the end of its queue, or drops it because the queue is full. *)
Inductive delivery := Queued | Merged | Lost.
Definition deliver (d : delivery) (events : list (InotifyEvent * gostring)) (s : Sys) : option Sys :=
  match d with
  | Queued => Some (enqueue events s)
  | Merged => if bool_decide (last (kq s) = last events /\ events <> []) then Some s else None
  | Lost => Some (setMissed true s)
  end.
Definition fileEvents (ino : Z) (s : Sys) : list (InotifyEvent * gostring) :=
  map (fun wi => modified wi.1) (filter (fun wi => wi.2 = ino) (map_to_list (watches s))).

(** What other programs do: they append to a file, cut one, put another file
    in the path's place, or cause any event at all. What the program does: it
    adds its two watches; the watcher takes an event, and [add] is what the
    calls of [InotifyAddWatch] give; the reader reads to the end, or fails on
    the way; it takes a channel's element. When a rotation has been told, the
    file is read to its end before the path is opened: [known] tells whether
    the module knows its file's inode; in [TakeRotatedFails] this read fails at
    [off], or it comes to the end and [Stat] of the path never succeeds. That
    the path can be opened after that is assumed, and that the module is not
    stopped ([FileInput.reopenLogfile] and [FileInput.reader] have both). *)
Inductive action :=
  | Write (ino n : Z) (d : delivery)
  | Truncate (ino n : Z) (d : delivery)
  | Replace (ino n mask : Z) (d : delivery)
  | Noise (event : InotifyEvent) (name : gostring)
  | AddFileWatch
  | AddDirWatch
  | Handle (add : nat -> addResult)
  | Read
  | ReadFails (off : Z)
  | TakeChanged
  | TakeRotated (known : bool)
  | TakeRotatedFails (off : Z).
Definition running (s : Sys) : bool := bool_decide (at_ s = Watching).

(** The watcher takes the first event of the queue. The old watch is gone as
    soon as a rotation is tried, the new one is there when it succeeds. *)
Definition takeEvent (add : nat -> addResult) (s : Sys) : option Sys :=
  match kq s with
  | [] => None
  | (event, name) :: rest =>
      let add n := match add n with Added _ => Added (nextWd s) | r => r end in
      let '((w, calls), err) := handleEvent add event name (watcher s, O) in
      let gone := delete (fileFD (watcher s)) (watches s) in
      Some (if bool_decide (calls = O) then setKernel rest (missed s) (setWatch (watches s) (nextWd s) w s)
            else if isOk err then setKernel rest (missed s && (rIno s =? path s)) (setWatch (<[nextWd s := path s]> gone) (nextWd s + 1) w s)
            else setKernel rest true (setWatch gone (nextWd s) w s))
  end.

Definition exec (a : action) (s : Sys) : option Sys :=
  match a with
  | Write ino n d =>
      if bool_decide (is_Some (lens s !! ino)) && (0 <? n)
      then deliver d (fileEvents ino s) (setLen ino (lenOf s ino + n) s) else None
  | Truncate ino n d =>
      if bool_decide (is_Some (lens s !! ino)) && (0 <=? n) && (n <? lenOf s ino)
      then deliver d (fileEvents ino s)
             (setMissed (missed s || ((ino =? rIno s) && (n <? rOff s))) (setLen ino n s)) else None
  | Replace ino n mask d =>
      if bool_decide (lens s !! ino = None) && (0 <=? n) && (has mask IN_CREATE || has mask IN_MOVED_TO) then
        let s' := setPath ino (setLen ino n s) in
        if running s then deliver d [(mkEvent (dirFD (watcher s)) mask 0 0, fileName (watcher s))] s'
        else Some (setMissed true s')
      else None
  | Noise event name => Some (enqueue [(event, name)] s)
  | AddFileWatch =>
      if bool_decide (at_ s = Opened)
      then Some (setPhase FileWatched (setWatch (<[nextWd s := path s]> (watches s)) (nextWd s + 1)
                                         (withFileFD (nextWd s) (watcher s)) s)) else None
  | AddDirWatch =>
      if bool_decide (at_ s = FileWatched)
      then Some (setPhase Watching (setWatch (watches s) (nextWd s + 1) (withDirFD (nextWd s) (watcher s)) s)) else None
  | Handle add => if running s then takeEvent add s else None
  | Read =>
      if running s && negb (waiting s)
      then Some (setReader (rIno s) (Z.max (rOff s) (lenOf s (rIno s))) true (watcher s) s) else None
  | ReadFails off =>
      if running s && negb (waiting s) && (rOff s <=? off) && (off <=? Z.max (rOff s) (lenOf s (rIno s)))
      then Some (setMissed true (setReader (rIno s) off true (watcher s) s)) else None
  | TakeChanged =>
      if running s && waiting s && fileHasChanged (watcher s)
      then Some (setReader (rIno s) (rOff s) false (tookChanged (watcher s)) s) else None
  | TakeRotated known =>
      if running s && waiting s && fileHasRotated (watcher s)
      then Some (setReader (path s)
                   (if (rIno s =? path s) && known then Z.max (rOff s) (lenOf s (path s)) else 0) false
                   (tookRotated (watcher s)) s) else None
  | TakeRotatedFails off =>
      if running s && waiting s && fileHasRotated (watcher s) &&
         ((rOff s <=? off) && (off <=? Z.max (rOff s) (lenOf s (rIno s))))
      then Some (setMissed true (setReader (rIno s) off false (tookRotated (watcher s)) s)) else None
  end.











Lemma setMissed_same s : setMissed (missed s) s = s.
Proof. by destruct s. Qed.













(* ------------------------------------------------------------------ *)
(** * Examples                                                          *)
(* ------------------------------------------------------------------ *)

Definition exampleWatcher : Watcher := mkWatcher (str "syslog") 1 2 false false.
(** The file has just been opened, at offset 40 of its 100 bytes. *)
Definition exampleSys : Sys :=
  mkSys {[ 10 := 100 ]} 10 ∅ 1 [] (mkWatcher (str "syslog") 0 0 false false) 10 40 false Opened false.


Fixpoint execAll (as_ : list action) (s : Sys) : option Sys :=
  match as_ with
  | [] => Some s
  | a :: as_ => match exec a s with Some s => execAll as_ s | None => None end
  end.

Definition granted : action := Handle (fun _ => Added 0).
Definition refused : action := Handle (fun _ => AddLater).
Definition startUp : list action := [AddFileWatch; AddDirWatch].



(** The reader after a run: its file, its offset, the file at the path and its
    length, and whether something was missed. *)
Definition outcome (as_ : list action) : option (Z * Z * Z * Z * bool) :=
  s ← execAll as_ exampleSys; Some (rIno s, rOff s, path s, lenOf s (path s), missed s).

(** The file is rotated between its opening and the watch on its directory:
    the module stays with the old file, until the next rotation. *)
Example rotated_in_start :
  outcome ([AddFileWatch; Replace 11 50 IN_CREATE Queued; AddDirWatch; Read]) = Some (10, 100, 11, 50, true) /\
  outcome ([AddFileWatch; Replace 11 50 IN_CREATE Queued; AddDirWatch; Read; Replace 12 7 IN_CREATE Queued;
            granted; TakeRotated true; Read]) = Some (12, 7, 12, 7, false).
Proof. vm_compute. split; reflexivity. Qed.
(** The new file cannot be watched in five tries, or its event is dropped, or
    the file is cut: the reader waits where it is. *)
Example stays_behind :
  outcome (startUp ++ [Read; Replace 11 50 IN_CREATE Queued; refused]) = Some (10, 100, 11, 50, true) /\
  outcome (startUp ++ [Read; Replace 11 50 IN_CREATE Lost]) = Some (10, 100, 11, 50, true) /\
  outcome (startUp ++ [Read; Truncate 10 0 Queued; granted; TakeChanged; Read; Write 10 60 Queued; granted;
                       TakeChanged; Read]) = Some (10, 100, 10, 60, true).
Proof. vm_compute. repeat split. Qed.

Definition exampleBatch : list rawEvent :=
  [mkRaw (mkEvent 1 IN_MODIFY 0 0) [] 0; mkRaw (mkEvent (-1) 16384 0 0) [] 0;
   mkRaw (mkEvent 2 IN_MOVED_TO 77 16) (str "syslog") 10].
Lemma exampleBatch_ok : Forall raw_ok exampleBatch.
Proof.
  repeat constructor; cbn [rawOf rawName rawPad Wd Mask Cookie Len]; try lia; try (by vm_compute);
    by apply (bool_decide_unpack _); vm_compute.
Qed.

Lemma batch_processed_witness :
  processEvent (fun _ => Added 3) (concat (map eventBytes exampleBatch) ++ str "left over")
    (len (concat (map eventBytes exampleBatch))) (exampleWatcher, O) =
    Ok ((mkWatcher (str "syslog") 3 2 true true, 1%nat), Ok tt).
Proof.
  rewrite (batch_processed (fun _ => Added 3) exampleBatch (str "left over") (exampleWatcher, O));
    [reflexivity|exact exampleBatch_ok|reflexivity].
Defined.

(** When the new file cannot be watched in five tries, nobody is told of it:
    the reader stays with the old file, and no later change of the new one
    has a watch. *)
Example rotation_given_up :
  handleAll (fun _ => AddLater) [(mkEvent 2 IN_CREATE 0 0, str "syslog")] (exampleWatcher, O) (Ok tt) =
    ((exampleWatcher, 5%nat), Err (EWrap EMsg)).
Proof. reflexivity. Qed.
