(* ===== verification/MetricsServer.v ===== *)
(** The HTTP server of the metrics, [internal/metrics/server]: the paths, the
    time ranges and the four kinds of request, answered from what the registry
    promises ([MetricSource]), with the registry of [Metrics] as an instance.
    A request is what [net/http] has made of it: method, cleaned path, form
    values and body. *)
From S2P Require Import Prelude Text Registry Context Consts NetAddr GoStrings Scaling Metrics Network.

(* ------------------------------------------------------------------ *)
(** * Requests and replies                                              *)
(* ------------------------------------------------------------------ *)

Definition MethodGet : gostring := str "GET".
Definition MethodPost : gostring := str "POST".

Record Request := mkRequest {
  Method : gostring;
  Path : gostring;
  FormValue : gostring -> gostring;
  Body : res bytes
}.

(** [JMetric] *)
Record JMetric := mkJMetric {
  jName : gostring;
  jDescription : gostring;
  jNamespace : gostring;
  jType : gostring;
  jTimestamp : gostring;
  jRaw : gostring;
  jUnit : gostring;
  jInterval : gostring
}.

Inductive reply :=
  | Status (code : Z)
  | HelpPage
  | JError (msg : gostring)
  | JMetrics (results : list JMetric)
  | JSingle (result : JMetric)
  | JBulk (results : list (list JMetric))
  | Redirect.
Definition StatusBadRequest : Z := 400.
Definition StatusNotFound : Z := 404.
Definition StatusMethodNotAllowed : Z := 405.
Definition StatusInternalServerError : Z := 500.
Definition noResults : gostring := str "Search returned no results".

(** [MetricFilter] *)
Record MetricFilter := mkFilter {
  SearchType : gostring;
  AggregationType : gostring;
  FilterName : gostring;
  Namespace : gostring;
  StartTime : gostring;
  EndTime : gostring
}.

Definition DiscoverMode : gostring := str "discover".
Definition DataMode : gostring := str "data".
Definition AggregationMode : gostring := str "aggregation".
Definition BulkMode : gostring := str "bulk".
Definition DiscoveryPath : gostring := str "/" ++ DiscoverMode ++ str "/".
Definition DataPath : gostring := str "/" ++ DataMode ++ str "/".
Definition AggregationPath : gostring := str "/" ++ AggregationMode ++ str "/".
Definition BulkPath : gostring := str "/" ++ BulkMode ++ str "/".

(** What the daemon hands to the server: [DataSearcher], [AggSearcher] with
    the text of its errors, [Discoverer]. *)
Class MetricSource := {
  search : gostring -> list gostring -> gotime -> gotime -> list Metric;
  aggregate : gostring -> gostring -> list gostring -> gotime -> gotime -> Metric + gostring;
  discover : gostring -> gostring -> list gostring -> gostring -> gostring -> list Metric
}.

(* ------------------------------------------------------------------ *)
(** * Handlers                                                          *)
(* ------------------------------------------------------------------ *)

Section server.
(** Of Go's packages: durations and times as texts, numbers as texts, and the
    request of a bulk body, [None] when it does not decode strictly. *)
Context (ParseDuration : gostring -> option Z) (ParseTime : gostring -> option gotime).
Context (FormatTime : gotime -> gostring) (FormatDuration : Z -> gostring) (FormatRaw : raw -> gostring).
Context (ToLower : gostring -> gostring) (decodeBulk : bytes -> option (list MetricFilter)).

(** [Metric.Convert] *)
Definition Convert (inMetric : Metric) : JMetric :=
  mkJMetric (metName inMetric) (metDescription inMetric) (joinNS (metNamespace inMetric))
    (metType inMetric) (FormatTime (metTimestamp inMetric)) (FormatRaw (metRaw inMetric))
    (metUnit inMetric) (FormatDuration (metInterval inMetric)).

(** A time that is given, not left out: relative to now, or absolute. *)
Definition signed (text : gostring) : bool := hasPrefix (str "-") text || hasPrefix (str "+") text.
Definition givenTime (currentTime : gotime) (text : gostring) : res gotime :=
  if signed text then
    match ParseDuration text with Some dur => Ok (currentTime + dur) | None => Err (EWrap EMsg) end
  else
    match ParseTime text with Some t => Ok t | None => Err (EWrap EMsg) end.
Definition parseTimeRange (currentTime : gotime) (rawStartTime rawEndTime : gostring) : res (gotime * gotime) :=
  startTime ← (if bool_decide (rawStartTime = []) then Ok (currentTime - 60 * Second)
               else givenTime currentTime rawStartTime);
  endTime ← (if bool_decide (rawEndTime = str "now") || bool_decide (rawEndTime = []) then Ok currentTime
             else givenTime currentTime rawEndTime);
  if endTime <? startTime then Err EMsg else Ok (startTime, endTime).

Context `{!MetricSource}.

Definition listReply (results : list Metric) : reply :=
  if bool_decide (map Convert results = []) then JError noResults else JMetrics (map Convert results).

Definition handleData (now : gotime) (r : Request) : reply :=
  if negb (bool_decide (Method r = MethodGet)) then Status StatusMethodNotAllowed
  else
    let reqNamespace := split slash (TrimPrefix (Path r) DataPath) in
    match parseTimeRange now (FormValue r (str "starttime")) (FormValue r (str "endtime")) with
    | Ok (reqStartTime, reqEndTime) =>
        listReply (search (FormValue r (str "name")) reqNamespace reqStartTime reqEndTime)
    | _ => Status StatusBadRequest
    end.

Definition handleAggregation (now : gotime) (r : Request) : reply :=
  if negb (bool_decide (Method r = MethodGet)) then Status StatusMethodNotAllowed
  else
    let reqNamespace := split slash (TrimPrefix (Path r) AggregationPath) in
    match parseTimeRange now (FormValue r (str "starttime")) (FormValue r (str "endtime")) with
    | Ok (reqStartTime, reqEndTime) =>
        match aggregate (FormValue r (str "aggregation")) (FormValue r (str "name")) reqNamespace
                reqStartTime reqEndTime with
        | inl result => JSingle (Convert result)
        | inr msg => JError msg
        end
    | _ => Status StatusBadRequest
    end.

(** The type to look for; [None] when there is no such type. *)
Definition reqType (rawType : gostring) : option gostring :=
  let type := ToLower rawType in
  if bool_decide (type = Counter) then Some Counter
  else if bool_decide (type = Gauge_) then Some Gauge_
  else if bool_decide (type = Summary) then Some Summary
  else if bool_decide (rawType = []) then Some [] else None.
Definition handleDiscovery (r : Request) : reply :=
  if negb (bool_decide (Method r = MethodGet)) then Status StatusMethodNotAllowed
  else
    let rawNamespace := TrimPrefix (Path r) DiscoveryPath in
    let reqNamespace := if bool_decide (rawNamespace = []) then [] else split slash rawNamespace in
    match reqType (FormValue r (str "type")) with
    | None => Status StatusBadRequest
    | Some type =>
        listReply (discover (FormValue r (str "name")) (FormValue r (str "description")) reqNamespace
                     (FormValue r (str "unit")) type)
    end.

(** The answer to one filter of a bulk request, or the reply that ends the
    request. *)
Definition bulkOne (now : gotime) (searchFilter : MetricFilter) : list JMetric + reply :=
  if negb (bool_decide (SearchType searchFilter = AggregationMode)) &&
     negb (bool_decide (SearchType searchFilter = DataMode)) then inr (Status StatusBadRequest)
  else if bool_decide (SearchType searchFilter = AggregationMode) &&
          bool_decide (AggregationType searchFilter = []) then inr (Status StatusBadRequest)
  else
    match parseTimeRange now (StartTime searchFilter) (EndTime searchFilter) with
    | Ok (reqStartTime, reqEndTime) =>
        let reqNamespace := split slash (Namespace searchFilter) in
        if negb (bool_decide (AggregationType searchFilter = [])) then
          match aggregate (AggregationType searchFilter) (FilterName searchFilter) reqNamespace
                  reqStartTime reqEndTime with
          | inl agg => inl [Convert agg]
          | inr msg => inr (JError msg)
          end
        else inl (map Convert (search (FilterName searchFilter) reqNamespace reqStartTime reqEndTime))
    | _ => inr (Status StatusBadRequest)
    end.
(** The loop; [clock] is the time at each round. *)
Fixpoint bulkAll (clock : nat -> gotime) (n : nat) (filters : list MetricFilter)
  : list (list JMetric) + reply :=
  match filters with
  | [] => inl []
  | searchFilter :: filters =>
      match bulkOne (clock n) searchFilter with
      | inr failed => inr failed
      | inl results =>
          match bulkAll clock (S n) filters with
          | inl allResults => inl (results :: allResults)
          | inr failed => inr failed
          end
      end
  end.
Definition handleBulk (clock : nat -> gotime) (r : Request) : reply :=
  if negb (bool_decide (Method r = MethodPost)) then Status StatusMethodNotAllowed
  else match Body r with
  | Ok body =>
      match decodeBulk body with
      | None => Status StatusBadRequest
      | Some filters =>
          match bulkAll clock 0 filters with
          | inr failed => failed
          | inl allResults => if bool_decide (allResults = []) then JError noResults else JBulk allResults
          end
      end
  | _ => Status StatusInternalServerError
  end.

Definition handleRoot (r : Request) : reply :=
  if negb (bool_decide (Method r = MethodGet)) then Status StatusMethodNotAllowed
  else if negb (bool_decide (Path r = str "/")) then Status StatusNotFound
  else HelpPage.

(** The patterns that [SetupListener] registers, as [http.ServeMux] applies
    them: a pattern that ends in a slash takes everything below it, and its
    own path without the slash is redirected unless it has a pattern. *)
Definition serve (clock : nat -> gotime) (r : Request) : reply :=
  if hasPrefix DiscoveryPath (Path r) then handleDiscovery r
  else if hasPrefix DataPath (Path r) then handleData (clock 0%nat) r
  else if hasPrefix AggregationPath (Path r) then handleAggregation (clock 0%nat) r
  else if hasPrefix BulkPath (Path r) || bool_decide (Path r = str "/" ++ BulkMode) then handleBulk clock r
  else if bool_decide (Path r ++ str "/" ∈ [DiscoveryPath; DataPath; AggregationPath]) then Redirect
  else handleRoot r.
End server.

(** The registry of a daemon at the time of the request. *)
Definition registrySource `{!MapOrder} (parseFloat : gostring -> option float64)
    (toLower : gostring -> gostring) (describe : gostring -> gostring -> gostring -> gostring)
    (sortMetrics : list Metric -> list Metric)
    (errorText : gostring -> gostring -> list gostring -> gotime -> gotime -> gostring)
    (now now' : gotime) (registry : Registry) : MetricSource := {|
  search name ns start end_ := Search name ns start end_ registry;
  aggregate aggType name ns start end_ :=
    match Aggregate parseFloat toLower describe aggType name ns start end_ now now' registry with
    | Ok m => inl m
    | _ => inr (errorText aggType name ns start end_)
    end;
  discover name description ns unit metricType :=
    Discover sortMetrics name description ns unit metricType registry
|}.

(* ------------------------------------------------------------------ *)
(** * Properties                                                        *)
(* ------------------------------------------------------------------ *)

Section properties.
Context (ParseDuration : gostring -> option Z) (ParseTime : gostring -> option gotime).
Context (FormatTime : gotime -> gostring) (FormatDuration : Z -> gostring) (FormatRaw : raw -> gostring).
Context (ToLower : gostring -> gostring) (decodeBulk : bytes -> option (list MetricFilter)).

#[local] Abbreviation range := (parseTimeRange ParseDuration ParseTime).
#[local] Abbreviation convert := (Convert FormatTime FormatDuration FormatRaw).
#[local] Abbreviation bulkOne_ := (bulkOne ParseDuration ParseTime FormatTime FormatDuration FormatRaw).
#[local] Abbreviation bulkAll_ := (bulkAll ParseDuration ParseTime FormatTime FormatDuration FormatRaw).
#[local] Abbreviation serve_ :=
  (serve ParseDuration ParseTime FormatTime FormatDuration FormatRaw ToLower decodeBulk).

(** The period of a request is never empty, and it is the last minute when
    nothing is given. *)
Lemma parseTimeRange_ordered now s e a b : range now s e = Ok (a, b) -> a <= b.
Proof.
  unfold parseTimeRange. intros (x & _ & H)%bind_inv. apply bind_inv in H as (y & _ & H).
  destruct (Z.ltb_spec y x); [done|]. injection H as <- <-. lia.
Qed.
Lemma parseTimeRange_default now : range now [] [] = Ok (now - 60 * Second, now).
Proof.
  unfold parseTimeRange. rewrite !(bool_decide_eq_true_2 ([] = [])) by done. rewrite orb_true_r.
  cbn [mbind res_bind]. destruct (Z.ltb_spec now (now - 60 * Second)) as [H|]; [|done].
  unfold Second in H. lia.
Qed.

Lemma TrimPrefix_app p s : TrimPrefix (p ++ s) p = s.
Proof.
  unfold TrimPrefix. rewrite (proj2 (hasPrefix_spec _ _)) by by exists s. by rewrite drop_app_length.
Qed.

(** Which handler a path below one of the registered ones goes to. *)
Lemma serve_data `{!MetricSource} clock r s : Path r = DataPath ++ s ->
  serve_ clock r = handleData ParseDuration ParseTime FormatTime FormatDuration FormatRaw (clock 0%nat) r.
Proof. intros E. unfold serve. by rewrite E. Qed.
Lemma serve_bulk `{!MetricSource} clock r : Path r = str "/bulk" \/ Path r = BulkPath ->
  serve_ clock r =
    handleBulk ParseDuration ParseTime FormatTime FormatDuration FormatRaw decodeBulk clock r.
Proof. intros [E|E]; unfold serve; by rewrite E. Qed.

(** No request changes anything or gets data with a wrong method. *)
Lemma only_get `{!MetricSource} clock r :
  Method r <> MethodGet -> Method r <> MethodPost ->
  serve_ clock r = Status StatusMethodNotAllowed \/ serve_ clock r = Redirect.
Proof.
  intros Hg Hp. unfold serve, handleDiscovery, handleData, handleAggregation, handleBulk, handleRoot.
  rewrite !bool_decide_eq_false_2 with (P := Method r = MethodGet) by done.
  rewrite bool_decide_eq_false_2 with (P := Method r = MethodPost) by done. cbn [negb].
  repeat case_match; auto.
Qed.

(** ** What a daemon's registry is asked for                             *)

Section registry.
Context {MO : MapOrder} (parseFloat : gostring -> option float64) (toLower : gostring -> gostring)
  (describe : gostring -> gostring -> gostring -> gostring) (sortMetrics : list Metric -> list Metric)
  (errorText : gostring -> gostring -> list gostring -> gotime -> gotime -> gostring) (now1 now2 : gotime).
Context (interval retention : Z) (ticks : list (gotime * list (list Metric))).
#[local] Instance source : MetricSource :=
  registrySource parseFloat toLower describe sortMetrics errorText now1 now2 (collected interval retention ticks).

Lemma handled_data clock r ns a b :
  Method r = MethodGet -> Path r = DataPath ++ joinNS ns -> split slash (joinNS ns) = ns ->
  range (clock 0%nat) (FormValue r (str "starttime")) (FormValue r (str "endtime")) = Ok (a, b) ->
  serve_ clock r = listReply FormatTime FormatDuration FormatRaw
    (Search (FormValue r (str "name")) ns a b (collected interval retention ticks)).
Proof.
  intros Hm Hp Hs Hr. rewrite (serve_data clock r (joinNS ns)) by done. unfold handleData.
  rewrite bool_decide_eq_true_2 by done. cbn [negb]. by rewrite Hp, TrimPrefix_app, Hs, Hr.
Qed.

(** C31: what the server answers to a request for data is what the daemon has
    measured and still has: exactly the last value collected for each time
    slice, name space and name that no retention check has removed since, of
    the period, the name and the name space that the request asks for, under
    its own name and name space. *)
Theorem metrics_served clock r ns a b :
  ns <> [] -> Forall (fun s => slash ∉ s) ns ->
  Method r = MethodGet -> Path r = DataPath ++ joinNS ns ->
  range (clock 0%nat) (FormValue r (str "starttime")) (FormValue r (str "endtime")) = Ok (a, b) ->
  exists results,
    serve_ clock r = (if bool_decide (results = []) then JError noResults else JMetrics results) /\
    forall j, j ∈ results <->
      exists ts m, lastWith (jNamespace j) (jName j) (writtenIn interval retention 0 ticks ts) = Some m /\
        j = convert m /\ inPeriod a b ts = true /\ ns `prefix_of` split slash (jNamespace j) /\
        (FormValue r (str "name") = [] \/ jName j = FormValue r (str "name")).
Proof.
  intros Hne Hns Hm Hp Hr. exists (map convert (Search (FormValue r (str "name")) ns a b (collected interval retention ticks))).
  rewrite (handled_data clock r ns a b) by (done || by apply split_join). split; [done|].
  intros j. split.
  - intros (m & -> & Hin)%list_elem_of_fmap. apply Search_elem in Hin as (ts & ns' & n & Hl & H).
    destruct (lastWith_elem _ _ _ _ Hl) as [_ [= <- <-]]. by exists ts, m.
  - intros (ts & m & Hl & -> & H). apply list_elem_of_fmap. exists m. split; [done|].
    apply Search_elem. by exists ts, (jNamespace (convert m)), (jName (convert m)).
Qed.

(** A request for data that names no name space finds nothing, whatever
    was collected: the empty text is split into one empty component, which no
    name space starts with. The help page gives such a request as its first
    example. *)
Theorem namespace_needed clock r a b :
  (forall tick batch m, tick ∈ ticks -> batch ∈ tick.2 -> m ∈ batch ->
     Forall (fun s => slash ∉ s) (metNamespace m) /\ exists c ns, metNamespace m = c :: ns /\ c <> []) ->
  Method r = MethodGet -> Path r = DataPath ->
  range (clock 0%nat) (FormValue r (str "starttime")) (FormValue r (str "endtime")) = Ok (a, b) ->
  serve_ clock r = JError noResults.
Proof.
  intros Hall Hm Hp Hr. rewrite (handled_data clock r [[]] a b) by (done || by rewrite app_nil_r).
  unfold listReply. rewrite bool_decide_eq_true_2; [done|].
  destruct (Search _ _ _ _ _) as [|m found] eqn:E; [done|].
  assert (m ∈ Search (FormValue r (str "name")) [[]] a b (collected interval retention ticks)) as Hin
    by (rewrite E; by left).
  apply Search_elem in Hin as (ts & ns' & n & Hl & _ & Hpre & _).
  apply lastWith_elem in Hl as [(tick & Ht & _ & Hw)%writtenIn_elem [= <- <-]].
  apply list_elem_of_In, in_concat in Hw as (batch & Hb & Hw). apply list_elem_of_In in Hb, Hw.
  destruct (Hall tick batch m Ht Hb Hw) as (Hs & c & ns & Hc & Hne).
  rewrite split_join in Hpre by (exact Hs || by rewrite Hc). rewrite Hc in Hpre.
  apply prefix_cons_inv_1 in Hpre. congruence.
Qed.
End registry.

(** ** Bulk requests                                                      *)

Lemma bulkAll_spec `{!MetricSource} clock n filters :
  match bulkAll_ clock n filters with
  | inl results => length results = length filters /\
      forall i f, filters !! i = Some f ->
        exists js, results !! i = Some js /\ bulkOne_ (clock (n + i)%nat) f = inl js
  | inr failed => exists i f, filters !! i = Some f /\ bulkOne_ (clock (n + i)%nat) f = inr failed /\
      forall k g, (k < i)%nat -> filters !! k = Some g -> exists js, bulkOne_ (clock (n + k)%nat) g = inl js
  end.
Proof.
  revert n. induction filters as [|f filters IH]; intros n; cbn [bulkAll]; [done|].
  destruct (bulkOne_ (clock n) f) as [js|failed] eqn:E.
  - specialize (IH (S n)). destruct (bulkAll_ clock (S n) filters) as [results|failed].
    + destruct IH as [Hl IH]. split; [cbn; lia|]. intros [|i] g Hg.
      * injection Hg as <-. exists js. by rewrite Nat.add_0_r.
      * destruct (IH i g Hg) as (js' & H1 & H2). exists js'. by rewrite <- Nat.add_succ_comm.
    + destruct IH as (i & g & Hg & Ho & Hb). exists (S i), g. rewrite <- Nat.add_succ_comm. split_and!; [done..|].
      intros [|k] h Hk Hh; [injection Hh as <-; exists js; by rewrite Nat.add_0_r|].
      rewrite <- Nat.add_succ_comm. apply (Hb k h); [lia|done].
  - exists O, f. rewrite Nat.add_0_r. split_and!; [done..|]. intros k g Hk. lia.
Qed.

(** A bulk request is answered filter by filter, each with the clock of
    its own moment, or by the reply of the first filter that fails, and then
    by nothing else. *)
Theorem bulk_answers `{!MetricSource} clock r body filters :
  Method r = MethodPost -> Path r = BulkPath -> Body r = Ok body -> decodeBulk body = Some filters -> filters <> [] ->
  (exists results, serve_ clock r = JBulk results /\ length results = length filters /\
     forall i f, filters !! i = Some f ->
       exists js, results !! i = Some js /\ bulkOne_ (clock i) f = inl js) \/
  (exists i f, filters !! i = Some f /\ bulkOne_ (clock i) f = inr (serve_ clock r) /\
     forall k g, (k < i)%nat -> filters !! k = Some g -> exists js, bulkOne_ (clock k) g = inl js).
Proof.
  intros Hm Hp Hb Hd Hne. rewrite serve_bulk by auto. unfold handleBulk.
  rewrite bool_decide_eq_true_2 by done. cbn [negb]. rewrite Hb, Hd.
  pose proof (bulkAll_spec clock 0 filters) as Ha. destruct (bulkAll_ clock 0 filters) as [results|failed].
  - left. destruct Ha as [Hl Ha]. rewrite bool_decide_eq_false_2; [by exists results|].
    intros ->. by destruct filters.
  - right. exact Ha.
Qed.

(** A filter of the type data that has an aggregation type is aggregated all
    the same. *)
Lemma aggregation_type_wins `{!MetricSource} now f a b m :
  SearchType f = DataMode -> AggregationType f <> [] -> range now (StartTime f) (EndTime f) = Ok (a, b) ->
  aggregate (AggregationType f) (FilterName f) (split slash (Namespace f)) a b = inl m ->
  bulkOne_ now f = inl [convert m].
Proof.
  intros Ht Ha Hr Hm. unfold bulkOne. rewrite Ht. rewrite (bool_decide_eq_false_2 (AggregationType f = [])) by done.
  rewrite Hr. cbn -[convert]. by rewrite Hm.
Qed.
End properties.

(* ------------------------------------------------------------------ *)
(** * Examples                                                          *)
(* ------------------------------------------------------------------ *)

Definition exampleForm (name : gostring) (key : gostring) : gostring :=
  if bool_decide (key = str "name") then name else [].
Definition exampleGet (path : gostring) : Request := mkRequest MethodGet path (exampleForm (str "depth")) (Ok []).
Definition exampleRaw (r : raw) : gostring := match r with RawInt n => FormatInt n | _ => [] end.
Definition exampleClock (_ : nat) : gotime := 125 * 10 ^ 9.
Definition exampleFilters : list MetricFilter :=
  [mkFilter DataMode [] (str "depth") (str "Receiver") [] []; mkFilter DataMode [] [] (str "Sender") [] []].
Definition exampleSource : MetricSource :=
  source (MO := listOrder) (fun _ => None) id (fun _ _ _ => []) id (fun _ _ _ _ _ => str "none") 0 0
    (60 * 10 ^ 9) exampleRetention exampleTicks.
Definition exampleServe : Request -> reply :=
  serve (H := exampleSource) (fun _ => None) (fun _ => None) (fun _ => []) (fun _ => []) exampleRaw id
    (fun _ => Some exampleFilters) exampleClock.

Lemma metrics_served_witness :
  exists results, exampleServe (exampleGet (str "/data/Receiver/Out")) = JMetrics results /\
    exists j, j ∈ results /\ jRaw j = str "6".
Proof.
  destruct (metrics_served (MO := listOrder) (fun _ => None) (fun _ => None) (fun _ => []) (fun _ => [])
    exampleRaw id (fun _ => Some exampleFilters) (fun _ => None) id (fun _ _ _ => []) id
    (fun _ _ _ _ _ => str "none") 0 0 (60 * 10 ^ 9) exampleRetention exampleTicks exampleClock
    (exampleGet (str "/data/Receiver/Out")) [str "Receiver"; str "Out"] (65 * 10 ^ 9) (125 * 10 ^ 9))
    as (results & H1 & H2); [discriminate| |reflexivity|reflexivity|vm_compute; reflexivity|].
  - repeat constructor; apply (bool_decide_unpack _); vm_compute; exact I.
  - exists results. set (j := mkJMetric (str "depth") (str "queue depth") (str "Receiver/Out") Gauge_ [] (str "6") (str "count") []).
    assert (j ∈ results) as Hj.
    { apply H2. exists (120 * 10 ^ 9), (exampleMetric [str "Receiver"; str "Out"] 6).
      split; [vm_compute; reflexivity|]. split; [vm_compute; reflexivity|]. split; [vm_compute; reflexivity|].
      split; [exists []; vm_compute; reflexivity|right; reflexivity]. }
    split; [|exists j; split; [exact Hj|reflexivity]].
    refine (eq_trans H1 _). clear -Hj. clearbody j. rewrite bool_decide_eq_false_2; [reflexivity|].
    intros ->. exact (not_elem_of_nil _ Hj).
Defined.

Lemma namespace_needed_witness : exampleServe (exampleGet DataPath) = JError noResults.
Proof.
  apply (namespace_needed (MO := listOrder) (fun _ => None) (fun _ => None) (fun _ => []) (fun _ => [])
    exampleRaw id (fun _ => Some exampleFilters) (fun _ => None) id (fun _ _ _ => []) id
    (fun _ _ _ _ _ => str "none") 0 0 (60 * 10 ^ 9) exampleRetention exampleTicks exampleClock (exampleGet DataPath)
    (65 * 10 ^ 9) (125 * 10 ^ 9)); [|reflexivity|reflexivity|vm_compute; reflexivity].
  intros tick batch m Ht Hb Hm. unfold exampleTicks in Ht. cbv zeta in Ht.
  repeat (apply elem_of_cons in Ht as [->|Ht]); try (by apply elem_of_nil in Ht); cbn [snd] in Hb;
    repeat (apply elem_of_cons in Hb as [->|Hb]); try (by apply elem_of_nil in Hb);
    repeat (apply elem_of_cons in Hm as [->|Hm]); try (by apply elem_of_nil in Hm);
    (split; [repeat constructor; apply (bool_decide_unpack _); vm_compute; exact I
            |eexists; eexists; split; [reflexivity|discriminate]]).
Defined.

(** The same daemon answers the discovery of everything. *)
Example discovery_without_namespace :
  match exampleServe (mkRequest MethodGet DiscoveryPath (fun _ => []) (Ok [])) with
  | JMetrics results => length results = 2%nat
  | _ => False
  end.
Proof. by vm_compute. Qed.

Lemma bulk_answers_witness :
  exists results, exampleServe (mkRequest MethodPost BulkPath (fun _ => []) (Ok [])) = JBulk results /\
    length results = 2%nat.
Proof.
  destruct (bulk_answers (fun _ => None) (fun _ => None) (fun _ => []) (fun _ => []) exampleRaw id
    (fun _ => Some exampleFilters) (H := exampleSource) exampleClock (mkRequest MethodPost BulkPath (fun _ => []) (Ok []))
    [] exampleFilters) as [(results & H1 & H2 & _)|(i & f & H1 & H2 & _)];
    [reflexivity|reflexivity|reflexivity|reflexivity|discriminate| |].
  - exists results. split; [exact H1|exact H2].
  - exfalso. destruct i as [|[|i]]; [injection H1 as <-; vm_compute in H2; discriminate H2..|destruct i; discriminate H1].
Defined.
