(* ===== verification/FileOps.v ===== *)
(** The operations on files of [internal/fsops], and the part of the world
    they and the installer work on: files, commands, and what goes wrong.

    An operation of the system fails for a reason that the files give (nothing
    there, a directory that is not empty) or for one that lies elsewhere, a
    [fault]; a write can also stop in the middle. Permissions are not
    represented. [os.RemoveAll] fails before it removes anything. *)
From S2P Require Import Prelude State Text GoStrings NetAddr Journal Sha256.

(* ------------------------------------------------------------------ *)
(** * Files                                                             *)
(* ------------------------------------------------------------------ *)

(** The extended attribute of a file's capabilities is part of it. *)
Inductive node :=
  | File (content : bytes) (caps : option bytes)
  | Dir.
#[export] Instance node_eq_dec : EqDecision node.
Proof. solve_decision. Defined.

Inductive oserr := ENOENT | ENOTEMPTY | EOTHER.

Inductive fault :=
  | Fine
  | Fails
  | Torn (n : nat).

(** [pid] and [now], which no two operations share, are what unique names are
    made of; [answers] are the results of the commands to come. *)
Record World := mkWorld {
  fs : gmap gostring node;
  faults : list fault;
  pid : Z;
  now : Z;
  answers : list (bool * gostring);
  ran : list (list gostring)
}.
Definition setFs (m : gmap gostring node) (w : World) : World :=
  mkWorld m (faults w) (pid w) (now w) (answers w) (ran w).
Definition advance (w : World) : World :=
  mkWorld (fs w) (tail (faults w)) (pid w) (now w + 1) (answers w) (ran w).

Definition Op (A : Type) : Type := World -> World * (A + oserr).

(** An operation, and what is left of it when a write stops. *)
Definition opTorn {A : Type} (stopped : nat -> gmap gostring node -> gmap gostring node)
    (f : gmap gostring node -> gmap gostring node * (A + oserr)) : Op A := fun w =>
  match hd Fine (faults w) with
  | Fine => let '(m, r) := f (fs w) in (setFs m (advance w), r)
  | Fails => (advance w, inr EOTHER)
  | Torn n => (setFs (stopped n (fs w)) (advance w), inr EOTHER)
  end.
Definition op {A : Type} (f : gmap gostring node -> gmap gostring node * (A + oserr)) : Op A :=
  opTorn (fun _ m => m) f.

Definition below (dir path : gostring) : bool := hasPrefix (dir ++ str "/") path.
Definition isEmptyDir (dir : gostring) (m : gmap gostring node) : bool :=
  forallb (fun pn => negb (below dir pn.1)) (map_to_list m).
Definition fileAt (path : gostring) (content : bytes) (m : gmap gostring node) : gmap gostring node :=
  <[path := File content (match m !! path with Some (File _ caps) => caps | _ => None end)]> m.

Definition Stat (path : gostring) : Op node := op (fun m =>
  (m, match m !! path with Some n => inl n | None => inr ENOENT end)).
Definition Mkdir (path : gostring) : Op unit := op (fun m =>
  match m !! path with Some _ => (m, inr EOTHER) | None => (<[path := Dir]> m, inl tt) end).
Definition Remove (path : gostring) : Op unit := op (fun m =>
  match m !! path with
  | None => (m, inr ENOENT)
  | Some Dir => if isEmptyDir path m then (delete path m, inl tt) else (m, inr ENOTEMPTY)
  | Some (File _ _) => (delete path m, inl tt)
  end).
Definition RemoveAll (path : gostring) : Op unit := op (fun m =>
  (filter (fun pn => pn.1 <> path /\ below path pn.1 = false) m, inl tt)).
Definition Rename (old new : gostring) : Op unit := op (fun m =>
  match m !! old, m !! new with
  | None, _ => (m, inr ENOENT)
  | Some _, Some Dir => (m, inr EOTHER)
  | Some n, _ => (<[new := n]> (delete old m), inl tt)
  end).
(** [os.Open], with what reading the file will give, and a read. *)
Definition Open (path : gostring) : Op (option bytes) := op (fun m =>
  (m, match m !! path with
      | None => inr ENOENT
      | Some Dir => inl None
      | Some (File content _) => inl (Some content)
      end)).
Definition readAll (content : option bytes) : Op bytes := op (fun m =>
  (m, match content with Some data => inl data | None => inr EOTHER end)).
(** [os.OpenFile] with [O_CREATE|O_TRUNC|O_WRONLY], and a write there. *)
Definition OpenCreate (path : gostring) : Op unit := op (fun m =>
  match m !! path with
  | Some Dir => (m, inr EOTHER)
  | _ => (fileAt path [] m, inl tt)
  end).
Definition append (path : gostring) (data : bytes) (m : gmap gostring node) : gmap gostring node :=
  match m !! path with Some (File content caps) => <[path := File (content ++ data) caps]> m | _ => m end.
Definition WriteTo (path : gostring) (data : bytes) : Op unit :=
  opTorn (fun n => append path (take n data)) (fun m => (append path data m, inl tt)).
Definition WriteFile (path : gostring) (data : bytes) : Op unit :=
  let write data m := match m !! path with Some Dir => m | _ => fileAt path data m end in
  opTorn (fun n => write (take n data))
    (fun m => (write data m, match m !! path with Some Dir => inr EOTHER | _ => inl tt end)).
Definition Setxattr (path : gostring) (data : bytes) : Op unit := op (fun m =>
  match m !! path with
  | Some (File content _) => (<[path := File content (Some data)]> m, inl tt)
  | _ => (m, inr EOTHER)
  end).
(** An operation that leaves no trace: closing, syncing. *)
Definition noop : Op unit := op (fun m => (m, inl tt)).

(** [exec.Command(...).CombinedOutput()]: whether it succeeded, and the output. *)
Definition Run (command : list gostring) (w : World) : World * (bool * gostring) :=
  (mkWorld (fs w) (faults w) (pid w) (now w) (tail (answers w)) (ran w ++ [command]),
   hd (true, []) (answers w)).

(* ------------------------------------------------------------------ *)
(** * Compound operations                                               *)
(* ------------------------------------------------------------------ *)

Definition stampAt (tag : gostring) (src : gostring) (w : World) (t : Z) : gostring :=
  src ++ tag ++ FormatInt (pid w) ++ str "." ++ FormatInt t.
Definition stamp (tag src : gostring) (w : World) : gostring := stampAt tag src w (now w).
Definition bakTag : gostring := str ".bak.".
Definition tmpTag : gostring := str ".tmp.".

(** [MakeFileBackup]: path, whether there was a file, error. *)
Definition MakeFileBackup (src : gostring) (w : World) : World * (gostring * bool * res unit) :=
  let '(w, info) := Stat src w in
  match info with
  | inr ENOENT => (w, ([], false, Ok tt))
  | inr _ => (w, ([], false, Err (EWrap EMsg)))
  | inl Dir => (w, ([], false, Err EMsg))
  | inl (File _ _) =>
      let backupPath := stamp bakTag src w in
      let '(w, renamed) := Rename src backupPath w in
      match renamed with
      | inl _ => (w, (backupPath, true, Ok tt))
      | inr _ => (w, (backupPath, false, Err (EWrap EMsg)))
      end
  end.

(** Operations of which any error ends the function. *)
Fixpoint allOps (ops : list (Op unit)) (w : World) : World * res unit :=
  match ops with
  | [] => (w, Ok tt)
  | o :: ops =>
      let '(w, r) := o w in
      match r with inl _ => allOps ops w | inr _ => (w, Err (EWrap EMsg)) end
  end.

(** [AtomicFileReplace]: copy, sync and close of the temporary file, the
    directory, the rename; the temporary file is removed after an error. *)
Definition AtomicFileReplace (src dst : gostring) (w : World) : World * res unit :=
  let '(w, opened) := Open src w in
  match opened with
  | inr _ => (w, Err (EWrap EMsg))
  | inl content =>
      let tempPath := stamp tmpTag dst w in
      let '(w, created) := OpenCreate tempPath w in
      match created with
      | inr _ => (w, Err (EWrap EMsg))
      | inl _ =>
          let '(w, data) := readAll content w in
          let '(w, r) :=
            match data with
            | inr _ => (w, Err (EWrap EMsg))
            | inl data => allOps [WriteTo tempPath data; noop; noop; noop; noop; Rename tempPath dst] w
            end in
          match r with
          | Ok _ => (w, Ok tt)
          | _ => ((Remove tempPath w).1, r)
          end
      end
  end.

(** [readersEqual] *)
Definition readersEqual (a b : bytes) : bool := bool_decide (Sha256.hash a = Sha256.hash b).
(** [FileEqualsReader] *)
Definition FileEqualsReader (path : gostring) (data : bytes) (w : World) : World * res bool :=
  let '(w, opened) := Open path w in
  match opened with
  | inr ENOENT => (w, Ok false)
  | inr _ => (w, Err (EWrap EMsg))
  | inl content =>
      let '(w, r) := readAll content w in
      match r with
      | inl found => (w, Ok (readersEqual found data))
      | inr _ => (w, Err (EWrap EMsg))
      end
  end.
(** [FilesEqual] *)
Definition FilesEqual (pathA pathB : gostring) (w : World) : World * res bool :=
  let '(w, openedA) := Open pathA w in
  match openedA with
  | inr ENOENT => (w, Ok false)
  | inr _ => (w, Err EMsg)
  | inl contentA =>
      let '(w, openedB) := Open pathB w in
      match openedB with
      | inr ENOENT => (w, Ok false)
      | inr _ => (w, Err EMsg)
      | inl contentB =>
          let '(w, a) := readAll contentA w in
          match a with
          | inr _ => (w, Err (EWrap EMsg))
          | inl a =>
              let '(w, b) := readAll contentB w in
              match b with
              | inr _ => (w, Err (EWrap EMsg))
              | inl b => (w, Ok (readersEqual a b))
              end
          end
      end
  end.

(** [NormalizePath]: the links are resolved, and the result is overwritten. *)
Definition NormalizePath (EvalSymlinks Abs : gostring -> option gostring) (path : gostring) : res gostring :=
  match EvalSymlinks path with
  | None => Err (EWrap EMsg)
  | Some _ => match Abs path with Some realPath => Ok realPath | None => Err (EWrap EMsg) end
  end.

(* ------------------------------------------------------------------ *)
(** * Capabilities of a file                                            *)
(* ------------------------------------------------------------------ *)

Definition vfsCapRevision2 : Z := 0x02000000.
Definition vfsCapFlagsEffective : Z := 1.
Definition CapEffective : Z := 1.
Definition CapPermitted : Z := 2.
Definition CapInheritable : Z := 4.
Definition CapSYSResource : Z := 24.
Definition CapBPF : Z := 39.
Definition xattrName : gostring := str "security.capability".

Record CapSet := mkCapSet {
  PermittedLow : Z;
  InheritableLow : Z;
  PermittedHigh : Z;
  InheritableHigh : Z
}.
Definition hasMode (mode bit : Z) : bool := negb (Z.land mode bit =? 0).
(** [1 << shift] as a [uint32]: nothing when the shift is too wide. *)
Definition bit32 (shift : Z) : Z := wrapU 32 (Z.shiftl 1 shift).
Definition addCap (mode : Z) (cs : CapSet) (cap : Z) : CapSet :=
  let set on old shift := if on : bool then Z.lor old (bit32 shift) else old in
  if cap <? 32 then
    mkCapSet (set (hasMode mode CapPermitted) (PermittedLow cs) cap)
      (set (hasMode mode CapInheritable) (InheritableLow cs) cap) (PermittedHigh cs) (InheritableHigh cs)
  else
    mkCapSet (PermittedLow cs) (InheritableLow cs)
      (set (hasMode mode CapPermitted) (PermittedHigh cs) (cap - 32))
      (set (hasMode mode CapInheritable) (InheritableHigh cs) (cap - 32)).
Definition capMagic (mode : Z) : Z :=
  if hasMode mode CapEffective then Z.lor vfsCapRevision2 vfsCapFlagsEffective else vfsCapRevision2.
Definition encodeVfsCapDataV2 (mode : Z) (caps : list Z) : bytes :=
  let cs := foldl (addCap mode) (mkCapSet 0 0 0 0) caps in
  le_encode 4 (capMagic mode) ++ le_encode 4 (PermittedLow cs) ++ le_encode 4 (InheritableLow cs) ++
  le_encode 4 (PermittedHigh cs) ++ le_encode 4 (InheritableHigh cs).

Definition addCaps (mask base : Z) (caps : list Z) : list Z :=
  caps ++ map (fun i => base + i) (List.filter (fun i => negb (Z.land mask (bit32 i) =? 0)) (seqZ 0 32)).
Definition decodeVfsCapDataV2 (payload : bytes) : res (Z * list Z) :=
  if len payload <? 20 then Err EMsg
  else
    let magic := le_decode (slice payload 0 4) in
    if negb (Z.land magic 0xFFFFFFF0 =? vfsCapRevision2) then Err EMsg
    else
      let mode := if hasMode magic vfsCapFlagsEffective then CapEffective else 0 in
      let permittedLow := le_decode (slice payload 4 8) in
      let permittedHigh := le_decode (slice payload 12 16) in
      Ok (mode, if hasMode mode CapPermitted
                then addCaps permittedHigh 32 (addCaps permittedLow 0 []) else []).

(** [GetCapabilities] and [SetCapabilities]. *)
Definition GetCapabilities (path : gostring) (w : World) : World * res (Z * list Z) :=
  let '(w, info) := Stat path w in
  match info with
  | inl (File _ (Some payload)) =>
      (w, decodeVfsCapDataV2 (take 20 (payload ++ repeat (z2b 0) 20)))
  | inl _ => (w, Ok (0, []))
  | inr _ => (w, Err (EWrap EMsg))
  end.
Definition SetCapabilities (path : gostring) (mode : Z) (caps : list Z) (w : World) : World * res unit :=
  if bool_decide (caps = []) then (w, Err EMsg)
  else
    let '(w, r) := Setxattr path (encodeVfsCapDataV2 mode caps) w in
    match r with inl _ => (w, Ok tt) | inr _ => (w, Err (EWrap EMsg)) end.

(** The vectors of the tests. *)
Example capabilities_eip :
  map b2z (encodeVfsCapDataV2 7 [CapSYSResource; CapBPF]) =
    [1; 0; 0; 2; 0; 0; 0; 1; 0; 0; 0; 1; 128; 0; 0; 0; 128; 0; 0; 0].
Proof. by vm_compute. Qed.
Example capabilities_ep :
  map b2z (encodeVfsCapDataV2 3 [12; 13]) =
    [1; 0; 0; 2; 0; 48; 0; 0; 0; 0; 0; 0; 0; 0; 0; 0; 0; 0; 0; 0].
Proof. by vm_compute. Qed.

Lemma bit32_testbit s c : 0 <= s -> 0 <= c < 32 -> Z.testbit (bit32 s) c = (c =? s).
Proof.
  intros Hs Hc. unfold bit32, wrapU. rewrite Z.mod_pow2_bits_low by lia.
  rewrite Z.shiftl_spec by lia. destruct (Z.eqb_spec c s) as [->|H].
  - by rewrite Z.sub_diag.
  - destruct (Z.lt_ge_cases c s); [by rewrite Z.testbit_neg_r by lia|].
    rewrite Z.bits_above_log2; [done|lia|]. cbn. lia.
Qed.

(** One of the four words, by whether the mode asks for it and whether it is
    the low one. *)
Definition setWord (on low : bool) (old cap : Z) : Z :=
  if on && Bool.eqb (cap <? 32) low then Z.lor old (bit32 (if low then cap else cap - 32)) else old.

Lemma addCap_words mode caps cs :
  foldl (addCap mode) cs caps =
    mkCapSet (foldl (setWord (hasMode mode CapPermitted) true) (PermittedLow cs) caps)
      (foldl (setWord (hasMode mode CapInheritable) true) (InheritableLow cs) caps)
      (foldl (setWord (hasMode mode CapPermitted) false) (PermittedHigh cs) caps)
      (foldl (setWord (hasMode mode CapInheritable) false) (InheritableHigh cs) caps).
Proof.
  revert cs. induction caps as [|cap caps IH]; intros cs; [by destruct cs|]. cbn [foldl]. rewrite IH.
  unfold addCap, setWord. destruct (cap <? 32);
    cbn [PermittedLow InheritableLow PermittedHigh InheritableHigh Bool.eqb];
    by rewrite ?andb_true_r, ?andb_false_r.
Qed.

(** A word has one bit for each capability given, and no other. *)
Lemma word_bits on low caps old c : 0 <= c < 32 -> Forall (fun cap => 0 <= cap) caps ->
  Z.testbit (foldl (setWord on low) old caps) c
    = Z.testbit old c || on && bool_decide ((if low then c else c + 32) ∈ caps).
Proof.
  intros Hc Hcaps. revert old. induction Hcaps as [|cap caps Hcap _ IH]; intros old; cbn [foldl].
  { by rewrite bool_decide_eq_false_2, andb_false_r, orb_false_r by apply not_elem_of_nil. }
  rewrite IH. unfold setWord. destruct on; cbn [andb]; [|done].
  rewrite (bool_decide_ext (_ ∈ cap :: caps) ((if low then c else c + 32) = cap \/ (if low then c else c + 32) ∈ caps))
    by apply elem_of_cons.
  rewrite bool_decide_or, orb_assoc. f_equal.
  destruct low, (Z.ltb_spec cap 32); cbn [Bool.eqb]; rewrite ?Z.lor_spec, ?bit32_testbit by lia;
    rewrite ?(bool_decide_eq_false_2 (_ = cap)) by lia; rewrite ?orb_false_r; try done; f_equal;
    match goal with |- context [?a =? ?b] => destruct (Z.eqb_spec a b) end;
    symmetry; (apply bool_decide_eq_true_2; lia) || (apply bool_decide_eq_false_2; lia).
Qed.

(** What [SetCapabilities] writes: bit [c] of the permitted and of the
    inheritable set is there when the mode asks for the set and [c] was given. *)
Lemma capabilities_words mode caps c : 0 <= c < 32 -> Forall (fun cap => 0 <= cap) caps ->
  let cs := foldl (addCap mode) (mkCapSet 0 0 0 0) caps in
  Z.testbit (PermittedLow cs) c = hasMode mode CapPermitted && bool_decide (c ∈ caps) /\
  Z.testbit (InheritableLow cs) c = hasMode mode CapInheritable && bool_decide (c ∈ caps) /\
  Z.testbit (PermittedHigh cs) c = hasMode mode CapPermitted && bool_decide (c + 32 ∈ caps) /\
  Z.testbit (InheritableHigh cs) c = hasMode mode CapInheritable && bool_decide (c + 32 ∈ caps).
Proof.
  intros Hc Hcaps. rewrite addCap_words.
  cbn [PermittedLow InheritableLow PermittedHigh InheritableHigh].
  rewrite !word_bits by done. by rewrite !Z.bits_0.
Qed.

(** Reading them back finds none, whatever the file has: the mode that is
    tested before the words are read is never anything but [CapEffective]. *)
Lemma no_capabilities_found payload mode caps :
  decodeVfsCapDataV2 payload = Ok (mode, caps) -> caps = [].
Proof.
  unfold decodeVfsCapDataV2. repeat case_match; try done; intros [= <- <-]; done.
Qed.
