(* ===== verification/Template.v ===== *)
(** The paths of an installation and the configurations it writes as templates
    ([setup/consts.go], [setup/config.go]): what starts with them, what their
    filters drop, and what their placeholder of a key is. *)
From S2P Require Import Prelude Text Registry ToyCrypto Context Consts Packets NetAddr GoStrings Filtering.
From S2P Require Import Mpmc Assembler Listener Sender Network.
From S2P Require Import Inner Output IoModules Journal Base64 Config.

(* ------------------------------------------------------------------ *)
(** * Constants                                                         *)
(* ------------------------------------------------------------------ *)

Definition DefaultBinaryPath : gostring := str "/usr/local/bin/" ++ ProgBaseName.
Definition DefaultConfigDir : gostring := str "/etc/" ++ ProgBaseName.
Definition DefaultConfigSend : gostring := DefaultConfigDir ++ str "/" ++ ProgBaseName ++ str "-sender.json".
Definition DefaultConfigRecv : gostring := DefaultConfigDir ++ str "/" ++ ProgBaseName ++ str ".json".
Definition encryptionPrivKeyPath : gostring := DefaultConfigDir ++ str "/private.key".
Definition systemdUnitDir : gostring := str "/etc/systemd/system/".
Definition senderUnitPath : gostring := systemdUnitDir ++ ProgBaseName ++ str "-sender.service".
Definition receiverUnitPath : gostring := systemdUnitDir ++ ProgBaseName ++ str ".service".
Definition sysAutocompleteDir : gostring := str "/usr/share/bash-completion/completions".
Definition sysAAProfilePath : gostring := str "/sys/kernel/security/apparmor/profiles".
Definition apparmorProfDir : gostring := str "/etc/apparmor.d/".
Definition apparmorProfName : gostring := str "usr.local.bin." ++ ProgBaseName.
Definition appArmorProfilePath : gostring := apparmorProfDir ++ apparmorProfName.
Definition appArmorExtrasPath : gostring := str "local/" ++ apparmorProfName.
Definition KernelDrainMapPath : gostring := str "/sys/fs/bpf/draining_sockets".
Definition KernelSocketRouteFunc : gostring := str "/sys/fs/bpf/reuseport_select".

(* ------------------------------------------------------------------ *)
(** * Templates                                                         *)
(* ------------------------------------------------------------------ *)

Definition FileSource : gostring := str "file".
Definition JrnlSource : gostring := str "journald".

Definition exactly (s : gostring) : Filter := mkFilter [] [] None [] [] [] s.
Definition containing (s : gostring) : Filter := mkFilter [] [] None [] [] s [].
Definition fileFilters : list MessageFilter :=
  [mkMessageFilter None (Some (exactly (str "mycustomfield"))) (Some (containing (str "value1"))) false].
Definition severityFilter (severity : gostring) : MessageFilter :=
  mkMessageFilter None (Some (exactly CFseverity)) (Some (containing severity)) true.
Definition journalFilters : list MessageFilter :=
  [mkMessageFilter (Some (mkFilter [] [containing (str "logout"); containing (str "login")] None [] [] [] []))
     (Some (exactly CFfacility)) (Some (exactly (str "ftp"))) false;
   severityFilter DefaultSeverity; severityFilter (str "debug"); severityFilter (str "notice")].

(** [CreateSendTemplateConfig] *)
Definition templateKey : gostring := repeat (z2b 120) 43 ++ str "=".
Definition sendTemplateOptions : SenderDaemon.JSONOptions :=
  SenderDaemon.mkOptions templateKey [] (mkCrypto DefaultCryptoName NoSigName) DefaultStateFile
    (SenderDaemon.mkNetwork (str "::1") 54321 (str "::1") DefaultReceiverPort 1300)
    (SenderDaemon.mkInputs (DefaultConfigDir ++ str "/input-sender-extras.json")
       (Some {[ FileSource := fileFilters; JrnlSource := journalFilters ]})
       [str "/var/log/nginx/kern.log"] true true)
    (mkMetricsOptions (5 * Second) (72 * Hour) false SenderDaemon.ListenPortSender)
    (SenderDaemon.mkScaling true (5 * Second) 2 16 2 16 DefaultMinQueueSize DefaultMaxQueueSize
       DefaultMinQueueSize DefaultMaxQueueSize)
    (SenderDaemon.mkThrottling true SenderDaemon.DefaultOutputThrottlingThreshold
       SenderDaemon.DefaultOutputThrottlingTime).

(** [CreateRecvTemplateConfig] *)
Definition recvTemplateOptions : ReceiverDaemon.JSONOptions :=
  ReceiverDaemon.mkOptions encryptionPrivKeyPath [] (mkCrypto DefaultCryptoName NoSigName)
    (ReceiverDaemon.mkReplay ReceiverDaemon.DefaultReplayWindow ReceiverDaemon.DefaultPastValidityWindow
       ReceiverDaemon.DefaultFutureValidityWindow)
    ReceiverDaemon.DefaultSocketDir (str "::1") DefaultReceiverPort
    (ReceiverDaemon.mkOutputs (str "/var/log/all.log") (str "http://localhost:19532") (str "localhost:5044")
       false false ReceiverDaemon.DefaultOutputFailureDuration)
    (mkMetricsOptions Second (72 * Hour) false ReceiverDaemon.ListenPortReceiver)
    (ReceiverDaemon.mkScaling true (5 * Second) 2 16 2 16 DefaultMinQueueSize DefaultMaxQueueSize
       2 16 DefaultMinQueueSize DefaultMaxQueueSize).

(** Every filter is a valid one, and the placeholder is a key of the right
    length, which the start of the sender takes for one. *)
Example template_filters_valid :
  forallb (fun f => isOk (validateMessageFilter f)) (fileFilters ++ journalFilters) = true.
Proof. by vm_compute. Qed.
Example template_key_decodes : (DecodeString templateKey).2 = true /\ length (DecodeString templateKey).1 = 32%nat.
Proof. by vm_compute. Qed.

Lemma journal_facility_dropped sprint m v : mFields m !! CFfacility = Some v ->
  dropped sprint journalFilters m = true.
Proof.
  intros Hf. unfold dropped, journalFilters. cbn [existsb]. apply orb_true_iff. left.
  unfold matchMessage, matchesOf. cbn [fData fFieldsKey fFieldsValue fUseAnd app].
  change (len _ =? 0) with false. cbn match. cbn [existsb].
  assert (existsb (fun kv => Match (exactly CFfacility) kv.1) (map_to_list (mFields m)) = true) as ->.
  { apply (existsb_fields (fun k _ => Match (exactly CFfacility) k)). exists CFfacility, v. split; [done|by vm_compute]. }
  unfold id at 2. by rewrite orb_true_l, orb_true_r.
Qed.

(** With the template's configuration the sender drops every message it
    reads from the journal: the first filter is meant for the facility [ftp]
    alone, but its three parts are combined by or, and every message of the
    journal has the field of the second. *)
Theorem template_silences_the_journal sprint pushed osHostname pid im :
  outbox (readRound sprint journalFilters pushed osHostname pid JrnlSource im) = outbox im.
Proof.
  unfold readRound. destruct (extractEntry (sink im)) as [[fields|e|] rest]; [|done..].
  case_bool_decide; [done|]. destruct (parseFields fields (localHostname im) pid) as [m|e|] eqn:E; [|done..].
  apply parseFields_fields in E as (_ & a & z & f & sev & prio & _ & _ & Hf & _).
  rewrite (journal_facility_dropped _ _ (VString f)); [done|]. unfold withSource. cbn [mFields].
  by rewrite lookup_insert_ne.
Qed.

(* ------------------------------------------------------------------ *)
(** * Starting with them                                                *)
(* ------------------------------------------------------------------ *)

(** The instance counts depend on whether there is more than one CPU. *)
Lemma fewest_template cpus : 1 <= cpus -> exists lo, orMinimum 2 cpus = lo /\ 1 <= lo <= 2.
Proof. intros H. unfold orMinimum, orDefault. cbn. destruct (Z.ltb_spec cpus 2); eexists; split; [done|lia|done|lia]. Qed.

Lemma suite_known `{!Prims} : is_Some (SuiteNameToID DefaultCryptoName).
Proof. apply fmap_is_Some. by apply (list_find_elem_of _ _ 1%nat); [apply elem_of_seq; lia|]. Qed.
Lemma signature_known `{!Prims} : is_Some (SignatureNameToID NoSigName).
Proof. apply fmap_is_Some. by apply (list_find_elem_of _ _ 0%nat); [apply elem_of_seq; lia|]. Qed.

(** What the sender finds. *)
Record sender_found `{!Prims} {I} (random : res bytes) (maxPayload : res Z) (opened : gostring -> res I)
    (cfg : SenderDaemon.RunConfig) : Prop := {
  sf_source : is_Some (SenderDaemon.sourceSocket cfg);
  sf_dest : exists dest, SenderDaemon.destSocket cfg = Some dest /\ SenderDaemon.IPString (IP dest) <> [];
  sf_host : exists b, random = Ok b /\ FourByte b <> 0;
  sf_size : exists n, maxPayload = Ok n /\ n <> 0;
  sf_files : isOk (SenderDaemon.addFiles opened [str "/var/log/nginx/kern.log"] ∅) = true
}.
Lemma sender_template_starts `{!Prims} {I} random maxPayload (opened : gostring -> res I) cfg cpus :
  1 <= cpus -> sender_found random maxPayload opened cfg ->
  exists p, SenderDaemon.Start true random maxPayload opened true false
              (SenderDaemon.setDefaults cpus sendTemplateOptions) cfg = Ok (Some p).
Proof.
  intros Hc [[src Hs] (dest & Hd & Hip) (b & -> & Hb) (n & -> & Hn) Hf].
  unfold SenderDaemon.Start. cbn [negb]. rewrite Hd. destruct (fewest_template cpus Hc) as (lo & Hlo & Hl).
  set (o := SenderDaemon.setDefaults cpus sendTemplateOptions) in *.
  assert (SenderDaemon.outputConfig o cfg = Sending.mkConfig 2048 8192 lo 16 true true) as ->.
  { unfold SenderDaemon.outputConfig. rewrite Hs, Hd. unfold o. cbn -[orMinimum wrapU orDefault bool_decide].
    rewrite Hlo. change (orDefault 16 cpus) with 16. cbn -[wrapU bool_decide]. by rewrite !wrapU_count by lia. }
  unfold Sending.NewManager. rewrite sender_output_starts by lia. rewrite (proj2 (Z.ltb_lt lo 16)) by lia. cbn [negb].
  destruct (queue_of_default (V := bytes) []) as [q Hq]. cbn [Sending.MinQueueCapacity].
  unfold DefaultMinQueueSize in Hq. rewrite Hq. cbn [wrap mbind res_bind].
  assert (SenderDaemon.assemblerConfig o (SenderDaemon.IPString (IP dest)) =
    Packing.mkConfig 2048 8192 lo 16 0 (SenderDaemon.IPString (IP dest)) 1300 0 DefaultCryptoName NoSigName 0 0
      true 25 (50 * Microsecond)) as ->.
  { unfold SenderDaemon.assemblerConfig. unfold o at 1 2 3 4. cbn -[orMinimum wrapU orDefault bool_decide o].
    rewrite Hlo. change (orDefault 16 cpus) with 16. cbn -[wrapU bool_decide]. by rewrite !wrapU_count by lia. }
  destruct (sender_assembler_starts lo 16 (SenderDaemon.IPString (IP dest)) 1300 DefaultCryptoName NoSigName
    true 25 (50 * Microsecond) b n) as [p ->];
    [lia|exact Hip|exact Hb|exact Hn|done|done|apply suite_known|apply signature_known|].
  cbn [wrap mbind res_bind].
  destruct (SenderDaemon.addFiles _ _ _) as [sources| |]; [|done..]. eexists. reflexivity.
Qed.

Lemma receiver_template_starts `{!Prims} rawWriter listens src cpus :
  1 <= cpus -> (forall n, listens n = true) ->
  exists p, ReceiverDaemon.Start true rawWriter (Ok tt) listens true false
              (ReceiverDaemon.setDefaults cpus recvTemplateOptions) (Some src) = Ok (Some p).
Proof.
  intros Hc Hl. destruct (fewest_template cpus Hc) as (lo & Hlo & Hb).
  unfold ReceiverDaemon.Start. cbn [negb]. set (o := ReceiverDaemon.setDefaults cpus recvTemplateOptions) in *.
  edestruct (receiver_output_starts o rawWriter) as [q Hq]; [done..|by left|].
  rewrite Hq. cbn [wrap mbind res_bind].
  assert (ReceiverDaemon.assemblerConfig o = Assembler.mkConfig lo 16 ReceiverDaemon.DefaultSocketDir 0) as ->.
  { unfold ReceiverDaemon.assemblerConfig. unfold o at 1 2. cbn -[orMinimum wrapU orDefault o].
    rewrite Hlo. change (orDefault 16 cpus) with 16. by rewrite !wrapU_count by lia. }
  pose proof (receiver_assembler_starts lo 16 ReceiverDaemon.DefaultSocketDir 0 ltac:(lia) ltac:(lia) ltac:(done)) as Ha.
  rewrite (proj2 (Z.ltb_lt lo 16)) in Ha by lia.
  destruct (Assembler.NewManager _ _) as [m| |]; cbn [isOk] in Ha; [|done..]. cbn [wrap mbind res_bind].
  assert (ReceiverDaemon.processorConfig o = ProcessorManager.mkConfig lo 16 2048 8192 (12 * Hour) (4 * Hour)) as ->.
  { unfold ReceiverDaemon.processorConfig. unfold o at 1 2 3 4. cbn -[orMinimum wrapU orDefault o].
    rewrite Hlo. change (orDefault 16 cpus) with 16. by rewrite !wrapU_count by lia. }
  edestruct (receiver_processor_starts lo 16) as [qp Hp]; [lia| | |rewrite Hp; clear Hp]; [done..|].
  assert (ReceiverDaemon.listenerConfig o (Some src) = Listener.mkConfig lo 16 true (10 * Minute) 0) as ->.
  { unfold ReceiverDaemon.listenerConfig. unfold o at 1 2. cbn -[orMinimum wrapU orDefault o].
    rewrite Hlo. change (orDefault 16 cpus) with 16. by rewrite !wrapU_count by lia. }
  cbn [wrap mbind res_bind].
  destruct (receiver_listener_starts lo 16 (10 * Minute) 0 ltac:(lia) ltac:(done)) as [cache ->]. cbn [wrap mbind res_bind].
  rewrite listeners_added by done. eexists. reflexivity.
Qed.
