(* ===== verification/Installer.v ===== *)
(** The installer, [internal/setup]: six steps, each with a check, changes that
    it records as it makes them, and an undoing of what it recorded, run in
    order, undone in reverse when one fails, and removed in reverse.

    The theorems about the runs hold for any steps that keep the promises of
    [StepLaws]; the six steps are shown to keep them. *)
From S2P Require Import Prelude State Text GoStrings NetAddr Journal IoModules Registry Filtering Base64.
From S2P Require Import Lifecycle Config FileOps Template.

(* ------------------------------------------------------------------ *)
(** * Steps                                                             *)
(* ------------------------------------------------------------------ *)

Record Context := mkContext { mode : gostring; dryRun : bool; suiteID : Z }.

(** A method of a step: it changes the step's record and the world. *)
Definition method (S A : Type) : Type := st (S * World) A.
Definition world {S A} (f : World -> World * A) : method S A := fun '(s, w) =>
  let '(w, a) := f w in ((s, w), Ok a).
Definition worldR {S A} (f : World -> World * res A) : method S A := fun '(s, w) =>
  let '(w, r) := f w in ((s, w), wrap r).
Definition record {S} : method S S := fun '(s, w) => ((s, w), Ok s).
Definition setRecord {S} (f : S -> S) : method S unit := fun '(s, w) => ((f s, w), Ok tt).
Definition raise {S A} : method S A := lift (Err (EWrap EMsg)).

(** [Step], an interface. *)
Record Methods (S : Type) := mkMethods {
  NeedsApply : Context -> method S bool;
  Apply : Context -> method S unit;
  Rollback : Context -> method S unit;
  PostApply : Context -> method S unit;
  Uninstall : Context -> method S unit
}.
Arguments mkMethods {S}.
Arguments NeedsApply {S}.
Arguments Apply {S}.
Arguments Rollback {S}.
Arguments PostApply {S}.
Arguments Uninstall {S}.

(** An operation of which an error other than [ENOENT] is reported, and one
    of which it ends the method. *)
Definition tolerant {S A} (o : Op A) : method S (A + oserr) := world o.
Definition removeGone {S} (path : gostring) : method S unit :=
  r ← tolerant (Remove path);
  match r with inl _ | inr ENOENT => mret tt | inr _ => raise end.
Definition must {S A} (o : Op A) : method S A :=
  r ← world o;
  match r with inl a => mret a | inr _ => raise end.

(** What happens to a file that was moved out of the way: it is moved back,
    and its directory is synced. [true] when the move succeeded. *)
Definition restore {S} (backup target : gostring) : method S bool :=
  r ← tolerant (Rename backup target);
  match r with
  | inr _ => mret false
  | inl _ =>
      opened ← tolerant noop;
      match opened with
      | inl _ => _ ← tolerant noop; mret true
      | inr _ => mret true
      end
  end.

(** What the installer asks from outside: paths, files that are part of the
    program, keys of a suite (if there is such a suite, if one could be made),
    [json.MarshalIndent] of the templates. *)
Class Host := {
  selfExe : option gostring;
  EvalSymlinks : gostring -> option gostring;
  Abs : gostring -> option gostring;
  ToLower : gostring -> gostring;
  senderUnit : bytes;
  receiverUnit : bytes;
  profile : bytes;
  autocomplete : bytes;
  newKey : Z -> option (option (bytes * bytes));
  newSigningKey : Z -> option (option (bytes * bytes));
  MarshalSend : SenderDaemon.JSONOptions -> option bytes;
  MarshalRecv : ReceiverDaemon.JSONOptions -> option bytes
}.

(* ------------------------------------------------------------------ *)
(** ** [InstallBinaryStep]                                              *)
(* ------------------------------------------------------------------ *)

Record InstallBinaryStep := mkBinary {
  normalizedSourcePath : gostring;
  backupTgtPath : gostring;
  replacedExisting : bool;
  installedNew : bool
}.
Definition binaryInit : InstallBinaryStep := mkBinary [] [] false false.

Definition binaryNeedsApply `{!Host} (_ : Context) : method InstallBinaryStep bool :=
  match selfExe with
  | None => raise
  | Some selfPath =>
      selfPath ← lift (NormalizePath EvalSymlinks Abs selfPath);
      _ ← setRecord (fun s => mkBinary selfPath (backupTgtPath s) (replacedExisting s) (installedNew s));
      worldR (FilesEqual selfPath DefaultBinaryPath)
  end.

Definition binaryApply (ctx : Context) : method InstallBinaryStep unit :=
  backup ← world (MakeFileBackup DefaultBinaryPath);
  let '(backupPath, existed, r) := backup in
  _ ← setRecord (fun s => mkBinary (normalizedSourcePath s) backupPath existed (installedNew s));
  _ ← lift (wrap r);
  s ← record;
  _ ← worldR (AtomicFileReplace (normalizedSourcePath s) DefaultBinaryPath);
  _ ← setRecord (fun s => mkBinary (normalizedSourcePath s) (backupTgtPath s) (replacedExisting s) true);
  if bool_decide (mode ctx = RecvMode) then
    worldR (SetCapabilities DefaultBinaryPath (Z.lor (Z.lor CapEffective CapInheritable) CapPermitted)
              [CapSYSResource; CapBPF])
  else mret tt.

Definition binaryRollback (_ : Context) : method InstallBinaryStep unit :=
  s ← record;
  _ ← (if installedNew s then _ ← tolerant (Remove DefaultBinaryPath); mret tt else mret tt);
  if replacedExisting s then _ ← restore (backupTgtPath s) DefaultBinaryPath; mret tt else mret tt.

Definition binaryPostApply (_ : Context) : method InstallBinaryStep unit :=
  s ← record;
  _ ← (if replacedExisting s then removeGone (backupTgtPath s) else mret tt);
  if installedNew s then removeGone (normalizedSourcePath s) else mret tt.

Definition binaryUninstall (_ : Context) : method InstallBinaryStep unit := removeGone DefaultBinaryPath.

Definition binaryMethods `{!Host} : Methods InstallBinaryStep :=
  mkMethods binaryNeedsApply binaryApply binaryRollback binaryPostApply binaryUninstall.

(* ------------------------------------------------------------------ *)
(** ** [InstallAutocompleteStep]                                        *)
(* ------------------------------------------------------------------ *)

Definition autoCompletePath : gostring := sysAutocompleteDir ++ str "/" ++ ProgBaseName.
Record InstallAutocompleteStep := mkAutocomplete { autoCompleteFilePath : gostring; created : bool }.

Definition autocompleteNeedsApply (_ : Context) : method InstallAutocompleteStep bool :=
  _ ← setRecord (fun s => mkAutocomplete autoCompletePath (created s));
  r ← tolerant (Stat autoCompletePath);
  match r with
  | inl _ => mret true
  | inr ENOENT => mret false
  | inr _ => raise
  end.
Definition autocompleteApply `{!Host} (_ : Context) : method InstallAutocompleteStep unit :=
  r ← tolerant (Stat sysAutocompleteDir);
  match r with
  | inl _ | inr ENOENT =>
      _ ← setRecord (fun s => mkAutocomplete autoCompletePath (created s));
      _ ← must (WriteFile autoCompletePath autocomplete);
      setRecord (fun s => mkAutocomplete (autoCompleteFilePath s) true)
  | inr _ => raise
  end.
Definition autocompleteRollback (_ : Context) : method InstallAutocompleteStep unit :=
  s ← record;
  if created s then _ ← tolerant (Remove (autoCompleteFilePath s)); mret tt else mret tt.
Definition autocompleteUninstall (_ : Context) : method InstallAutocompleteStep unit :=
  r ← tolerant (Stat autoCompletePath);
  match r with
  | inl _ => removeGone autoCompletePath
  | inr ENOENT => mret tt
  | inr _ => raise
  end.
Definition autocompleteMethods `{!Host} : Methods InstallAutocompleteStep :=
  mkMethods autocompleteNeedsApply autocompleteApply autocompleteRollback (fun _ => mret tt) autocompleteUninstall.

(* ------------------------------------------------------------------ *)
(** ** [InstallStateStep]                                               *)
(* ------------------------------------------------------------------ *)

Definition stateUninstall (_ : Context) : method unit unit :=
  _ ← must (RemoveAll DefaultStateDir); mret tt.
Definition stateMethods : Methods unit :=
  mkMethods (fun _ => mret true) (fun _ => mret tt) (fun _ => mret tt) (fun _ => mret tt) stateUninstall.

(* ------------------------------------------------------------------ *)
(** ** [InstallConfigStep]                                              *)
(* ------------------------------------------------------------------ *)

Record InstallConfigStep := mkConfigStep {
  configPath : gostring;
  dirCreated : bool;
  configCreated : bool;
  privKeyCreated : bool
}.

(** [CreateSendTemplateConfig] and [CreateRecvTemplateConfig], which differ in
    the options whose text they write. *)
Definition createTemplate {S} (filepath : gostring) (template : option bytes) : method S unit :=
  if bool_decide (filepath = []) then raise
  else
    _ ← must (OpenCreate filepath);
    match template with
    | None => raise
    | Some confBytes => must (WriteTo filepath (confBytes ++ [newline]))
    end.

(** Without the file, but with its directory, the error of the last [Stat] is
    what the method returns. *)
Definition configCheck (path : gostring) : method InstallConfigStep bool :=
  _ ← setRecord (fun s => mkConfigStep path (dirCreated s) (configCreated s) (privKeyCreated s));
  r ← tolerant (Stat DefaultConfigDir);
  match r with
  | inr ENOENT => mret false
  | inr _ => raise
  | inl _ =>
      r ← tolerant (Stat path);
      match r with inl _ => mret true | inr _ => raise end
  end.
Definition configNeedsApply (ctx : Context) : method InstallConfigStep bool :=
  if bool_decide (mode ctx = SendMode) then configCheck DefaultConfigSend
  else if bool_decide (mode ctx = RecvMode) then configCheck DefaultConfigRecv
  else raise.

Definition setConfigCreated : method InstallConfigStep unit :=
  setRecord (fun s => mkConfigStep (configPath s) (dirCreated s) true (privKeyCreated s)).

(** The private key of a receiver, unless there is one already. *)
Definition writePrivateKey (private : bytes) : method InstallConfigStep unit :=
  r ← tolerant (Stat encryptionPrivKeyPath);
  match r with
  | inl _ => mret tt
  | inr ENOENT =>
      _ ← must (OpenCreate encryptionPrivKeyPath);
      _ ← setRecord (fun s => mkConfigStep (configPath s) (dirCreated s) (configCreated s) true);
      must (WriteTo encryptionPrivKeyPath (EncodeToString private))
  | inr _ => raise
  end.

Definition configApply `{!Host} (ctx : Context) : method InstallConfigStep unit :=
  r ← tolerant (Stat DefaultConfigDir);
  _ ← match r with
      | inl _ => mret tt
      | inr ENOENT =>
          _ ← setRecord (fun s => mkConfigStep (configPath s) true (configCreated s) (privKeyCreated s));
          must (Mkdir DefaultConfigDir)
      | inr _ => raise
      end;
  s ← record;
  if bool_decide (mode ctx = SendMode) then
    _ ← createTemplate (configPath s) (MarshalSend sendTemplateOptions);
    setConfigCreated
  else if bool_decide (mode ctx = RecvMode) then
    match newKey (suiteID ctx) with
    | None | Some None => raise
    | Some (Some keys) =>
        _ ← writePrivateKey keys.1;
        _ ← createTemplate (configPath s) (MarshalRecv recvTemplateOptions);
        setConfigCreated
    end
  else raise.

Definition configRollback (_ : Context) : method InstallConfigStep unit :=
  s ← record;
  _ ← (if privKeyCreated s then _ ← tolerant (Remove encryptionPrivKeyPath); mret tt else mret tt);
  _ ← (if configCreated s then _ ← tolerant (Remove (configPath s)); mret tt else mret tt);
  if dirCreated s then _ ← tolerant (Remove DefaultConfigDir); mret tt else mret tt.

Definition configUninstall (ctx : Context) : method InstallConfigStep unit :=
  _ ← (if bool_decide (mode ctx = RecvMode) then removeGone encryptionPrivKeyPath else mret tt);
  r ← tolerant (RemoveAll DefaultConfigDir);
  match r with inl _ | inr ENOENT => mret tt | inr _ => raise end.

Definition configMethods `{!Host} : Methods InstallConfigStep :=
  mkMethods configNeedsApply configApply configRollback (fun _ => mret tt) configUninstall.

(* ------------------------------------------------------------------ *)
(** ** Templates                                                        *)
(* ------------------------------------------------------------------ *)

(** [strings.Replace(s, old, new, 1)] for an [old] that is not empty. *)
Fixpoint replaceFirst (old new s : gostring) : gostring :=
  if hasPrefix old s then new ++ drop (length old) s
  else match s with [] => [] | b :: s => b :: replaceFirst old new s end.

(** [strings.NewReplacer(...).Replace]: at every place the first pair that
    matches, in the order of the pairs; [skip] bytes belong to a match. *)
Definition firstMatch (pairs : list (gostring * gostring)) (s : gostring) : option (gostring * gostring) :=
  head (List.filter (fun p => hasPrefix p.1 s) pairs).
Fixpoint replaceFromPairs (pairs : list (gostring * gostring)) (skip : nat) (s : gostring) : gostring :=
  match s with
  | [] => []
  | b :: s' =>
      match skip with
      | S skip => replaceFromPairs pairs skip s'
      | O =>
          match firstMatch pairs s with
          | Some (old, new) => new ++ replaceFromPairs pairs (pred (length old)) s'
          | None => b :: replaceFromPairs pairs O s'
          end
      end
  end.

Definition unitMacros (unitFile : bytes) : bytes :=
  let newUnitFile := replaceFirst (str "$executableFilePath") DefaultBinaryPath unitFile in
  let newUnitFile := replaceFirst (str "$receiveConfigFilePath") DefaultConfigRecv newUnitFile in
  replaceFirst (str "$sendConfigFilePath") DefaultConfigSend newUnitFile.

Definition profileMacros (appArmorProfile : bytes) : bytes :=
  replaceFromPairs
    [(str "=$executableFilePath", str "=" ++ DefaultBinaryPath);
     (str "=$configurationDirPath", str "=" ++ DefaultConfigDir);
     (str "=$privateKeyFilePath", str "=" ++ encryptionPrivKeyPath);
     (str "=$progStateDirPath", str "=" ++ DefaultStateDir);
     (str "=$drainingSocketsMapPinPath", str "=" ++ KernelDrainMapPath);
     (str "=$drainingSocketsFuncPinPath", str "=" ++ KernelSocketRouteFunc);
     (str "$includeExtraLocalPath", appArmorExtrasPath)] O appArmorProfile.

(* ------------------------------------------------------------------ *)
(** ** [InstallAppArmorStep]                                            *)
(* ------------------------------------------------------------------ *)

Record InstallAppArmorStep := mkAppArmor {
  profileInstalled : bool;
  backupProfileFile : gostring;
  profileBackedUp : bool;
  profileApplied : bool
}.

(** Where there is no AppArmor, the error of [Stat] is returned together with
    [true]. *)
Definition appArmorNeedsApply `{!Host} (_ : Context) : method InstallAppArmorStep bool :=
  r ← tolerant (Stat sysAAProfilePath);
  match r with
  | inr _ => raise
  | inl _ => worldR (FileEqualsReader appArmorProfilePath (profileMacros profile))
  end.

Definition parser (flag : gostring) : list gostring := [str "apparmor_parser"; flag; appArmorProfilePath].

Definition appArmorApply `{!Host} (_ : Context) : method InstallAppArmorStep unit :=
  backup ← world (MakeFileBackup appArmorProfilePath);
  let '(backupPath, existed, r) := backup in
  _ ← setRecord (fun s => mkAppArmor (profileInstalled s) backupPath existed (profileApplied s));
  _ ← lift (wrap r);
  _ ← must (WriteFile appArmorProfilePath (profileMacros profile));
  _ ← setRecord (fun s => mkAppArmor true (backupProfileFile s) (profileBackedUp s) (profileApplied s));
  answer ← world (Run (parser (str "-r")));
  if negb (answer.1 : bool) then raise
  else setRecord (fun s => mkAppArmor (profileInstalled s) (backupProfileFile s) (profileBackedUp s) true).

Definition appArmorRollback (_ : Context) : method InstallAppArmorStep unit :=
  s ← record;
  _ ← (if profileInstalled s then
         _ ← (if profileApplied s then _ ← world (Run (parser (str "-R"))); mret tt else mret tt);
         _ ← tolerant (Remove appArmorProfilePath);
         mret tt
       else mret tt);
  if profileBackedUp s then
    restored ← restore (backupProfileFile s) appArmorProfilePath;
    if restored : bool then _ ← world (Run (parser (str "-r"))); mret tt else mret tt
  else mret tt.

Definition appArmorPostApply (_ : Context) : method InstallAppArmorStep unit :=
  s ← record;
  if profileBackedUp s then removeGone (backupProfileFile s) else mret tt.

Definition appArmorUninstall (_ : Context) : method InstallAppArmorStep unit :=
  r ← tolerant (Stat sysAAProfilePath);
  match r with
  | inr ENOENT => mret tt
  | inr _ => raise
  | inl _ =>
      answer ← world (Run (parser (str "-R")));
      if negb (answer.1 : bool) && negb (contains (str "not found, skipping") answer.2) then raise
      else removeGone appArmorProfilePath
  end.

Definition appArmorMethods `{!Host} : Methods InstallAppArmorStep :=
  mkMethods appArmorNeedsApply appArmorApply appArmorRollback appArmorPostApply appArmorUninstall.

(* ------------------------------------------------------------------ *)
(** ** [InstallSystemdStep]                                             *)
(* ------------------------------------------------------------------ *)

Record InstallSystemdStep := mkSystemd {
  serviceUnitFile : gostring;
  unitInstalled : bool;
  backupUnitFile : gostring;
  unitBackedUp : bool
}.

(** The unit's path and template of a mode. *)
Definition unitOf `{!Host} (ctx : Context) : option (gostring * bytes) :=
  if bool_decide (mode ctx = SendMode) then Some (senderUnitPath, senderUnit)
  else if bool_decide (mode ctx = RecvMode) then Some (receiverUnitPath, receiverUnit)
  else None.

Definition systemdNeedsApply `{!Host} (ctx : Context) : method InstallSystemdStep bool :=
  match unitOf ctx with
  | None => raise
  | Some (path, template) =>
      _ ← setRecord (fun s => mkSystemd path (unitInstalled s) (backupUnitFile s) (unitBackedUp s));
      worldR (FileEqualsReader path (unitMacros template))
  end.

Definition systemctl (args : list gostring) : list gostring := str "systemctl" :: args.
Definition daemonReload : list gostring := systemctl [str "daemon-reload"].

Definition systemdApply `{!Host} (ctx : Context) : method InstallSystemdStep unit :=
  match unitOf ctx with
  | None => raise
  | Some (_, template) =>
      s ← record;
      backup ← world (MakeFileBackup (serviceUnitFile s));
      let '(backupPath, existed, r) := backup in
      _ ← setRecord (fun s => mkSystemd (serviceUnitFile s) (unitInstalled s) backupPath existed);
      _ ← lift (wrap r);
      _ ← must (WriteFile (serviceUnitFile s) (unitMacros template));
      _ ← setRecord (fun s => mkSystemd (serviceUnitFile s) true (backupUnitFile s) (unitBackedUp s));
      answer ← world (Run daemonReload);
      if negb (answer.1 : bool) then raise else mret tt
  end.

Definition systemdRollback (_ : Context) : method InstallSystemdStep unit :=
  s ← record;
  _ ← (if unitInstalled s then _ ← tolerant (Remove (serviceUnitFile s)); mret tt else mret tt);
  if unitBackedUp s then _ ← restore (backupUnitFile s) (serviceUnitFile s); mret tt else mret tt.

Definition systemdPostApply `{!Host} (ctx : Context) : method InstallSystemdStep unit :=
  match unitOf ctx with
  | None => mret tt
  | Some (path, _) =>
      s ← record;
      _ ← (if unitBackedUp s then removeGone (backupUnitFile s) else mret tt);
      answer ← world (Run (systemctl [str "is-enabled"; Base path]));
      let enableStatus := TrimSpace (TrimNewlines answer.2) in
      if negb (answer.1 : bool) && negb (bool_decide (enableStatus = str "disabled")) then mret tt
      else if negb (bool_decide (ToLower enableStatus = str "enabled")) then
        _ ← world (Run (systemctl [str "enable"; Base path])); mret tt
      else mret tt
  end.

Definition systemdUninstall `{!Host} (ctx : Context) : method InstallSystemdStep unit :=
  match unitOf ctx with
  | None => mret tt
  | Some (path, _) =>
      enabled ← world (Run (systemctl [str "is-enabled"; Base path]));
      let unknown := negb (contains (str "not-found") enabled.2) && negb (contains (str "disabled") enabled.2)
                     && negb (contains (str "enabled") enabled.2) in
      if negb (enabled.1 : bool) && unknown then raise
      else
        _ ← (if bool_decide (ToLower (TrimNewlines enabled.2) = str "enabled") then
               answer ← world (Run (systemctl [str "disable"; Base path]));
               if negb (answer.1 : bool) then raise else mret tt
             else mret tt);
        status ← world (Run (systemctl [str "show"; Base path; str "--property=ActiveState"]));
        if negb (status.1 : bool) && negb (contains (str "could not be found") status.2) then raise
        else
          _ ← (if contains (str "activestate=active") (ToLower (TrimNewlines status.2)) then
                 answer ← world (Run (systemctl [str "stop"; Base path]));
                 if negb (answer.1 : bool) then raise else mret tt
               else mret tt);
          _ ← removeGone path;
          answer ← world (Run daemonReload);
          if negb (answer.1 : bool) then raise else mret tt
  end.

Definition systemdMethods `{!Host} : Methods InstallSystemdStep :=
  mkMethods systemdNeedsApply systemdApply systemdRollback systemdPostApply systemdUninstall.

(* ------------------------------------------------------------------ *)
(** * The installer                                                     *)
(* ------------------------------------------------------------------ *)

(** A step behind its interface: its methods and its record. *)
Record Step := mkStep {
  St : Type;
  methods : Methods St;
  stateOf : St
}.

(** A call of a method, which leaves its record changed. *)
Definition call {A} (m : forall S, Methods S -> Context -> method S A) (ctx : Context) (x : Step) (w : World)
  : Step * World * res A :=
  let '((s, w), r) := m (St x) (methods x) ctx (stateOf x, w) in (mkStep (St x) (methods x) s, w, r).
Definition callNeedsApply := call (fun S => @NeedsApply S).
Definition callApply := call (fun S => @Apply S).
(** Of these two nothing is returned. *)
Definition callRollback (ctx : Context) (x : Step) (w : World) : World :=
  (call (fun S => @Rollback S) ctx x w).1.2.
Definition callPostApply (ctx : Context) (x : Step) (w : World) : World :=
  (call (fun S => @PostApply S) ctx x w).1.2.

Definition NewInstaller `{!Host} (euid : Z) : res (list Step) :=
  if negb (euid =? 0) then Err EMsg
  else Ok [mkStep _ binaryMethods binaryInit;
           mkStep _ autocompleteMethods (mkAutocomplete [] false);
           mkStep _ stateMethods tt;
           mkStep _ configMethods (mkConfigStep [] false false false);
           mkStep _ appArmorMethods (mkAppArmor false [] false false);
           mkStep _ systemdMethods (mkSystemd [] false [] false)].

(** How the loop over the steps ends: through all of them, with a check that
    failed, or with changes that failed; [completed] has the last step first.
    A panic, of which the methods have none, is taken for an error. *)
Inductive progress :=
  | AllDone (steps : list Step)
  | CheckFailed (e : err)
  | ApplyFailed (failing : Step) (completed : list Step) (e : err).

Fixpoint forward (ctx : Context) (steps seen completed : list Step) (w : World) : World * progress :=
  match steps with
  | [] => (w, AllDone (rev seen))
  | step :: steps =>
      let '(step, w, r) := callNeedsApply ctx step w in
      match r with
      | Ok true => forward ctx steps (step :: seen) completed w
      | Ok false =>
          if dryRun ctx then forward ctx steps (step :: seen) completed w
          else
            let '(step, w, r) := callApply ctx step w in
            match r with
            | Ok _ => forward ctx steps (step :: seen) (step :: completed) w
            | Err e => (w, ApplyFailed step completed e)
            | Panic => (w, ApplyFailed step completed EMsg)
            end
      | Err e => (w, CheckFailed e)
      | Panic => (w, CheckFailed EMsg)
      end
  end.

Definition RunInstall (ctx : Context) (steps : list Step) (w : World) : World * res unit :=
  let '(w, p) := forward ctx steps [] [] w in
  match p with
  | CheckFailed e => (w, Err (EWrap e))
  | ApplyFailed failing completed e =>
      let w := callRollback ctx failing w in
      (foldl (fun w step => callRollback ctx step w) w completed, Err (EWrap e))
  | AllDone steps =>
      (if dryRun ctx then w else foldl (fun w step => callPostApply ctx step w) w steps, Ok tt)
  end.

(** [RunUninstall]: the question at a terminal, [None] without one; the steps
    in reverse, of which the last error is what is returned. *)
Definition uninstallStep (ctx : Context) (x : World * res unit) (step : Step) : World * res unit :=
  if dryRun ctx then x
  else let '(_, w, r) := call (fun S => @Uninstall S) ctx step x.1 in (w, r).
Definition RunUninstall `{!Host} (ctx : Context) (answer : option (res gostring)) (steps : list Step) (w : World)
  : World * res unit :=
  let run := foldl (uninstallStep ctx) (w, Ok tt) (rev steps) in
  match answer with
  | None => run
  | Some (Ok input) => if bool_decide (ToLower (TrimSpace input) = str "yes") then run else (w, Ok tt)
  | Some r => (w, match r with Err e => Err e | _ => Panic end)
  end.

(* ------------------------------------------------------------------ *)
(** * The command                                                       *)
(* ------------------------------------------------------------------ *)

(** [GeneratePrivateKeys] and [GenerateSigningKeys], of keys of either kind. *)
Definition printKeys (newKey : option (option (bytes * bytes))) : res (list gostring) :=
  match newKey with
  | None => Err EMsg
  | Some None => Err (EWrap EMsg)
  | Some (Some (priv, pub)) =>
      Ok [str "Private Key: " ++ EncodeToString priv; str "Public Key: " ++ EncodeToString pub]
  end.

Record SetupFlags := mkFlags {
  newKeyPair : bool;
  newSigningKeys : bool;
  newSendConf : bool;
  newRecvConf : bool;
  installSender : bool;
  installReceiver : bool;
  uninstallSender : bool;
  uninstallReceiver : bool;
  confPathFlag : gostring;
  dryRunFlag : bool
}.

Section command.
Context `{!Host}.

(** Templates written on their own, for which there is no step. *)
Definition writeTemplate (path : gostring) (template : option bytes) (w : World) : World * res unit :=
  let '((_, w), r) := createTemplate path template (tt, w) in (w, r).

(** [SetupMode] with the flags parsed: what it printed, and its exit code. *)
Definition SetupMode (flags : SetupFlags) (euid : Z) (answer : option (res gostring)) (w : World)
  : World * list gostring * Z :=
  let installer run mode :=
    match NewInstaller euid with
    | Ok steps => run (mkContext mode (dryRunFlag flags) 1) steps w
    | Err e => (w, Err e)
    | Panic => (w, Panic)
    end in
  let exit (x : World * res unit) := (x.1, [], match x.2 with Ok _ => 0 | _ => 1 end) in
  let print r := match r with Ok lines => (w, lines, 0) | _ => (w, [], 1) end in
  if newKeyPair flags then print (printKeys (newKey 1))
  else if newSigningKeys flags then print (printKeys (newSigningKey 1))
  else if newSendConf flags then exit (writeTemplate (confPathFlag flags) (MarshalSend sendTemplateOptions) w)
  else if newRecvConf flags then exit (writeTemplate (confPathFlag flags) (MarshalRecv recvTemplateOptions) w)
  else if installSender flags then exit (installer RunInstall SendMode)
  else if installReceiver flags then exit (installer RunInstall RecvMode)
  else if uninstallSender flags then exit (installer (fun ctx => RunUninstall ctx answer) SendMode)
  else if uninstallReceiver flags then exit (installer (fun ctx => RunUninstall ctx answer) RecvMode)
  else (w, [], 1).
End command.
