(* ===== verification/InstallerLaws.v ===== *)
(** What the steps of [Installer] promise ([StepLaws]), with what the operations
    of [FileOps] do, faults included, and what follows for a run of any steps
    that keep their promises: where it stops, and that undoing restores. *)
From S2P Require Import Prelude State Text GoStrings NetAddr Journal IoModules Registry Filtering Base64.
From S2P Require Import Lifecycle Config FileOps Template Installer.

(* ------------------------------------------------------------------ *)
(** * Operations                                                        *)
(* ------------------------------------------------------------------ *)

(** What every operation does to the rest of the world. *)
Record later (w w' : World) : Prop := {
  later_pid : pid w' = pid w;
  later_now : now w <= now w';
  later_calm : faults w = [] -> faults w' = []
}.
#[export] Instance later_preorder : PreOrder later.
Proof.
  split.
  - intros w. by split.
  - intros w1 w2 w3 [p1 n1 c1] [p2 n2 c2]. split; [congruence|lia|auto].
Qed.

Lemma opTorn_later {A : Type} stopped f w w' (r : A + oserr) : opTorn stopped f w = (w', r) -> later w w'.
Proof.
  unfold opTorn. destruct (f (fs w)) as [m' r'] eqn:Ef.
  destruct (faults w) as [|[| |k] fl] eqn:E; cbn; try rewrite Ef; intros [= <- <-];
    split; cbn; try done; try lia; by rewrite ?E.
Qed.
Lemma Run_later c w w' a : Run c w = (w', a) -> later w w' /\ fs w' = fs w.
Proof. unfold Run. intros [= <- <-]. by repeat split. Qed.

(** An operation without a fault, and with any. *)
Lemma calm_opTorn {A : Type} stopped f w : faults w = [] ->
  @opTorn A stopped f w = (setFs (f (fs w)).1 (advance w), (f (fs w)).2).
Proof. intros E. unfold opTorn. rewrite E. cbn. by destruct (f (fs w)). Qed.
Lemma opTorn_cases {A : Type} stopped f w w' (r : A + oserr) : opTorn stopped f w = (w', r) ->
  (fs w' = (f (fs w)).1 /\ r = (f (fs w)).2) \/ (fs w' = fs w /\ r = inr EOTHER) \/
  (exists n, fs w' = stopped n (fs w) /\ r = inr EOTHER).
Proof.
  unfold opTorn. destruct (hd Fine (faults w)) as [| |n].
  - destruct (f (fs w)). intros [= <- <-]. by left.
  - intros [= <- <-]. right. by left.
  - intros [= <- <-]. right. right. by exists n.
Qed.
Lemma op_cases {A : Type} f w w' (r : A + oserr) : op f w = (w', r) ->
  (fs w' = (f (fs w)).1 /\ r = (f (fs w)).2) \/ (fs w' = fs w /\ r = inr EOTHER).
Proof. intros [H|[H|(n & H)]]%opTorn_cases; auto. Qed.

(** Splits a compound operation into its operations, forwards. *)
Ltac os_step H :=
  match type of H with
  | context [let '(_, _) := ?e in _] =>
      let w := fresh "w" in let r := fresh "r" in let E := fresh "E" in
      destruct e as [w r] eqn:E
  end.

Lemma stampAt_not_src tag src w t : tag <> [] -> stampAt tag src w t <> src.
Proof.
  unfold stampAt. intros Ht H. assert (length (src ++ tag ++ FormatInt (pid w) ++ str "." ++ FormatInt t) = length src) as Hl
    by by rewrite H.
  rewrite !length_app in Hl. destruct tag; [done|]. cbn in Hl. lia.
Qed.
Lemma stampAt_later tag src w w' t : later w w' -> stampAt tag src w' t = stampAt tag src w t.
Proof. intros [E _ _]. unfold stampAt. by rewrite E. Qed.
Lemma hasPrefix_stampAt tag src w t : hasPrefix src (stampAt tag src w t) = true.
Proof. apply hasPrefix_spec. by eexists. Qed.

(** No name that [MakeFileBackup] or [AtomicFileReplace] may make up is taken. *)
Definition unused (src : gostring) (w : World) : Prop :=
  forall t, now w <= t -> fs w !! stampAt bakTag src w t = None /\ fs w !! stampAt tmpTag src w t = None.

(** A way to tell: every path that starts like it is it. *)
Definition noneTaken (src : gostring) (m : gmap gostring node) : bool :=
  forallb (fun pn => negb (hasPrefix src pn.1) || bool_decide (pn.1 = src)) (map_to_list m).
Lemma noneTaken_unused src w : noneTaken src (fs w) = true -> unused src w.
Proof.
  unfold noneTaken. rewrite forallb_forall. intros H t _.
  assert (Hn : forall tag, tag <> [] -> fs w !! stampAt tag src w t = None).
  { intros tag Htag. destruct (_ !! _) as [n|] eqn:E; [|done]. apply elem_of_map_to_list, list_elem_of_In, H in E.
    cbn in E. rewrite hasPrefix_stampAt in E. cbn in E. apply bool_decide_eq_true in E.
    by apply stampAt_not_src in E. }
  by split; apply Hn.
Qed.
Lemma bak_not_tmp src w t t' : stampAt bakTag src w t <> stampAt tmpTag src w t'.
Proof. unfold stampAt. intros H. apply app_inv_head in H. discriminate H. Qed.

(** Operations that change nothing. *)
Lemma read_cases {A : Type} (f : gmap gostring node -> A + oserr) w w' r :
  op (fun m => (m, f m)) w = (w', r) -> later w w' /\ fs w' = fs w /\ (r = f (fs w) \/ r = inr EOTHER).
Proof.
  intros E. split; [by apply (opTorn_later _ _ _ _ _ E)|]. apply op_cases in E as [[-> ->]|[-> ->]]; auto.
Qed.
Lemma Stat_cases path w w' r : Stat path w = (w', r) ->
  later w w' /\ fs w' = fs w /\
  match r with inl n => fs w !! path = Some n | inr ENOENT => fs w !! path = None | inr ENOTEMPTY => False | inr EOTHER => True end.
Proof.
  intros (L & F & [->| ->])%read_cases; split_and!; try done. by destruct (fs w !! path).
Qed.
Lemma Rename_cases old new w w' r : Rename old new w = (w', r) ->
  later w w' /\
  match r with
  | inl _ => exists n, fs w !! old = Some n /\ fs w !! new <> Some Dir /\ fs w' = <[new := n]> (delete old (fs w))
  | inr _ => fs w' = fs w
  end.
Proof.
  intros E. split; [by apply (opTorn_later _ _ _ _ _ E)|]. apply op_cases in E as [[-> ->]|[-> ->]]; [|done].
  destruct (fs w !! old) as [n|] eqn:Ho; [|done]. destruct (fs w !! new) as [[]|] eqn:Hn; cbn; try done; eauto 6 with congruence.
Qed.

Lemma backup_cases src w w' path existed r : MakeFileBackup src w = (w', (path, existed, r)) ->
  later w w' /\ r <> Panic /\
  ((existed = false /\ fs w' = fs w /\ (r = Ok tt -> fs w !! src = None)) \/
   exists content caps t, existed = true /\ r = Ok tt /\ fs w !! src = Some (File content caps) /\
     now w <= t /\ path = stampAt bakTag src w t /\ fs w' = <[path := File content caps]> (delete src (fs w))).
Proof.
  unfold MakeFileBackup. intros H. os_step H. apply Stat_cases in E as (L & F & R).
  destruct r0 as [[content caps|]|[| |]]; try (injection H as <- <- <- <-; split_and!; [done..|left; auto with congruence]).
  os_step H. apply Rename_cases in E as (L' & R'). pose proof (transitivity L L') as L''.
  destruct r0 as [[]|e]; injection H as <- <- <- <-; split_and!; try done.
  - right. destruct R' as (n & Hn & _ & F'). rewrite F, R in Hn. injection Hn as <-.
    exists content, caps, (now w0). destruct L as [Hp Hn _]. split_and!; try done.
    + unfold stamp, stampAt. by rewrite Hp.
    + by rewrite F', F.
  - left. by rewrite R', F.
Qed.

Lemma WriteFile_cases path data w w' r : WriteFile path data w = (w', r) ->
  later w w' /\
  match r with
  | inl _ => fs w !! path <> Some Dir /\ fs w' = fileAt path data (fs w)
  | inr _ => fs w' = fs w \/ exists written, fs w !! path <> Some Dir /\ fs w' = fileAt path written (fs w)
  end.
Proof.
  intros E. split; [by apply (opTorn_later _ _ _ _ _ E)|].
  apply opTorn_cases in E as [[-> ->]|[[-> ->]|(k & -> & ->)]]; [| by left|];
    cbn; destruct (fs w !! path) as [[]|] eqn:Ep; cbn; auto; right; eexists; split; done.
Qed.

Lemma fileAt_insert path data m : exists caps, fileAt path data m = <[path := File data caps]> m.
Proof. by eexists. Qed.

Lemma Remove_cases path w w' r : Remove path w = (w', r) ->
  later w w' /\
  match r with
  | inl _ => is_Some (fs w !! path) /\ fs w' = delete path (fs w)
  | inr e => fs w' = fs w /\ (e = ENOENT -> fs w !! path = None)
  end.
Proof.
  intros E. split; [by apply (opTorn_later _ _ _ _ _ E)|]. apply op_cases in E as [[-> ->]|[-> ->]]; [|done].
  destruct (fs w !! path) as [[content caps|]|]; cbn; [by eauto| |done].
  destruct (isEmptyDir path (fs w)); cbn; [by eauto|done].
Qed.
Lemma noop_cases w w' r : noop w = (w', r) -> later w w' /\ fs w' = fs w.
Proof. intros E. by apply (read_cases (fun _ => inl tt)) in E as (L & F & _). Qed.

Lemma allOps_snoc ops o w :
  allOps (ops ++ [o]) w =
    let '(w, r) := allOps ops w in
    match r with
    | Ok _ => let '(w, r) := o w in (w, match r with inl _ => Ok tt | inr _ => Err (EWrap EMsg) end)
    | _ => (w, r)
    end.
Proof.
  revert w. induction ops as [|p ops IH]; intros w; cbn.
  - by destruct (o w) as [w' []].
  - destruct (p w) as [w' []]; [apply IH|done].
Qed.
Lemma allOps_keep (P : World -> Prop) ops w w' r :
  Forall (fun o : Op unit => forall w w' r, P w -> o w = (w', r) -> P w') ops -> P w -> allOps ops w = (w', r) ->
  P w' /\ r <> Panic.
Proof.
  intros H. revert w. induction H as [|o ops Ho _ IH]; intros w Pw; cbn.
  { by intros [= <- <-]. }
  destruct (o w) as [w1 r1] eqn:E. pose proof (Ho _ _ _ Pw E) as P1.
  destruct r1 as [[]|]; [by apply IH|by intros [= <- <-]].
Qed.

(** The temporary file of a replacement, and what came before it. *)
Section replace.
Context (w : World) (temp dst : gostring) (fresh : fs w !! temp = None) (apart : dst <> temp).

Definition underWay (w1 : World) : Prop :=
  later w w1 /\ exists content, fs w1 = <[temp := File content None]> (fs w).
Definition replaced (w1 : World) : Prop :=
  later w w1 /\ exists content, fs w !! dst <> Some Dir /\ fs w1 = <[dst := File content None]> (fs w).

Lemma underWay_same w1 w2 : underWay w1 -> later w1 w2 -> fs w2 = fs w1 -> underWay w2.
Proof. intros (L & c & F) L2 F2. split; [by etrans|]. exists c. congruence. Qed.
Lemma underWay_noop w1 w2 r : underWay w1 -> noop w1 = (w2, r) -> underWay w2.
Proof. intros U [L F]%noop_cases. by apply (underWay_same w1). Qed.
Lemma underWay_write data w1 w2 r : underWay w1 -> WriteTo temp data w1 = (w2, r) -> underWay w2.
Proof.
  intros (L & c & F) E. pose proof (opTorn_later _ _ _ _ _ E) as L2. apply opTorn_cases in E.
  assert (forall d, append temp d (fs w1) = <[temp := File (c ++ d) None]> (fs w)) as Ha.
  { intros d. unfold append. by rewrite F, lookup_insert_eq, insert_insert_eq. }
  split; [by etrans|]. destruct E as [[-> _]|[[-> _]|(k & -> & _)]]; rewrite ?Ha; eauto.
Qed.
Lemma underWay_rename w1 w2 r : underWay w1 -> Rename temp dst w1 = (w2, r) ->
  match r with inl _ => replaced w2 | inr _ => underWay w2 end.
Proof.
  intros U E. pose proof U as (L & c & F). apply Rename_cases in E as [L2 R]. destruct r as [[]|].
  - split; [by etrans|]. destruct R as (n & Hn & Hd & F2). rewrite F in Hn, Hd, F2.
    rewrite lookup_insert_eq in Hn. injection Hn as <-. rewrite lookup_insert_ne in Hd by done.
    exists c. split; [done|]. by rewrite F2, delete_insert_eq, delete_id.
  - by apply (underWay_same w1).
Qed.
Lemma underWay_remove w1 w2 r : underWay w1 -> Remove temp w1 = (w2, r) ->
  (later w w2 /\ fs w2 = fs w) \/ underWay w2.
Proof.
  intros U E. pose proof U as (L & c & F). apply Remove_cases in E as [L2 R]. destruct r as [[]|].
  - left. split; [by etrans|]. destruct R as [_ ->]. by rewrite F, delete_insert_eq, delete_id.
  - right. apply (underWay_same w1); [done..|]. apply R.
Qed.
Lemma replaceOps_cases data w1 w2 r : underWay w1 ->
  allOps [WriteTo temp data; noop; noop; noop; noop; Rename temp dst] w1 = (w2, r) ->
  (r = Ok tt /\ replaced w2) \/ (exists e, r = Err e /\ underWay w2).
Proof.
  intros U H.
  change [WriteTo temp data; noop; noop; noop; noop; Rename temp dst]
    with ([WriteTo temp data; noop; noop; noop; noop] ++ [Rename temp dst]) in H. rewrite allOps_snoc in H.
  destruct (allOps _ w1) as [w3 r3] eqn:E. apply (allOps_keep underWay) in E as [U3 Hr3]; [| |done].
  - destruct r3 as [[]|e|]; [| |done].
    + destruct (Rename temp dst w3) as [w4 r4] eqn:Er. apply underWay_rename in Er; [|done].
      destruct r4; injection H as <- <-; eauto.
    + injection H as <- <-. eauto.
  - repeat first [apply Forall_nil_2|apply Forall_cons_2]; intros w4 w5 r4 U4 E4;
      [by eapply underWay_write|by eapply underWay_noop..].
Qed.
End replace.

(** What replacing a file may leave: the new file, nothing, or the temporary
    file, when removing it failed too. *)
Lemma AtomicFileReplace_cases src dst w w' r :
  (forall t, now w <= t -> fs w !! stampAt tmpTag dst w t = None) -> AtomicFileReplace src dst w = (w', r) ->
  (r = Ok tt /\ replaced w dst w') \/
  (exists e, r = Err e /\ later w w' /\
    (fs w' = fs w \/ exists t, now w <= t /\ underWay w (stampAt tmpTag dst w t) w')).
Proof.
  intros Hu. unfold AtomicFileReplace. intros H. os_step H.
  apply (read_cases (fun m => match m !! src with None => inr ENOENT | Some Dir => inl None
    | Some (File content _) => inl (Some content) end)) in E as (L & F & _).
  destruct r0 as [opened|e]; [|injection H as <- <-; right; eauto 6].
  assert (stamp tmpTag dst w0 = stampAt tmpTag dst w (now w0)) as Et by (by apply stampAt_later).
  assert (now w <= now w0) as Hn by by destruct L. revert Et Hn. generalize (now w0). intros t Et Hn.
  rewrite Et in H. set (temp := stampAt tmpTag dst w t) in *.
  assert (fs w !! temp = None) as Hfresh by by apply Hu.
  assert (dst <> temp) as Hdt by (symmetry; by apply stampAt_not_src).
  os_step H. pose proof (opTorn_later _ _ _ _ _ E) as L1. apply op_cases in E. rewrite F, Hfresh in E.
  unfold fileAt in E. rewrite Hfresh in E. cbn in E. pose proof (transitivity L L1) as L2.
  destruct r0 as [[]|e];
    [|destruct E as [[_ ?]|[F1 _]]; [done|]; injection H as <- <-; right; exists (EWrap EMsg); rewrite F1; auto].
  assert (underWay w temp w1) as U1.
  { split; [done|]. destruct E as [[F1 _]|[_ ?]]; [by exists []|done]. }
  os_step H. apply (read_cases (fun _ => match opened with Some data => inl data | None => inr EOTHER end))
    in E0 as (L3 & F3 & _).
  pose proof (underWay_same _ _ _ _ U1 L3 F3) as U2.
  destruct (match r0 with inl data => _ | inr _ => _ end) as [w3 r3] eqn:Em.
  assert ((r3 = Ok tt /\ replaced w dst w3) \/ (exists e, r3 = Err e /\ underWay w temp w3)) as [[-> R]|(e & -> & U3)].
  { destruct r0 as [data|e]; [by eapply replaceOps_cases|]. injection Em as <- <-. eauto. }
  - injection H as <- <-. by left.
  - destruct (Remove temp w3) as [w4 r4] eqn:Er. apply (underWay_remove w temp) in Er; [|done..].
    injection H as <- <-. right. exists e. split; [done|].
    destruct Er as [[L4 F4]|U4]; [by auto|]. split; [apply U4|]. right. by exists t.
Qed.

(** An operation that succeeded. *)
Lemma opTorn_Ok {A : Type} stopped f w w' (a : A) : opTorn stopped f w = (w', inl a) ->
  later w w' /\ fs w' = (f (fs w)).1 /\ (f (fs w)).2 = inl a.
Proof. intros E. split; [by eapply opTorn_later|]. by apply opTorn_cases in E as [[-> <-]|[[_ ?]|(k & _ & ?)]]. Qed.
Lemma allOps_Ok o ops w w' : allOps (o :: ops) w = (w', Ok tt) -> exists w1, o w = (w1, inl tt) /\ allOps ops w1 = (w', Ok tt).
Proof. cbn. destruct (o w) as [w1 [[]|e]] eqn:E; [by eauto|done]. Qed.

(** No temporary name for a file is taken. *)
Definition tempsFree (dst : gostring) (w : World) : Prop := forall t, now w <= t -> fs w !! stampAt tmpTag dst w t = None.

(** C34: Replacing a file either leaves what was there, whatever fails, or puts
    the whole content of the source there, without capabilities; in between
    there is only a file of another name. *)
Theorem AtomicFileReplace_all_or_nothing src dst w w' r :
  tempsFree dst w -> AtomicFileReplace src dst w = (w', r) ->
  match r with
  | Ok _ => exists content caps, fs w !! src = Some (File content caps) /\
              fs w' = <[dst := File content None]> (fs w)
  | Err _ => fs w' !! dst = fs w !! dst /\
             exists t, delete (stampAt tmpTag dst w t) (fs w') = delete (stampAt tmpTag dst w t) (fs w)
  | Panic => False
  end.
Proof.
  intros Hu Ha. destruct (AtomicFileReplace_cases _ _ _ _ _ Hu Ha) as [[-> _]|(e & -> & L & H)].
  - revert Ha. unfold AtomicFileReplace. intros H. os_step H.
    destruct r as [opened|]; [|done]. apply opTorn_Ok in E as (L & F & R).
    assert (stampAt tmpTag dst w0 (now w0) = stampAt tmpTag dst w (now w0)) as Et by by apply stampAt_later.
    assert (fs w !! stampAt tmpTag dst w (now w0) = None) as Hn by (apply Hu; by destruct L).
    unfold stamp in H. rewrite Et in H. set (temp := stampAt tmpTag dst w (now w0)) in *.
    os_step H. destruct r as [[]|]; [|done]. apply opTorn_Ok in E as (_ & F1 & _).
    cbn in F. rewrite F, Hn in F1. cbn in F1. unfold fileAt in F1. rewrite Hn in F1.
    os_step H. destruct r as [data|]; [|by destruct (Remove temp w2)]. apply opTorn_Ok in E as (_ & F2 & R2). cbn in F2, R2.
    destruct (allOps _ w2) as [w3 [[]|e|]] eqn:Eo; [|by destruct (Remove temp w3)..]. injection H as ->.
    apply allOps_Ok in Eo as (w4 & E4 & Eo). apply opTorn_Ok in E4 as (_ & F4 & _).
    do 4 (apply allOps_Ok in Eo as (? & [_ F5]%noop_cases & Eo); rewrite <- F5 in F4; clear F5).
    apply allOps_Ok in Eo as (w6 & [_ (n & Hr & _ & F6)]%Rename_cases & Eo). injection Eo as ->.
    cbn in F4. unfold append in F4. rewrite F2, F1, lookup_insert_eq, insert_insert_eq in F4. cbn in F4.
    rewrite F4, lookup_insert_eq in Hr. injection Hr as <-. rewrite F6, F4, delete_insert_id by done.
    destruct opened as [content|]; [|done]. injection R2 as ->.
    destruct (fs w !! src) as [[c k|]|] eqn:Es; cbn in R; try done. injection R as ->. eauto.
  - destruct H as [->|(t & Ht & _ & c & ->)]; [by split; [|exists 0]|]. split.
    + apply lookup_insert_ne, stampAt_not_src. done.
    + exists t. by rewrite delete_insert_eq.
Qed.

Definition replaceWorld (faults : list fault) : World :=
  mkWorld {[str "/new" := File (str "v2") None; str "/old" := File (str "v1") (Some [])]} faults 7 0 [] [].
Lemma AtomicFileReplace_all_or_nothing_witness :
  (exists content caps, fs (replaceWorld []) !! str "/new" = Some (File content caps) /\
     fs (AtomicFileReplace (str "/new") (str "/old") (replaceWorld [])).1 =
       <[str "/old" := File content None]> (fs (replaceWorld []))) /\
  (let w := replaceWorld [Fine; Fine; Fine; Torn 1] in
   fs (AtomicFileReplace (str "/new") (str "/old") w).1 !! str "/old" = fs w !! str "/old").
Proof.
  assert (forall faults, tempsFree (str "/old") (replaceWorld faults)) as Hu.
  { intros faults t Ht. by apply (noneTaken_unused (str "/old") (replaceWorld faults)); [vm_compute|]. }
  split.
  - assert ((AtomicFileReplace (str "/new") (str "/old") (replaceWorld [])).2 = Ok tt) as He by by vm_compute.
    refine (AtomicFileReplace_all_or_nothing _ _ (replaceWorld []) _ (Ok tt) (Hu _) _).
    rewrite <- He. apply surjective_pairing.
  - intros w. assert ((AtomicFileReplace (str "/new") (str "/old") w).2 = Err (EWrap EMsg)) as He by by vm_compute.
    refine (proj1 (AtomicFileReplace_all_or_nothing _ _ w _ (Err (EWrap EMsg)) (Hu _) _)).
    rewrite <- He. apply surjective_pairing.
Defined.

(* ------------------------------------------------------------------ *)
(** * What steps promise                                                *)
(* ------------------------------------------------------------------ *)

Abbreviation FS := (gmap gostring node).

(** A step works on the paths that start with its root. *)
Definition agree (root : gostring) (m m' : FS) : Prop := forall p, hasPrefix root p = true -> m !! p = m' !! p.
Definition sameOutside (root : gostring) (m m' : FS) : Prop := forall p, hasPrefix root p = false -> m !! p = m' !! p.
(** What was at a path is there, or something that may be left over where
    there was nothing. *)
Definition back (left : gostring -> Prop) (m0 m : FS) (p : gostring) : Prop :=
  m !! p = m0 !! p \/ (left p /\ m0 !! p = None).

(** When nothing more goes wrong, undoing the step in its present state turns
    [mf] back into [m0]. *)
Definition Undoable (ctx : Context) (root : gostring) (left : gostring -> Prop) (x : Step) (m0 mf : FS) : Prop :=
  forall w, faults w = [] -> agree root (fs w) mf ->
    faults (callRollback ctx x w) = [] /\ sameOutside root (fs w) (fs (callRollback ctx x w)) /\
    forall p, hasPrefix root p = true -> back left m0 (fs (callRollback ctx x w)) p.

Record StepLaws (ctx : Context) {S} (m : Methods S) (init : S) (root : gostring) (ready : World -> Prop)
    (left : gostring -> Prop) : Prop := {
  (** The check changes nothing. *)
  law_check w s w' r : NeedsApply m ctx (init, w) = ((s, w'), r) -> later w w' /\ fs w' = fs w /\ ran w' = ran w;
  law_frame w s w1 s2 w2 r : NeedsApply m ctx (init, w) = ((s, w1), Ok false) -> ready w1 ->
    Apply m ctx (s, w1) = ((s2, w2), r) -> later w1 w2 /\ sameOutside root (fs w1) (fs w2);
  (** What a step has done is undone exactly, what it failed to do except for
      what is left over. *)
  law_undo w s w1 s2 w2 r : NeedsApply m ctx (init, w) = ((s, w1), Ok false) -> ready w1 ->
    Apply m ctx (s, w1) = ((s2, w2), r) ->
    Undoable ctx root (fun p => r <> Ok tt /\ left p) (mkStep S m s2) (fs w1) (fs w2);
  law_ready w w' : ready w -> later w w' -> agree root (fs w) (fs w') -> ready w'
}.

(* ------------------------------------------------------------------ *)
(** * A file that is put in another one's place                         *)
(* ------------------------------------------------------------------ *)

(** The state of the files when the old one may be at [b] and the new one at
    [t]. *)
Record Stored (t b : gostring) (left : gostring -> Prop) (installed backedUp : bool) (m0 mf : FS) : Prop := {
  stored_backup : backedUp = true -> exists content caps, m0 !! t = Some (File content caps) /\
    m0 !! b = None /\ mf !! b = Some (File content caps) /\ b <> t /\ hasPrefix t b = true /\ mf !! t <> Some Dir;
  stored_new : installed = true -> exists content caps, mf !! t = Some (File content caps);
  stored_first : backedUp = false -> installed = true -> m0 !! t = None;
  stored_rest p : p <> t \/ (backedUp = false /\ installed = false) -> (backedUp = true -> p <> b) -> back left m0 mf p
}.

(** The files after the two halves of an undoing. *)
Definition removed (t : gostring) (installed : bool) (m : FS) : FS := if installed then delete t m else m.
Definition restored (t b : gostring) (backedUp : bool) (m : FS) : FS :=
  if backedUp then match m !! b with Some n => <[t := n]> (delete b m) | None => m end else m.

Lemma hasPrefix_refl p : hasPrefix p p = true.
Proof. apply hasPrefix_spec. exists []. by rewrite app_nil_r. Qed.
#[local] Hint Resolve hasPrefix_refl hasPrefix_app : core.
Lemma outside_ne t p q : hasPrefix t p = false -> hasPrefix t q = true -> q <> p.
Proof. intros Hp Hq ->. congruence. Qed.

Lemma stored_removed t b left installed backedUp m0 mf m :
  Stored t b left installed backedUp m0 mf -> agree t m mf ->
  (backedUp = true -> removed t installed m !! t <> Some Dir /\
     exists content caps, removed t installed m !! b = Some (File content caps)).
Proof.
  intros [Hb Hn _ _] Ha E. destruct (Hb E) as (c & k & _ & _ & Hmb & Hne & Hp & Hd). unfold removed.
  destruct installed.
  - rewrite lookup_delete_eq, lookup_delete_ne by done. split; [done|]. exists c, k. by rewrite Ha.
  - rewrite !Ha by done. eauto.
Qed.

Lemma stored_undone t b left installed backedUp m0 mf m :
  Stored t b left installed backedUp m0 mf -> agree t m mf ->
  sameOutside t m (restored t b backedUp (removed t installed m)) /\
  forall p, hasPrefix t p = true -> back left m0 (restored t b backedUp (removed t installed m)) p.
Proof.
  intros [Hb Hn Hf Hr] Ha. unfold restored, removed, back, sameOutside.
  destruct backedUp.
  - destruct (Hb eq_refl) as (c & k & Ht & Hnone & Hmb & Hne & Hp & _).
    assert ((if installed then delete t m else m) !! b = Some (File c k)) as ->
      by (destruct installed; rewrite ?lookup_delete_ne, Ha by done; done).
    split; intros p Hpp.
    + rewrite lookup_insert_ne, lookup_delete_ne by by apply (outside_ne t).
      destruct installed; [|done]. by rewrite lookup_delete_ne by by apply (outside_ne t).
    + destruct (decide (p = t)) as [->|Hpt]; [left; by rewrite lookup_insert_eq|].
      rewrite lookup_insert_ne by done.
      destruct (decide (p = b)) as [->|Hpb]; [left; by rewrite lookup_delete_eq|].
      rewrite lookup_delete_ne by done. destruct installed; rewrite ?lookup_delete_ne, Ha by done; apply Hr; auto.
  - destruct installed; (split; [intros p Hpp|intros p Hpp]).
    + by rewrite lookup_delete_ne by by apply (outside_ne t).
    + destruct (decide (p = t)) as [->|Hpt]; [left; rewrite lookup_delete_eq; symmetry; auto|].
      rewrite lookup_delete_ne, Ha by done. apply Hr; auto.
    + done.
    + rewrite Ha by done. apply Hr; auto.
Qed.

(** The operations of an undoing, when nothing goes wrong. *)
Lemma Remove_calm p w : faults w = [] -> (forall n, fs w !! p = Some n -> n <> Dir) ->
  exists r, Remove p w = (setFs (delete p (fs w)) (advance w), r).
Proof.
  intros Hc Hn. unfold Remove, op. rewrite calm_opTorn by done.
  destruct (fs w !! p) as [[c k|]|] eqn:E; cbn; [by eexists|by destruct (Hn Dir)|].
  rewrite delete_id by done. by eexists.
Qed.
Lemma Rename_calm old new n w : faults w = [] -> fs w !! old = Some n -> fs w !! new <> Some Dir ->
  Rename old new w = (setFs (<[new := n]> (delete old (fs w))) (advance w), inl tt).
Proof.
  intros Hc Ho Hn. unfold Rename, op. rewrite calm_opTorn by done. rewrite Ho.
  by destruct (fs w !! new) as [[]|].
Qed.
Lemma noop_calm w : faults w = [] -> noop w = (setFs (fs w) (advance w), inl tt).
Proof. intros Hc. unfold noop, op. by rewrite calm_opTorn. Qed.
Lemma advance_calm m w : faults w = [] -> faults (setFs m (advance w)) = [].
Proof. intros E. cbn. by rewrite E. Qed.
#[local] Hint Resolve advance_calm : core.

Lemma restore_calm {S} (s : S) b t n w : faults w = [] -> fs w !! b = Some n -> fs w !! t <> Some Dir ->
  exists w', restore b t (s, w) = ((s, w'), Ok true) /\ faults w' = [] /\ fs w' = restored t b true (fs w).
Proof.
  intros Hc Hb Ht. eexists. split.
  - unfold restore, tolerant, world, mbind, st_bind. rewrite (Rename_calm b t n) by done.
    rewrite noop_calm by auto. rewrite noop_calm by auto. reflexivity.
  - cbn. rewrite Hc, Hb. done.
Qed.

(** Methods of steps, one call at a time. *)
Lemma world_bind {S A B} (f : World -> World * A) (k : A -> method S B) s w w' a :
  f w = (w', a) -> (world f ≫= k) (s, w) = k a (s, w').
Proof. intros E. unfold world, mbind, st_bind. by rewrite E. Qed.
Lemma worldR_bind {S A B} (f : World -> World * res A) (k : A -> method S B) s w w' r :
  f w = (w', r) -> (worldR f ≫= k) (s, w) =
    match wrap r with Ok a => k a (s, w') | Err e => ((s, w'), Err e) | Panic => ((s, w'), Panic) end.
Proof. intros E. unfold worldR, mbind, st_bind. rewrite E. by destruct r. Qed.
Lemma must_bind {S A B} (o : Op A) (k : A -> method S B) s w w' r :
  o w = (w', r) -> (must o ≫= k) (s, w) = match r with inl a => k a (s, w') | inr _ => ((s, w'), Err (EWrap EMsg)) end.
Proof. intros E. unfold must, world, mbind, st_bind, raise, lift. rewrite E. by destruct r. Qed.

Lemma tolerant_bind {S A B} (o : Op A) (k : A + oserr -> method S B) s w w' r :
  o w = (w', r) -> (tolerant o ≫= k) (s, w) = k r (s, w').
Proof. apply world_bind. Qed.
Lemma setRecord_bind {S B} (f : S -> S) (k : unit -> method S B) s w : (setRecord f ≫= k) (s, w) = k tt (f s, w).
Proof. done. Qed.
Lemma record_bind {S B} (k : S -> method S B) s w : (record ≫= k) (s, w) = k s (s, w).
Proof. done. Qed.
Lemma lift_bind {S A B} (r : res A) (k : A -> method S B) s w :
  (lift r ≫= k) (s, w) = match r with Ok a => k a (s, w) | Err e => ((s, w), Err e) | Panic => ((s, w), Panic) end.
Proof. by destruct r. Qed.
Lemma mret_bind {S A B} (a : A) (k : A -> method S B) s w : (mret a ≫= k) (s, w) = k a (s, w).
Proof. done. Qed.
Lemma raise_bind {S A B} (k : A -> method S B) s w : (raise ≫= k) (s, w) = ((s, w), Err (EWrap EMsg)).
Proof. done. Qed.
Lemma bind_assoc {S A B C} (m : method S A) (f : A -> method S B) (g : B -> method S C) x :
  ((m ≫= f) ≫= g) x = (m ≫= fun a => f a ≫= g) x.
Proof. unfold mbind, st_bind. by destruct (m x) as [? []]. Qed.
Create Rewrite HintDb methods.
#[export] Hint Rewrite @setRecord_bind @record_bind @lift_bind @mret_bind @raise_bind @bind_assoc : methods.

(** The first half of putting a file in another one's place. *)
Lemma backup_stored src w w' path existed r left : unused src w ->
  MakeFileBackup src w = (w', (path, existed, r)) ->
  later w w' /\ r <> Panic /\ (existed = true -> r = Ok tt) /\
  sameOutside src (fs w) (fs w') /\ Stored src path left false existed (fs w) (fs w') /\
  (r = Ok tt -> fs w' !! src = None) /\
  (forall t, now w' <= t -> fs w' !! stampAt tmpTag src w' t = None).
Proof.
  intros Hu H. apply backup_cases in H as (L & Hp & [(-> & F & Hr)|(c & k & t & -> & -> & Hs & Ht & -> & F)]).
  - rewrite F. split_and!; try done.
    + split; try done. intros p _ _. by left.
    + intros t Ht. rewrite (stampAt_later _ _ w) by done. apply Hu. destruct L. lia.
  - set (b := stampAt bakTag src w t) in *.
    assert (b <> src) as Hb by by apply stampAt_not_src.
    assert (hasPrefix src b = true) as Hbp by apply hasPrefix_stampAt.
    rewrite F. split_and!; try done.
    + intros p Hpp. rewrite lookup_insert_ne, lookup_delete_ne; [done|by apply (outside_ne src)..].
    + split; try done.
      * intros _. exists c, k. rewrite lookup_insert_eq, lookup_insert_ne, lookup_delete_eq by done.
        split_and!; try done. by apply Hu.
      * intros p [Hpt|[? _]] Hpb; [|done]. left. rewrite lookup_insert_ne, lookup_delete_ne; auto.
        intros ->. by apply Hpb.
    + intros _. by rewrite lookup_insert_ne, lookup_delete_eq.
    + intros t' Ht'. rewrite (stampAt_later _ _ w) by done. rewrite lookup_insert_ne by apply bak_not_tmp.
      rewrite lookup_delete_ne by (symmetry; by apply stampAt_not_src). apply Hu. destruct L. lia.
Qed.

(** The second half: writing there, of which the flag tells. *)
Lemma stored_written t b left backedUp m0 mf content caps :
  Stored t b left false backedUp m0 mf -> mf !! t = None ->
  Stored t b left true backedUp m0 (<[t := File content caps]> mf).
Proof.
  intros [Hb _ _ Hr] Ht. split.
  - intros E. destruct (Hb E) as (c & k & H1 & H2 & H3 & H4 & H5 & _). exists c, k.
    rewrite lookup_insert_eq, lookup_insert_ne by done. by split_and!.
  - intros _. rewrite lookup_insert_eq. eauto.
  - intros E _. specialize (Hr t). destruct Hr as [E'|[_ ?]]; [by right|congruence|congruence|done].
  - intros p [Hpt|[_ ?]] Hpb; [|done]. unfold back. rewrite lookup_insert_ne by done. apply Hr; auto.
Qed.
(** A write that stopped: what is there now is replaced by the old file, or is
    left over. *)
Lemma stored_torn t b (left left' : gostring -> Prop) backedUp m0 mf content caps :
  Stored t b left false backedUp m0 mf -> mf !! t = None -> left' t -> (forall p, left p -> left' p) ->
  Stored t b left' false backedUp m0 (<[t := File content caps]> mf).
Proof.
  intros [Hb _ _ Hr] Ht Hl Hll. split; try done.
  - intros E. destruct (Hb E) as (c & k & H1 & H2 & H3 & H4 & H5 & _). exists c, k.
    rewrite lookup_insert_eq, lookup_insert_ne by done. by split_and!.
  - intros p Hp Hpb. unfold back. destruct (decide (p = t)) as [->|Hpt].
    + rewrite lookup_insert_eq. right. split; [done|]. destruct Hp as [?|[E _]]; [done|].
      destruct (Hr t) as [E'|[_ ?]]; [by right|congruence|congruence|done].
    + rewrite lookup_insert_ne by done. destruct (Hr p) as [?|[? ?]]; auto.
Qed.
Lemma stored_weaken t b (left left' : gostring -> Prop) installed backedUp m0 mf :
  Stored t b left installed backedUp m0 mf -> (forall p, left p -> left' p) ->
  Stored t b left' installed backedUp m0 mf.
Proof.
  intros [Hb Hn Hf Hr] Hl. split; try done. intros p Hp Hpb. destruct (Hr p Hp Hpb) as [?|[? ?]]; [by left|right; auto].
Qed.

(** The undoing that three steps share: of the executable, of the unit and, but
    for its commands, of the profile. *)
Definition undoFile {S} (installed backedUp : bool) (t b : gostring) : method S unit :=
  _ ← (if installed then _ ← tolerant (Remove t); mret tt else mret tt);
  if backedUp then _ ← restore b t; mret tt else mret tt.

Definition undoReady (installed backedUp : bool) (t b : gostring) (m : FS) : Prop :=
  (installed = true -> m !! t <> Some Dir) /\
  (backedUp = true -> removed t installed m !! t <> Some Dir /\
     exists content caps, removed t installed m !! b = Some (File content caps)).

Lemma Remove_removed {S} (s : S) t installed w : faults w = [] -> (installed = true -> fs w !! t <> Some Dir) ->
  exists w', (if installed then _ ← tolerant (Remove t); mret tt else mret tt : method S unit) (s, w) = ((s, w'), Ok tt) /\
    faults w' = [] /\ fs w' = removed t installed (fs w).
Proof.
  intros Hc Hd. destruct installed; [|by exists w].
  destruct (Remove_calm t w Hc) as [r Er]; [by intros n Hn ->; apply Hd|].
  eexists. rewrite (tolerant_bind _ _ _ _ _ _ Er). split_and!; [done|by apply advance_calm|done].
Qed.
Lemma undoFile_calm {S} (s : S) installed backedUp t b w :
  faults w = [] -> undoReady installed backedUp t b (fs w) ->
  exists w', undoFile installed backedUp t b (s, w) = ((s, w'), Ok tt) /\ faults w' = [] /\
    fs w' = restored t b backedUp (removed t installed (fs w)).
Proof.
  intros Hc [Hi Hb]. unfold undoFile. destruct (Remove_removed s t installed w Hc Hi) as (w1 & E1 & C1 & F1).
  rewrite (st_bind_Ok _ _ _ _ _ E1). destruct backedUp; [|by exists w1].
  destruct (Hb eq_refl) as (Hd & c & k & Hbk). rewrite <- F1 in Hd, Hbk |- *.
  destruct (restore_calm s b t (File c k) w1) as (w2 & E2 & C2 & F2); [done..|].
  rewrite (st_bind_Ok _ _ _ _ _ E2). by exists w2.
Qed.
Lemma stored_undoable ctx t b left installed backedUp m0 mf x :
  Stored t b left installed backedUp m0 mf ->
  (forall w, faults w = [] -> undoReady installed backedUp t b (fs w) ->
     faults (callRollback ctx x w) = [] /\
     fs (callRollback ctx x w) = restored t b backedUp (removed t installed (fs w))) ->
  Undoable ctx t left x m0 mf.
Proof.
  intros Hs Hr w Hc Ha. destruct (Hr w Hc) as [-> ->].
  - split.
    + intros Hi. destruct (stored_new _ _ _ _ _ _ _ Hs Hi) as (c & k & Ht). by rewrite Ha, Ht.
    + by apply (stored_removed _ _ _ _ _ _ _ _ Hs).
  - split; [done|]. by apply stored_undone with (1 := Hs).
Qed.

(* ------------------------------------------------------------------ *)
(** * Any steps that keep their promises                                *)
(* ------------------------------------------------------------------ *)

Definition apart (r r' : gostring) : Prop := hasPrefix r r' = false /\ hasPrefix r' r = false.
Lemma apart_outside r r' p : apart r r' -> hasPrefix r p = true -> hasPrefix r' p = false.
Proof.
  intros [H1 H2] Hp. destruct (hasPrefix r' p) eqn:Hp'; [|done].
  apply hasPrefix_spec in Hp as [q Hq], Hp' as [q' Hq']. rewrite Hq in Hq'. apply app_eq_app in Hq' as (l & [[-> _]|[-> _]]).
  - by rewrite hasPrefix_app in H2.
  - by rewrite hasPrefix_app in H1.
Qed.

Section runs.
Context (ctx : Context).

Record Lawful := mkLawful {
  lawfulStep : Step;
  root : gostring;
  ready : World -> Prop;
  leftOf : gostring -> Prop;
  laws : StepLaws ctx (methods lawfulStep) (stateOf lawfulStep) root ready leftOf
}.

(** Steps, each with its root: each can be undone, and outside of the roots
    nothing has changed, up to what may be left over. *)
Record Progressed (left : gostring -> Prop) (m0 m : FS) (done : list (Step * gostring)) : Prop := {
  prog_undo : Forall (fun xr => Undoable ctx xr.2 left xr.1 m0 m) done;
  prog_apart : ForallOrdPairs (fun xr yr => apart xr.2 yr.2) done;
  prog_rest p : Forall (fun xr => hasPrefix xr.2 p = false) done -> back left m0 m p
}.

Lemma Undoable_agree r left x m0 mf mf' : agree r mf mf' -> Undoable ctx r left x m0 mf -> Undoable ctx r left x m0 mf'.
Proof. intros Ha Hu w Hc Hw. apply Hu; [done|]. intros p Hp. by rewrite Hw, Ha. Qed.
Lemma Undoable_from r left x m0 m0' mf : agree r m0 m0' -> Undoable ctx r left x m0 mf -> Undoable ctx r left x m0' mf.
Proof.
  intros Ha Hu w Hc Hw. destruct (Hu w Hc Hw) as (C & O & B). split_and!; try done.
  intros p Hp. unfold back. rewrite <- Ha by done. by apply B.
Qed.
Lemma Undoable_left r (left left' : gostring -> Prop) x m0 mf : (forall p, left p -> left' p) ->
  Undoable ctx r left x m0 mf -> Undoable ctx r left' x m0 mf.
Proof.
  intros Hl Hu w Hc Hw. destruct (Hu w Hc Hw) as (C & O & B). split_and!; try done.
  intros p Hp. destruct (B p Hp) as [?|[? ?]]; [by left|right; auto].
Qed.
Lemma sameOutside_agree r r' m m' : apart r r' -> sameOutside r m m' -> agree r' m m'.
Proof. intros Hr Ho p Hp. apply Ho. apply (apart_outside r'); [by destruct Hr|done]. Qed.

Lemma Undoable_others r left m0 m m' done : Forall (fun xr : Step * gostring => apart r xr.2) done ->
  sameOutside r m m' -> Forall (fun xr => Undoable ctx xr.2 left xr.1 m0 m) done ->
  Forall (fun xr => Undoable ctx xr.2 left xr.1 m0 m') done.
Proof.
  intros Hr Ho Hu. apply Forall_forall. intros [y r''] Hin. rewrite Forall_forall in Hr, Hu.
  apply (Undoable_agree _ _ _ _ m); [|by apply Hu]. by apply (sameOutside_agree r); [apply (Hr (y, r''))|].
Qed.

(** Undoing them all restores everything but what may be left over. *)
Lemma undo_all left m0 done w : faults w = [] -> Progressed left m0 (fs w) done ->
  forall p, back left m0 (fs (foldl (fun w step => callRollback ctx step w) w (map fst done))) p.
Proof.
  revert w. induction done as [|[x r] done IH]; intros w Hc [Hu Hp Hr]; cbn.
  { intros p. by apply Hr. }
  apply Forall_cons in Hu as [Hx Hu]. inversion_clear Hp as [|? ? Hxr Hp'].
  destruct (Hx w Hc) as (C & O & B); [done|]. apply IH; [done|]. split; [|done|].
  - by apply (Undoable_others r _ _ (fs w)).
  - intros p Hd. destruct (hasPrefix r p) eqn:E; [by apply B|].
    unfold back. rewrite <- O by done. apply Hr. by constructor.
Qed.

(** One more step. *)
Lemma Progressed_cons left m0 m m' x r done :
  Progressed (fun _ => False) m0 m done -> Forall (fun xr => apart r xr.2) done ->
  sameOutside r m m' -> Undoable ctx r left x m m' -> Progressed left m0 m' ((x, r) :: done).
Proof.
  intros [Hu Hp Hr] Ha Ho Hx.
  assert (Hrest : forall p, Forall (fun xr => hasPrefix xr.2 p = false) done -> m !! p = m0 !! p).
  { intros p Hd. by destruct (Hr p Hd) as [?|[[] _]]. }
  split.
  - constructor.
    + apply (Undoable_from _ _ _ m); [|done]. intros p Hpp. apply Hrest. eapply Forall_impl; [exact Ha|].
      intros xr Hxr. by apply (apart_outside r).
    + apply (Undoable_others r _ _ m); [done..|]. eapply Forall_impl; [exact Hu|]. intros xr. by apply Undoable_left.
  - by constructor.
  - intros p [Hpr Hd]%Forall_cons. left. rewrite <- Ho by done. by apply Hrest.
Qed.

(** What the loop over the steps does with one: it goes on, without changes or
    with the step's, or it stops there. *)
Definition checked (l : Lawful) (w : World) : Prop := exists y b, callNeedsApply ctx (lawfulStep l) w = (y, Ok b).
Inductive iteration (l : Lawful) (steps seen past : list Step) (w : World) : World * progress -> Prop :=
  | Passed w1 x : checked l w -> later w w1 -> fs w1 = fs w -> ran w1 = ran w ->
      iteration l steps seen past w (forward ctx steps (x :: seen) past w1)
  | Applied w2 x : checked l w -> dryRun ctx = false -> later w w2 -> sameOutside (root l) (fs w) (fs w2) ->
      Undoable ctx (root l) (fun _ => False) x (fs w) (fs w2) ->
      iteration l steps seen past w (forward ctx steps (x :: seen) (x :: past) w2)
  | StoppedCheck w1 e : fs w1 = fs w -> ran w1 = ran w -> iteration l steps seen past w (w1, CheckFailed e)
  | StoppedApply w2 x e : dryRun ctx = false -> sameOutside (root l) (fs w) (fs w2) ->
      Undoable ctx (root l) (leftOf l) x (fs w) (fs w2) ->
      iteration l steps seen past w (w2, ApplyFailed x past e).

Lemma forward_iteration l steps seen past w : (dryRun ctx = false -> ready l w) ->
  iteration l steps seen past w (forward ctx (lawfulStep l :: steps) seen past w).
Proof.
  intros Hr. cbn [forward]. destruct (callNeedsApply ctx (lawfulStep l) w) as [[y w1] r1] eqn:E0.
  assert (forall b, r1 = Ok b -> checked l w) as Hck by (intros b ->; by exists (y, w1), b). revert E0.
  unfold callNeedsApply, call. destruct (NeedsApply _ ctx _) as [[s w1'] r1'] eqn:E1. intros [= <- -> ->].
  destruct (law_check _ _ _ _ _ _ (laws l) _ _ _ _ E1) as (L1 & F1 & R1).
  destruct r1 as [[]|e1|]; [| |by constructor..]; specialize (Hck _ eq_refl); [by constructor|].
  destruct (dryRun ctx) eqn:Ed; [by constructor|]. unfold callApply, call. cbn [St methods stateOf].
  destruct (Apply _ ctx _) as [[s2 w2] r2] eqn:E2.
  assert (ready l w1) as Hr1.
  { apply (law_ready _ _ _ _ _ _ (laws l) w); [auto|done|]. intros p _. by rewrite F1. }
  destruct (law_frame _ _ _ _ _ _ (laws l) _ _ _ _ _ _ E1 Hr1 E2) as (L2 & O2).
  pose proof (law_undo _ _ _ _ _ _ (laws l) _ _ _ _ _ _ E1 Hr1 E2) as U2. rewrite F1 in O2, U2.
  assert (forall left : gostring -> Prop, (r2 <> Ok tt -> forall p, leftOf l p -> left p) ->
    Undoable ctx (root l) left (mkStep _ (methods (lawfulStep l)) s2) (fs w) (fs w2)) as HU.
  { intros left Hl. eapply Undoable_left; [|exact U2]. intros p [? ?]. by apply Hl. }
  destruct r2 as [[]|e2|]; constructor; try done; try by etrans.
  all: by apply HU.
Qed.

Lemma ready_others l steps w w' : Forall (fun l' => apart (root l) (root l')) steps ->
  later w w' -> sameOutside (root l) (fs w) (fs w') ->
  Forall (fun l => ready l w) steps -> Forall (fun l => ready l w') steps.
Proof.
  intros Hl L O Hr. apply Forall_forall. intros l' Hin. rewrite Forall_forall in Hl, Hr.
  apply (law_ready _ _ _ _ _ _ (laws l') w); [by apply Hr|done|].
  apply (sameOutside_agree (root l)); [by apply Hl|done].
Qed.

(** How the loop over lawful steps stops at changes that fail. *)
Lemma forward_failed steps : forall seen past m0 w w' failing completed e,
  Progressed (fun _ => False) m0 (fs w) past ->
  ForallOrdPairs (fun l l' => apart (root l) (root l')) steps ->
  Forall (fun l => Forall (fun xr => apart (root l) xr.2) past) steps ->
  Forall (fun l => ready l w) steps ->
  forward ctx (map lawfulStep steps) seen (map fst past) w = (w', ApplyFailed failing completed e) ->
  exists l past', l ∈ steps /\ completed = map fst past' /\
    Progressed (leftOf l) m0 (fs w') ((failing, root l) :: past').
Proof.
  induction steps as [|l steps IH]; intros seen past m0 w w' failing completed e Hprog Hap Hnew Hready; [done|].
  inversion_clear Hap as [|? ? Hl Hap']. apply Forall_cons in Hnew as [Hlnew Hnew]. apply Forall_cons in Hready as [Hlr Hready].
  assert (forall seen past w1, Progressed (fun _ => False) m0 (fs w1) past ->
    Forall (fun l => Forall (fun xr => apart (root l) xr.2) past) steps ->
    later w w1 -> sameOutside (root l) (fs w) (fs w1) ->
    forward ctx (map lawfulStep steps) seen (map fst past) w1 = (w', ApplyFailed failing completed e) ->
    exists l' past', l' ∈ l :: steps /\ completed = map fst past' /\
      Progressed (leftOf l') m0 (fs w') ((failing, root l') :: past')) as Hnext.
  { intros seen1 past1 w1 Hp Hn L O H.
    destruct (IH _ _ _ _ _ _ _ _ Hp Hap' Hn (ready_others _ _ _ _ Hl L O Hready) H) as (l' & past' & Hin & H').
    exists l', past'. split; [by right|done]. }
  cbn [map]. intros H. pose proof (forward_iteration l (map lawfulStep steps) seen (map fst past) w (fun _ => Hlr)) as Hi.
  rewrite H in Hi. inversion Hi as [w1 x _ L1 F1 _ E|w2 x _ _ L2 O2 U2 E|w1 e1 _ _ E|w2 x e1 _ O2 U2 E]; subst.
  - apply (Hnext _ past w1 ltac:(by rewrite F1) Hnew L1 ltac:(intros ? _; by rewrite F1) E).
  - apply (Hnext (x :: seen) ((x, root l) :: past) w2); [by apply (Progressed_cons _ _ (fs w))| |done..].
    apply Forall_forall. intros l' Hin. rewrite Forall_forall in Hl, Hnew. constructor; [|by apply Hnew].
    cbn. destruct (Hl l' Hin). by split.
  - exists l, past. split_and!; [by left|done|]. by apply (Progressed_cons _ _ (fs w)).
Qed.

(** A dry run, of any steps. *)
Lemma forward_dry steps : dryRun ctx = true -> forall seen past w w' p,
  forward ctx (map lawfulStep steps) seen past w = (w', p) ->
  fs w' = fs w /\ ran w' = ran w /\ forall x c e, p <> ApplyFailed x c e.
Proof.
  intros Hdry. induction steps as [|l steps IH]; intros seen past w w' p; [by intros [= <- <-]|].
  cbn [map]. intros H.
  pose proof (forward_iteration l (map lawfulStep steps) seen past w ltac:(congruence)) as Hi. rewrite H in Hi.
  inversion Hi as [w1 x _ L1 F1 R1 E|w2 x _ Hd L2 O2 U2 E|w1 e1 F1 R1 E|w2 x e1 Hd O2 U2 E]; subst;
    [|congruence|done|congruence].
  rewrite <- F1, <- R1. by eapply IH.
Qed.

(** A step whose check fails as long as something holds that the steps before
    it do not change is passed by no run. *)
Lemma forward_blocked (P : FS -> Prop) l post pre : forall seen past w w' xs,
  P (fs w) -> (forall w, P (fs w) -> ~ checked l w) ->
  Forall (fun l' => forall m m', sameOutside (root l') m m' -> P m -> P m') pre ->
  ForallOrdPairs (fun l l' => apart (root l) (root l')) (pre ++ l :: post) ->
  Forall (fun l => ready l w) (pre ++ l :: post) ->
  forward ctx (map lawfulStep (pre ++ l :: post)) seen past w <> (w', AllDone xs).
Proof.
  induction pre as [|l' pre IH]; intros seen past w w' xs Hq Hno Hpre Hap Hready H; cbn [app map] in *.
  - apply Forall_cons in Hready as [Hlr _].
    pose proof (forward_iteration l (map lawfulStep post) seen past w (fun _ => Hlr)) as Hi. rewrite H in Hi.
    inversion Hi; by apply (Hno w).
  - inversion_clear Hap as [|? ? Hl Hap']. apply Forall_cons in Hready as [Hlr Hready]. apply Forall_cons in Hpre as [Hk Hpre].
    pose proof (forward_iteration l' (map lawfulStep (pre ++ l :: post)) seen past w (fun _ => Hlr)) as Hi. rewrite H in Hi.
    inversion Hi as [w1 x Hc L1 F1 _ E|w2 x Hc _ L2 O2 _ E| |]; subst.
    + eapply IH; [|done..| |exact E]; [by rewrite F1|]. apply (ready_others l' _ w); [done..| |done]. intros p _. by rewrite F1.
    + eapply IH; [|done..| |exact E]; [by apply (Hk (fs w))|]. by apply (ready_others l' _ w).
Qed.
End runs.
