(* ===== verification/InstallerSteps.v ===== *)
(** The six steps of the installer keep their promises ([StepLaws]), and what
    follows for installing: an installation whose changes fail is undone,
    wherever it fails. *)
From S2P Require Import Prelude State Text GoStrings NetAddr Journal IoModules Registry Filtering Base64.
From S2P Require Import Lifecycle Config FileOps Template Installer InstallerLaws.

#[local] Hint Resolve hasPrefix_refl hasPrefix_app advance_calm : core.

(* ------------------------------------------------------------------ *)
(** * The executable                                                    *)
(* ------------------------------------------------------------------ *)

Section steps.
Context {host : Host}.

Definition binaryLeft (p : gostring) : Prop := hasPrefix (DefaultBinaryPath ++ tmpTag) p = true.

Lemma stampAt_left tag src w t : hasPrefix (src ++ tag) (stampAt tag src w t) = true.
Proof. unfold stampAt. rewrite app_assoc. apply hasPrefix_app. Qed.

Lemma SetCapabilities_cases path mode caps w w' r : SetCapabilities path mode caps w = (w', r) ->
  later w w' /\ r <> Panic /\
  (fs w' = fs w \/ exists content c, is_Some (fs w !! path) /\ fs w' = <[path := File content c]> (fs w)).
Proof.
  unfold SetCapabilities. case_bool_decide; [intros [= <- <-]; split_and!; [done..|by left]|]. intros Hs. os_step Hs.
  pose proof (opTorn_later _ _ _ _ _ E) as L. apply op_cases in E.
  destruct r0; injection Hs as <- <-; split_and!; try done; destruct E as [[-> _]|[-> _]]; auto;
    destruct (fs w !! path) as [[]|]; cbn; eauto 8.
Qed.

Lemma stored_overwritten t b left backedUp m0 mf content caps :
  Stored t b left true backedUp m0 mf -> Stored t b left true backedUp m0 (<[t := File content caps]> mf).
Proof.
  intros [Hb Hn Hf Hr]. split; try done.
  - intros E. destruct (Hb E) as (c & k & H1 & H2 & H3 & H4 & H5 & _). exists c, k.
    rewrite lookup_insert_eq, lookup_insert_ne by done. by split_and!.
  - intros _. rewrite lookup_insert_eq. eauto.
  - intros p [Hpt|[_ ?]] Hpb; [|done]. unfold back. rewrite lookup_insert_ne by done. apply Hr; auto.
Qed.
Lemma sameOutside_insert t n m m' : sameOutside t m m' -> sameOutside t m (<[t := n]> m').
Proof. intros Ho p Hp. rewrite lookup_insert_ne by by apply (outside_ne t). by apply Ho. Qed.

Lemma binaryApply_cases ctx src w s2 w2 r : unused DefaultBinaryPath w ->
  binaryApply ctx (mkBinary src [] false false, w) = ((s2, w2), r) ->
  later w w2 /\ sameOutside DefaultBinaryPath (fs w) (fs w2) /\
  Stored DefaultBinaryPath (backupTgtPath s2) (fun p => r <> Ok tt /\ binaryLeft p) (installedNew s2) (replacedExisting s2)
    (fs w) (fs w2).
Proof.
  intros Hu. unfold binaryApply. destruct (MakeFileBackup DefaultBinaryPath w) as [w1 [[b existed] r1]] eqn:E.
  rewrite (world_bind _ _ _ _ _ _ E).
  apply (backup_stored _ _ _ _ _ _ (fun p => r <> Ok tt /\ binaryLeft p)) in E as (L1 & Hp & He & O1 & S1 & N1 & T1); [|done].
  destruct r1 as [[]|e|]; [|intros [= <- <- <-]; cbn; by destruct existed; [destruct (He eq_refl)|]|done].
  autorewrite with methods. cbn [wrap normalizedSourcePath backupTgtPath replacedExisting installedNew].
  destruct (AtomicFileReplace src DefaultBinaryPath w1) as [w3 r3] eqn:E.
  destruct (AtomicFileReplace_cases _ _ _ _ _ T1 E) as [(-> & L3 & c & _ & F3)|(e & -> & L3 & F3)].
  - rewrite (worldR_bind _ _ _ _ _ _ E). cbn [wrap]. autorewrite with methods.
    cbn [normalizedSourcePath backupTgtPath replacedExisting installedNew].
    pose proof (stored_written _ _ _ _ _ _ c None S1 (N1 eq_refl)) as S3. rewrite <- F3 in S3.
    assert (sameOutside DefaultBinaryPath (fs w) (fs w3)) as O3 by (rewrite F3; by apply sameOutside_insert).
    case_bool_decide.
    + unfold worldR. match goal with |- context [SetCapabilities ?p ?m ?cs ?w] =>
        destruct (SetCapabilities p m cs w) as [w4 r4] eqn:E4 end.
      apply SetCapabilities_cases in E4 as (L4 & _ & F4). intros [= <- <- <-]. cbn [backupTgtPath installedNew replacedExisting].
      split; [by do 2 (etrans; [done|])|]. destruct F4 as [->|(c' & k' & _ & ->)]; [by split|].
      split; [by apply sameOutside_insert|by apply stored_overwritten].
    + intros [= <- <- <-]. cbn [backupTgtPath installedNew replacedExisting]. split_and!; [by etrans|done|done].
  - rewrite (worldR_bind _ _ _ _ _ _ E). intros [= <- <- <-].
    cbn [backupTgtPath installedNew replacedExisting]. split; [by etrans|].
    destruct F3 as [->|(t & Ht & _ & c & ->)]; [by split|]. set (temp := stampAt tmpTag DefaultBinaryPath w1 t).
    split.
    + intros p Hpp. rewrite lookup_insert_ne; [by apply O1|]. apply (outside_ne _ _ _ Hpp), hasPrefix_stampAt.
    + destruct S1 as [Hb _ _ Hr]. assert (temp <> DefaultBinaryPath) by by apply stampAt_not_src.
      split; try done.
      * intros ->. destruct (Hb eq_refl) as (c' & k' & H1 & H2 & H3 & H4 & H5 & H6). exists c', k'.
        assert (temp <> b). { intros <-. unfold temp in H3. rewrite T1 in H3; [done|lia]. }
        rewrite !lookup_insert_ne by done. by split_and!.
      * intros p Hpt Hpb. unfold back. destruct (decide (p = temp)) as [->|Hne].
        -- right. split; [split; [done|apply stampAt_left]|].
           destruct (Hr temp) as [E'|[_ ?]]; [by left| |by rewrite <- E'; apply T1|done].
           intros ->. destruct (Hb eq_refl) as (c' & k' & _ & _ & H3 & _). intros <-. unfold temp in H3. by rewrite T1 in H3 by lia.
        -- rewrite lookup_insert_ne by done. by apply Hr.
Qed.

Lemma binary_undoable ctx s left m0 mf :
  Stored DefaultBinaryPath (backupTgtPath s) left (installedNew s) (replacedExisting s) m0 mf ->
  Undoable ctx DefaultBinaryPath left (mkStep _ binaryMethods s) m0 mf.
Proof.
  intros Hs. apply stored_undoable with (1 := Hs). intros w Hc Hr.
  destruct (undoFile_calm s (installedNew s) (replacedExisting s) DefaultBinaryPath (backupTgtPath s) w Hc Hr)
    as (w' & E & C & F).
  assert (callRollback ctx (mkStep _ binaryMethods s) w = w') as ->; [|done].
  unfold callRollback, call. cbn [St methods stateOf Rollback binaryMethods].
  unfold binaryRollback. autorewrite with methods. unfold undoFile in E. by rewrite E.
Qed.

(** Reading and comparing. *)
Lemma reads_ran {A : Type} (f : gmap gostring node -> A + oserr) w w' r :
  op (fun m => (m, f m)) w = (w', r) -> ran w' = ran w.
Proof. unfold op, opTorn. destruct (hd Fine (faults w)); by intros [= <- <-]. Qed.
Record reads (w w' : World) : Prop := { reads_later : later w w'; reads_fs : fs w' = fs w; reads_ran' : ran w' = ran w }.
#[export] Instance reads_preorder : PreOrder reads.
Proof. split; [by intros w; split|]. intros w1 w2 w3 [] []. split; [by etrans|congruence..]. Qed.
Lemma op_reads {A : Type} (f : gmap gostring node -> A + oserr) w w' r :
  op (fun m => (m, f m)) w = (w', r) -> reads w w'.
Proof. intros E. split; [by eapply (read_cases f)|by eapply (read_cases f)|by eapply (reads_ran f)]. Qed.
Lemma Open_reads path w w' r : Open path w = (w', r) -> reads w w'.
Proof. apply (op_reads (fun m => match m !! path with None => inr ENOENT | Some Dir => inl None | Some (File c _) => inl (Some c) end)). Qed.
Lemma readAll_reads content w w' r : readAll content w = (w', r) -> reads w w'.
Proof. apply (op_reads (fun _ => match content with Some data => inl data | None => inr EOTHER end)). Qed.
Lemma Stat_reads path w w' r : Stat path w = (w', r) -> reads w w'.
Proof. apply (op_reads (fun m => match m !! path with Some n => inl n | None => inr ENOENT end)). Qed.

(** Every call of a function that only reads, in order. *)
Ltac solve_reads :=
  repeat match goal with
  | |- (let '(_, _) := ?e in _) = _ -> _ =>
      let E := fresh "E" in destruct e as [? ?] eqn:E;
      first [apply Open_reads in E|apply readAll_reads in E|apply Stat_reads in E]
  | |- match ?x with _ => _ end = _ -> _ => destruct x
  | |- (_, _) = (_, _) -> _ => intros [= <- <-]
  end; repeat (done || (etrans; [eassumption|])).
Lemma FileEqualsReader_reads path data w w' r : FileEqualsReader path data w = (w', r) -> reads w w'.
Proof. unfold FileEqualsReader. solve_reads. Qed.
Lemma FilesEqual_reads a b w w' r : FilesEqual a b w = (w', r) -> reads w w'.
Proof. unfold FilesEqual. solve_reads. Qed.
Lemma worldR_reads {S A} (f : World -> World * res A) (s s' : S) w w' r :
  (forall w' r, f w = (w', r) -> reads w w') -> worldR f (s, w) = ((s', w'), r) -> s' = s /\ reads w w'.
Proof. intros Hf. unfold worldR. destruct (f w) as [w1 r1] eqn:E. intros [= <- <- _]. eauto. Qed.

Lemma binaryNeedsApply_reads ctx s w s' w' r : binaryNeedsApply ctx (s, w) = ((s', w'), r) ->
  reads w w' /\ (r = Ok false -> exists src, s' = mkBinary src (backupTgtPath s) (replacedExisting s) (installedNew s)).
Proof.
  unfold binaryNeedsApply. destruct selfExe as [exe|]; [|intros [= <- <- <-]; split; [done|]; done].
  autorewrite with methods. destruct (NormalizePath _ _ _) as [src|e|]; try (intros [= <- <- <-]; split; done).
  autorewrite with methods. intros [-> Hr]%worldR_reads; [|by intros ? ?; apply FilesEqual_reads].
  split; [done|]. intros _. by exists src.
Qed.

Lemma unused_later t w w' : unused t w -> later w w' -> agree t (fs w) (fs w') -> unused t w'.
Proof.
  intros Hu L Ha t' Ht. rewrite (stampAt_later bakTag _ w), (stampAt_later tmpTag _ w) by done. rewrite <- !Ha by apply hasPrefix_stampAt.
  apply Hu. destruct L. lia.
Qed.

Lemma binary_laws ctx : StepLaws ctx binaryMethods binaryInit DefaultBinaryPath (unused DefaultBinaryPath) binaryLeft.
Proof.
  assert (forall w s w1, binaryNeedsApply ctx (binaryInit, w) = ((s, w1), Ok false) ->
    exists src, s = mkBinary src [] false false) as Hs.
  { intros w s w1 H. apply (binaryNeedsApply_reads ctx) in H as [_ H]. by apply H. }
  split.
  - intros w s w' r [[] _]%(binaryNeedsApply_reads ctx). by split_and!.
  - intros w s w1 s2 w2 r (src & ->)%Hs Hu Ha. apply binaryApply_cases in Ha as (L & O & _); auto.
  - intros w s w1 s2 w2 r (src & ->)%Hs Hu Ha. apply binaryApply_cases in Ha as (_ & _ & St); [|done].
    by apply binary_undoable.
  - intros w w'. apply unused_later.
Qed.

(* ------------------------------------------------------------------ *)
(** * The completion script                                             *)
(* ------------------------------------------------------------------ *)

(** The second half of putting a file in another one's place. *)
Lemma write_stored t b left backedUp m0 data w w' r :
  Stored t b left false backedUp m0 (fs w) -> fs w !! t = None -> WriteFile t data w = (w', r) ->
  later w w' /\ sameOutside t (fs w) (fs w') /\
  match r with
  | inl _ => Stored t b left true backedUp m0 (fs w')
  | inr _ => left t -> Stored t b left false backedUp m0 (fs w')
  end.
Proof.
  intros Hs Ht (L & R)%WriteFile_cases. split; [done|]. destruct r as [[]|e].
  - destruct R as [_ ->]. split; [by apply sameOutside_insert|]. by apply stored_written.
  - destruct R as [->|(d & _ & ->)]; [by split|]. split; [by apply sameOutside_insert|].
    intros Hl. by apply stored_torn with (1 := Hs).
Qed.

Lemma autocompleteNeedsApply_reads ctx s w s' w' r : autocompleteNeedsApply ctx (s, w) = ((s', w'), r) ->
  reads w w' /\ match r with Ok false => s' = mkAutocomplete autoCompletePath (created s) /\ fs w !! autoCompletePath = None | _ => True end.
Proof.
  unfold autocompleteNeedsApply. autorewrite with methods. destruct (Stat autoCompletePath w) as [w1 r1] eqn:E.
  rewrite (tolerant_bind _ _ _ _ _ _ E). pose proof (Stat_reads _ _ _ _ E). apply Stat_cases in E as (_ & _ & R).
  destruct r1 as [?|[| |]]; intros [= <- <- <-]; by split_and!.
Qed.

Lemma autocompleteApply_cases ctx w s2 w2 r : fs w !! autoCompletePath = None ->
  autocompleteApply ctx (mkAutocomplete autoCompletePath false, w) = ((s2, w2), r) ->
  later w w2 /\ sameOutside autoCompletePath (fs w) (fs w2) /\ autoCompleteFilePath s2 = autoCompletePath /\
  Stored autoCompletePath [] (fun p => r <> Ok tt /\ p = autoCompletePath) (created s2) false (fs w) (fs w2).
Proof.
  intros Hn. unfold autocompleteApply. destruct (Stat sysAutocompleteDir w) as [w1 r1] eqn:E.
  rewrite (tolerant_bind _ _ _ _ _ _ E). apply Stat_reads in E as [L1 F1 _].
  assert (forall left, Stored autoCompletePath [] left false false (fs w) (fs w1)) as S1.
  { intros left. rewrite F1. split; try done. intros p _ _. by left. }
  enough (((_ ← must (WriteFile autoCompletePath autocomplete);
             setRecord (fun s => mkAutocomplete (autoCompleteFilePath s) true))
             (mkAutocomplete autoCompletePath false, w1) = ((s2, w2), r) ->
           later w w2 /\ sameOutside autoCompletePath (fs w) (fs w2) /\ autoCompleteFilePath s2 = autoCompletePath /\
           Stored autoCompletePath [] (fun p => r <> Ok tt /\ p = autoCompletePath) (created s2) false (fs w) (fs w2))).
  { destruct r1 as [?|[| |]]; try done; intros [= <- <- <-]; cbn; (split_and!; [done|by rewrite F1|done|apply S1]). }
  intros H.
  rewrite <- F1 in Hn. destruct (WriteFile autoCompletePath autocomplete w1) as [w3 r3] eqn:E.
  rewrite (must_bind _ _ _ _ _ _ E) in H.
  apply (write_stored _ _ _ _ _ _ _ _ _ (S1 (fun p => r <> Ok tt /\ p = autoCompletePath)) Hn) in E as (L3 & O3 & R).
  rewrite F1 in O3. destruct r3 as [[]|e]; injection H as <- <- <-; (split_and!; [by etrans|done|done|]); cbn [created].
  - done.
  - by apply R.
Qed.

Lemma autocomplete_laws ctx : StepLaws ctx autocompleteMethods (mkAutocomplete [] false) autoCompletePath
  (fun _ => True) (fun p => p = autoCompletePath).
Proof.
  split; [| | |done].
  - intros w s w' r [[] _]%(autocompleteNeedsApply_reads ctx). by split_and!.
  - intros w s w1 s2 w2 r ([_ F _] & -> & Hn)%(autocompleteNeedsApply_reads ctx) _ Ha.
    apply (autocompleteApply_cases ctx) in Ha as (L & O & _); [done|by rewrite F].
  - intros w s w1 s2 w2 r ([_ F _] & -> & Hn)%(autocompleteNeedsApply_reads ctx) _ Ha.
    apply (autocompleteApply_cases ctx) in Ha as (_ & _ & Hp & Hst); [|by rewrite F].
    apply stored_undoable with (1 := Hst). intros w' Hc Hr.
    destruct (undoFile_calm s2 (created s2) false autoCompletePath [] w' Hc Hr) as (w3 & E & C & F3).
    assert (callRollback ctx (mkStep _ autocompleteMethods s2) w' = w3) as ->; [|done].
    unfold callRollback, call. cbn [St methods stateOf Rollback autocompleteMethods].
    unfold autocompleteRollback. autorewrite with methods. rewrite Hp. unfold undoFile in E.
    destruct (created s2); [|by injection E as ->].
    destruct (Remove autoCompletePath w') as [w4 r4] eqn:Er. rewrite (tolerant_bind _ _ _ _ _ _ Er).
    autorewrite with methods in E. rewrite (tolerant_bind _ _ _ _ _ _ Er) in E. by injection E as ->.
Qed.

Lemma state_laws ctx : StepLaws ctx stateMethods tt DefaultStateDir (fun _ => True) (fun _ => False).
Proof. split; [|by intros ????????|by intros ????????|done]. by intros w s w' r [= <- <- <-]. Qed.

(* ------------------------------------------------------------------ *)
(** * The profile and the unit                                          *)
(* ------------------------------------------------------------------ *)

(** What the two steps begin with: the old file is moved away and the new one
    is written. *)
Lemma place_stored {S} t data (f : gostring -> bool -> S -> S) (g : S -> S) (k : method S unit) s w s2 w2 r2 :
  unused t w ->
  (backup ← world (MakeFileBackup t);
   let '(b, existed, r) := backup in
   _ ← setRecord (f b existed);
   _ ← lift (wrap r);
   _ ← must (WriteFile t data);
   _ ← setRecord g;
   k) (s, w) = ((s2, w2), r2) ->
  exists b existed w1, later w w1 /\ sameOutside t (fs w) (fs w1) /\
    ((s2 = f b existed s /\ w2 = w1 /\ r2 <> Ok tt /\
      forall left : gostring -> Prop, left t -> Stored t b left false existed (fs w) (fs w1)) \/
     (k (g (f b existed s), w1) = ((s2, w2), r2) /\
      forall left, Stored t b left true existed (fs w) (fs w1))).
Proof.
  intros Hu. destruct (MakeFileBackup t w) as [w1 [[b existed] r1]] eqn:E. rewrite (world_bind _ _ _ _ _ _ E).
  assert (forall left, sameOutside t (fs w) (fs w1) /\ Stored t b left false existed (fs w) (fs w1)) as OS.
  { intros left. by destruct (backup_stored _ _ _ _ _ _ left Hu E) as (_ & _ & _ & O & Hs & _). }
  apply (backup_stored _ _ _ _ _ _ (fun _ => True)) in E as (L1 & _ & _ & O1 & _ & N1 & _); [|done].
  autorewrite with methods. destruct r1 as [[]|e|]; cbn [wrap].
  - destruct (WriteFile t data w1) as [w3 r3] eqn:E. rewrite (must_bind _ _ _ _ _ _ E).
    assert (forall left : gostring -> Prop, later w1 w3 /\ sameOutside t (fs w) (fs w3) /\
      match r3 with inl _ => Stored t b left true existed (fs w) (fs w3)
                  | inr _ => left t -> Stored t b left false existed (fs w) (fs w3) end) as H.
    { intros left. destruct (OS left) as [_ S1].
      destruct (write_stored _ _ _ _ _ _ _ _ _ S1 (N1 eq_refl) E) as (L3 & O3 & R).
      split_and!; try done. intros p Hp. by rewrite O1, O3. }
    destruct (H (fun _ => True)) as (L3 & O3 & _). pose proof (transitivity L1 L3). intros Hk.
    exists b, existed, w3. split_and!; [done..|]. destruct r3 as [[]|e].
    + right. split; [done|]. apply H.
    + left. injection Hk as <- <- <-. split_and!; try done. apply H.
  - intros [= <- <- <-]. exists b, existed, w1. split_and!; [done..|]. left. split_and!; try done. intros left _. apply OS.
  - intros [= <- <- <-]. exists b, existed, w1. split_and!; [done..|]. left. split_and!; try done. intros left _. apply OS.
Qed.

Lemma appArmorNeedsApply_reads ctx s w s' w' r : appArmorNeedsApply ctx (s, w) = ((s', w'), r) -> s' = s /\ reads w w'.
Proof.
  unfold appArmorNeedsApply. destruct (Stat sysAAProfilePath w) as [w1 r1] eqn:E.
  rewrite (tolerant_bind _ _ _ _ _ _ E). apply Stat_reads in E. destruct r1; [|by intros [= <- <- <-]].
  intros [-> R]%worldR_reads; [|by intros ? ?; apply FileEqualsReader_reads]. split; [done|by etrans].
Qed.

Lemma appArmorApply_cases ctx w s2 w2 r : unused appArmorProfilePath w ->
  appArmorApply ctx (mkAppArmor false [] false false, w) = ((s2, w2), r) ->
  later w w2 /\ sameOutside appArmorProfilePath (fs w) (fs w2) /\
  Stored appArmorProfilePath (backupProfileFile s2) (fun p => r <> Ok tt /\ p = appArmorProfilePath)
    (profileInstalled s2) (profileBackedUp s2) (fs w) (fs w2).
Proof.
  intros Hu (b & existed & w1 & L & O & [(-> & -> & Hr & Hs)|(Hk & Hs)])%place_stored; [| |done]; cbn.
  - split_and!; auto.
  - destruct (Run (parser (str "-r")) w1) as [w3 a] eqn:E. rewrite (world_bind _ _ _ _ _ _ E) in Hk.
    apply Run_later in E as [L3 F3]. pose proof (transitivity L L3).
    destruct a as [[] a]; injection Hk as <- <- <-; cbn; rewrite F3; split_and!; auto.
Qed.

Lemma Run_bind {S B} c (k : bool * gostring -> method S B) (s : S) w :
  exists w' a, (world (Run c) ≫= k) (s, w) = k a (s, w') /\ faults w' = faults w /\ fs w' = fs w.
Proof. eexists _, _. split; [by apply world_bind|done]. Qed.

(** The commands of the undoing change no file. *)
Lemma appArmorRollback_calm ctx s w : faults w = [] ->
  undoReady (profileInstalled s) (profileBackedUp s) appArmorProfilePath (backupProfileFile s) (fs w) ->
  exists w', appArmorRollback ctx (s, w) = ((s, w'), Ok tt) /\ faults w' = [] /\
    fs w' = restored appArmorProfilePath (backupProfileFile s) (profileBackedUp s)
              (removed appArmorProfilePath (profileInstalled s) (fs w)).
Proof.
  intros Hc [Hi Hb]. unfold appArmorRollback. autorewrite with methods.
  set (k := fun _ : unit => (if profileBackedUp s then _ else _ : method InstallAppArmorStep unit)).
  assert (forall w1, faults w1 = [] -> fs w1 = removed appArmorProfilePath (profileInstalled s) (fs w) ->
    exists w', k tt (s, w1) = ((s, w'), Ok tt) /\ faults w' = [] /\
      fs w' = restored appArmorProfilePath (backupProfileFile s) (profileBackedUp s)
              (removed appArmorProfilePath (profileInstalled s) (fs w))) as Hk.
  { intros w1 C1 F1. unfold k. destruct (profileBackedUp s); [|by exists w1].
    destruct (Hb eq_refl) as (Hd & c & caps & Hbk). rewrite <- F1 in Hd, Hbk |- *.
    destruct (restore_calm s (backupProfileFile s) appArmorProfilePath (File c caps) w1) as (w2 & E2 & C2 & F2); [done..|].
    rewrite (st_bind_Ok _ _ _ _ _ E2). destruct (Run_bind (parser (str "-r")) (fun _ => mret tt) s w2) as (w3 & a & -> & C3 & F3).
    exists w3. by rewrite C3, F3. }
  destruct (profileInstalled s); [|by apply Hk].
  assert (exists w1, ((if profileApplied s then _ ← world (Run (parser (str "-R"))); mret tt else mret tt)
    : method InstallAppArmorStep unit) (s, w) = ((s, w1), Ok tt) /\ faults w1 = [] /\ fs w1 = fs w) as (w1 & E1 & C1 & F1).
  { destruct (profileApplied s); [|by exists w].
    destruct (Run_bind (parser (str "-R")) (fun _ => mret tt) s w) as (w3 & a & -> & C3 & F3).
    exists w3. split_and!; [done|congruence|done]. }
  autorewrite with methods. rewrite (st_bind_Ok _ _ _ _ _ E1).
  destruct (Remove_calm appArmorProfilePath w1 C1) as [r Er]; [intros n Hn ->; apply Hi; congruence|].
  autorewrite with methods. rewrite (tolerant_bind _ _ _ _ _ _ Er). autorewrite with methods.
  apply Hk; [by apply advance_calm|]. cbn. by rewrite F1.
Qed.

Lemma apparmor_laws ctx : StepLaws ctx appArmorMethods (mkAppArmor false [] false false) appArmorProfilePath
  (unused appArmorProfilePath) (fun p => p = appArmorProfilePath).
Proof.
  split; [| | |intros w w'; apply unused_later].
  - intros w s w' r [_ []]%(appArmorNeedsApply_reads ctx). by split_and!.
  - intros w s w1 s2 w2 r [-> _]%(appArmorNeedsApply_reads ctx) Hu Ha.
    apply (appArmorApply_cases ctx) in Ha as (L & O & _); auto.
  - intros w s w1 s2 w2 r [-> _]%(appArmorNeedsApply_reads ctx) Hu Ha.
    apply (appArmorApply_cases ctx) in Ha as (_ & _ & Hst); [|done].
    apply stored_undoable with (1 := Hst). intros w' Hc Hr.
    destruct (appArmorRollback_calm ctx s2 w' Hc Hr) as (w3 & E & C & F3).
    assert (callRollback ctx (mkStep _ appArmorMethods s2) w' = w3) as ->; [|done].
    unfold callRollback, call. cbn [St methods stateOf Rollback appArmorMethods]. by rewrite E.
Qed.

Definition unitPath (ctx : Context) : gostring :=
  if bool_decide (mode ctx = SendMode) then senderUnitPath else receiverUnitPath.
Lemma unitOf_path ctx path template : unitOf ctx = Some (path, template) -> path = unitPath ctx.
Proof. unfold unitOf, unitPath. repeat case_bool_decide; congruence. Qed.

Lemma systemdNeedsApply_reads ctx s w s' w' r : systemdNeedsApply ctx (s, w) = ((s', w'), r) ->
  reads w w' /\
  match r with
  | Ok _ => s' = mkSystemd (unitPath ctx) (unitInstalled s) (backupUnitFile s) (unitBackedUp s)
  | _ => True
  end.
Proof.
  unfold systemdNeedsApply. destruct (unitOf ctx) as [[path template]|] eqn:Eu; [|by intros [= <- <- <-]].
  autorewrite with methods. apply unitOf_path in Eu as <-.
  intros [-> R]%worldR_reads; [|by intros ? ?; apply FileEqualsReader_reads]. split; [done|]. by destruct r.
Qed.

Lemma systemdApply_cases ctx w s2 w2 r : unused (unitPath ctx) w ->
  systemdApply ctx (mkSystemd (unitPath ctx) false [] false, w) = ((s2, w2), r) ->
  later w w2 /\ sameOutside (unitPath ctx) (fs w) (fs w2) /\ serviceUnitFile s2 = unitPath ctx /\
  Stored (unitPath ctx) (backupUnitFile s2) (fun p => r <> Ok tt /\ p = unitPath ctx)
    (unitInstalled s2) (unitBackedUp s2) (fs w) (fs w2).
Proof.
  intros Hu. unfold systemdApply. destruct (unitOf ctx) as [[path template]|].
  - autorewrite with methods. cbn [serviceUnitFile].
    intros (b & existed & w1 & L & O & [(-> & -> & Hr & Hs)|(Hk & Hs)])%place_stored; [| |done]; cbn.
    + split_and!; auto.
    + destruct (Run daemonReload w1) as [w3 a] eqn:E. rewrite (world_bind _ _ _ _ _ _ E) in Hk.
      apply Run_later in E as [L3 F3]. pose proof (transitivity L L3).
      destruct a as [[] a]; injection Hk as <- <- <-; cbn; rewrite F3; split_and!; auto.
  - intros [= <- <- <-]. cbn. split_and!; try done. split; try done. intros p _ _. by left.
Qed.

Lemma systemd_laws ctx : StepLaws ctx systemdMethods (mkSystemd [] false [] false) (unitPath ctx)
  (unused (unitPath ctx)) (fun p => p = unitPath ctx).
Proof.
  split; [| | |intros w w'; apply unused_later].
  - intros w s w' r [[] _]%(systemdNeedsApply_reads ctx). by split_and!.
  - intros w s w1 s2 w2 r [_ ->]%(systemdNeedsApply_reads ctx) Hu Ha.
    apply (systemdApply_cases ctx) in Ha as (L & O & _); auto.
  - intros w s w1 s2 w2 r [_ ->]%(systemdNeedsApply_reads ctx) Hu Ha.
    apply (systemdApply_cases ctx) in Ha as (_ & _ & Hp & Hst); [|done].
    apply stored_undoable with (1 := Hst). intros w' Hc Hr.
    destruct (undoFile_calm s2 (unitInstalled s2) (unitBackedUp s2) (unitPath ctx) (backupUnitFile s2) w' Hc Hr)
      as (w3 & E & C & F3).
    assert (callRollback ctx (mkStep _ systemdMethods s2) w' = w3) as ->; [|done].
    unfold callRollback, call. cbn [St methods stateOf Rollback systemdMethods].
    unfold systemdRollback. autorewrite with methods. rewrite Hp. unfold undoFile in E. by rewrite E.
Qed.

(* ------------------------------------------------------------------ *)
(** * The configuration                                                 *)
(* ------------------------------------------------------------------ *)

Definition confPath (ctx : Context) : gostring :=
  if bool_decide (mode ctx = SendMode) then DefaultConfigSend else DefaultConfigRecv.
Definition confReady (w : World) : Prop :=
  fs w !! DefaultConfigDir = None -> forall p, below DefaultConfigDir p = true -> fs w !! p = None.

(** The files while the step works: the directory, the key and the
    configuration are new, the first two known of, the last known of or left
    over. *)
Record Made (cfg : gostring) (left : gostring -> Prop) (s : InstallConfigStep) (m0 m : FS) : Prop := {
  made_rest p : p <> DefaultConfigDir -> p <> encryptionPrivKeyPath -> p <> cfg -> m !! p = m0 !! p;
  made_path : configPath s = cfg;
  made_dir : m !! DefaultConfigDir = None \/ (m !! DefaultConfigDir = Some Dir /\ dirCreated s = true);
  made_key : m !! encryptionPrivKeyPath = None \/
    ((exists c k, m !! encryptionPrivKeyPath = Some (File c k)) /\ privKeyCreated s = true);
  made_cfg : m !! cfg = None \/
    ((exists c k, m !! cfg = Some (File c k)) /\ (configCreated s = true \/ (left cfg /\ left DefaultConfigDir)))
}.

Lemma configNeedsApply_reads ctx s w s' w' r : configNeedsApply ctx (s, w) = ((s', w'), r) ->
  reads w w' /\
  match r with
  | Ok false => s' = mkConfigStep (confPath ctx) (dirCreated s) (configCreated s) (privKeyCreated s) /\
      fs w !! DefaultConfigDir = None
  | _ => True
  end.
Proof.
  unfold configNeedsApply, confPath.
  assert (forall path, configCheck path (s, w) = ((s', w'), r) -> reads w w' /\
    match r with
    | Ok false => s' = mkConfigStep path (dirCreated s) (configCreated s) (privKeyCreated s) /\
        fs w !! DefaultConfigDir = None
    | _ => True
    end) as Hcheck.
  { intros path. unfold configCheck. autorewrite with methods. destruct (Stat DefaultConfigDir w) as [w1 r1] eqn:E.
    rewrite (tolerant_bind _ _ _ _ _ _ E). pose proof (Stat_reads _ _ _ _ E) as R1. apply Stat_cases in E as (_ & _ & N1).
    destruct r1 as [n|[| |]]; try by intros [= <- <- <-].
    destruct (Stat path w1) as [w2 r2] eqn:E2. rewrite (tolerant_bind _ _ _ _ _ _ E2).
    apply Stat_reads in E2. pose proof (transitivity R1 E2). destruct r2; by intros [= <- <- <-]. }
  repeat case_bool_decide; [apply Hcheck..|]. by intros [= <- <- <-].
Qed.

(** Methods that keep what was true of the record and of the world. *)
Definition keeps {S A} (I : S -> World -> Prop) (m : method S A) : Prop :=
  forall s w s' w' r, I s w -> m (s, w) = ((s', w'), r) -> I s' w'.
Lemma keeps_bind {S A B} (I : S -> World -> Prop) (m : method S A) (f : A -> method S B) :
  keeps I m -> (forall a, keeps I (f a)) -> keeps I (m ≫= f).
Proof.
  intros Hm Hf s w s' w' r Hi. unfold mbind, st_bind. destruct (m (s, w)) as [[s1 w1] r1] eqn:E.
  pose proof (Hm _ _ _ _ _ Hi E). destruct r1; [by apply Hf|by intros [= <- <- _]..].
Qed.
Lemma keeps_lift {S A} (I : S -> World -> Prop) (r : res A) : keeps I (lift r).
Proof. by intros s w s' w' r' Hi [= <- <- _]. Qed.
Lemma keeps_set {S} (I : S -> World -> Prop) f : (forall s w, I s w -> I (f s) w) -> keeps I (setRecord f).
Proof. intros Hf s w s' w' r Hi [= <- <- _]. auto. Qed.
Lemma keeps_world {S A} (I : S -> World -> Prop) (f : World -> World * A) :
  (forall s w w' a, I s w -> f w = (w', a) -> I s w') -> keeps I (world f).
Proof. intros Hf s w s' w' r Hi. unfold world. destruct (f w) eqn:E. intros [= <- <- _]. eauto. Qed.
Lemma keeps_must {S A} (I : S -> World -> Prop) (o : Op A) :
  (forall s w w' a, I s w -> o w = (w', a) -> I s w') -> keeps I (must o).
Proof. intros Ho. apply keeps_bind; [by apply keeps_world|]. intros []; apply keeps_lift. Qed.

Section configuration.
Context (cfg : gostring) (left : gostring -> Prop) (w0 : World).
Context (cfg_below : below DefaultConfigDir cfg = true) (cfg_key : cfg <> encryptionPrivKeyPath).
Context (cfg_left : left cfg) (dir_left : left DefaultConfigDir).

Definition making (s : InstallConfigStep) (w : World) : Prop :=
  later w0 w /\ sameOutside DefaultConfigDir (fs w0) (fs w) /\ Made cfg left s (fs w0) (fs w).

Lemma below_prefix p : below DefaultConfigDir p = true -> hasPrefix DefaultConfigDir p = true /\ p <> DefaultConfigDir.
Proof.
  unfold below. intros [q ->]%hasPrefix_spec. rewrite <- app_assoc. split; [by apply hasPrefix_app|].
  intros H. rewrite <- (app_nil_r DefaultConfigDir) in H at 2. by apply app_inv_head in H.
Qed.
Lemma key_below : below DefaultConfigDir encryptionPrivKeyPath = true.
Proof. by vm_compute. Qed.
#[local] Hint Resolve below_prefix key_below : core.

Lemma making_same s w w' : making s w -> later w w' -> fs w' = fs w -> making s w'.
Proof. intros (L & O & M) L' E. unfold making. rewrite E. split_and!; [by etrans|done..]. Qed.
Lemma making_cfg s w w' c k : making s w -> later w w' -> fs w' = <[cfg := File c k]> (fs w) -> making s w'.
Proof.
  destruct (below_prefix _ cfg_below) as [Hp Hd]. destruct (below_prefix _ key_below) as [_ Hkd].
  intros (L & O & [Mr Mp Md Mk Mc]) L' E. unfold making. rewrite E. split_and!; [by etrans| |].
  - intros p Hpp. rewrite lookup_insert_ne by by apply (outside_ne DefaultConfigDir). by apply O.
  - split; rewrite ?lookup_insert_eq, ?(lookup_insert_ne _ cfg) by done; auto.
    + intros p H1 H2 H3. rewrite lookup_insert_ne by done. auto.
    + right. split; eauto.
Qed.
Lemma making_key s w w' c k : making s w -> later w w' -> fs w' = <[encryptionPrivKeyPath := File c k]> (fs w) ->
  making (mkConfigStep (configPath s) (dirCreated s) (configCreated s) true) w'.
Proof.
  destruct (below_prefix _ key_below) as [Hp Hd].
  intros (L & O & [Mr Mp Md Mk Mc]) L' E. unfold making. rewrite E. split_and!; [by etrans| |].
  - intros p Hpp. rewrite lookup_insert_ne by by apply (outside_ne DefaultConfigDir). by apply O.
  - split; cbn [configPath dirCreated privKeyCreated configCreated];
      rewrite ?lookup_insert_eq, ?(lookup_insert_ne _ encryptionPrivKeyPath) by done; auto.
    + intros p H1 H2 H3. rewrite lookup_insert_ne by done. auto.
    + right. eauto.
Qed.

Lemma WriteTo_cases path data w w' r : WriteTo path data w = (w', r) ->
  later w w' /\ (fs w' = fs w \/ exists c k c', fs w !! path = Some (File c k) /\ fs w' = <[path := File c' k]> (fs w)).
Proof.
  intros E. split; [by apply (opTorn_later _ _ _ _ _ E)|].
  assert (forall d, append path d (fs w) = fs w \/
    exists c k c', fs w !! path = Some (File c k) /\ append path d (fs w) = <[path := File c' k]> (fs w)) as H.
  { intros d. unfold append. destruct (fs w !! path) as [[c k|]|]; [right; by do 3 eexists|by left..]. }
  apply opTorn_cases in E as [[-> _]|[[-> _]|(n & -> & _)]]; [apply H|by left|apply H].
Qed.
Lemma OpenCreate_cases path w w' r : OpenCreate path w = (w', r) ->
  later w w' /\ match r with inl _ => exists k, fs w' = <[path := File [] k]> (fs w) | inr _ => fs w' = fs w end.
Proof.
  intros E. split; [by apply (opTorn_later _ _ _ _ _ E)|]. apply op_cases in E as [[-> ->]|[-> ->]]; [|done].
  destruct (fs w !! path) as [[]|]; cbn; eauto.
Qed.

Lemma createTemplate_keeps template : keeps making (createTemplate cfg template).
Proof.
  unfold createTemplate. case_bool_decide; [apply keeps_lift|]. apply keeps_bind.
  - apply keeps_must. intros s w w' [] M (L & R)%OpenCreate_cases; [destruct R as [k R]|]; [by eapply making_cfg|by eapply making_same].
  - intros _. destruct template; [|apply keeps_lift]. apply keeps_must.
    intros s w w' a M (L & [R|(c & k & c' & _ & R)])%WriteTo_cases; [by eapply making_same|by eapply making_cfg].
Qed.
Lemma Stat_keeps {S} (I : S -> World -> Prop) path :
  (forall s w w', I s w -> later w w' -> fs w' = fs w -> I s w') -> keeps I (tolerant (Stat path)).
Proof. intros Hi. apply keeps_world. intros s w w' a H (L & F & _)%Stat_cases. eauto. Qed.
Lemma writePrivateKey_keeps private : keeps making (writePrivateKey private).
Proof.
  unfold writePrivateKey. apply keeps_bind; [by apply Stat_keeps, making_same|].
  intros [?|[| |]]; try apply keeps_lift. intros s w s' w' r M.
  destruct (OpenCreate encryptionPrivKeyPath w) as [w1 r1] eqn:E. rewrite (must_bind _ _ _ _ _ _ E).
  apply OpenCreate_cases in E as [L1 R1]. destruct r1 as [[]|]; [|intros [= <- <- _]; by eapply making_same].
  destruct R1 as [k R1]. autorewrite with methods.
  pose proof (making_key _ _ _ _ _ M L1 R1) as M1. unfold must.
  destruct (WriteTo encryptionPrivKeyPath (EncodeToString private) w1) as [w2 r2] eqn:E. rewrite (world_bind _ _ _ _ _ _ E).
  apply WriteTo_cases in E as [L2 R2]. intros H.
  assert (s' = mkConfigStep (configPath s) (dirCreated s) (configCreated s) true /\ w' = w2) as [-> ->].
  { destruct r2 as [[]|]; by injection H as <- <- _. }
  destruct R2 as [R2|(c & k' & c' & _ & R2)]; [by eapply making_same|]. by apply (making_key _ _ _ _ _ M1 L2 R2).
Qed.
Lemma setConfigCreated_keeps : keeps making setConfigCreated.
Proof. apply keeps_set. intros s w (L & O & [Mr Mp Md Mk [Mc|[Mc _]]]); split_and!; try done; split; cbn; auto. Qed.
Lemma record_keeps {B} (k : InstallConfigStep -> method InstallConfigStep B) :
  (forall s, configPath s = cfg -> keeps making (k s)) -> keeps making (record ≫= k).
Proof. intros Hk s w s' w' r M. autorewrite with methods. apply Hk; [by destruct M as (_ & _ & [])|done]. Qed.

Lemma mkdir_keeps : keeps making (
  _ ← setRecord (fun s => mkConfigStep (configPath s) true (configCreated s) (privKeyCreated s));
  must (Mkdir DefaultConfigDir)).
Proof.
  intros s w s' w' r (L & O & [Mr Mp Md Mk Mc]). autorewrite with methods.
  unfold must. destruct (Mkdir DefaultConfigDir w) as [w1 r1] eqn:E. rewrite (world_bind _ _ _ _ _ _ E). intros H.
  assert (s' = mkConfigStep (configPath s) true (configCreated s) (privKeyCreated s) /\ w' = w1) as [-> ->].
  { destruct r1 as [[]|]; by injection H as <- <- _. }
  pose proof (opTorn_later _ _ _ _ _ E) as L1. apply op_cases in E.
  assert (fs w1 = fs w \/ fs w1 = <[DefaultConfigDir := Dir]> (fs w)) as [F|F].
  { destruct E as [[F _]|[F _]]; [|by left]. destruct (fs w !! DefaultConfigDir); cbn in F; auto. }
  - unfold making. rewrite F. split_and!; [by etrans|done|]. split; cbn; auto. destruct Md as [?|[? _]]; auto.
  - destruct (below_prefix _ cfg_below) as [_ Hd]. destruct (below_prefix _ key_below) as [_ Hkd].
    unfold making. rewrite F. split_and!; [by etrans| |].
    + intros p Hpp. rewrite lookup_insert_ne; [by apply O|]. apply (outside_ne _ _ _ Hpp), hasPrefix_refl.
    + split; cbn; rewrite ?lookup_insert_eq, ?lookup_insert_ne by done; auto.
      intros p H1 H2 H3. rewrite lookup_insert_ne by done. auto.
Qed.
End configuration.

Lemma configApply_keeps ctx left w0 : left (confPath ctx) -> left DefaultConfigDir ->
  keeps (making (confPath ctx) left w0) (configApply ctx).
Proof.
  intros Hl Hd. assert (below DefaultConfigDir (confPath ctx) = true /\ confPath ctx <> encryptionPrivKeyPath) as [Hb Hk].
  { unfold confPath. case_bool_decide; by split; vm_compute. }
  unfold configApply. apply keeps_bind; [apply Stat_keeps, making_same|]. intros r. apply keeps_bind.
  { destruct r as [?|[| |]]; try apply keeps_lift. by apply mkdir_keeps. }
  intros _. apply record_keeps. intros s Hs. rewrite Hs.
  assert (keeps (making (confPath ctx) left w0) setConfigCreated) as Hset by by apply setConfigCreated_keeps.
  case_bool_decide; [|case_bool_decide; [|apply keeps_lift]].
  - apply keeps_bind; [by apply createTemplate_keeps|done].
  - destruct (newKey (suiteID ctx)) as [[keys|]|]; try apply keeps_lift.
    apply keeps_bind; [by apply writePrivateKey_keeps|]. intros _.
    apply keeps_bind; [by apply createTemplate_keeps|done].
Qed.

(** Only through its last assignment does the step succeed. *)
Lemma configApply_created ctx x s w : configApply ctx x = ((s, w), Ok tt) -> configCreated s = true.
Proof.
  assert (forall y, setConfigCreated y = ((s, w), Ok tt) -> configCreated s = true) as Hset.
  { by intros [s1 w1] [= <- <-]. }
  unfold configApply. intros (? & ? & _ & H)%st_bind_inv. apply st_bind_inv in H as (? & ? & _ & H).
  apply st_bind_inv in H as (? & ? & _ & H). case_bool_decide; [|case_bool_decide; [|by destruct x3]].
  - apply st_bind_inv in H as (? & ? & _ & H). by apply Hset in H.
  - destruct (newKey (suiteID ctx)) as [[keys|]|]; try by destruct x3.
    apply st_bind_inv in H as (? & ? & _ & H). apply st_bind_inv in H as (? & ? & _ & H). by apply Hset in H.
Qed.

Lemma isEmptyDir_true dir m : isEmptyDir dir m = true <-> forall p, below dir p = true -> m !! p = None.
Proof.
  unfold isEmptyDir. rewrite forallb_forall. split.
  - intros H p Hp. destruct (m !! p) as [n|] eqn:E; [|done]. apply elem_of_map_to_list in E.
    specialize (H (p, n)). rewrite list_elem_of_In in E. apply H in E. cbn in E. by rewrite Hp in E.
  - intros H [p n] Hin. apply list_elem_of_In, elem_of_map_to_list in Hin. cbn.
    destruct (below dir p) eqn:E; [|done]. by rewrite H in Hin.
Qed.
Lemma Remove_dir_calm dir w : faults w = [] -> (fs w !! dir = None \/ fs w !! dir = Some Dir) ->
  exists r, Remove dir w =
    (setFs (if isEmptyDir dir (fs w) then delete dir (fs w) else fs w) (advance w), r).
Proof.
  intros Hc Hd. unfold Remove, op. rewrite calm_opTorn by done.
  destruct Hd as [Hd|Hd]; rewrite Hd.
  - destruct (isEmptyDir dir (fs w)); rewrite ?delete_id by done; by eexists.
  - destruct (isEmptyDir dir (fs w)); by eexists.
Qed.

Definition unmade (cfg : gostring) (s : InstallConfigStep) (m : FS) : FS :=
  let m := removed cfg (configCreated s) (removed encryptionPrivKeyPath (privKeyCreated s) m) in
  if dirCreated s && isEmptyDir DefaultConfigDir m then delete DefaultConfigDir m else m.

Lemma Made_agree cfg left s m0 mf m : below DefaultConfigDir cfg = true -> agree DefaultConfigDir m mf ->
  Made cfg left s m0 mf ->
  (m !! DefaultConfigDir = None \/ (m !! DefaultConfigDir = Some Dir /\ dirCreated s = true)) /\
  (m !! encryptionPrivKeyPath = None \/
    ((exists c k, m !! encryptionPrivKeyPath = Some (File c k)) /\ privKeyCreated s = true)) /\
  (m !! cfg = None \/
    ((exists c k, m !! cfg = Some (File c k)) /\ (configCreated s = true \/ (left cfg /\ left DefaultConfigDir)))).
Proof.
  intros [Hc _]%below_prefix Ha [_ _ Md Mk Mc]. destruct (below_prefix _ key_below) as [Hk _].
  by rewrite !Ha by auto using hasPrefix_refl.
Qed.

Lemma configRollback_calm ctx cfg left s m0 mf w : faults w = [] -> agree DefaultConfigDir (fs w) mf ->
  below DefaultConfigDir cfg = true -> cfg <> encryptionPrivKeyPath -> Made cfg left s m0 mf ->
  exists w', configRollback ctx (s, w) = ((s, w'), Ok tt) /\ faults w' = [] /\ fs w' = unmade cfg s (fs w).
Proof.
  intros Hc Ha Hb Hne M. pose proof (made_path _ _ _ _ _ M) as Hp.
  destruct (Made_agree _ _ _ _ _ _ Hb Ha M) as (Md & Mk & Mc). destruct (below_prefix _ Hb) as [_ Hd].
  destruct (below_prefix _ key_below) as [_ Hkd]. unfold configRollback. autorewrite with methods.
  destruct (Remove_removed s encryptionPrivKeyPath (privKeyCreated s) w Hc) as (w1 & E1 & C1 & F1).
  { intros _. destruct Mk as [->|[(? & ? & ->) _]]; done. }
  rewrite (st_bind_Ok _ _ _ _ _ E1). rewrite Hp.
  destruct (Remove_removed s cfg (configCreated s) w1 C1) as (w2 & E2 & C2 & F2).
  { intros _. rewrite F1. unfold removed. destruct (privKeyCreated s); rewrite ?lookup_delete_ne by done;
      destruct Mc as [->|[(? & ? & ->) _]]; done. }
  rewrite (st_bind_Ok _ _ _ _ _ E2). unfold unmade. rewrite <- F1, <- F2. destruct (dirCreated s); [|by exists w2].
  destruct (Remove_dir_calm DefaultConfigDir w2 C2) as [r Er].
  { rewrite F2, F1. unfold removed. destruct (privKeyCreated s), (configCreated s); rewrite ?lookup_delete_ne by done;
      destruct Md as [->|[-> _]]; auto. }
  rewrite (tolerant_bind _ _ _ _ _ _ Er). eexists. split_and!; [done|by apply advance_calm|done].
Qed.

Lemma unmade_back cfg left s m0 mf m : below DefaultConfigDir cfg = true -> cfg <> encryptionPrivKeyPath ->
  (forall p, below DefaultConfigDir p = true -> m0 !! p = None) -> m0 !! DefaultConfigDir = None ->
  Made cfg left s m0 mf -> agree DefaultConfigDir m mf ->
  sameOutside DefaultConfigDir m (unmade cfg s m) /\
  forall p, hasPrefix DefaultConfigDir p = true -> back left m0 (unmade cfg s m) p.
Proof.
  intros Hb Hne Hnone Hd0 M Ha. destruct (below_prefix _ Hb) as [Hcp Hd]. pose proof key_below as Hkb.
  destruct (below_prefix _ Hkb) as [Hkp Hkd]. pose proof (hasPrefix_refl DefaultConfigDir) as Hdp.
  destruct (Made_agree _ _ _ _ _ _ Hb Ha M) as (Md & Mk & Mc). destruct M as [Mr _ _ _ _].
  unfold unmade. set (m1 := removed cfg _ _).
  assert (forall p, p <> cfg -> p <> encryptionPrivKeyPath -> m1 !! p = m !! p) as H1.
  { intros p ? ?. unfold m1, removed. destruct (configCreated s), (privKeyCreated s); by rewrite ?lookup_delete_ne. }
  assert (m1 !! encryptionPrivKeyPath = None) as Hk1.
  { unfold m1, removed. destruct Mk as [E|[_ E]]; [destruct (configCreated s), (privKeyCreated s)|rewrite E; destruct (configCreated s)];
      rewrite ?(lookup_delete_ne _ cfg) by done; rewrite ?lookup_delete_eq; try done; by rewrite ?lookup_delete_ne. }
  assert (m1 !! cfg = None \/ (left cfg /\ left DefaultConfigDir)) as Hc1.
  { unfold m1, removed. destruct (configCreated s); [left; by rewrite lookup_delete_eq|].
    destruct Mc as [E|[_ [?|?]]]; [|done|by right]. left. destruct (privKeyCreated s); by rewrite ?lookup_delete_ne. }
  set (m2 := if dirCreated s && isEmptyDir DefaultConfigDir m1 then delete DefaultConfigDir m1 else m1).
  assert (forall p, p <> DefaultConfigDir -> m2 !! p = m1 !! p) as H2.
  { intros p ?. unfold m2. destruct (_ && _); by rewrite ?lookup_delete_ne. }
  assert (forall p, p <> DefaultConfigDir -> p <> encryptionPrivKeyPath -> p <> cfg -> hasPrefix DefaultConfigDir p = true ->
    m1 !! p = m0 !! p) as H3.
  { intros p ? ? ? ?. rewrite H1, Ha by done. auto. }
  split.
  - intros p Hp. rewrite H2, H1; [done|..]; intros ->; congruence.
  - intros p Hp. unfold back. destruct (decide (p = DefaultConfigDir)) as [->|Hpd].
    + rewrite Hd0. destruct Hc1 as [Hc1|[_ Hl]]; [left|by right]. unfold m2.
      assert (isEmptyDir DefaultConfigDir m1 = true) as ->.
      { apply isEmptyDir_true. intros p Hpb. destruct (below_prefix _ Hpb) as [? ?].
        destruct (decide (p = encryptionPrivKeyPath)) as [->|]; [done|].
        destruct (decide (p = cfg)) as [->|]; [done|]. rewrite H3 by done. auto. }
      destruct (dirCreated s); cbn; [by rewrite lookup_delete_eq|].
      rewrite H1 by done. by destruct Md as [?|[_ ?]].
    + rewrite H2 by done. destruct (decide (p = encryptionPrivKeyPath)) as [->|]; [left; by rewrite Hk1, Hnone|].
      destruct (decide (p = cfg)) as [->|]; [|left; by apply H3].
      rewrite Hnone by done. destruct Hc1 as [?|[? _]]; auto.
Qed.

Definition confLeft (ctx : Context) (p : gostring) : Prop := p = confPath ctx \/ p = DefaultConfigDir.

Lemma confPath_ok ctx : below DefaultConfigDir (confPath ctx) = true /\ confPath ctx <> encryptionPrivKeyPath.
Proof. unfold confPath. case_bool_decide; by split; vm_compute. Qed.

Lemma configApply_cases ctx w s2 w2 r : confReady w -> fs w !! DefaultConfigDir = None ->
  configApply ctx (mkConfigStep (confPath ctx) false false false, w) = ((s2, w2), r) ->
  later w w2 /\ sameOutside DefaultConfigDir (fs w) (fs w2) /\
  Made (confPath ctx) (fun p => r <> Ok tt /\ confLeft ctx p) s2 (fs w) (fs w2).
Proof.
  intros Hr Hd Ha. destruct (confPath_ok ctx) as [Hb Hne].
  assert (making (confPath ctx) (confLeft ctx) w s2 w2) as (L & O & [Mr Mp Md Mk Mc]).
  { eapply (configApply_keeps ctx (confLeft ctx) w); [by left|by right| |exact Ha]. split_and!; try done.
    split; try done; left; [done|by apply Hr, key_below|by apply Hr]. }
  split_and!; try done. split; try done. destruct Mc as [?|[? [?|[? ?]]]]; auto.
  right. split; [done|]. destruct r as [[]|e|]; [left; by eapply configApply_created|right; by split_and!..].
Qed.

Lemma config_laws ctx : StepLaws ctx configMethods (mkConfigStep [] false false false) DefaultConfigDir
  confReady (confLeft ctx).
Proof.
  split.
  - intros w s w' r [[] _]%(configNeedsApply_reads ctx). by split_and!.
  - intros w s w1 s2 w2 r ([_ F _] & -> & Hd)%(configNeedsApply_reads ctx) Hr Ha.
    apply (configApply_cases ctx) in Ha as (L & O & _); [done..|by rewrite F].
  - intros w s w1 s2 w2 r ([_ F _] & -> & Hd)%(configNeedsApply_reads ctx) Hr Ha. rewrite <- F in Hd.
    apply (configApply_cases ctx) in Ha as (_ & _ & M); [|done..]. destruct (confPath_ok ctx) as [Hb Hne].
    intros w3 C3 A3. destruct (configRollback_calm ctx _ _ _ _ _ _ C3 A3 Hb Hne M) as (w4 & E & C4 & F4).
    assert (callRollback ctx (mkStep _ configMethods s2) w3 = w4) as ->.
    { unfold callRollback, call. cbn [St methods stateOf Rollback configMethods]. by rewrite E. }
    rewrite F4. split; [done|]. apply unmade_back with (5 := M); try done. by apply Hr.
  - intros w w' Hr L Ha Hd p Hp. destruct (below_prefix _ Hp) as [Hpp _]. rewrite <- Ha by done.
    apply Hr; [|done]. rewrite Ha; [done|apply hasPrefix_refl].
Qed.
End steps.

(* ------------------------------------------------------------------ *)
(** * The six steps together                                            *)
(* ------------------------------------------------------------------ *)

Section installer.
Context {host : Host} (ctx : Context).

Definition lawfulSteps : list (Lawful ctx) :=
  [mkLawful ctx (mkStep _ binaryMethods binaryInit) _ _ _ (binary_laws ctx);
   mkLawful ctx (mkStep _ autocompleteMethods (mkAutocomplete [] false)) _ _ _ (autocomplete_laws ctx);
   mkLawful ctx (mkStep _ stateMethods tt) _ _ _ (state_laws ctx);
   mkLawful ctx (mkStep _ configMethods (mkConfigStep [] false false false)) _ _ _ (config_laws ctx);
   mkLawful ctx (mkStep _ appArmorMethods (mkAppArmor false [] false false)) _ _ _ (apparmor_laws ctx);
   mkLawful ctx (mkStep _ systemdMethods (mkSystemd [] false [] false)) _ _ _ (systemd_laws ctx)].

Lemma NewInstaller_lawful euid steps : NewInstaller euid = Ok steps -> steps = map (lawfulStep ctx) lawfulSteps.
Proof. unfold NewInstaller. destruct (negb _); [done|]. by intros [= <-]. Qed.

(** No step works where another one does. *)
Lemma roots_apart : ForallOrdPairs (fun l l' => apart (root ctx l) (root ctx l')) lawfulSteps.
Proof.
  unfold lawfulSteps. repeat (constructor; [repeat constructor; cbn [root];
    unfold unitPath; try case_bool_decide; by vm_compute|]). constructor.
Qed.

(** Where an installation may begin: the names it will make up are not taken,
    and there is nothing in a directory that does not exist. *)
Definition Tidy (w : World) : Prop :=
  unused DefaultBinaryPath w /\ unused appArmorProfilePath w /\ unused (unitPath ctx) w /\ confReady w.
Lemma Tidy_ready w : Tidy w -> Forall (fun l => ready ctx l w) lawfulSteps.
Proof. intros (Hb & Ha & Hu & Hc). unfold lawfulSteps. by repeat (apply Forall_cons; split); [..|apply Forall_nil]. Qed.

(** What a step that fails may leave behind. *)
Definition leftover (p : gostring) : Prop :=
  binaryLeft p \/ p = autoCompletePath \/ confLeft ctx p \/ p = appArmorProfilePath \/ p = unitPath ctx.
Lemma leftOf_leftover l p : l ∈ lawfulSteps -> leftOf ctx l p -> leftover p.
Proof.
  unfold lawfulSteps, leftover. rewrite !elem_of_cons.
  intros [->|[->|[->|[->|[->|[->|H]]]]]]; cbn [leftOf]; auto; [done|by apply not_elem_of_nil in H].
Qed.
End installer.

(** C22: An installation of which the changes of a step fail, in whatever way
    and at whatever point, is undone: once nothing else goes wrong, every file
    is again what it was, those of the steps that had been completed included.
    Where there was nothing, what can be left is a write that had stopped in
    the middle (a completion script, a configuration with its directory, a
    profile, a unit) or a temporary copy of the executable that could not be
    removed. *)
Theorem failed_install_undone {host : Host} ctx euid steps w w1 failing completed e p :
  NewInstaller euid = Ok steps -> Tidy ctx w ->
  forward ctx steps [] [] w = (w1, ApplyFailed failing completed e) -> faults w1 = [] ->
  (RunInstall ctx steps w).2 = Err (EWrap e) /\
  (fs (RunInstall ctx steps w).1 !! p = fs w !! p \/ (leftover ctx p /\ fs w !! p = None)).
Proof.
  intros ->%(NewInstaller_lawful ctx) Ht Hf Hc. unfold RunInstall. rewrite Hf. split; [done|].
  destruct (forward_failed ctx (lawfulSteps ctx) [] [] (fs w) w w1 failing completed e)
    as (l & ds & Hl & -> & Hp); [|apply roots_apart|by apply Forall_forall|by apply Tidy_ready|done|].
  - split; [constructor..|]. intros q _. by left.
  - destruct (undo_all ctx _ _ _ _ Hc Hp p) as [?|[? ?]]; [by left|right]. split; [|done]. by eapply leftOf_leftover.
Qed.

(** No file is changed and no command is run. *)
Definition unchanged (w w' : World) : Prop := fs w' = fs w /\ ran w' = ran w.
Lemma dry_install {host : Host} ctx euid steps w :
  NewInstaller euid = Ok steps -> dryRun ctx = true ->
  fs (RunInstall ctx steps w).1 = fs w /\ ran (RunInstall ctx steps w).1 = ran w.
Proof.
  intros ->%(NewInstaller_lawful ctx) Hd. unfold RunInstall.
  destruct (forward ctx _ [] [] w) as [w1 p] eqn:E. apply forward_dry in E as (F & R & Hp); [|done].
  destruct p as [xs|e|x c e]; [by rewrite Hd|done|by destruct (Hp x c e)].
Qed.
Lemma dry_uninstall {host : Host} ctx answer steps w :
  dryRun ctx = true -> (RunUninstall ctx answer steps w).1 = w.
Proof.
  intros Hd. unfold RunUninstall.
  assert (foldl (uninstallStep ctx) (w, Ok tt) (rev steps) = (w, Ok tt)) as ->.
  { generalize (w, Ok tt : res unit). induction (rev steps) as [|x xs IH]; intros y; cbn; [done|].
    unfold uninstallStep at 2. by rewrite Hd. }
  destruct answer as [[a|e|]|]; try done. by case_bool_decide.
Qed.

(** With the flag for a dry run the command changes no file and runs no
    command, whatever it finds, is answered and whatever goes wrong, unless it
    writes a template: that it does all the same. *)
Theorem dry_run_changes_nothing {host : Host} flags euid answer w :
  dryRunFlag flags = true -> newSendConf flags = false -> newRecvConf flags = false ->
  unchanged w (SetupMode flags euid answer w).1.1.
Proof.
  intros Hd Hs Hr. unfold unchanged. unfold SetupMode. rewrite Hs, Hr.
  destruct (newKeyPair flags); [by destruct (printKeys _)|]. destruct (newSigningKeys flags); [by destruct (printKeys _)|].
  assert (forall mode, let x := match NewInstaller euid with
    | Ok steps => RunInstall (mkContext mode (dryRunFlag flags) 1) steps w
    | Err e => (w, Err e) | Panic => (w, Panic) end in fs x.1 = fs w /\ ran x.1 = ran w) as Hi.
  { intros mode. destruct (NewInstaller euid) as [steps|e|] eqn:E; [|done..]. by apply (dry_install _ euid). }
  assert (forall mode, (match NewInstaller euid with
    | Ok steps => RunUninstall (mkContext mode (dryRunFlag flags) 1) answer steps w
    | Err e => (w, Err e) | Panic => (w, Panic) end).1 = w) as Hu.
  { intros mode. destruct (NewInstaller euid) as [steps|e|]; [|done..]. by apply dry_uninstall. }
  repeat match goal with |- context [if ?b flags then _ else _] => destruct (b flags) end;
    cbn [fst snd]; first [apply Hi|by rewrite Hu|done].
Qed.

(** Of the six steps, the one a run cannot pass. *)
Lemma run_blocked {host : Host} (ctx : Context) (euid : Z) (steps : list Step) (w : World) (P : FS -> Prop) pre l post :
  NewInstaller euid = Ok steps -> Tidy ctx w -> lawfulSteps ctx = pre ++ l :: post ->
  P (fs w) -> (forall w, P (fs w) -> ~ checked ctx l w) ->
  Forall (fun l' => forall m m', sameOutside (root ctx l') m m' -> P m -> P m') pre ->
  exists e, (RunInstall ctx steps w).2 = Err e.
Proof.
  intros ->%(NewInstaller_lawful ctx) Ht Hs HP Hno Hpre. unfold RunInstall.
  destruct (forward ctx _ [] [] w) as [w1 [xs|e|x c e]] eqn:E; [|by eexists..]. exfalso.
  pose proof (roots_apart ctx) as Hap. apply Tidy_ready in Ht. rewrite Hs in E, Hap, Ht.
  by apply (forward_blocked ctx P l post pre [] [] w w1 xs).
Qed.

(** Where there is no AppArmor, nothing can be installed, though the step means
    to be left out there. *)
Theorem apparmor_required {host : Host} ctx euid steps w :
  NewInstaller euid = Ok steps -> Tidy ctx w -> fs w !! sysAAProfilePath = None ->
  exists e, (RunInstall ctx steps w).2 = Err e.
Proof.
  intros Hn Ht Hq. apply (run_blocked ctx euid steps w (fun m => m !! sysAAProfilePath = None)
    (take 4 (lawfulSteps ctx)) (mkLawful ctx (mkStep _ appArmorMethods (mkAppArmor false [] false false)) _ _ _ (apparmor_laws ctx)) (drop 5 (lawfulSteps ctx))); try done.
  - intros w1 H1 (y & b & H). revert H. unfold callNeedsApply, call. cbn [lawfulStep St methods stateOf NeedsApply appArmorMethods].
    unfold appArmorNeedsApply. destruct (Stat sysAAProfilePath w1) as [w2 r] eqn:E. rewrite (tolerant_bind _ _ _ _ _ _ E).
    apply Stat_cases in E as (_ & _ & R). destruct r; [congruence|by intros [=]].
  - repeat (apply Forall_cons; split); [..|by apply Forall_nil]; intros m m' Ho H; rewrite <- Ho; try done; by vm_compute.
Qed.

(** Where the configuration directory has only the other daemon's
    configuration, nothing can be installed. *)
Theorem second_daemon_refused {host : Host} ctx euid steps w :
  NewInstaller euid = Ok steps -> Tidy ctx w ->
  is_Some (fs w !! DefaultConfigDir) -> fs w !! confPath ctx = None ->
  exists e, (RunInstall ctx steps w).2 = Err e.
Proof.
  intros Hn Ht Hd Hq. apply (run_blocked ctx euid steps w (fun m => is_Some (m !! DefaultConfigDir) /\ m !! confPath ctx = None)
    (take 3 (lawfulSteps ctx)) (mkLawful ctx (mkStep _ configMethods (mkConfigStep [] false false false)) _ _ _ (config_laws ctx)) (drop 4 (lawfulSteps ctx))); try done.
  - intros w1 [[n H0] H1] (y & b & H). revert H. unfold callNeedsApply, call. cbn [lawfulStep St methods stateOf NeedsApply configMethods].
    unfold configNeedsApply. unfold confPath in H1.
    assert (forall path s, fs w1 !! path = None -> (configCheck path (s, w1)).2 = Err (EWrap EMsg)) as Hc.
    { intros path s Hp. unfold configCheck. autorewrite with methods.
      destruct (Stat DefaultConfigDir w1) as [w2 r] eqn:E. rewrite (tolerant_bind _ _ _ _ _ _ E).
      apply Stat_cases in E as (_ & F & R). destruct r as [?|[| |]]; [|congruence|done..].
      destruct (Stat path w2) as [w3 r] eqn:E. rewrite (tolerant_bind _ _ _ _ _ _ E).
      apply Stat_cases in E as (_ & _ & R3). destruct r; [congruence|done]. }
    repeat case_bool_decide; try (by intros [=]);
      match goal with |- context [configCheck ?p (?s, ?v)] => specialize (Hc p s H1); destruct (configCheck p (s, v)) as [[? ?] ?] end;
      cbn in Hc; subst; by intros [=].
  - assert (forall p, p = DefaultConfigDir \/ p = confPath ctx -> Forall (fun l' => hasPrefix (root ctx l') p = false) (take 3 (lawfulSteps ctx))) as Hp.
    { intros p Hp. unfold confPath in Hp. repeat (apply Forall_cons; split); [..|by apply Forall_nil];
        destruct Hp as [->| ->]; try case_bool_decide; by vm_compute. }
    apply Forall_forall. intros l' Hin m m' Ho.
    assert (forall p, p = DefaultConfigDir \/ p = confPath ctx -> m !! p = m' !! p) as Hm.
    { intros p H. apply Ho. specialize (Hp p H). rewrite Forall_forall in Hp. by apply Hp. }
    rewrite !Hm by auto. done.
Qed.

(** A host with a path for the new executable, and one on which an older one is
    installed. *)
#[local] Instance demoHost : Host := {|
  selfExe := Some (str "/tmp/new"); EvalSymlinks := Some; Abs := Some; ToLower := id;
  senderUnit := str "[send] $executableFilePath"; receiverUnit := str "[recv] $executableFilePath";
  profile := str "x=$executableFilePath"; autocomplete := str "complete";
  newKey _ := Some (Some (str "private", str "public")); newSigningKey _ := None; MarshalSend _ := Some (str "{}"); MarshalRecv _ := Some (str "{}")
|}.
Definition demoWorld (faults : list fault) (answers : list (bool * gostring)) (files : list (gostring * node)) : World :=
  mkWorld (list_to_map files) faults 7 0 answers [].
Definition demoFiles : list (gostring * node) :=
  [(str "/tmp/new", File (str "v2") None); (DefaultBinaryPath, File (str "v1") None);
   (sysAAProfilePath, File [] None)].

Lemma demo_tidy ctx faults answers : Tidy ctx (demoWorld faults answers demoFiles).
Proof.
  unfold Tidy, unitPath. split_and!; try (apply noneTaken_unused; try case_bool_decide; by vm_compute).
  intros _. apply isEmptyDir_true. by vm_compute.
Qed.

(** How far an installation got whose changes failed. *)
Definition stoppedAfter (p : progress) : option nat :=
  match p with ApplyFailed _ completed _ => Some (length completed) | _ => None end.
Definition demoSteps : list Step := match NewInstaller 0 with Ok steps => steps | _ => [] end.

(** The last command of an installation fails. *)
Definition demoReceiver (dryRun : bool) : Context := mkContext RecvMode dryRun 1.
Definition reloadFails : World := demoWorld [] [(true, []); (false, [])] demoFiles.
Lemma failed_install_undone_witness :
  stoppedAfter (forward (demoReceiver false) demoSteps [] [] reloadFails).2 = Some 4%nat /\
  fs (forward (demoReceiver false) demoSteps [] [] reloadFails).1 !! DefaultBinaryPath =
    Some (File (str "v2") (Some (encodeVfsCapDataV2 7 [CapSYSResource; CapBPF]))) /\
  fs (RunInstall (demoReceiver false) demoSteps reloadFails).1 !! DefaultBinaryPath = Some (File (str "v1") None).
Proof.
  set (ctx := demoReceiver false). set (w := reloadFails). split; [by vm_compute|]. split; [by vm_compute|].
  assert (stoppedAfter (forward ctx demoSteps [] [] w).2 = Some 4%nat) as Hs by by vm_compute.
  assert (faults (forward ctx demoSteps [] [] w).1 = []) as Hc by by vm_compute.
  destruct (forward ctx demoSteps [] [] w) as [w1 [xs|e|x c e]] eqn:E; [discriminate Hs|discriminate Hs|].
  destruct (failed_install_undone ctx 0 demoSteps w w1 x c e DefaultBinaryPath eq_refl (demo_tidy ctx _ _) E Hc)
    as [_ [H|[_ H]]].
  - exact H.
  - assert (bool_decide (fs w !! DefaultBinaryPath = None) = false) as Hn by by vm_compute.
    destruct (proj1 (bool_decide_eq_false _) Hn H).
Defined.

Definition demoFlags (template : bool) : SetupFlags :=
  mkFlags false false template false false true false false (str "/etc/sdsyslog.json") true.
Lemma dry_run_changes_nothing_witness :
  unchanged reloadFails (SetupMode (demoFlags false) 0 None reloadFails).1.1.
Proof. by apply dry_run_changes_nothing. Defined.
Example dry_run_writes_template :
  fs (SetupMode (demoFlags true) 0 None reloadFails).1.1 !! str "/etc/sdsyslog.json" =
    Some (File (str "{}" ++ [newline]) None).
Proof. by vm_compute. Qed.

(** Without AppArmor the new executable is in place all the same, and the old
    one is still there under the name of its backup. *)
Example left_without_apparmor :
  let w := demoWorld [] [] (take 2 demoFiles) in
  let m := fs (RunInstall (demoReceiver false) demoSteps w).1 in
  m !! DefaultBinaryPath = Some (File (str "v2") (Some (encodeVfsCapDataV2 7 [CapSYSResource; CapBPF]))) /\
  m !! (DefaultBinaryPath ++ str ".bak.7.5") = Some (File (str "v1") None) /\
  m !! DefaultConfigRecv = Some (File (str "{}" ++ [newline]) None).
Proof. by vm_compute. Qed.

(** An installation that succeeds, and the files of one that is removed. *)
Example installed :
  let r := RunInstall (mkContext SendMode false 1) demoSteps (demoWorld [] [] demoFiles) in
  let u := RunUninstall (mkContext SendMode false 1) None demoSteps r.1 in
  r.2 = Ok tt /\ fs r.1 !! DefaultBinaryPath = Some (File (str "v2") None) /\
  fs r.1 !! senderUnitPath = Some (File (str "[send] /usr/local/bin/sdsyslog") None) /\
  fs r.1 !! (str "/tmp/new") = None /\
  u.2 = Ok tt /\ map fst (map_to_list (fs u.1)) = [sysAAProfilePath].
Proof. by vm_compute. Qed.

(** An uninstallation of which the first step failed succeeds, and the unit
    stays. *)
Example uninstall_hides_errors :
  let files := [(senderUnitPath, File [] None); (DefaultBinaryPath, File [] None)] in
  let r := RunUninstall (mkContext SendMode false 1) None demoSteps (demoWorld [] [(false, str "failed")] files) in
  r.2 = Ok tt /\ map fst (map_to_list (fs r.1)) = [senderUnitPath].
Proof. by vm_compute. Qed.

(** Uninstalling the sender takes the receiver's configuration, keys and
    executable with it. *)
Example uninstall_takes_the_other :
  let files := [(DefaultConfigDir, Dir); (DefaultConfigRecv, File [] None); (encryptionPrivKeyPath, File [] None);
                (DefaultBinaryPath, File [] None); (receiverUnitPath, File [] None)] in
  let r := RunUninstall (mkContext SendMode false 1) None demoSteps (demoWorld [] [] files) in
  map fst (map_to_list (fs r.1)) = [receiverUnitPath].
Proof. by vm_compute. Qed.

(** A configuration that could only be written in part is not removed, nor its
    directory; the next check takes it for an installed one. *)
Example torn_configuration_stays :
  let w := demoWorld (repeat Fine 22 ++ [Torn 1]) [] demoFiles in
  let w1 := (RunInstall (mkContext SendMode false 1) demoSteps w).1 in
  fs w1 !! DefaultConfigSend = Some (File (str "{") None) /\
  (configCheck DefaultConfigSend (mkConfigStep [] false false false, w1)).2 = Ok true.
Proof. by vm_compute. Qed.
