(* ===== verification/Drain.v ===== *)
(** The end of a pipeline's stage ([Shutdown] in [sender/runtime.go] and
    [receiver/runtime.go]): its producers are gone, the daemon waits until the
    depth of the queue has been zero for a while ([atomics/watchers.go]), and
    stops the workers one by one.

    The steps are those of the workers at the counter of the queue and at their
    context, and those of the daemon; the counter is the queue's metric, not
    its length. *)
From S2P Require Import Prelude Shard Sender.

(* ------------------------------------------------------------------ *)
(** * [WaitUntilZero]                                                   *)
(* ------------------------------------------------------------------ *)

Definition successfulStreakCount : nat := 3.
Definition firstBackoff : Z := 50 * 10 ^ 6.
Definition maxBackoff : Z := 10 ^ 9.
Definition nextBackoff (backoff : Z) : Z :=
  if backoff <? maxBackoff then let backoff := backoff * 2 in if maxBackoff <? backoff then maxBackoff else backoff
  else backoff.

(** A value that was loaded: whether the streak is long enough, and the
    streak. *)
Definition zeroRound (value : Z) (zeroStreak : nat) : bool * nat :=
  if value =? 0 then ((successfulStreakCount <=? S zeroStreak)%nat, S zeroStreak) else (false, O).

(** [value n] is what load number [n] gives, [clock n] the time after it; the
    third result is the number of loads. *)
Fixpoint WaitUntilZero (fuel : nat) (value clock : nat -> Z) (deadline backoff : Z) (n zeroStreak : nat)
  : option (bool * Z * nat) :=
  match fuel with
  | O => None
  | S fuel =>
      let lastValue := value n in
      let '(reached, zeroStreak) := zeroRound lastValue zeroStreak in
      if reached : bool then Some (true, lastValue, S n)
      else
        let remaining := deadline - clock n in
        if remaining <=? 0 then Some (false, lastValue, S n)
        else WaitUntilZero fuel value clock deadline (nextBackoff backoff) (S n) zeroStreak
  end.

Fixpoint backoffAt (n : nat) : Z := match n with O => firstBackoff | S n => nextBackoff (backoffAt n) end.
(** A sleep lasts at least as long as was asked for. *)
Definition sleeps (clock : nat -> Z) (deadline : Z) : Prop :=
  0 <= clock O /\ forall n, clock n < deadline -> clock n + Z.min (backoffAt n) (deadline - clock n) <= clock (S n).

(** The time that [n] sleeps take. *)
Fixpoint slept (n : nat) : Z := match n with O => 0 | S n => slept n + backoffAt n end.
Lemma clock_slept clock deadline n : sleeps clock deadline ->
  (forall m, (m < n)%nat -> clock m < deadline) -> Z.min deadline (slept n) <= clock n.
Proof.
  intros [H0 Hs]. induction n as [|n IH]; intros Hlt; cbn [slept]; [lia|].
  pose proof (Hlt n ltac:(lia)) as Hn. pose proof (Hs n Hn). pose proof (IH ltac:(intros; apply Hlt; lia)). lia.
Qed.

(** The daemons' ten seconds. *)
Definition drainTimeout : Z := 10 * 10 ^ 9.
Definition maxLoads : nat := 15.

Lemma WaitUntilZero_from value clock fuel : forall n streak,
  (fuel + n = maxLoads)%nat -> sleeps clock drainTimeout -> (forall m, (m < n)%nat -> clock m < drainTimeout) ->
  (n < maxLoads)%nat ->
  exists r v k, WaitUntilZero fuel value clock drainTimeout (backoffAt n) n streak = Some (r, v, k) /\ (n < k <= maxLoads)%nat.
Proof.
  induction fuel as [|fuel IH]; intros n streak Hf Hs Hlt Hn; [cbn in Hf; lia|]. cbn [WaitUntilZero].
  destruct (zeroRound (value n) streak) as [[] streak'].
  { eexists _, _, _. split; [done|]. unfold maxLoads in *. lia. }
  destruct (Z.leb_spec (drainTimeout - clock n) 0) as [|Hr].
  { eexists _, _, _. split; [done|]. unfold maxLoads in *. lia. }
  assert ((S n < maxLoads)%nat) as Hn'.
  { destruct (decide (S n < maxLoads)%nat) as [|Hge]; [done|]. exfalso.
    assert (n = 14%nat) as -> by (unfold maxLoads in *; lia).
    pose proof (clock_slept clock drainTimeout 14 Hs Hlt) as Hc. replace (slept 14) with 10550000000 in Hc by by vm_compute.
    unfold drainTimeout in *. lia. }
  change (nextBackoff (backoffAt n)) with (backoffAt (S n)).
  destruct (IH (S n) streak') as (r & v & k & -> & Hk); [lia|done| |done|].
  { intros m Hm. destruct (decide (m = n)) as [->|]; [lia|]. apply Hlt. lia. }
  eexists _, _, _. split; [done|lia].
Qed.
(** It comes back, after at most fifteen loads. *)
Lemma WaitUntilZero_returns value clock : sleeps clock drainTimeout ->
  exists r v k, WaitUntilZero maxLoads value clock drainTimeout firstBackoff 0 0 = Some (r, v, k) /\ (k <= maxLoads)%nat.
Proof.
  intros Hs. destruct (WaitUntilZero_from value clock maxLoads 0 0) as (r & v & k & H & Hk);
    [done|done|intros; lia|unfold maxLoads; lia|]. exists r, v, k. split; [exact H|lia].
Qed.
(** And successfully only after three zeros. *)
Lemma WaitUntilZero_zeros value clock deadline fuel : forall backoff n streak v k,
  (forall i, (i < streak)%nat -> (i < n)%nat /\ value (n - S i)%nat = 0) ->
  WaitUntilZero fuel value clock deadline backoff n streak = Some (true, v, k) ->
  forall i, (i < successfulStreakCount)%nat -> (i < k)%nat /\ value (k - S i)%nat = 0.
Proof.
  induction fuel as [|fuel IH]; intros backoff n streak v k Hz; cbn [WaitUntilZero]; [done|].
  unfold zeroRound. destruct (Z.eqb_spec (value n) 0) as [E|E].
  - assert (forall i, (i < S streak)%nat -> (i < S n)%nat /\ value (S n - S i)%nat = 0) as Hz'.
    { intros [|i] Hi; [split; [lia|]; by replace (S n - 1)%nat with n by lia|].
      destruct (Hz i) as [? ?]; [lia|]. split; [lia|]. by replace (S n - S (S i))%nat with (n - S i)%nat by lia. }
    destruct (Nat.leb_spec successfulStreakCount (S streak)).
    + intros [= _ <-] i Hi. apply Hz'. lia.
    + destruct (_ <=? 0); [done|]. by apply IH.
  - destruct (_ <=? 0); [done|]. apply IH. intros i Hi. lia.
Qed.

(* ------------------------------------------------------------------ *)
(** * A stage and its end                                               *)
(* ------------------------------------------------------------------ *)

(** A worker: before its context is looked at, in [Pop], between taking an
    element and counting it, and with the element in hand. *)
Inductive worker {A : Type} :=
  | Top
  | Popping
  | Taken (x : A)
  | Busy (x : A)
  | Stopped.
Arguments worker : clear implicits.

(** The daemon: in [WaitUntilZero], taking the last of [n] instances from the
    list, waiting for instance [i] to end. *)
Inductive phase :=
  | Waiting (loads zeroStreak : nat)
  | Removing (n : nat)
  | Awaiting (i : nat)
  | Finished.

Record Stage {A : Type} := mkStage {
  waiting : list A;
  depth : Z;
  workers : list (worker A);
  driver : phase;
  timedOut : bool;
  handled : list A
}.
Arguments Stage : clear implicits.
Arguments mkStage {A}.

(** [Work i other]: worker [i] does its next step, the other one if there are
    two: in [Pop] it sees its context instead of an element, and when it counts
    it gives up after too many others have. [Drive late]: so does the daemon;
    [late]: the time is over. *)
Inductive move := Work (i : nat) (other : bool) | Drive (late : bool).

Section stage.
(** [stuck x]: the handling of [x] never comes back, as when a processor pushes
    to a shard that nobody empties ([ShardSystem.deadlock_reachable]). *)
Context {A : Type} (stuck : A -> bool).
Implicit Types s : Stage A.

Definition setWorker (i : nat) (w : worker A) s : Stage A :=
  mkStage (waiting s) (depth s) (<[i := w]> (workers s)) (driver s) (timedOut s) (handled s).
Definition setDriver (p : phase) s : Stage A :=
  mkStage (waiting s) (depth s) (workers s) p (timedOut s) (handled s).

(** The context of an instance is cancelled when it is taken from the list. *)
Definition cancelled (p : phase) (i : nat) : bool :=
  match p with
  | Waiting _ _ => false
  | Removing n | Awaiting n => (n <=? i)%nat
  | Finished => true
  end.

Definition workStep (i : nat) (other : bool) s : option (Stage A) :=
  w ← workers s !! i;
  match w with
  | Top => Some (setWorker i (if cancelled (driver s) i then Stopped else Popping) s)
  | Popping =>
      if other then if cancelled (driver s) i then Some (setWorker i Top s) else None
      else match waiting s with
           | x :: rest =>
               Some (mkStage rest (depth s) (<[i := Taken x]> (workers s)) (driver s) (timedOut s) (handled s))
           | [] => None
           end
  | Taken x =>
      Some (mkStage (waiting s) (if other then depth s else subtractOnce (depth s) 1)
              (<[i := Busy x]> (workers s)) (driver s) (timedOut s) (handled s))
  | Busy x =>
      if stuck x then None
      else Some (mkStage (waiting s) (depth s) (<[i := Top]> (workers s)) (driver s) (timedOut s) (handled s ++ [x]))
  | Stopped => None
  end.

Definition driveStep (late : bool) s : option (Stage A) :=
  match driver s with
  | Waiting loads zeroStreak =>
      let '(reached, zeroStreak) := zeroRound (depth s) zeroStreak in
      if reached : bool then Some (setDriver (Removing (length (workers s))) s)
      else if late || (maxLoads <=? S loads)%nat then
        Some (mkStage (waiting s) (depth s) (workers s) (Removing (length (workers s))) true (handled s))
      else Some (setDriver (Waiting (S loads) zeroStreak) s)
  | Removing O => Some (setDriver Finished s)
  | Removing (S i) => Some (setDriver (Awaiting i) s)
  | Awaiting i => match workers s !! i with Some Stopped => Some (setDriver (Removing i) s) | _ => None end
  | Finished => None
  end.

Definition stageStep (a : move) s : option (Stage A) :=
  match a with Work i other => workStep i other s | Drive late => driveStep late s end.
Fixpoint stageSteps (l : list move) s : option (Stage A) :=
  match l with [] => Some s | a :: l => s ← stageStep a s; stageSteps l s end.

(** [ResyncDepthMetric], with which the end begins. *)
Definition resync s : Stage A := mkStage (waiting s) (len (waiting s)) (workers s) (Waiting 0 0) false (handled s).

(* ------------------------------------------------------------------ *)
(** ** Nothing is lost                                                  *)
(* ------------------------------------------------------------------ *)

Definition held (w : worker A) : list A := match w with Taken x | Busy x => [x] | _ => [] end.
Definition contents s : list A := handled s ++ mjoin (map held (workers s)) ++ waiting s.
Definition isTaken (w : worker A) : bool := match w with Taken _ => true | _ => false end.
(** Elements that were taken and not yet counted. *)
Definition uncounted (ws : list (worker A)) : Z := len (List.filter isTaken ws).

Lemma insert_split {B} (l : list B) i x y : l !! i = Some x ->
  exists l1 l2, l = l1 ++ x :: l2 /\ <[i := y]> l = l1 ++ y :: l2 /\ length l1 = i.
Proof.
  intros H. exists (take i l), (drop (S i) l). pose proof (lookup_lt_Some _ _ _ H).
  split; [by rewrite take_drop_middle|]. split; [by rewrite insert_take_drop|]. rewrite length_take. lia.
Qed.

Lemma uncounted_app l1 l2 : uncounted (l1 ++ l2) = uncounted l1 + uncounted l2.
Proof. unfold uncounted. by rewrite List.filter_app, len_app. Qed.
Lemma uncounted_cons w l : uncounted (w :: l) = Z.b2z (isTaken w) + uncounted l.
Proof. unfold uncounted. cbn. destruct (isTaken w); rewrite ?len_cons; cbn; lia. Qed.
Lemma uncounted_nonneg l : 0 <= uncounted l.
Proof. apply len_nonneg. Qed.

(** What the counter is off by is no more than [k]. *)
Record Draining (k : Z) s : Prop := {
  dr_depth : len (waiting s) + uncounted (workers s) - k <= depth s;
  dr_nonneg : 0 <= depth s;
  dr_streak : match driver s with
    | Waiting _ _ => True
    | _ => timedOut s = false -> len (waiting s) + uncounted (workers s) <= k
    end;
  dr_stopped : match driver s with
    | Waiting _ _ => True
    | Removing n => forall j w, (n <= j)%nat -> workers s !! j = Some w -> w = Stopped
    | Awaiting i => forall j w, (i < j)%nat -> workers s !! j = Some w -> w = Stopped
    | Finished => forall j w, workers s !! j = Some w -> w = Stopped
    end
}.

Lemma draining_start s : Draining (uncounted (workers s)) (resync s).
Proof. split; cbn; try done; [lia|apply len_nonneg]. Qed.

(** A step of a worker. *)
Lemma draining_worker k s s' i w w' :
  Draining k s -> workers s !! i = Some w -> w <> Stopped -> workers s' = <[i := w']> (workers s) ->
  driver s' = driver s -> timedOut s' = timedOut s -> 0 <= depth s' ->
  (len (waiting s') + Z.b2z (isTaken w')) - (len (waiting s) + Z.b2z (isTaken w)) <= Z.min 0 (depth s' - depth s) ->
  Draining k s'.
Proof.
  intros [Hd Hn Hk Hs] Hi Hw Hws Hdr Ht H0 Hle. destruct (insert_split _ _ _ w' Hi) as (l1 & l2 & E & E' & Hl).
  assert (uncounted (workers s') - uncounted (workers s) = Z.b2z (isTaken w') - Z.b2z (isTaken w)) as Hu.
  { rewrite Hws, E', E, !uncounted_app, !uncounted_cons. lia. }
  assert (forall j v, workers s' !! j = Some v -> (j = i) \/ workers s !! j = Some v) as Hold.
  { intros j v Hj. rewrite Hws in Hj. destruct (decide (j = i)); [by left|right]. by rewrite list_lookup_insert_ne in Hj. }
  split; rewrite ?Hdr, ?Ht; try done; [lia| |].
  - destruct (driver s); try done; intros Hto; specialize (Hk Hto); lia.
  - destruct (driver s) as [| |j'|]; try done.
    + intros j v Hj Hv. destruct (Hold _ _ Hv) as [->|Hv']; [by destruct Hw; apply (Hs i)|by apply (Hs j)].
    + intros j v Hj Hv. destruct (Hold _ _ Hv) as [->|Hv']; [by destruct Hw; apply (Hs i)|by apply (Hs j)].
    + intros j v Hv. destruct (Hold _ _ Hv) as [->|Hv']; [by destruct Hw; apply (Hs i)|by apply (Hs j)].
Qed.

Lemma draining_exec k a s s' : Draining k s -> stageStep a s = Some s' -> Draining k s'.
Proof.
  intros H. pose proof H as [Hd Hn Hk Hs]. destruct a as [i other|late]; cbn [stageStep].
  - unfold workStep. destruct (workers s !! i) as [w|] eqn:Hi; [|done]. cbn.
    destruct w as [| |x|x|]; [|destruct other; [destruct (cancelled _ _); [|done]|destruct (waiting s) as [|y rest] eqn:Ew; [done|]]| |destruct (stuck x); [done|]|done];
      intros [= <-]; eapply draining_worker; try exact Hi; try done; cbn [waiting depth setWorker isTaken Z.b2z].
    all: rewrite ?Ew, ?len_cons; try (destruct (cancelled _ _); cbn; lia); try lia.
    all: try (destruct other; rewrite ?subtractOnce_eq by lia; cbn; lia).
  - unfold driveStep. destruct (driver s) as [loads z|[|n]|i|] eqn:Ed; [| | | |done].
    + unfold zeroRound. destruct (Z.eqb_spec (depth s) 0) as [E|E].
      * destruct (successfulStreakCount <=? S z)%nat.
        { intros [= <-]. split; cbn; try done; [intros _; lia|].
          intros j w Hj Hw. apply lookup_lt_Some in Hw. lia. }
        destruct (_ || _); intros [= <-]; (split; cbn; try done).
        intros j w Hj Hw. apply lookup_lt_Some in Hw. lia.
      * destruct (_ || _); intros [= <-]; (split; cbn; try done).
        intros j w Hj Hw. apply lookup_lt_Some in Hw. lia.
    + intros [= <-]. split; cbn; try done. intros j w. apply Hs, Nat.le_0_l.
    + intros [= <-]. split; cbn; try done.
    + destruct (workers s !! i) as [[]|] eqn:Hi; try done. intros [= <-]. split; cbn; try done.
      intros j w Hj Hw. destruct (decide (j = i)) as [->|]; [congruence|]. apply (Hs j); [lia|done].
Qed.

(** Every element stays somewhere. *)
Lemma contents_exec a s s' : stageStep a s = Some s' -> contents s' ≡ₚ contents s.
Proof.
  destruct a as [i other|late]; cbn [stageStep].
  - unfold workStep. destruct (workers s !! i) as [w|] eqn:Hi; [|done]. cbn. unfold contents.
    assert (forall w', exists l1 l2, workers s = l1 ++ w :: l2 /\ <[i := w']> (workers s) = l1 ++ w' :: l2) as Hsp.
    { intros w'. destruct (insert_split _ _ _ w' Hi) as (l1 & l2 & ? & ? & _). eauto. }
    assert (forall w', held w' = held w -> forall rest, 
      mjoin (map held (<[i := w']> (workers s))) ++ rest ≡ₚ mjoin (map held (workers s)) ++ rest) as Hsame.
    { intros w' E rest. destruct (Hsp w') as (l1 & l2 & E1 & E2). rewrite E2, E1, !map_app, !join_app. cbn. by rewrite E. }
    destruct w as [| |x|x|]; [|destruct other; [destruct (cancelled _ _); [|done]|destruct (waiting s) as [|y rest] eqn:Ew; [done|]]| |destruct (stuck x); [done|]|done];
      intros [= <-]; cbn [handled workers waiting setWorker]; try (apply Permutation_app_head, Hsame; by try destruct (cancelled _ _)).
    + apply Permutation_app_head. destruct (Hsp (Taken y)) as (l1 & l2 & E1 & E2).
      rewrite E2, E1, !map_app, !join_app. cbn. solve_Permutation.
    + destruct (Hsp Top) as (l1 & l2 & E1 & E2). rewrite E2, E1, !map_app, !join_app. cbn. solve_Permutation.
  - unfold driveStep. destruct (driver s) as [loads z|[|n]|i|]; [| | | |done].
    + destruct (zeroRound _ _) as [[] ?]; [by intros [= <-]|]. destruct (_ || _); by intros [= <-].
    + by intros [= <-].
    + by intros [= <-].
    + destruct (workers s !! i) as [[]|]; try done. by intros [= <-].
Qed.

Lemma stageSteps_inv (P : Stage A -> Prop) l s s' :
  (forall a s s', P s -> stageStep a s = Some s' -> P s') -> P s -> stageSteps l s = Some s' -> P s'.
Proof.
  intros HP. revert s. induction l as [|a l IH]; intros s Hs; cbn; [by intros [= <-]|].
  destruct (stageStep a s) as [s1|] eqn:E; [|done]. apply IH. by eapply HP.
Qed.

Lemma stopped_empty ws : (forall (j : nat) (w : worker A), ws !! j = Some w -> w = Stopped) ->
  mjoin (map held ws) = [] /\ uncounted ws = 0.
Proof.
  intros H. induction ws as [|w ws IH]; [done|]. rewrite (H 0%nat w eq_refl). cbn [map mjoin list_join held app].
  destruct IH as [Hj Hu]; [intros j w' Hj; by apply (H (S j))|]. split; [exact Hj|].
  rewrite uncounted_cons, Hu. done.
Qed.

(* ------------------------------------------------------------------ *)
(** ** It ends                                                          *)
(* ------------------------------------------------------------------ *)

Definition weight (p : phase) (i : nat) (w : worker A) : nat :=
  match w with
  | Taken _ => 6
  | Busy _ => 5
  | Top => if cancelled p i then 1 else 4
  | Popping => 3
  | Stopped => 0
  end.
Definition remaining (n : nat) (p : phase) : nat :=
  match p with
  | Waiting loads _ => 2 * n + 2 + (maxLoads - loads)
  | Removing m => 2 * m + 1
  | Awaiting i => 2 * i + 2
  | Finished => 0
  end.
Fixpoint weights (p : phase) (i : nat) (ws : list (worker A)) : nat :=
  match ws with [] => 0 | w :: ws => weight p i w + weights p (S i) ws end.
Definition measure s : nat :=
  weights (driver s) 0 (workers s) + 4 * length (waiting s) + remaining (length (workers s)) (driver s).

Lemma weights_insert p ws w w' : forall i j, ws !! j = Some w ->
  (weights p i (<[j := w']> ws) + weight p (i + j) w = weights p i ws + weight p (i + j) w')%nat.
Proof.
  induction ws as [|v ws IH]; intros i j H; [done|]. destruct j as [|j].
  - injection H as ->. rewrite Nat.add_0_r. cbn [weights insert list_insert]. lia.
  - specialize (IH (S i) j H). change (<[S j := w']> (v :: ws)) with (v :: <[j := w']> ws). cbn [weights]. replace (S i + j)%nat with (i + S j)%nat in IH by lia. lia.
Qed.
Lemma weights_le p p' ws : (forall i, cancelled p i = true -> cancelled p' i = true) ->
  forall i, (weights p' i ws <= weights p i ws)%nat.
Proof.
  intros H. induction ws as [|w ws IH]; intros i; cbn [weights]; [lia|]. specialize (IH (S i)).
  assert (weight p' i w <= weight p i w)%nat; [|lia]. destruct w; cbn; try lia.
  specialize (H i). destruct (cancelled p i); [by rewrite H|]. destruct (cancelled p' i); lia.
Qed.

(** The loads of the daemon are bounded. *)
Definition loading s : Prop :=
  match driver s with
  | Waiting loads _ => (loads < maxLoads)%nat
  | Removing n => (n <= length (workers s))%nat
  | Awaiting i => (i < length (workers s))%nat
  | Finished => True
  end.
Lemma loading_exec a s s' : loading s -> stageStep a s = Some s' -> loading s'.
Proof.
  unfold loading. destruct a as [i other|late]; cbn [stageStep].
  - unfold workStep. destruct (workers s !! i) as [w|]; [|done]. cbn.
    destruct w as [| |x|x|]; [|destruct other; [destruct (cancelled _ _); [|done]|destruct (waiting s); [done|]]| |destruct (stuck x); [done|]|done];
      intros ? [= <-]; cbn [driver workers setWorker]; by rewrite ?length_insert.
  - unfold driveStep. destruct (driver s) as [loads z|[|n]|i|]; [| | | |done].
    + intros _. destruct (zeroRound _ _) as [[] ?]; [intros [= <-]; cbn; lia|].
      destruct late; cbn [orb]; [intros [= <-]; cbn; lia|].
      destruct (Nat.leb_spec maxLoads (S loads)); intros [= <-]; cbn; lia.
    + by intros ? [= <-].
    + intros ? [= <-]. cbn. lia.
    + destruct (workers s !! i) as [[]|]; try done. intros ? [= <-]. cbn. lia.
Qed.

(** Every step leaves less to do. *)
Lemma measure_exec a s s' : loading s -> stageStep a s = Some s' -> (measure s' < measure s)%nat.
Proof.
  unfold loading. intros Hl. destruct a as [i other|late]; cbn [stageStep].
  - unfold workStep. destruct (workers s !! i) as [w|] eqn:Hi; [|done]. cbn.
    pose proof (fun w' => weights_insert (driver s) (workers s) w w' 0 i Hi) as Hw. cbn [Nat.add] in Hw.
    unfold measure.
    destruct w as [| |x|x|]; [|destruct other; [destruct (cancelled _ _) eqn:Ec; [|done]|destruct (waiting s) as [|y rest] eqn:Ew; [done|]]| |destruct (stuck x); [done|]|done];
      intros [= <-]; cbn [workers waiting driver setWorker]; rewrite ?length_insert, ?Ew;
      match goal with |- context [<[i := ?w']> _] => specialize (Hw w') end; revert Hw; cbn [weight length];
      try (destruct (cancelled (driver s) i)); cbn [weight]; try lia.
  - unfold driveStep. unfold measure. destruct (driver s) as [loads z|[|n]|i|] eqn:Ed; [| | | |done].
    + assert (forall t, let s1 := mkStage (waiting s) (depth s) (workers s) (Removing (length (workers s))) t (handled s) in
        (weights (driver s1) 0 (workers s1) + 4 * length (waiting s1) + remaining (length (workers s1)) (driver s1) <
         weights (Waiting loads z) 0 (workers s) + 4 * length (waiting s) + remaining (length (workers s)) (Waiting loads z))%nat) as Hr.
      { intros t. cbn. pose proof (weights_le (Waiting loads z) (Removing (length (workers s))) (workers s) ltac:(done) 0). lia. }
      destruct (zeroRound _ _) as [[] z']; [intros [= <-]; apply (Hr (timedOut s))|].
      destruct late; cbn [orb]; [intros [= <-]; apply (Hr true)|].
      destruct (Nat.leb_spec maxLoads (S loads)); intros [= <-]; [apply (Hr true)|].
      cbn. pose proof (weights_le (Waiting loads z) (Waiting (S loads) z') (workers s) ltac:(done) 0). unfold maxLoads in *. lia.
    + intros [= <-]. cbn. pose proof (weights_le (Removing 0) Finished (workers s) ltac:(done) 0). lia.
    + intros [= <-]. cbn.
      pose proof (weights_le (Removing (S n)) (Awaiting n) (workers s)) as H. specialize (H ltac:(intros i; cbn [cancelled]; rewrite !Nat.leb_le; lia) 0%nat). lia.
    + destruct (workers s !! i) as [[]|]; try done. intros [= <-]. cbn.
      pose proof (weights_le (Awaiting i) (Removing i) (workers s) ltac:(done) 0). lia.
Qed.

(** Until the end someone can go on, unless the daemon waits for a worker that
    never comes back. *)
Definition blocked s : Prop := exists i x, driver s = Awaiting i /\ workers s !! i = Some (Busy x) /\ stuck x = true.
Lemma someone_goes_on s : loading s -> driver s <> Finished -> (exists a s', stageStep a s = Some s') \/ blocked s.
Proof.
  unfold loading. intros Hi Hd. destruct (driver s) as [loads z|[|n]|i|] eqn:Ed; [| | | |done].
  - left. exists (Drive true). cbn. unfold driveStep. rewrite Ed. destruct (zeroRound _ _) as [[] ?]; eauto.
  - left. exists (Drive true). cbn. unfold driveStep. rewrite Ed. eauto.
  - left. exists (Drive true). cbn. unfold driveStep. rewrite Ed. eauto.
  - destruct (lookup_lt_is_Some_2 _ _ Hi) as [w Hw]. destruct (match w with Busy x => stuck x | _ => false end) eqn:Eb.
    { right. destruct w; try done. by eexists i, _. }
    left. destruct w as [| |x|x|]; [exists (Work i true)..|exists (Drive true)]; cbn; unfold workStep, driveStep;
      rewrite ?Ed, Hw; cbn; rewrite ?Nat.leb_refl, ?Eb; eauto.
Qed.

(** C20: When the daemon has seen the queue empty and all workers have ended,
    every element was handled once, those included that were in a worker's
    hands when the counter was set, but for at most as many as were then taken
    and not yet counted: for each of these the counter is one too small, and an
    element may still wait when it is zero. *)
Theorem drained_stage l s s' :
  stageSteps l (resync s) = Some s' -> driver s' = Finished -> timedOut s' = false ->
  handled s' ++ waiting s' ≡ₚ contents s /\ len (waiting s') <= uncounted (workers s).
Proof.
  intros Hl Hf Ht.
  assert (Draining (uncounted (workers s)) s' /\ contents s' ≡ₚ contents (resync s)) as [[Hd _ Hk Hs] Hc].
  { eapply (stageSteps_inv (fun t => Draining (uncounted (workers s)) t /\ contents t ≡ₚ contents (resync s))); [| |exact Hl].
    - intros a t t' [H1 H2] E. split; [by eapply draining_exec|]. by rewrite (contents_exec _ _ _ E).
    - split; [apply draining_start|done]. }
  rewrite Hf in Hk, Hs. destruct (stopped_empty _ Hs) as [Hh Hu]. specialize (Hk Ht). split; [|lia].
  rewrite <- Hc. unfold contents. by rewrite Hh.
Qed.

(** C38: However the steps of the workers and the daemon interleave, the end of
    a stage takes no more steps than a bound that is known when it begins; and
    when nobody can go on, either it is complete, with every worker waited for,
    or the daemon waits for a worker that handles an element from which it never
    comes back. So it always ends where the handling of elements does. *)
Theorem drain_ends l s s' :
  stageSteps l (resync s) = Some s' ->
  (length l <= measure (resync s))%nat /\
  ((forall a, stageStep a s' = None) -> driver s' = Finished \/ blocked s') /\
  ((forall x, stuck x = false) -> driver s' = Finished \/ exists a t, stageStep a s' = Some t).
Proof.
  intros Hl.
  assert (forall l s, loading s -> stageSteps l s = Some s' -> (length l + measure s' <= measure s)%nat /\ loading s') as H.
  { clear. intros l. induction l as [|a l IH]; intros s Hs; cbn; [by intros [= <-]|].
    destruct (stageStep a s) as [t|] eqn:E; [|done]. intros H. destruct (IH t) as [Hm Ht]; [by eapply loading_exec|done|].
    pose proof (measure_exec _ _ _ Hs E). split; [lia|done]. }
  destruct (H l (resync s)) as [Hm Hs]; [unfold loading; cbn; unfold maxLoads; lia|done|]. split; [lia|].
  assert (driver s' = Finished \/ (exists a t, stageStep a s' = Some t) \/ blocked s') as [Hf|[(a & t & Ht)|Hb]].
  { destruct (driver s') eqn:E; [right; apply someone_goes_on; [done|congruence]..|by left]. }
  - by split; left.
  - split; [intros Hn; by rewrite Hn in Ht|intros _; right; eauto].
  - split; [by right|]. destruct Hb as (i & x & _ & _ & Hx). intros Hn. by rewrite Hn in Hx.
Qed.
End stage.

(** Two workers, one of which has taken an element when the counter is set: its
    decrement makes it zero while the second element waits, both workers stop
    at their contexts, and it is lost. *)
Definition takenEarly : Stage Z := mkStage [2] 0 [Top; Taken 1] (Waiting 0 0) false [].
Definition losingRun : list move :=
  [Work 1 false; Drive false; Drive false; Drive false; Work 1 false; Drive false; Work 1 false; Drive false; Drive false;
   Work 0 false; Drive false; Drive false].
Example element_lost : (fun s => (driver s, timedOut s, handled s, waiting s)) <$> stageSteps (fun _ => false) losingRun (resync takenEarly) =
  Some (Finished, false, [1], [2]).
Proof. by vm_compute. Qed.

(** And one from which nothing is. *)
Definition takenNone : Stage Z := mkStage [2; 3] 0 [Top; Busy 1] (Waiting 0 0) false [].
Definition drainingRun : list move :=
  [Work 0 false; Work 0 false; Work 0 false; Work 0 false; Work 0 false; Work 0 false; Work 0 false; 
   Drive false; Drive false; Drive false; Drive false; Work 1 false; Work 1 false; Drive false; Drive false;
   Work 0 false; Work 0 false; Drive false; Drive false].
Lemma drained_stage_witness :
  exists s', stageSteps (fun _ => false) drainingRun (resync takenNone) = Some s' /\ handled s' ++ waiting s' ≡ₚ [1; 2; 3] /\ len (waiting s') <= 0.
Proof.
  eexists. split; [by vm_compute|]. 
  apply (drained_stage (fun _ => false) drainingRun takenNone); by vm_compute.
Defined.
Lemma drain_ends_witness : (length drainingRun <= 50)%nat.
Proof. 
  destruct (stageSteps (fun _ => false) drainingRun (resync takenNone)) as [s'|] eqn:E; [|by vm_compute in E].
  pose proof (proj1 (drain_ends (fun _ => false) drainingRun takenNone s' E)) as H. etrans; [exact H|]. by apply (bool_decide_unpack _); vm_compute.
Defined.
(** A worker that never comes back from the element 1: the daemon sees the
    counter at zero, stops the other worker and then waits for that one. *)
Example worker_blocks_the_end :
  (fun s => (driver s, workers s, handled s)) <$>
    stageSteps (fun x => bool_decide (x = 1))
      [Drive false; Drive false; Drive false; Drive false; Work 1 false; Drive false; Drive false]
      (resync (mkStage [] 0 [Busy 1; Top] (Waiting 0 0) false [])) =
  Some (Awaiting 0, [Busy 1; Stopped], []).
Proof. by vm_compute. Qed.
