(* ===== verification/OutputStage.v ===== *)
(** The end of the receiver's output ([Shutdown] in [receiver/runtime.go],
    [RemoveWorkers] in [receiver/output/runtime.go], [run] in
    [receiver/output/worker.go]): unlike the workers of [Drain] the output is
    two goroutines with a channel of one place between them, and only the
    writer's end is waited for.

    The steps are those of [Pop] at the counter and the context, of the channel
    and of the daemon; the timer's flushes, which move no message, are left
    out. *)
From S2P Require Import Prelude Shard Sender Drain.

(** The goroutine that pops: in [Pop], before the element is counted, and at
    the channel. *)
Inductive popper {A : Type} := InPop | PopCounting (x : A) | AtChannel (x : A) | PopReturned.
Arguments popper : clear implicits.

(** The loop that writes. *)
Inductive writer {A : Type} := Selecting | Writing (x : A) | WriterReturned.
Arguments writer : clear implicits.

(** The daemon: in [WaitUntilZero], in the [Wait] of [RemoveWorkers], after it. *)
Inductive ending := Emptying (loads zeroStreak : nat) | WaitingForWriter | Removed.

Record OutStage {A : Type} := mkOutStage {
  queued : list A;
  counter : Z;
  popping : popper A;
  popCh : list A;
  writing : writer A;
  daemon : ending;
  gaveUp : bool;
  written : list A
}.
Arguments OutStage : clear implicits.
Arguments mkOutStage {A}.

(** Steps of the three; [other]: the other one if there are two. *)
Inductive outAction := PopStep (other : bool) | WriteStep (other : bool) | RemoveStep (late : bool).

Section stage.
Context {A : Type}.
Implicit Types s : OutStage A.

Definition contextDone (d : ending) : bool := match d with Emptying _ _ => false | _ => true end.

Definition popperStep (other : bool) s : option (OutStage A) :=
  let continue q c p ch := Some (mkOutStage q c p ch (writing s) (daemon s) (gaveUp s) (written s)) in
  match popping s with
  | InPop =>
      if other then if contextDone (daemon s) then continue (queued s) (counter s) PopReturned (popCh s) else None
      else match queued s with
           | x :: rest => continue rest (counter s) (PopCounting x) (popCh s)
           | [] => None
           end
  | PopCounting x =>
      continue (queued s) (if other then counter s else subtractOnce (counter s) 1) (AtChannel x) (popCh s)
  | AtChannel x => match popCh s with [] => continue (queued s) (counter s) InPop [x] | _ => None end
  | PopReturned => None
  end.

Definition writerStep (other : bool) s : option (OutStage A) :=
  let continue ch w out := Some (mkOutStage (queued s) (counter s) (popping s) ch w (daemon s) (gaveUp s) out) in
  match writing s with
  | Selecting =>
      if other then if contextDone (daemon s) then continue (popCh s) WriterReturned (written s) else None
      else match popCh s with x :: rest => continue rest (Writing x) (written s) | [] => None end
  | Writing x => continue (popCh s) Selecting (written s ++ [x])
  | WriterReturned => None
  end.

Definition removeStep (late : bool) s : option (OutStage A) :=
  let continue d t := Some (mkOutStage (queued s) (counter s) (popping s) (popCh s) (writing s) d t (written s)) in
  match daemon s with
  | Emptying loads zeroStreak =>
      let '(reached, zeroStreak) := zeroRound (counter s) zeroStreak in
      if reached : bool then continue WaitingForWriter (gaveUp s)
      else if late || (maxLoads <=? S loads)%nat then continue WaitingForWriter true
      else continue (Emptying (S loads) zeroStreak) (gaveUp s)
  | WaitingForWriter => match writing s with WriterReturned => continue Removed (gaveUp s) | _ => None end
  | Removed => None
  end.

Definition outExec (a : outAction) s : option (OutStage A) :=
  match a with PopStep other => popperStep other s | WriteStep other => writerStep other s | RemoveStep late => removeStep late s end.
Fixpoint outExecs (l : list outAction) s : option (OutStage A) :=
  match l with [] => Some s | a :: l => s ← outExec a s; outExecs l s end.

Definition outResync s : OutStage A :=
  mkOutStage (queued s) (len (queued s)) (popping s) (popCh s) (writing s) (Emptying 0 0) false (written s).

(* ------------------------------------------------------------------ *)
(** * What is written, and what is lost                                 *)
(* ------------------------------------------------------------------ *)

Definition inPopper (p : popper A) : list A := match p with PopCounting x | AtChannel x => [x] | _ => [] end.
Definition inWriter (w : writer A) : list A := match w with Writing x => [x] | _ => [] end.
Definition popUncounted (p : popper A) : Z := match p with PopCounting _ => 1 | _ => 0 end.
(** Past the writer's hands. *)
Definition unwritten s : list A := popCh s ++ inPopper (popping s) ++ queued s.
(** All messages, the earliest first. *)
Definition stream s : list A := written s ++ inWriter (writing s) ++ unwritten s.

Record OutDraining (k : Z) (all : list A) s : Prop := {
  od_stream : stream s = all;
  od_channel : len (popCh s) <= 1;
  od_counter : len (queued s) + popUncounted (popping s) - k <= counter s;
  od_nonneg : 0 <= counter s;
  od_zero : daemon s <> Removed /\ contextDone (daemon s) = false \/
            (gaveUp s = false -> len (queued s) + popUncounted (popping s) <= k);
  od_removed : daemon s = Removed -> writing s = WriterReturned
}.

Lemma out_draining_start s : len (popCh s) <= 1 ->
  OutDraining (popUncounted (popping s)) (stream s) (outResync s).
Proof. intros H. split; cbn; try done; [lia|apply len_nonneg|by left]. Qed.

Lemma out_draining_pop k all other s s' : OutDraining k all s -> popperStep other s = Some s' -> OutDraining k all s'.
Proof.
  intros [Hs Hc Hd Hn Hz Hr]. unfold stream, unwritten in *. unfold popperStep.
  destruct (popping s) as [|x|x|]; [destruct other; [destruct (contextDone _) eqn:Ec; [|done]|destruct (queued s) as [|x rest]; [done|]]| |
    destruct (popCh s); [|done]|done]; intros [= <-]; rewrite ?len_cons in *; cbn in *;
    (split; cbn; rewrite <- ?app_assoc; try done; try lia).
  - destruct Hz as [[_ ?]|Hz]; [done|by right].
  - destruct Hz as [?|Hz]; [by left|right]. intros Hg. specialize (Hz Hg). lia.
  - destruct other; rewrite ?subtractOnce_eq by lia; lia.
  - destruct other; rewrite ?subtractOnce_eq by lia; lia.
  - destruct Hz as [?|Hz]; [by left|right]. intros Hg. specialize (Hz Hg). lia.
Qed.
Lemma out_draining_write k all other s s' : OutDraining k all s -> writerStep other s = Some s' -> OutDraining k all s'.
Proof.
  intros [Hs Hc Hd Hn Hz Hr]. unfold stream, unwritten in *. unfold writerStep.
  destruct (writing s) as [|x|] eqn:Ew; [destruct other; [destruct (contextDone _) eqn:Ec; [|done]|destruct (popCh s) as [|x rest] eqn:Ech; [done|]]| |done];
    intros [= <-]; rewrite ?len_cons in *; cbn in *; (split; cbn; rewrite <- ?app_assoc; cbn; try done; try lia).
  - destruct Hz as [[_ ?]|Hz]; [done|by right].
  - intros E. by specialize (Hr E).
  - intros E. by specialize (Hr E).
Qed.
Lemma out_draining_remove k all late s s' : OutDraining k all s -> removeStep late s = Some s' -> OutDraining k all s'.
Proof.
  intros [Hs Hc Hd Hn Hz Hr]. unfold stream, unwritten in *. unfold removeStep.
  destruct (daemon s) as [loads z| |] eqn:Ed; [|destruct (writing s) eqn:Ew; try done|done].
  - unfold zeroRound. destruct (Z.eqb_spec (counter s) 0) as [E|E]; [destruct (_ <=? S z)%nat|]; [|destruct (_ || _)..];
      intros [= <-]; (split; cbn; try done; try (by left)); right; try done; intros _; lia.
  - intros [= <-]. split; cbn; try done. destruct Hz as [[_ ?]|Hz]; [done|by right].
Qed.
Lemma out_draining_execs k all l : forall s s', OutDraining k all s -> outExecs l s = Some s' -> OutDraining k all s'.
Proof.
  induction l as [|a l IH]; intros s s' Hs; cbn; [by intros [= <-]|].
  destruct (outExec a s) as [t|] eqn:E; [|done]. apply IH.
  destruct a; [by eapply out_draining_pop|by eapply out_draining_write|by eapply out_draining_remove].
Qed.

(** C21: When the writer has returned, what was written is a beginning of the
    messages in the order of the queue, and the missing ones are the last. If
    the daemon saw the queue empty, they are at most three: one in the channel,
    one in the popping goroutine's hands, and one in the queue if that
    goroutine had an uncounted message when the counter was set. If the wait for
    the queue timed out, there is no bound ([everything_lost_in_time_out]). *)
Theorem output_end_loses_three l s s' :
  len (popCh s) <= 1 -> outExecs l (outResync s) = Some s' -> daemon s' = Removed ->
  written s' ++ unwritten s' = stream s /\
  (gaveUp s' = false -> len (unwritten s') <= 2 + popUncounted (popping s) <= 3).
Proof.
  intros Hc Hl Hd.
  destruct (out_draining_execs _ _ _ _ _ (out_draining_start s Hc) Hl) as [Hs Hch _ _ Hz Hr].
  specialize (Hr Hd). destruct Hz as [[? _]|Hz]; [done|]. split.
  - rewrite <- Hs. unfold stream. by rewrite Hr.
  - intros Hg. specialize (Hz Hg). unfold unwritten. rewrite !len_app.
    assert (len (inPopper (popping s')) <= 1 /\ 0 <= popUncounted (popping s')) by (destruct (popping s'); by split).
    assert (popUncounted (popping s) <= 1) by (destruct (popping s); by cbn). lia.
Qed.
End stage.

(** The bound is reached, with the outputs busy at one message while the
    counter is read three times: messages 2, 3 and 4 are never written. *)
Definition slowOutput : OutStage Z := mkOutStage [3; 4] 0 (PopCounting 2) [] (Writing 1) (Emptying 0 0) false [].
Definition slowRun : list outAction :=
  [PopStep false; PopStep false; PopStep false; PopStep false; RemoveStep false; RemoveStep false; RemoveStep false;
   WriteStep false; WriteStep true; RemoveStep false].
Example three_messages_lost : (fun s => (daemon s, gaveUp s, written s, unwritten s)) <$> outExecs slowRun (outResync slowOutput) =
  Some (Removed, false, [1], [2; 3; 4]).
Proof. by vm_compute. Qed.

(** The outputs are busy with one message for ten seconds. *)
Example everything_lost_in_time_out :
  (fun s => (daemon s, gaveUp s, written s, unwritten s)) <$>
    outExecs [RemoveStep true; WriteStep false; WriteStep true; RemoveStep false]
      (outResync (mkOutStage [2; 3; 4; 5; 6] 5 InPop [] (Writing 1) (Emptying 0 0) false [])) =
  Some (Removed, true, [1], [2; 3; 4; 5; 6]).
Proof. by vm_compute. Qed.

Lemma output_end_loses_three_witness :
  exists s', outExecs slowRun (outResync slowOutput) = Some s' /\ written s' ++ unwritten s' = [1; 2; 3; 4] /\ len (unwritten s') <= 3.
Proof.
  eexists. split; [by vm_compute|].
  destruct (output_end_loses_three slowRun slowOutput _ ltac:(by vm_compute) ltac:(by vm_compute) eq_refl) as [H1 H2].
  split; [exact H1|]. etrans; [apply (H2 eq_refl)|]. by vm_compute.
Defined.
