(* ===== verification/Runtime.v ===== *)
(** What a daemon has running: [Start] and [Shutdown] of [sender/runtime.go]
    and [receiver/runtime.go] as the goroutines they start, end and let go,
    with the managers they keep track of them by ([runtime.go] of the stages,
    [sender/ingest], [internallogger]).

    What the calls outside give is part of the environment of a start; the
    managers' own checks are in [Config]. The autoscaler, which changes the
    numbers of instances meanwhile, takes no step here. *)
From stdpp Require Import functions.
From S2P Require Import Prelude State Metrics Sender Config.

(** Stages with instances, the other goroutines (and the receiver's output
    manager, which has no list), and the queues that a shutdown waits for, named
    after who reads them. *)
Inductive group := Outputs | Assemblers | Processors | Listeners | Shards.
Inductive kind := LogInjector | JournalReader | RawReader | Collector | Autoscaler | QueryServer
  | FIPRReceiver | OutputManager | OutputWriter | OutputPopper | ReplayCleaner.
Inductive task := InstanceOf (g : group) (id : nat) | FileReader (n : nat) | Single (k : kind).
#[export] Instance waitedForeq : EqDecision group. Proof. solve_decision. Defined.
#[export] Instance kind_eq : EqDecision kind. Proof. solve_decision. Defined.
#[export] Instance task_eq : EqDecision task. Proof. solve_decision. Defined.

(** [Ended]: it was told to stop and has returned; [LetGo]: it was told to and
    nobody waited. *)
Inductive change := Started (t : task) | Ended (t : task) | LetGo (t : task) | Drained (g : group).

(** The goroutines that were started and neither ended nor told to, and those
    that may still go on, let go or not. *)
Definition after (t : task) (b : bool) (e : change) : bool :=
  match e with
  | Started u => b || bool_decide (t = u)
  | Ended u | LetGo u => b && negb (bool_decide (t = u))
  | Drained _ => b
  end.
Definition runs (t : task) (tr : list change) : bool := foldl (after t) false tr.
Definition outlives (t : task) (b : bool) (e : change) : bool :=
  match e with
  | Started u => b || bool_decide (t = u)
  | Ended u => b && negb (bool_decide (t = u))
  | LetGo _ | Drained _ => b
  end.
Definition mayRun (t : task) (tr : list change) : bool := foldl (outlives t) false tr.

(** [Mgrs] with the lists of instances, the managers whose list is nil (one
    that came with an error), the other pointers that are not nil,
    the sources by path, the number of readers started so far, and the
    goroutines of the daemon's own wait group. *)
Record Running := mkRunning {
  managers : group -> option (list nat);
  incomplete : list group;
  present : kind -> bool;
  sources : option (gmap gostring (option nat));
  readers : nat;
  waitedFor : list kind;
  startSuccess : bool;
  trace : list change
}.
Definition stopped : Running := mkRunning (fun _ => None) [] (fun _ => false) None 0 [] false [].

Definition setManager (g : group) (l : option (list nat)) (s : Running) : Running :=
  mkRunning (<[g := l]> (managers s)) (incomplete s) (present s) (sources s) (readers s) (waitedFor s) (startSuccess s) (trace s).
Definition setIncomplete (g : group) (s : Running) : Running :=
  mkRunning (managers s) (g :: incomplete s) (present s) (sources s) (readers s) (waitedFor s) (startSuccess s) (trace s).
Definition setPresent (k : kind) (b : bool) (s : Running) : Running :=
  mkRunning (managers s) (incomplete s) (<[k := b]> (present s)) (sources s) (readers s) (waitedFor s) (startSuccess s) (trace s).
Definition setSources (m : option (gmap gostring (option nat))) (n : nat) (s : Running) : Running :=
  mkRunning (managers s) (incomplete s) (present s) m n (waitedFor s) (startSuccess s) (trace s).
Definition setWaited (l : list kind) (s : Running) : Running :=
  mkRunning (managers s) (incomplete s) (present s) (sources s) (readers s) l (startSuccess s) (trace s).
Definition setSuccess (s : Running) : Running :=
  mkRunning (managers s) (incomplete s) (present s) (sources s) (readers s) (waitedFor s) true (trace s).
Definition emit (e : change) (s : Running) : Running :=
  mkRunning (managers s) (incomplete s) (present s) (sources s) (readers s) (waitedFor s) (startSuccess s) (trace s ++ [e]).

Definition whenb (b : bool) (m : st Running unit) : st Running unit := if b then m else mret tt.
(** The error of a call that is only logged. *)
Definition logged (m : st Running unit) : st Running unit := fun s =>
  match m s with (s, Err _) => (s, Ok tt) | out => out end.

(* ------------------------------------------------------------------ *)
(** * The stages                                                        *)
(* ------------------------------------------------------------------ *)

(** [r] is what [NewManager] gives; [kept]: with its error it gives a manager
    too, the list of which is nil. *)
Definition newManager (g : group) (r : res unit) (kept : bool) : st Running unit := fun s =>
  (match r with
   | Ok _ => setManager g (Some []) s
   | _ => let s := setManager g None s in if kept then setIncomplete g s else s
   end, wrap r).

Definition startInstance (g : group) : st Running unit := fun s =>
  match managers s g with
  | None => (s, Ok tt)
  | Some l => (emit (Started (InstanceOf g (length l))) (setManager g (Some (l ++ [length l])) s), Ok tt)
  end.
Fixpoint addInstances (g : group) (n : nat) : st Running unit :=
  match n with O => mret tt | S n => addInstances g n;; startInstance g end.

(** [RemoveLastInstance], and of the shards [RemoveOldestInstance]. *)
Definition victim (g : group) (l : list nat) : option nat := match g with Shards => head l | _ => last l end.
Definition remainder (g : group) (l : list nat) : list nat := match g with Shards => tail l | _ => removelast l end.
(** [ends]: it is waited for, as it is unless the socket of a listener does not
    close in time. *)
Definition removeInstance (ends : bool) (g : group) (id : nat) (l : list nat) (s : Running) : Running :=
  emit ((if ends then Ended else LetGo) (InstanceOf g id)) (setManager g (Some (remainder g l)) s).
(** Until there is none. *)
Fixpoint removeUntil (ends : nat -> bool) (fuel : nat) (g : group) (s : Running) : Running :=
  match fuel with
  | O => s
  | S fuel =>
      match managers s g with
      | None => s
      | Some l => match victim g l with None => s | Some id => removeUntil ends fuel g (removeInstance (ends id) g id l s) end
      end
  end.
Definition removeInstances (ends : nat -> bool) (g : group) : st Running unit := fun s =>
  if bool_decide (g ∈ incomplete s) then (s, Panic)
  else (removeUntil ends (length (default [] (managers s g))) g s, Ok tt).
(** With the wait for the queue in front. *)
Definition drainAndRemove (g : group) : st Running unit := fun s =>
  if bool_decide (g ∈ incomplete s) then (emit (Drained g) s, Panic)
  else match managers s g with
       | None => (s, Ok tt)
       | Some _ => removeInstances (fun _ => true) g (emit (Drained g) s)
       end.

Definition startTask (k : kind) (s : Running) : Running := emit (Started (Single k)) (setPresent k true s).
(** [daemon.wg.Go] *)
Definition wgGo (k : kind) : st Running unit := fun s => (startTask k (setWaited (k :: waitedFor s) s), Ok tt).
(** The [Shutdown] of a module that waits for its goroutine, if it has one. *)
Definition endTask (k : kind) (s : Running) : Running :=
  if runs (Single k) (trace s) then emit (Ended (Single k)) s else s.
Definition letGo (k : kind) (s : Running) : Running :=
  if runs (Single k) (trace s) then emit (LetGo (Single k)) s else s.

(** [daemon.cancel] and the wait for the group, [done]: within the time. *)
Definition waitGroup (done : bool) : st Running unit := fun s =>
  (foldl (fun s k => if done then endTask k s else letGo k s) s (waitedFor s), Ok tt).

(** The injector: [NewSenderInjector] or [NewReceiverInjector] with [Start],
    and [Stop]. *)
Definition startInjector (r : res unit) : st Running unit := fun s =>
  match r with
  | Ok _ => (startTask LogInjector s, Ok tt)
  | _ => (setPresent LogInjector false s, wrap r)
  end.
Definition stopInjector : st Running unit := fun s =>
  (if present s LogInjector then letGo LogInjector s else s, Ok tt).

(** [SetupListener] and the goroutine that serves. *)
Definition startServer (r : res unit) : st Running unit := fun s =>
  match r with Ok _ => wgGo QueryServer s | _ => (setPresent QueryServer false s, wrap r) end.

(** An error of a start that shuts down first. *)
Definition orShutdown (Shutdown m : st Running unit) : st Running unit := fun s =>
  match m s with
  | (s, Err e) => match Shutdown s with (s, Panic) => (s, Panic) | (s, _) => (s, Err e) end
  | out => out
  end.

(* ------------------------------------------------------------------ *)
(** * The sources of the sender                                         *)
(* ------------------------------------------------------------------ *)

(** [opened] is what [NewInput] gives. *)
Definition addFile (opened : gostring -> res unit) (path : gostring) : st Running unit := fun s =>
  match sources s with
  | None => (s, Panic)
  | Some m =>
      match AddFileInstance path (_ ← opened path; Ok (readers s)) m with
      | Ok m => (emit (Started (FileReader (readers s))) (setSources (Some m) (S (readers s)) s), Ok tt)
      | Err e => (s, Err (EWrap e))
      | Panic => (s, Panic)
      end
  end.
Fixpoint addFilesTo (opened : gostring -> res unit) (paths : list gostring) : st Running unit :=
  match paths with [] => mret tt | path :: paths => addFile opened path;; addFilesTo opened paths end.

(** A reader has returned when the module gives an error on closing its file
    ([closed]: it can be closed). *)
Definition removeFile (closed : nat -> bool) (path : gostring) : st Running unit := fun s =>
  match sources s with
  | None => (s, Panic)
  | Some m =>
      let s := match m !! path with Some (Some n) => emit (Ended (FileReader n)) s | _ => s end in
      match RemoveFileInstance path (fun n => if closed n then Ok tt else Err EMsg) m with
      | Ok m => (setSources (Some m) (readers s) s, Ok tt)
      | Err e => (s, Err e)
      | Panic => (s, Panic)
      end
  end.
Fixpoint removeFiles (closed : nat -> bool) (paths : list gostring) : st Running unit :=
  match paths with [] => mret tt | path :: paths => logged (removeFile closed path);; removeFiles closed paths end.

(** [AddJrnlInstance] and [AddRawInstance]: the interface is not nil whatever
    [NewInput] gives, and the reader starts before the command does. *)
Definition addSource (k : kind) (opened started : res unit) : st Running unit := fun s =>
  if present s k then (s, Err (EWrap EMsg))
  else match opened with
       | Ok _ => (startTask k s, wrap started)
       | _ => (setPresent k true s, wrap opened)
       end.

(* ------------------------------------------------------------------ *)
(** * The sender                                                        *)
(* ------------------------------------------------------------------ *)

Module SenderRun.
Import SenderDaemon.

(** What the calls give: the managers and the injector ([assemKept]: an unknown
    suite, for which the manager of the assemblers comes with its error), the
    sources ([raw]: the
    daemon was given a reader), the listener of the metrics and the messages
    that it is ready; and at the end the closing of the files and whether the
    goroutines of the daemon end in time. *)
Record Env := mkEnv {
  outMgr : res unit;
  assemMgr : res unit;
  assemKept : bool;
  injector : res unit;
  inMgr : res unit;
  opened : gostring -> res unit;
  journalOpened : res unit;
  journalStarted : res unit;
  raw : bool;
  rawOpened : res unit;
  rawStarted : res unit;
  listener : res unit;
  readinessSent : res unit;
  notified : res unit;
  closed : nat -> bool;
  rawClosed : bool;
  groupDone : bool
}.

Section daemon.
Context `{MO : MapOrder} (opts : JSONOptions) (env : Env).

(** [RemoveJrnlInstance] and [RemoveRawInstance]; the latter does not wait when
    the reader cannot be closed. *)
Definition stopSource (k : kind) (ok : bool) : st Running unit := fun s =>
  (if present s k then if ok then endTask k s else letGo k s else s, Ok tt).

(** The listener of the metrics, whose goroutine is in the group, is closed
    first. *)
Definition stopSources : st Running unit := fun s =>
  (match sources s with
   | None => mret tt
   | Some m =>
       removeFiles (closed env) (map fst (visit m));;
       stopSource JournalReader true;; stopSource RawReader (rawClosed env)
   end) s.
Definition Shutdown : st Running unit :=
  stopSources;;
  drainAndRemove Assemblers;;
  whenb (SendInternalLogs (Inputs opts)) stopInjector;;
  drainAndRemove Outputs;;
  waitGroup (groupDone env).

Definition newSources (r : res unit) : st Running unit := fun s =>
  (match r with Ok _ => setSources (Some ∅) (readers s) s | _ => setSources None (readers s) s end, wrap r).

(** After [initSuccess], and not only to test the configuration. *)
Definition Start : st Running unit :=
  newManager Outputs (outMgr env) false;;
  addInstances Outputs (Z.to_nat (MinOutputs (AutoScaling opts)));;
  newManager Assemblers (assemMgr env) (assemKept env);;
  addInstances Assemblers (Z.to_nat (MinAssemblers (AutoScaling opts)));;
  whenb (SendInternalLogs (Inputs opts)) (orShutdown Shutdown (startInjector (injector env)));;
  newSources (inMgr env);;
  orShutdown Shutdown (addFilesTo (opened env) (FilePaths (Inputs opts)));;
  whenb (JournalEnabled (Inputs opts)) (orShutdown Shutdown (addSource JournalReader (journalOpened env) (journalStarted env)));;
  whenb (raw env) (orShutdown Shutdown (addSource RawReader (rawOpened env) (rawStarted env)));;
  wgGo Collector;;
  whenb (ScalingEnabled (AutoScaling opts)) (wgGo Autoscaler);;
  whenb (EnableQueryServer (MetricOptions opts)) (orShutdown Shutdown (startServer (listener env)));;
  orShutdown Shutdown (lift (wrap (readinessSent env)));;
  orShutdown Shutdown (lift (wrap (notified env)));;
  modify setSuccess.
End daemon.
End SenderRun.

(* ------------------------------------------------------------------ *)
(** * The receiver                                                      *)
(* ------------------------------------------------------------------ *)

Module ReceiverRun.
Import ReceiverDaemon.

(** [socketCloses]: the socket of the listener is closed within two seconds;
    [outputs]: what [AddWorkers] gives; [tempChild] and [postUpdate]: the
    process is the one that an update starts, or the one that it leaves. *)
Record Env := mkEnv {
  ebpf : res unit;
  outMgr : res unit;
  outputs : res unit;
  injector : res unit;
  assemMgr : res unit;
  tempChild : bool;
  procMgr : res unit;
  inputMgr : res unit;
  listens : nat -> bool;
  socketCloses : nat -> bool;
  metricsListener : res unit;
  readinessSent : res unit;
  postUpdate : bool;
  notified : res unit;
  fiprNew : res unit;
  fiprStarted : res unit;
  groupDone : bool
}.

Section daemon.
Context (opts : JSONOptions) (env : Env).

(** [StartFIPR] and [StopFIPR] *)
Definition StartFIPR : st Running unit := fun s =>
  match fiprNew env with
  | Ok _ =>
      match fiprStarted env with
      | Ok _ => (startTask FIPRReceiver s, Ok tt)
      | _ => (setPresent FIPRReceiver true s, wrap (fiprStarted env))
      end
  | _ => (setPresent FIPRReceiver false s, fiprNew env)
  end.
Definition StopFIPR : st Running unit := fun s =>
  (if present s FIPRReceiver then setPresent FIPRReceiver false (endTask FIPRReceiver s) else s, Ok tt).

Definition newOutput (r : res unit) : st Running unit := fun s =>
  (setPresent OutputManager (match r with Ok _ => true | _ => false end) s, wrap r).
(** [AddWorkers] of the output starts the writer, which starts the goroutine
    that pops; [RemoveWorkers] waits for the writer. *)
Definition AddWorkers : st Running unit := fun s =>
  match outputs env with
  | Ok _ => (startTask OutputPopper (startTask OutputWriter s), Ok tt)
  | _ => (s, wrap (outputs env))
  end.
Definition RemoveWorkers : st Running unit := fun s => (letGo OutputPopper (endTask OutputWriter s), Ok tt).

(** The manager of the listeners starts the goroutine that cleans the replay
    cache, which ends with the daemon's context; nobody waits for it. *)
Definition startCleaner : st Running unit := fun s => (startTask ReplayCleaner s, Ok tt).
Definition newListeners : st Running unit :=
  newManager Listeners (inputMgr env) false;; startCleaner.
Definition stopCleaner : st Running unit := fun s =>
  (if present s ReplayCleaner then letGo ReplayCleaner s else s, Ok tt).

Definition Shutdown : st Running unit :=
  removeInstances (socketCloses env) Listeners;;
  drainAndRemove Processors;;
  removeInstances (fun _ => true) Shards;;
  StopFIPR;;
  whenb (InternalLogs (Outputs opts)) stopInjector;;
  (fun s => if present s OutputManager then RemoveWorkers (emit (Drained Runtime.Outputs) s) else (s, Ok tt));;
  stopCleaner;;
  waitGroup (groupDone env).

Fixpoint startListeners (n : nat) : st Running unit :=
  match n with
  | O => mret tt
  | S n => startListeners n;; if listens env n then startInstance Listeners else lift (Err (EWrap EMsg))
  end.

Definition Start : st Running unit :=
  let o := AutoScaling opts in
  lift (wrap (ebpf env));;
  newOutput (outMgr env);;
  AddWorkers;;
  whenb (InternalLogs (Outputs opts)) (orShutdown Shutdown (startInjector (injector env)));;
  orShutdown Shutdown (newManager Shards (assemMgr env) false);;
  addInstances Shards (Z.to_nat (MinDefrags o));;
  whenb (tempChild env) (logged StartFIPR);;
  orShutdown Shutdown (newManager Processors (procMgr env) false);;
  addInstances Processors (Z.to_nat (MinProcessors o));;
  orShutdown Shutdown newListeners;;
  orShutdown Shutdown (startListeners (Z.to_nat (MinListeners o)));;
  wgGo Collector;;
  whenb (ScalingEnabled o) (wgGo Autoscaler);;
  whenb (EnableQueryServer (MetricOptions opts)) (orShutdown Shutdown (startServer (metricsListener env)));;
  orShutdown Shutdown (lift (wrap (readinessSent env)));;
  whenb (postUpdate env) (logged StartFIPR;; StopFIPR);;
  orShutdown Shutdown (lift (wrap (notified env)));;
  modify setSuccess.
End daemon.
End ReceiverRun.
