(* ===== verification/RuntimeLaws.v ===== *)
(** What the operations of [Runtime] keep: that the goroutines which run are the
    ones that the daemon knows, and that what is let go and what is drained
    is as it should be; with what follows for a failed start and for a
    shutdown of either daemon. *)
From stdpp Require Import functions.
From S2P Require Import Prelude State Metrics Sender Config Runtime.

(* ------------------------------------------------------------------ *)
(** * Traces                                                            *)
(* ------------------------------------------------------------------ *)

Lemma runs_snoc t tr e : runs t (tr ++ [e]) = after t (runs t tr) e.
Proof. unfold runs. by rewrite foldl_app. Qed.

Lemma runs_started t ts : runs t (map Started ts) = true <-> t ∈ ts.
Proof.
  induction ts as [|u ts IH] using rev_ind; [split; [done|by intros ?%elem_of_nil]|].
  rewrite map_app. cbn [map]. rewrite runs_snoc, elem_of_app, list_elem_of_singleton. cbn. by rewrite orb_true_iff, bool_decide_eq_true, IH.
Qed.
(** The workers of a stage. *)
Lemma addInstances_trace g n s : managers s g = Some [] ->
  exists s', addInstances g n s = (s', Ok tt) /\ managers s' g = Some (seq 0 n) /\
    trace s' = trace s ++ map Started (map (InstanceOf g) (seq 0 n)).
Proof.
  intros Hm. induction n as [|n IH]; [exists s; by rewrite app_nil_r|]. destruct IH as (s1 & E1 & M1 & T1).
  cbn [addInstances]. rewrite (st_bind_Ok _ _ _ s1 tt E1). unfold startInstance. rewrite M1. eexists. split; [done|].
  rewrite length_seq, seq_S, !map_app. cbn. unfold insert, fn_insert. rewrite decide_True by done. by rewrite T1, <- app_assoc.
Qed.

(** Whether the daemon follows files, what may be let go, who writes to a queue,
    and who may still do so when it is drained: all who may be let go, and
    those who end later. *)
Class Discipline := mkDiscipline {
  ownsFiles : bool;
  loose : task -> bool;
  produces : task -> group -> bool;
  excused : task -> bool;
  loose_excused t : loose t = true -> excused t = true
}.

(** [x ∉ l] and [x ∈ l] of closed lists. *)
Ltac member := by apply (bool_decide_unpack _); vm_compute.

Section laws.
Context `{D : Discipline} (injectorOn : bool).
Implicit Types s : Running.

Definition okEvent (tr : list change) (e : change) : Prop :=
  match e with
  | LetGo t => loose t = true
  | Drained g => forall t, mayRun t tr = true -> produces t g = true -> excused t = true
  | _ => True
  end.
Definition orderly (tr : list change) : Prop :=
  forall pre e post, tr = pre ++ e :: post -> okEvent pre e.

Lemma orderly_nil : orderly [].
Proof. by intros [] ? ? ?. Qed.
Lemma orderly_snoc tr e : orderly tr -> okEvent tr e -> orderly (tr ++ [e]).
Proof.
  intros H He pre e' post E. destruct post as [|x post _] using rev_ind.
  - apply app_inj_tail in E as [-> ->]. exact He.
  - change (e' :: post ++ [x]) with ((e' :: post) ++ [x]) in E. rewrite app_assoc in E.
    apply app_inj_tail in E as [E _]. by apply (H pre e' post).
Qed.

(** Who is not known to run may go on only if it may be let go. *)
Lemma mayRun_snoc t tr e : mayRun t (tr ++ [e]) = outlives t (mayRun t tr) e.
Proof. unfold mayRun. by rewrite foldl_app. Qed.
Lemma mayRun_loose tr t : orderly tr -> mayRun t tr = true -> runs t tr = true \/ loose t = true.
Proof.
  induction tr as [|e tr IH] using rev_ind; [by left|]. intros Ho. rewrite mayRun_snoc, runs_snoc.
  assert (orderly tr) as Ho'. { intros pre e' post E. apply (Ho pre e' (post ++ [e])). by rewrite E, <- app_assoc. }
  specialize (IH Ho'). pose proof (Ho tr e [] eq_refl) as He. destruct e as [u|u|u|g]; cbn in *.
  - intros [H|H]%orb_true_iff; [destruct (IH H) as [-> |?]; [by left|by right]|left; by rewrite H, orb_true_r].
  - intros [H Hn]%andb_true_iff. destruct (IH H) as [-> |?]; [left; by rewrite Hn|by right].
  - intros H. destruct (IH H) as [-> |?]; [|by right]. case_bool_decide as E; [subst; by right|by left].
  - exact IH.
Qed.

(** The goroutines of the daemon's own group. *)
Definition ofGroup (k : kind) : bool := match k with Collector | Autoscaler | QueryServer => true | _ => false end.
(** Where the daemon has a goroutine from. *)
Definition Known s (t : task) : Prop :=
  match t with
  | InstanceOf g i => exists l, managers s g = Some l /\ i ∈ l
  | FileReader n => ownsFiles = true /\ (n < readers s)%nat /\ exists m p, sources s = Some m /\ m !! p = Some (Some n)
  | Single Collector => Collector ∈ waitedFor s
  | Single Autoscaler => Autoscaler ∈ waitedFor s
  | Single QueryServer => QueryServer ∈ waitedFor s
  | Single LogInjector => injectorOn = true /\ present s LogInjector = true
  | Single JournalReader => present s JournalReader = true /\ is_Some (sources s)
  | Single RawReader => present s RawReader = true /\ is_Some (sources s)
  | Single OutputWriter => present s OutputWriter = true /\ present s OutputManager = true
  | Single OutputPopper => present s OutputPopper = true /\ present s OutputManager = true
  | Single FIPRReceiver => present s FIPRReceiver = true
  | Single ReplayCleaner => present s ReplayCleaner = true
  | Single OutputManager => False
  end.

Record Tracked s : Prop := {
  tracked_known : forall t, runs t (trace s) = true -> Known s t;
  tracked_orderly : orderly (trace s);
  tracked_complete : incomplete s = []
}.
Definition Quiet s : Prop := Tracked s /\ forall t, runs t (trace s) = false.
(** No more runs than before. *)
Definition Fewer s s' : Prop := forall t, runs t (trace s') = true -> runs t (trace s) = true.
#[export] Instance Fewer_preorder : PreOrder Fewer.
Proof. split; [by intros s t|]. intros s s' s'' H H' t Ht. by apply H, H'. Qed.

Lemma tracked_stopped : Tracked stopped.
Proof. split; [done|apply orderly_nil|done]. Qed.

(** The effects of an event. *)
Lemma tracked_start s s' t :
  Tracked s -> trace s' = trace s ++ [Started t] /\ incomplete s' = incomplete s -> (forall u, Known s u -> Known s' u) -> Known s' t -> Tracked s'.
Proof.
  intros [Hk Ho Hc] [E Ei] Hold Hn. split; rewrite ?E, ?Ei; [..|done].
  - intros u. rewrite runs_snoc. cbn. intros [H%Hk|H%bool_decide_eq_true]%orb_true_iff; [by apply Hold|by subst].
  - by apply orderly_snoc.
Qed.
(** [t] has returned, or was let go. *)
Lemma tracked_stop s s' t e :
  Tracked s -> trace s' = trace s ++ [e] /\ incomplete s' = incomplete s -> e = Ended t \/ (e = LetGo t /\ loose t = true) ->
  (forall u, u <> t -> Known s u -> Known s' u) -> Tracked s' /\ Fewer s s' /\ runs t (trace s') = false.
Proof.
  intros [Hk Ho Hc] [E Ei] He Hold.
  assert (forall u, runs u (trace s') = runs u (trace s) && negb (bool_decide (u = t))) as Hr
    by (intros u; rewrite E, runs_snoc; by destruct He as [->|[-> _]]).
  split_and!.
  - split.
    + intros u. rewrite Hr. intros [H%Hk Hn%negb_true_iff%bool_decide_eq_false]%andb_true_iff. by apply Hold.
    + rewrite E. apply orderly_snoc; [done|]. by destruct He as [->|[-> ?]].
    + by rewrite Ei.
  - intros u. rewrite Hr. by intros [? _]%andb_true_iff.
  - rewrite Hr, bool_decide_eq_true_2 by done. by rewrite andb_false_r.
Qed.
Lemma tracked_same s s' : Tracked s -> trace s' = trace s /\ incomplete s' = incomplete s -> (forall u, runs u (trace s) = true -> Known s u -> Known s' u) -> Tracked s'.
Proof. intros [Hk Ho Hc] [E Ei] Hold. split; rewrite ?E, ?Ei; [|done..]. intros u Hu. by apply Hold, Hk. Qed.

(* ------------------------------------------------------------------ *)
(** * Starting                                                          *)
(* ------------------------------------------------------------------ *)

(** [P] before, [Q] after a success, [E] after an error. *)
Definition triple (P : Running -> Prop) (m : st Running unit) (Q E : Running -> Prop) : Prop :=
  forall s, P s -> match m s with (s', Ok _) => Q s' | (s', Err _) => E s' | _ => True end.

Lemma triple_bind P Q R E m f : triple P m Q E -> triple Q f R E -> triple P (m;; f) R E.
Proof.
  intros Hm Hf s Hs. rewrite st_bind_eq. specialize (Hm s Hs). destruct (m s) as [s' [[]| |]]; [by apply Hf|done|done].
Qed.
Lemma triple_bind3 P Q R E (a b c f : st Running unit) : triple P (a;; b;; c) Q E -> triple Q f R E -> triple P (a;; b;; c;; f) R E.
Proof.
  intros Hm Hf s Hs. specialize (Hm s Hs). rewrite !st_bind_eq in *. destruct (a s) as [s1 [[]| |]]; [|done..].
  rewrite !st_bind_eq in *. destruct (b s1) as [s2 [[]| |]]; [|done..].
  rewrite !st_bind_eq in *. destruct (c s2) as [s3 [[]| |]]; [by apply Hf|done..].
Qed.
Lemma triple_weaken (P P' Q Q' E E' : Running -> Prop) m :
  triple P m Q E -> (forall s, P' s -> P s) -> (forall s, Q s -> Q' s) -> (forall s, E s -> E' s) -> triple P' m Q' E'.
Proof. intros Hm HP HQ HE s Hs. specialize (Hm s (HP s Hs)). destruct (m s) as [s' [[]| |]]; auto. Qed.
Lemma triple_when (P E : Running -> Prop) b m : (b = true -> triple P m P E) -> triple P (whenb b m) P E.
Proof. intros H s Hs. destruct b; [by apply H|done]. Qed.
Lemma triple_when_weak (P Q E : Running -> Prop) b m : (b = true -> triple P m Q E) -> (forall s, P s -> Q s) -> triple P (whenb b m) Q E.
Proof. intros H HPQ s Hs. destruct b; [by apply H|by apply HPQ]. Qed.
Lemma triple_lift (P : Running -> Prop) r : triple P (lift r) P P.
Proof. intros s Hs. by destruct r as [[]| |]. Qed.
Lemma triple_error P Q (E : Running -> Prop) m : triple P m Q (fun _ => False) -> triple P m Q E.
Proof. intros Hm s Hs. specialize (Hm s Hs). by destruct (m s) as [s' [[]| |]]. Qed.
Lemma triple_ret (P E : Running -> Prop) : triple P (mret tt) P E.
Proof. by intros s Hs. Qed.
Lemma triple_logged (P Q E : Running -> Prop) m : triple P m Q Q -> triple P (logged m) Q E.
Proof. intros H s Hs. unfold logged. specialize (H s Hs). by destruct (m s) as [s' [[]| |]]. Qed.
Lemma triple_orShutdown P Q (E F : Running -> Prop) Shutdown m :
  triple P m Q E -> (forall s, E s -> exists s', Shutdown s = (s', Ok tt) /\ F s') -> triple P (orShutdown Shutdown m) Q F.
Proof.
  intros Hm Hs s HP. unfold orShutdown. specialize (Hm s HP). destruct (m s) as [s' [[]| |]]; [done| |done].
  destruct (Hs s' Hm) as (s'' & -> & HF). exact HF.
Qed.

(** No source was removed yet. *)
Definition NoNil s : Prop := forall m p, sources s = Some m -> m !! p <> Some None.
Definition Ready s : Prop := Tracked s /\ NoNil s.
(** The managers and pointers that are still nil. *)
Definition Before (gs : list group) (ks : list kind) s : Prop :=
  Ready s /\ (forall g, g ∈ gs -> managers s g = None) /\ (forall k, k ∈ ks -> present s k = false).
Lemma before_ready gs ks s : Before gs ks s -> Ready s.
Proof. by intros [H _]. Qed.


Lemma fn_eq {A B} `{EqDecision A} (f : A -> B) a b : (<[a := b]> f) a = b.
Proof. unfold insert, fn_insert. by rewrite decide_True. Qed.
Lemma fn_ne {A B} `{EqDecision A} (f : A -> B) a a' b : a <> a' -> (<[a := b]> f) a' = f a'.
Proof. intros. unfold insert, fn_insert. by rewrite decide_False. Qed.

Lemma before_suffix gs gs' ks ks' s : Before (gs ++ gs') (ks ++ ks') s -> Before gs' ks' s.
Proof. intros [HR [Hg Hp]]. split; [done|]. split; intros x Hx; [apply Hg|apply Hp]; apply elem_of_app; by right. Qed.

(** Setting a manager that was nil. *)
Lemma known_setManager g o s u : managers s g = None -> Known s u -> Known (setManager g o s) u.
Proof.
  intros Hg. destruct u as [g' i|n|[]]; cbn; try done.
  - intros (l & Hl & Hi). exists l. rewrite fn_ne by congruence. done.
Qed.
Lemma triple_newManager g r gs ks : g ∉ gs ->
  triple (Before (g :: gs) ks) (newManager g r false) (fun s => Before gs ks s /\ is_Some (managers s g)) (Before gs ks).
Proof.
  intros Hn s [[Ht Hnil] [Hg Hk]].
  assert (forall o, Ready (setManager g o s)) as HR.
  { intros o. split; [|done]. eapply tracked_same; [exact Ht|done|]. intros u _. apply known_setManager, Hg. by left. }
  assert (forall o, Before gs ks (setManager g o s)) as HB.
  { intros o. split; [apply HR|split; [|done]]. intros g' Hg'. cbn. rewrite fn_ne by set_solver. apply Hg. by right. }
  unfold newManager. destruct r as [[]| |]; cbn; [|apply HB|done]. split; [apply HB|cbn; rewrite fn_eq; eauto].
Qed.

Lemma before_addInstance g gs ks s : Before gs ks s -> exists s', startInstance g s = (s', Ok tt) /\ Before gs ks s' /\
  (forall g', is_Some (managers s g') -> is_Some (managers s' g')).
Proof.
  intros [[Ht Hnil] [Hg Hk]]. unfold startInstance. destruct (managers s g) as [l|] eqn:E; [|by eexists].
  eexists. split; [done|]. assert (forall g', is_Some (managers s g') <-> is_Some (<[g := Some (l ++ [length l])]> (managers s) g')) as Hs.
  { intros g'. destruct (decide (g = g')) as [<-|]; [rewrite fn_eq, E; split; eauto|by rewrite fn_ne]. }
  split; [split; [split; [|done]|split; [intros g' Hg'; cbn; rewrite fn_ne; [by apply Hg|]|done]]|intros g'; apply Hs].
  - eapply (tracked_start s _ (InstanceOf g (length l))); [done..| |].
    + intros [g' i|n|[]]; cbn; try done.
      intros (l' & Hl & Hi). destruct (decide (g = g')) as [<-|]; [|rewrite fn_ne by done; eauto].
      rewrite fn_eq. eexists. split; [done|]. assert (l' = l) as -> by congruence. apply elem_of_app. by left.
    + cbn. rewrite fn_eq. eexists. split; [done|]. apply elem_of_app. right. by left.
  - intros <-. specialize (Hg _ Hg'). congruence.
Qed.
Lemma before_addInstances g n gs ks s : Before gs ks s -> exists s', addInstances g n s = (s', Ok tt) /\ Before gs ks s' /\
  (forall g', is_Some (managers s g') -> is_Some (managers s' g')).
Proof.
  induction n as [|n IH]; intros H; [by exists s|]. destruct (IH H) as (s1 & E1 & H1 & M1).
  destruct (before_addInstance g gs ks s1 H1) as (s2 & E2 & H2 & M2). exists s2. cbn [addInstances].
  rewrite (st_bind_Ok _ _ _ s1 tt E1). split; [done|]. split; [done|]. intros g' Hg'. by apply M2, M1.
Qed.
Lemma triple_addInstances g n gs ks E : triple (Before gs ks) (addInstances g n) (Before gs ks) E.
Proof. intros s H. by destruct (before_addInstances g n gs ks s H) as (s' & -> & H' & _). Qed.

(** Setting a pointer that no goroutine needs to be set. *)
Lemma before_setPresent k b gs ks s : Before gs ks s -> k ∉ ks -> b = true \/ present s k = false -> Before gs ks (setPresent k b s).
Proof.
  intros [[Ht Hnil] [Hg Hk]] Hn Hb. split; [|split]; [split|done|]; [|done|].
  - eapply tracked_same; [exact Ht|done|]. intros u _.
    assert (forall k', present s k' = true -> (<[k := b]> (present s)) k' = true) as Hp.
    { intros k' Hk'. destruct (decide (k = k')) as [<-|]; [rewrite fn_eq; destruct Hb; congruence|by rewrite fn_ne]. }
    destruct u as [| |[]]; cbn; try done; try (by intros ?%Hp); intros [? ?]; split; auto.
  - intros k' Hk'. cbn. rewrite fn_ne by set_solver. by apply Hk.
Qed.
Lemma before_start k gs ks s : Before gs ks s -> k ∉ ks -> Known (setPresent k true s) (Single k) -> Before gs ks (startTask k s).
Proof.
  intros H Hn Hk. destruct (before_setPresent k true gs ks s H Hn) as [[Ht Hnil] [Hg Hp]]; [by left|].
  split; [|split]; [split; [|done]|done|done]. by eapply (tracked_start (setPresent k true s) _ (Single k)).
Qed.
Lemma before_wgGo k gs ks s : Before gs ks s -> k ∉ ks -> ofGroup k = true ->
  Before gs ks (startTask k (setWaited (k :: waitedFor s) s)).
Proof.
  intros [[Ht Hnil] [Hg Hp]] Hn Hk. apply before_start; [|done|].
  - split; [|split]; [split; [|done]|done|done]. eapply tracked_same; [exact Ht|done|].
    intros [| |[]] _; cbn; try done; intros ?; by right.
  - destruct k; cbn; try done; by left.
Qed.
Lemma triple_wgGo k gs ks E : k ∉ ks -> ofGroup k = true ->
  triple (Before gs ks) (wgGo k) (Before gs ks) E.
Proof. intros Hn Hk s H. by apply before_wgGo. Qed.
Lemma triple_startServer r gs ks : QueryServer ∉ ks ->
  triple (Before gs ks) (startServer r) (Before gs ks) (Before gs ks).
Proof.
  intros Hn s H. unfold startServer. destruct r as [[]| |]; cbn; [by apply before_wgGo| |done].
  destruct H as [[Ht Hnil] [Hg Hp]]. split; [|split; [done|]]; [split; [|done]|].
  - eapply tracked_same; [exact Ht|done|]. intros [| |[]] _; cbn; rewrite ?fn_ne by done; done.
  - intros k Hk. cbn. rewrite fn_ne by congruence. by apply Hp.
Qed.
Lemma triple_startInjector r gs ks : injectorOn = true -> LogInjector ∉ ks ->
  triple (Before gs (LogInjector :: ks)) (startInjector r) (Before gs ks) (Before gs ks).
Proof.
  intros Hi Hn s [HR [Hg Hp]]. assert (Before gs ks s) as H by (split; [done|split; [done|]]; intros k Hk; apply Hp; by right).
  unfold startInjector. destruct r as [[]| |]; cbn; [| |done].
  - apply before_start; [done..|]. cbn. by rewrite fn_eq.
  - apply before_setPresent; [exact H|done|]. right. apply Hp. by left.
Qed.



(** Operations that keep the sources. *)
Definition keepsSources (m : st Running unit) : Prop := forall s s', m s = (s', Ok tt) -> sources s' = sources s.
Lemma keepsSources_ret : keepsSources (mret tt).
Proof. by intros s s' [= <-]. Qed.
Lemma keepsSources_whenb b m : keepsSources m -> keepsSources (whenb b m).
Proof. intros Hm. destruct b; [done|apply keepsSources_ret]. Qed.
Lemma keepsSources_orShutdown Shutdown m : keepsSources m -> keepsSources (orShutdown Shutdown m).
Proof.
  intros Hm s s'. unfold orShutdown. specialize (Hm s). destruct (m s) as [u [[]| |]]; [by apply Hm| |done].
  by destruct (Shutdown u) as [v [| |]].
Qed.

Lemma triple_succeeded gs ks E : triple (Before gs ks) (modify setSuccess) (Before gs ks) E.
Proof. intros s [[Ht Hnil] H]. split; [|exact H]. split; [|exact Hnil]. by eapply tracked_same; [exact Ht|..]. Qed.

(** The output of the receiver and its router. *)
Lemma triple_AddWorkers env gs ks : OutputWriter ∉ ks -> OutputPopper ∉ ks ->
  triple (fun s => Before gs ks s /\ present s OutputManager = true) (ReceiverRun.AddWorkers env) (Before gs ks) (Before gs ks).
Proof.
  intros Hn1 Hn2 s [H Hs]. unfold ReceiverRun.AddWorkers. destruct (ReceiverRun.outputs env) as [[]| |]; cbn; [|exact H|done].
  apply before_start; [|done|split; [cbn; by rewrite fn_eq|exact Hs]]. apply before_start; [done..|]. split; [cbn; by rewrite fn_eq|exact Hs].
Qed.
Lemma before_drop k gs ks s : Before gs (k :: ks) s -> Before gs ks s.
Proof. intros [HR [Hg Hp]]. split; [done|split; [done|]]. intros k' Hk'. apply Hp. by right. Qed.
Lemma triple_StartFIPR env gs ks : FIPRReceiver ∉ ks ->
  triple (Before gs (FIPRReceiver :: ks)) (ReceiverRun.StartFIPR env) (Before gs ks) (Before gs ks).
Proof.
  intros Hn s H. pose proof (before_drop _ _ _ _ H) as H'. unfold ReceiverRun.StartFIPR.
  assert (forall b, Before gs ks (setPresent FIPRReceiver b s)) as HP.
  { intros b. apply before_setPresent; [done..|]. right. apply H. by left. }
  destruct (ReceiverRun.fiprNew env) as [[]| |]; [|apply HP|done].
  destruct (ReceiverRun.fiprStarted env) as [[]| |]; cbn; [|apply HP|done].
  apply before_start; [done..|]. cbn. by rewrite fn_eq.
Qed.
(* ------------------------------------------------------------------ *)
(** * Stopping                                                          *)
(* ------------------------------------------------------------------ *)

Definition silent (C : task -> bool) s : Prop := forall t, C t = true -> runs t (trace s) = false.
Lemma silent_fewer C s s' : Fewer s s' -> silent C s -> silent C s'.
Proof. intros H Hs t Ht. specialize (Hs t Ht). specialize (H t). destruct (runs t (trace s')); [by rewrite H in Hs|done]. Qed.

(** If nothing of [P] runs, [m] succeeds, starts nothing and nothing of [C]
    runs after it. *)
Definition stops (P : task -> bool) (m : st Running unit) (C : task -> bool) : Prop :=
  forall s, Tracked s -> silent P s ->
  exists s', m s = (s', Ok tt) /\ Tracked s' /\ Fewer s s' /\ silent C s'.
Definition either (P Q : task -> bool) (t : task) : bool := P t || Q t.
Definition noTask (t : task) : bool := false.

Lemma stops_bind P C C' m f : stops P m C -> stops (either P C) f C' -> stops P (m;; f) (either C C').
Proof.
  intros Hm Hf s Ht HP. destruct (Hm s Ht HP) as (s1 & E1 & T1 & F1 & C1).
  destruct (Hf s1 T1) as (s2 & E2 & T2 & F2 & C2).
  { intros t [H|H]%orb_true_iff; [by eapply (silent_fewer P)|by apply C1]. }
  exists s2. rewrite (st_bind_Ok _ _ _ s1 tt E1). split_and!; [done|done|by transitivity s1|].
  intros t [H|H]%orb_true_iff; [by eapply (silent_fewer C)|by apply C2].
Qed.
Lemma stops_weaken (P P' C C' : task -> bool) m : stops P m C -> (forall t, P t = true -> P' t = true) ->
  (forall t, C' t = true -> P' t || C t = true) -> stops P' m C'.
Proof.
  intros Hm HP HC s Ht Hs. destruct (Hm s Ht) as (s' & E & T & F & H); [intros t ?; by apply Hs, HP|].
  exists s'. split_and!; [done..|]. intros t [H'|H']%HC%orb_true_iff; [by eapply (silent_fewer P')|by apply H].
Qed.

Lemma stops_one s s' t e : Tracked s -> trace s' = trace s ++ [e] /\ incomplete s' = incomplete s -> e = Ended t \/ (e = LetGo t /\ loose t = true) ->
  (forall u, u <> t -> Known s u -> Known s' u) -> Tracked s' /\ Fewer s s' /\ silent (fun u => bool_decide (u = t)) s'.
Proof.
  intros Ht E He Hk. destruct (tracked_stop s s' t e Ht E He Hk) as (H1 & H2 & H3).
  split_and!; [done..|]. by intros u ->%bool_decide_eq_true.
Qed.
Lemma stops_none s t : Tracked s -> runs t (trace s) = false -> Tracked s /\ Fewer s s /\ silent (fun u => bool_decide (u = t)) s.
Proof. intros Ht H. split_and!; [done..|]. by intros u ->%bool_decide_eq_true. Qed.
Lemma endTask_stops k s : Tracked s ->
  Tracked (endTask k s) /\ Fewer s (endTask k s) /\ silent (fun u => bool_decide (u = Single k)) (endTask k s).
Proof.
  intros Ht. unfold endTask. destruct (runs (Single k) (trace s)) eqn:E; [|by apply stops_none].
  by eapply (stops_one s _ (Single k)); [..|left|].
Qed.
Lemma letGo_stops k s : loose (Single k) = true -> Tracked s ->
  Tracked (letGo k s) /\ Fewer s (letGo k s) /\ silent (fun u => bool_decide (u = Single k)) (letGo k s).
Proof.
  intros Hl Ht. unfold letGo. destruct (runs (Single k) (trace s)) eqn:E; [|by apply stops_none].
  by eapply (stops_one s _ (Single k)); [..|right|].
Qed.

Definition ofStage (g : group) (t : task) : bool := match t with InstanceOf g' _ => bool_decide (g' = g) | _ => false end.
Definition isKind (k : kind) (t : task) : bool := bool_decide (t = Single k).
Lemma silent_stage_none g s : Tracked s -> managers s g = None -> silent (ofStage g) s.
Proof.
  intros [Hk _] Hg [g' i| |] Ht; try done. apply bool_decide_eq_true in Ht as ->.
  destruct (runs _ _) eqn:E; [|done]. apply Hk in E as (l & ? & _). congruence.
Qed.

Lemma victim_spec g l : match victim g l with None => l = [] | Some id => 
  length l = S (length (remainder g l)) /\ forall i, i ∈ l -> i <> id -> i ∈ remainder g l end.
Proof.
  assert (l = [] \/ exists l' x, l = l' ++ [x]) as [->|(l' & x & ->)].
  { destruct l as [|x l _] using rev_ind; eauto. }
  { by destruct g. }
  assert (match last (l' ++ [x]) with None => l' ++ [x] = [] | Some id => 
    length (l' ++ [x]) = S (length (removelast (l' ++ [x]))) /\ forall i, i ∈ l' ++ [x] -> i <> id -> i ∈ removelast (l' ++ [x]) end) as H.
  { rewrite last_snoc, removelast_last, length_app. cbn. split; [lia|]. intros i [|?%list_elem_of_singleton]%elem_of_app ?; done. }
  destruct g; cbn [victim remainder]; try exact H. clear H. destruct (l' ++ [x]) as [|y l] eqn:E; [by destruct l'|]. cbn.
  split; [done|]. intros i Hi Hn. by apply elem_of_cons in Hi as [?|?].
Qed.
Lemma removeUntil_stops ends g n : (forall id, ends id = false -> loose (InstanceOf g id) = true) ->
  forall s l, Tracked s -> managers s g = Some l -> (length l <= n)%nat ->
  Tracked (removeUntil ends n g s) /\ Fewer s (removeUntil ends n g s) /\ silent (ofStage g) (removeUntil ends n g s).
Proof.
  intros Hends. assert (forall s, Tracked s -> managers s g = Some [] -> Tracked s /\ Fewer s s /\ silent (ofStage g) s) as Hempty.
  { intros s Ht Hm. split_and!; [done..|]. intros [g' i| |] H; try done. apply bool_decide_eq_true in H as ->.
    destruct (runs _ _) eqn:E; [|done]. apply Ht in E as (l & El & Hi). assert (l = []) as -> by congruence. by apply elem_of_nil in Hi. }
  induction n as [|n IH]; intros s l Ht Hm Hn; cbn [removeUntil].
  { apply Hempty; [done|]. destruct l; [done|cbn in Hn; lia]. }
  rewrite Hm. pose proof (victim_spec g l) as Hv. destruct (victim g l) as [id|]; [|subst l; by apply Hempty].
  destruct Hv as [Hlen Hin].
  destruct (tracked_stop s (removeInstance (ends id) g id l s) (InstanceOf g id) ((if ends id then Ended else LetGo) (InstanceOf g id))) as (T & F & _);
    [done|done|destruct (ends id) eqn:Ee; [by left|right; split; [done|by apply Hends]]| |].
  { intros [g' i|m|[]] Hu; cbn; try done.
    intros (l' & Hl' & Hi). destruct (decide (g = g')) as [<-|]; [|rewrite fn_ne by done; eauto].
    rewrite fn_eq. eexists. split; [done|]. assert (l' = l) as -> by congruence. apply Hin; [done|]. congruence. }
  destruct (IH (removeInstance (ends id) g id l s) (remainder g l)) as (T2 & F2 & S2); [done|cbn; by rewrite fn_eq|lia|].
  split_and!; [done|by transitivity (removeInstance (ends id) g id l s)|done].
Qed.
Lemma stops_removeInstances ends g P : (forall id, ends id = false -> loose (InstanceOf g id) = true) ->
  stops P (removeInstances ends g) (ofStage g).
Proof.
  intros Hends s Ht _. unfold removeInstances. rewrite (tracked_complete s Ht), bool_decide_eq_false_2 by apply not_elem_of_nil.
  eexists. split; [done|]. destruct (managers s g) as [l|] eqn:E; cbn.
  - by apply (removeUntil_stops ends g _ Hends s l).
  - split_and!; [done..|]. by apply silent_stage_none.
Qed.
Lemma tracked_drain g s P : Tracked s -> silent P s -> (forall t, produces t g = true -> P t || excused t = true) ->
  Tracked (emit (Drained g) s) /\ Fewer s (emit (Drained g) s).
Proof.
  intros [Hk Ho Hc] HP Hg. assert (forall t, runs t (trace (emit (Drained g) s)) = runs t (trace s)) as Hr by (intros t; exact (runs_snoc t (trace s) (Drained g))).
  split.
  - split; [intros t; rewrite Hr; apply Hk| |exact Hc]. cbn. apply orderly_snoc; [done|]. intros t Hrun Hp.
    apply mayRun_loose in Hrun as [Hrun|Hl]; [|by apply loose_excused|done].
    apply Hg, orb_true_iff in Hp as [Hp|?]; [|done]. apply HP in Hp. congruence.
  - intros t. by rewrite Hr.
Qed.
Lemma stops_drainAndRemove g P : (forall t, produces t g = true -> P t || excused t = true) ->
  stops P (drainAndRemove g) (ofStage g).
Proof.
  intros Hg s Ht HP. unfold drainAndRemove. rewrite (tracked_complete s Ht), bool_decide_eq_false_2 by apply not_elem_of_nil.
  destruct (managers s g) as [l|] eqn:E.
  - destruct (tracked_drain g s P Ht HP Hg) as [T F].
    destruct (stops_removeInstances (fun _ => true) g noTask ltac:(done) _ T) as (s' & E' & T' & F' & S'); [done|].
    exists s'. split_and!; [done..|by etransitivity|done].
  - exists s. split_and!; [done..|]. by apply silent_stage_none.
Qed.
Lemma stops_whenb P b m C : (b = true -> stops P m C) -> (b = false -> forall s, Tracked s -> silent C s) -> stops P (whenb b m) C.
Proof.
  intros Hm Hs s Ht HP. destruct b; [by apply Hm|]. exists s. split_and!; [done..|]. by apply Hs.
Qed.
Lemma stops_stopInjector P : loose (Single LogInjector) = true -> stops P stopInjector (isKind LogInjector).
Proof.
  intros Hl s Ht _. unfold stopInjector. eexists. split; [done|]. destruct (present s LogInjector) eqn:E.
  - by apply letGo_stops.
  - apply stops_none; [done|]. destruct (runs _ _) eqn:Er; [|done]. apply Ht in Er as [_ ?]. congruence.
Qed.
Lemma silent_injector_off s : injectorOn = false -> Tracked s -> silent (isKind LogInjector) s.
Proof.
  intros Hi Ht t ->%bool_decide_eq_true. destruct (runs _ _) eqn:Er; [|done]. apply Ht in Er as [? _]. congruence.
Qed.

(** The group, whose goroutines end in time. *)
Definition inGroup (t : task) : bool := match t with Single k => ofGroup k | _ => false end.
Lemma endTasks_stop l : forall s, Tracked s ->
  Tracked (foldl (fun s k => endTask k s) s l) /\ Fewer s (foldl (fun s k => endTask k s) s l) /\
  forall k, k ∈ l -> runs (Single k) (trace (foldl (fun s k => endTask k s) s l)) = false.
Proof.
  induction l as [|k l IH]; intros s Ht; cbn [foldl].
  { split_and!; [done..|]. by intros k ?%elem_of_nil. }
  destruct (endTask_stops k s Ht) as (T & F & S1). destruct (IH _ T) as (T2 & F2 & S2).
  split_and!; [done|by transitivity (endTask k s)|]. intros k' [->|Hk']%elem_of_cons; [|by apply S2].
  eapply (silent_fewer (isKind k)); [exact F2|exact S1|]. by apply bool_decide_eq_true.
Qed.
Lemma endTask_waited k s : waitedFor (endTask k s) = waitedFor s.
Proof. unfold endTask. by destruct (runs _ _). Qed.
Lemma stops_waitGroup P : stops P (waitGroup true) inGroup.
Proof.
  intros s Ht _. eexists. split; [done|]. destruct (endTasks_stop (waitedFor s) s Ht) as (T & F & S1).
  split_and!; [done..|]. intros [| |k] Hk; try done. destruct (runs _ _) eqn:E; [|done]. exfalso.
  enough (k ∈ waitedFor s) as Hin by (apply S1 in Hin; cbn in E; congruence).
  apply F, Ht in E. by destruct k.
Qed.

(** The sources of the sender. *)
Definition isReader (t : task) : bool := match t with FileReader _ => true | _ => false end.
End laws.

(* ------------------------------------------------------------------ *)
(** * The sender                                                        *)
(* ------------------------------------------------------------------ *)

Module SenderLaws.
Import SenderDaemon SenderRun.

(** The injector of the sender writes to the assemblers' queue and is stopped
    after them; a reader that cannot be closed is not waited for. *)
Definition letGoable (env : Env) (t : task) : bool := isKind LogInjector t || isKind RawReader t && negb (rawClosed env).
Definition discipline (env : Env) : Discipline := mkDiscipline true (letGoable env)
  (fun t g =>
     match g with
     | Assemblers => isReader t || isKind JournalReader t || isKind RawReader t || isKind LogInjector t
     | Outputs => ofStage Assemblers t
     | _ => false
     end)
  (letGoable env) (fun t H => H).

Section sender.
Context `{MO : MapOrder} (opts : JSONOptions) (env : Env) (Hdone : groupDone env = true).
#[local] Instance D : Discipline := discipline env.
Abbreviation injected := (SendInternalLogs (Inputs opts)).


(** A shutdown succeeds and ends everything. *)
Definition foreignStages : list group := [Processors; Listeners; Shards].
Definition foreignKinds : list kind := [FIPRReceiver; OutputManager; OutputWriter; OutputPopper; ReplayCleaner].

Definition mine := Before injected foreignStages foreignKinds.

End sender.


(** C37: A start that fails at the manager of the assemblers does not shut
    down: the workers of the output are left running. *)
Theorem failed_sender_start_leaves_outputs `{MO : MapOrder} opts env e :
  outMgr env = Ok tt -> assemMgr env = Err e ->
  exists s, Start opts env stopped = (s, Err (EWrap e)) /\
    forall t, runs t (trace s) = true <-> exists i, t = InstanceOf Outputs i /\ (i < Z.to_nat (MinOutputs (AutoScaling opts)))%nat.
Proof.
  intros Ho Ha. unfold Start. rewrite Ho. destruct (addInstances_trace Outputs (Z.to_nat (MinOutputs (AutoScaling opts)))
    (setManager Outputs (Some []) stopped)) as (s1 & E1 & _ & T1); [done|].
  rewrite (st_bind_Ok _ _ stopped (setManager Outputs (Some []) stopped) tt) by done.
  rewrite (st_bind_Ok _ _ _ s1 tt E1). eexists. split.
  - apply st_bind_Err. unfold newManager. by rewrite Ha.
  - intros t. replace (trace _) with (trace s1) by by destruct (assemKept env). rewrite T1. cbn [trace setManager stopped app]. rewrite runs_started. change map with (@fmap list _). rewrite list_elem_of_fmap.
    split; intros (i & -> & Hi); exists i; (split; [done|]); apply elem_of_seq in Hi || apply elem_of_seq; lia.
Qed.

(** Two outputs, one assembler, one file, the journal and the daemon's own log
    lines; [journal]: the command can be started. *)
Definition exampleOptions (paths : list gostring) : JSONOptions :=
  mkOptions [] [] (mkCrypto [] []) (str "/var/cache/sdsyslog/state") (mkNetwork [] 0 [] 0 0)
    (mkInputs [] None paths true true) (mkMetricsOptions 0 0 true 0) (mkScaling true 0 2 4 1 2 0 0 0 0) (mkThrottling false 0 0).
Definition exampleEnv (assem journal : res unit) : Env :=
  mkEnv (Ok tt) assem false (Ok tt) (Ok tt) (fun _ => Ok tt) (Ok tt) journal false (Ok tt) (Ok tt) (Ok tt) (Ok tt) (Ok tt)
    (fun _ => true) true true.
Definition syslog : gostring := str "/var/log/syslog".
Definition startTrace (paths : list gostring) (env : Env) : list change * res unit :=
  let '(s, r) := Start (MO := listOrder) (exampleOptions paths) env stopped in (trace s, r).
Definition downTrace (paths : list gostring) (env : Env) : list change * res unit :=
  let '(s, r) := (Start (MO := listOrder) (exampleOptions paths) env;; Shutdown (MO := listOrder) (exampleOptions paths) env) stopped in (trace s, r).

(** The injector, which runs on while the assemblers' queue is waited for, is
    stopped when nobody reads that queue any more. *)
Example whole_run : downTrace [syslog] (exampleEnv (Ok tt) (Ok tt)) =
  ([Started (InstanceOf Outputs 0); Started (InstanceOf Outputs 1); Started (InstanceOf Assemblers 0); Started (Single LogInjector);
    Started (FileReader 0); Started (Single JournalReader); Started (Single Collector); Started (Single Autoscaler); Started (Single QueryServer);
    Ended (FileReader 0); Ended (Single JournalReader); Drained Assemblers; Ended (InstanceOf Assemblers 0); LetGo (Single LogInjector);
    Drained Outputs; Ended (InstanceOf Outputs 1); Ended (InstanceOf Outputs 0);
    Ended (Single QueryServer); Ended (Single Autoscaler); Ended (Single Collector)], Ok tt).
Proof. by vm_compute. Qed.
(** The path twice: the first of the two readers is never ended. *)
Example reader_lost : (fun tr => (runs (FileReader 0) tr, runs (FileReader 1) tr)) (downTrace [syslog; syslog] (exampleEnv (Ok tt) (Ok tt))).1
  = (true, false).
Proof. by vm_compute. Qed.
(** A second shutdown panics at the file that the first one took away. *)
Example second_shutdown_panics :
  ((Start (MO := listOrder) (exampleOptions [syslog]) (exampleEnv (Ok tt) (Ok tt));;
    Shutdown (MO := listOrder) (exampleOptions [syslog]) (exampleEnv (Ok tt) (Ok tt));;
    Shutdown (MO := listOrder) (exampleOptions [syslog]) (exampleEnv (Ok tt) (Ok tt))) stopped).2 = Panic.
Proof. by vm_compute. Qed.

(** With an unknown suite the manager comes with its error and without a list:
    if [Shutdown] were called after such a start, it would panic. *)
Example unknown_suite_shutdown_panics :
  let env := mkEnv (Ok tt) (Err EMsg) true (Ok tt) (Ok tt) (fun _ => Ok tt) (Ok tt) (Ok tt) false (Ok tt) (Ok tt) (Ok tt) (Ok tt) (Ok tt)
    (fun _ => true) true true in
  (Shutdown (MO := listOrder) (exampleOptions []) env (Start (MO := listOrder) (exampleOptions []) env stopped).1).2 = Panic.
Proof. by vm_compute. Qed.

Lemma failed_sender_start_leaves_outputs_witness :
  startTrace [syslog] (exampleEnv (Err EMsg) (Ok tt)) = ([Started (InstanceOf Outputs 0); Started (InstanceOf Outputs 1)], Err (EWrap EMsg)) /\
  exists s, Start (MO := listOrder) (exampleOptions [syslog]) (exampleEnv (Err EMsg) (Ok tt)) stopped = (s, Err (EWrap EMsg)) /\
    runs (InstanceOf Outputs 1) (trace s) = true.
Proof.
  split; [by vm_compute|].
  destruct (failed_sender_start_leaves_outputs (MO := listOrder) (exampleOptions [syslog]) (exampleEnv (Err EMsg) (Ok tt)) EMsg eq_refl eq_refl)
    as (s & E & H).
  exists s. split; [exact E|]. apply H. exists 1%nat. split; [done|]. by apply (bool_decide_unpack _); vm_compute.
Defined.
End SenderLaws.

(* ------------------------------------------------------------------ *)
(** * The receiver                                                      *)
(* ------------------------------------------------------------------ *)

Module ReceiverLaws.
Import ReceiverDaemon ReceiverRun.
Abbreviation Outs := Runtime.Outputs.

(** The injector is stopped before the output, but not waited for, nor are the
    output's popping goroutine, the one that cleans the replay cache and a
    listener whose socket does not close. *)
Definition unclosed (env : Env) (t : task) : bool := match t with InstanceOf Listeners i => negb (socketCloses env i) | _ => false end.
Definition letGoable (env : Env) (t : task) : bool :=
  isKind LogInjector t || isKind OutputPopper t || isKind ReplayCleaner t || unclosed env t.
Definition discipline (env : Env) : Discipline := mkDiscipline false (letGoable env)
  (fun t g =>
     match g with
     | Processors => ofStage Listeners t
     | Outs => ofStage Shards t || isKind LogInjector t
     | _ => false
     end)
  (letGoable env) (fun t H => H).

Definition foreignStages : list group := [Outs; Assemblers].
Definition foreignKinds : list kind := [JournalReader; RawReader].

Section receiver.
Context (opts : JSONOptions) (env : Env) (Hdone : groupDone env = true).
#[local] Instance D : Discipline := discipline env.
Abbreviation injected := (InternalLogs (Outputs opts)).

(** The router. *)
Lemma StopFIPR_stops s : Tracked injected s ->
  exists s', StopFIPR s = (s', Ok tt) /\ Tracked injected s' /\ Fewer s s' /\ silent (isKind FIPRReceiver) s' /\
    managers s' = managers s /\ sources s' = sources s /\ forall k, present s' k = true -> present s k = true.
Proof.
  intros Ht. unfold StopFIPR. destruct (present s FIPRReceiver) eqn:E.
  - destruct (endTask_stops injected FIPRReceiver s Ht) as (T & F & S1). eexists. split; [done|].
    assert (forall x, managers (endTask x s) = managers s /\ present (endTask x s) = present s /\ sources (endTask x s) = sources s) as Hf
      by (intros x; unfold endTask; by destruct (runs _ _)).
    destruct (Hf FIPRReceiver) as (Em & Ep & Es). split_and!; [|exact F|exact S1|exact Em|exact Es|].
    + eapply tracked_same; [exact T|done|]. intros u Hr Hk.
      assert (u <> Single FIPRReceiver) as Hu.
      { intros ->. specialize (S1 (Single FIPRReceiver)). rewrite S1 in Hr; [done|]. by apply bool_decide_eq_true. }
      destruct u as [| |[]]; cbn in *; rewrite ?fn_ne by done; done.
    + intros k. cbn. unfold insert, fn_insert. destruct (decide _); [done|]. by rewrite Ep.
  - exists s. split_and!; [done..| |done|done|done]. apply (stops_none injected); [done|].
    destruct (runs _ _) eqn:Er; [|done]. apply Ht in Er. cbn in Er. congruence.
Qed.
Lemma triple_StopFIPR gs ks E : triple (Before injected gs ks) StopFIPR (Before injected gs ks) E.
Proof.
  intros s [[Ht Hnil] [Hg Hp]]. destruct (StopFIPR_stops s Ht) as (s' & -> & T & _ & _ & Em & Es & Hpr).
  split; [split; [done|]|split]; [|by rewrite Em|].
  - intros m p. rewrite Es. apply Hnil.
  - intros k Hk. specialize (Hpr k). destruct (present s' k); [|done]. rewrite <- (Hp k Hk). by symmetry; apply Hpr.
Qed.

(** The output. *)
Definition removeOutput : st Running unit := fun s =>
  if present s OutputManager then RemoveWorkers (emit (Drained Outs) s) else (s, Ok tt).
Definition ofOutput (t : task) : bool := isKind OutputWriter t || isKind OutputPopper t.
Lemma removeOutput_stops P : (forall t, produces t Outs = true -> P t = true) -> stops injected P removeOutput ofOutput.
Proof.
  intros Hpro s Ht HP. unfold removeOutput. destruct (present s OutputManager) eqn:E.
  - destruct (tracked_drain injected Outs s P Ht HP) as [T F]; [intros t Hpt; by rewrite Hpro|].
    destruct (endTask_stops injected OutputWriter _ T) as (T2 & F2 & S2).
    destruct (letGo_stops injected OutputPopper _ ltac:(done) T2) as (T3 & F3 & S3).
    eexists. split; [done|]. split_and!; [done|by etransitivity; [|etransitivity]|].
    intros t [H|H]%orb_true_iff; [|by apply S3]. by eapply (silent_fewer (isKind OutputWriter)).
  - exists s. split_and!; [done..|]. intros t H. destruct (runs t _) eqn:Er; [|done]. apply Ht in Er.
    apply orb_true_iff in H as [->%bool_decide_eq_true| ->%bool_decide_eq_true]; destruct Er as [_ ?]; congruence.
Qed.

Definition ours : task -> bool :=
  either (ofStage Listeners) (either (ofStage Processors) (either (ofStage Shards) (either (isKind FIPRReceiver)
    (either (isKind LogInjector) (either ofOutput (either (isKind ReplayCleaner) inGroup)))))).
Lemma stops_stopCleaner P : stops injected P stopCleaner (isKind ReplayCleaner).
Proof.
  intros s Ht _. unfold stopCleaner. eexists. split; [done|]. destruct (present s ReplayCleaner) eqn:E.
  - by apply letGo_stops.
  - apply (stops_none injected); [done|]. destruct (runs _ _) eqn:Er; [|done]. apply Ht in Er. cbn in Er. congruence.
Qed.
Lemma receiver_Shutdown_quiet s : Before injected foreignStages foreignKinds s ->
  exists s', Shutdown opts env s = (s', Ok tt) /\ Quiet injected s'.
Proof.
  intros [[Ht _] [Hg Hp]]. unfold Shutdown. rewrite Hdone.
  assert (stops injected noTask (removeInstances (socketCloses env) Listeners;; drainAndRemove Processors;; removeInstances (fun _ => true) Shards;; StopFIPR;;
      whenb injected stopInjector;; removeOutput;; stopCleaner;; waitGroup true) ours) as H.
  { apply stops_bind; [apply stops_removeInstances|].
    { intros id Hid. cbn. unfold letGoable, unclosed. by rewrite Hid, orb_true_r. }
    apply stops_bind; [apply stops_drainAndRemove|].
    { intros t Ht'. assert (ofStage Listeners t = true) as Hx by exact Ht'. unfold either. by rewrite Hx, orb_true_r. }
    apply stops_bind; [by apply stops_removeInstances|]. apply stops_bind.
    { intros u Hu _. destruct (StopFIPR_stops u Hu) as (u' & E & T & F & S1 & _). by exists u'. }
    apply stops_bind; [apply stops_whenb|].
    { intros _. by apply stops_stopInjector. }
    { intros Hi u Hu. by apply (silent_injector_off injected). }
    apply stops_bind; [apply removeOutput_stops|apply stops_bind; [apply stops_stopCleaner|apply stops_waitGroup]].
    intros t Hpr. assert (ofStage Shards t || isKind LogInjector t = true) as Hx by exact Hpr.
    apply orb_true_iff in Hx as [Hx|Hx]; unfold either; rewrite Hx; by rewrite ?orb_true_r. }
  destruct (H s Ht) as (s2 & E2 & T2 & F2 & S2); [done|]. exists s2. split; [exact E2|]. split; [done|].
  intros t. destruct (ours t) eqn:Et; [by apply S2|].
  destruct (runs t _) eqn:Er; [|done]. apply F2, Ht in Er. destruct t as [[]|n|[]]; try done; cbn in Er.
  1-2: destruct Er as (l & El & _); rewrite Hg in El by (by repeat constructor); done.
  - by destruct Er as [? _].
  - destruct Er as [Er _]. rewrite Hp in Er by (by repeat constructor). done.
  - destruct Er as [Er _]. rewrite Hp in Er by (by repeat constructor). done.
Qed.

Definition mine := Before injected foreignStages foreignKinds.
Lemma receiver_orShutdown_quiet P Q m : triple P m Q mine -> triple P (orShutdown (Shutdown opts env) m) Q (Quiet injected).
Proof. intros Hm. eapply triple_orShutdown; [exact Hm|apply receiver_Shutdown_quiet]. Qed.

Definition laterStages : list group := Processors :: Listeners :: foreignStages.
Lemma receiver_triple_first : triple (fun s => s = stopped) (lift (wrap (ebpf env));; newOutput (outMgr env);; AddWorkers env)
  (Before injected (Shards :: laterStages) (LogInjector :: FIPRReceiver :: foreignKinds)) (Quiet injected).
Proof.
  assert (forall b, Tracked injected (setPresent OutputManager b stopped)) as HT.
  { intros b. split; [done|apply orderly_nil|done]. }
  assert (Before injected (Shards :: laterStages) (LogInjector :: FIPRReceiver :: foreignKinds) (setPresent OutputManager true stopped)) as HB.
  { split; [split; [apply HT|done]|]. split; [done|]. intros k Hk. cbn. rewrite fn_ne; [done|].
    intros <-. apply (bool_decide_pack _) in Hk. by vm_compute in Hk. }
  intros s ->. destruct (ebpf env) as [[]| |] eqn:Ee; [|by split; [apply tracked_stopped|]|done].
  unfold newOutput. rewrite !st_bind_eq. cbn [lift wrap]. destruct (outMgr env) as [[]| |] eqn:Eo; cbn [wrap]; [|split; [apply HT|done]|done].
  pose proof (triple_AddWorkers injected env (Shards :: laterStages) (LogInjector :: FIPRReceiver :: foreignKinds) ltac:(member) ltac:(member)
    (setPresent OutputManager true stopped) ltac:(split; [exact HB|done])) as H.
  unfold AddWorkers in *. destruct (outputs env) as [[]| |]; cbn [wrap] in *; [exact H|split; [apply HT|done]|done].
Qed.

Lemma triple_startListeners n gs ks : triple (Before injected gs ks) (startListeners env n) (Before injected gs ks) (Before injected gs ks).
Proof.
  induction n as [|n IH]; [apply triple_ret|]. cbn [startListeners]. eapply triple_bind; [exact IH|].
  intros s Hs. destruct (listens env n); [|done]. by destruct (before_addInstance injected Listeners gs ks s Hs) as (s' & -> & ? & _).
Qed.

Lemma triple_newListeners gs ks : Listeners ∉ gs -> ReplayCleaner ∉ ks ->
  triple (Before injected (Listeners :: gs) ks) (newListeners env) (Before injected gs ks) (Before injected gs ks).
Proof.
  intros Hg Hk. unfold newListeners. eapply triple_bind; [by apply (triple_newManager injected Listeners)|].
  intros s [H _]. cbn. apply before_start; [done..|]. cbn. by rewrite fn_eq.
Qed.
Lemma receiver_triple_Start : tempChild env = false \/ postUpdate env = false ->
  triple (fun s => s = stopped) (Start opts env) mine (Quiet injected).
Proof.
  intros Hone. unfold Start. cbn zeta. eapply triple_bind3; [apply receiver_triple_first|].
  assert (forall gs ks s, Before injected (gs ++ foreignStages) (ks ++ foreignKinds) s -> mine s) as Hmine by (intros gs ks s; apply before_suffix).
  eapply triple_bind.
  { eapply (triple_when_weak _ (Before injected (Shards :: laterStages) (FIPRReceiver :: foreignKinds))); [intros Hon|intros s H; by eapply before_drop].
    apply receiver_orShutdown_quiet. eapply triple_weaken; [apply (triple_startInjector injected _ (Shards :: laterStages) (FIPRReceiver :: foreignKinds)); [exact Hon|member]|done|done|].
    apply (Hmine [Shards; Processors; Listeners] [FIPRReceiver]). }
  eapply triple_bind.
  { apply receiver_orShutdown_quiet. eapply triple_weaken; [apply (triple_newManager injected Shards _ laterStages (FIPRReceiver :: foreignKinds)); member|done|by intros s [H _]|].
    apply (Hmine [Processors; Listeners] [FIPRReceiver]). }
  eapply triple_bind; [apply triple_addInstances|].
  set (fs := if tempChild env then foreignKinds else FIPRReceiver :: foreignKinds).
  assert (forall gs s, Before injected (gs ++ foreignStages) fs s -> mine s) as Hmine'.
  { intros gs s. unfold fs. destruct (tempChild env); [apply (Hmine gs [])|apply (Hmine gs [FIPRReceiver])]. }
  assert (forall k, k <> FIPRReceiver -> k ∉ foreignKinds -> k ∉ fs) as Hnotin.
  { intros k H1 H2. unfold fs. destruct (tempChild env); [done|]. by intros [?|?]%elem_of_cons. }
  eapply triple_bind.
  { eapply (triple_when_weak _ (Before injected laterStages fs)); unfold fs; [intros ->|intros s H; destruct (tempChild env); [by eapply before_drop|done]].
    by apply triple_logged, triple_StartFIPR; member. }
  eapply triple_bind.
  { apply receiver_orShutdown_quiet. eapply triple_weaken; [apply (triple_newManager injected Processors _ (Listeners :: foreignStages) fs); member|done|by intros s [H _]|].
    apply (Hmine' [Listeners]). }
  eapply triple_bind; [apply triple_addInstances|].
  eapply triple_bind.
  { apply receiver_orShutdown_quiet. eapply triple_weaken; [apply (triple_newListeners foreignStages fs); [member|apply Hnotin; [done|member]]|done|done|].
    apply (Hmine' []). }
  assert (forall P Q m, triple P m Q (Before injected foreignStages fs) -> triple P (orShutdown (Shutdown opts env) m) Q (Quiet injected)) as Hshut.
  { intros P Q m Hm. apply receiver_orShutdown_quiet. eapply triple_weaken; [exact Hm|done|done|apply (Hmine' [])]. }
  eapply triple_bind; [apply Hshut, triple_startListeners|].
  eapply triple_bind; [apply triple_wgGo; [apply Hnotin; [done|member]|done]|].
  eapply triple_bind; [apply triple_when; intros _; apply triple_wgGo; [apply Hnotin; [done|member]|done]|].
  eapply triple_bind; [apply triple_when; intros _; apply Hshut, triple_startServer, Hnotin; [done|member]|].
  eapply triple_bind; [apply Hshut, triple_lift|].
  eapply triple_bind.
  { eapply (triple_when_weak _ mine); [intros Hp|apply (Hmine' [])]. destruct Hone as [Ht|]; [|congruence]. unfold fs. rewrite Ht.
    eapply triple_bind; [by apply triple_logged, triple_StartFIPR; member|apply triple_StopFIPR]. }
  eapply triple_bind; [apply receiver_orShutdown_quiet, triple_lift|]. apply triple_succeeded.
Qed.
End receiver.

(** C19: The same of the receiver, when its process is not both the one that an
    update starts and the one that it leaves, and the waits for workers come
    back: it fails cleanly at every stage. Told to end and not waited for are
    only the injector, the popping goroutine of the output, the goroutine that
    cleans the replay cache, and a listener whose socket does not close within
    two seconds; whenever the depth of a queue is waited for, all others who
    write to it have ended, and so only the injector and such a listener may
    still write to one ([listener_outlives]). *)
Theorem receiver_ends_clean opts env s r :
  groupDone env = true -> tempChild env = false \/ postUpdate env = false ->
  Start opts env stopped = (s, r) ->
  match r with
  | Ok _ => exists s', Shutdown opts env s = (s', Ok tt) /\ (forall t, runs t (trace s') = false) /\ orderly (D := discipline env) (trace s')
  | Err _ => (forall t, runs t (trace s) = false) /\ orderly (D := discipline env) (trace s)
  | Panic => True
  end.
Proof.
  intros Hdone Hone E. pose proof (receiver_triple_Start opts env Hdone Hone stopped eq_refl) as H.
  rewrite E in H. destruct r as [[]| |]; [| |done].
  - destruct (receiver_Shutdown_quiet opts env Hdone s H) as (s' & Es & [[_ Ho] Hq]). by exists s'.
  - by destruct H as [[_ Ho] Hq].
Qed.

Definition exampleOptions : JSONOptions :=
  mkOptions [] [] (mkCrypto [] []) (mkReplay 0 0 0) (str "/run/sdsyslog") [] 0 (mkOutputs (str "/var/log/all") [] [] false true 0)
    (mkMetricsOptions 0 0 true 0) (mkScaling true 0 1 2 2 3 1 2 1 2 1 2).
Definition exampleEnv (child : bool) (input : res unit) : Env :=
  mkEnv (Ok tt) (Ok tt) (Ok tt) (Ok tt) (Ok tt) child (Ok tt) input (fun _ => true) (fun _ => true) (Ok tt) (Ok tt) false (Ok tt) (Ok tt) (Ok tt) true.
Lemma receiver_ends_clean_witness :
  let up := Start exampleOptions (exampleEnv true (Ok tt)) stopped in
  let fail := Start exampleOptions (exampleEnv false (Err EMsg)) stopped in
  runs (Single FIPRReceiver) (trace up.1) = true /\
  (exists s', Shutdown exampleOptions (exampleEnv true (Ok tt)) up.1 = (s', Ok tt) /\ forall t, runs t (trace s') = false) /\
  fail.2 = Err (EWrap EMsg) /\ forall t, runs t (trace fail.1) = false.
Proof.
  intros up fail.
  pose proof (receiver_ends_clean exampleOptions (exampleEnv true (Ok tt)) up.1 up.2 eq_refl (or_intror eq_refl) (surjective_pairing up)) as H1.
  pose proof (receiver_ends_clean exampleOptions (exampleEnv false (Err EMsg)) fail.1 fail.2 eq_refl (or_introl eq_refl) (surjective_pairing fail)) as H2.
  assert (up.2 = Ok tt) as E1 by by vm_compute. assert (fail.2 = Err (EWrap EMsg)) as E2 by by vm_compute.
  rewrite E1 in H1. rewrite E2 in H2. split; [by vm_compute|]. split; [|split; [exact E2|apply H2]].
  destruct H1 as (s' & Hs & Hq & _). exists s'. split; [exact Hs|exact Hq].
Defined.
(** A listener whose socket does not close in time may write to the
    processors' queue while it is waited for. *)
Example listener_outlives :
  let env := mkEnv (Ok tt) (Ok tt) (Ok tt) (Ok tt) (Ok tt) false (Ok tt) (Ok tt) (fun _ => true) (fun i => bool_decide (i = 1%nat)) (Ok tt) (Ok tt)
    false (Ok tt) (Ok tt) (Ok tt) true in
  List.filter (fun e => match e with Started (InstanceOf Listeners _) | Ended (InstanceOf Listeners _) | LetGo (InstanceOf Listeners _)
                                   | Drained Processors => true | _ => false end)
    (trace ((Start exampleOptions env;; Shutdown exampleOptions env) stopped).1) =
  [Started (InstanceOf Listeners 0); LetGo (InstanceOf Listeners 0); Drained Processors].
Proof. by vm_compute. Qed.
(** The popping goroutine of the output, the injector and the cleaner are the
    three that are let go. *)
Example whole_receiver_run :
  List.filter (fun e => match e with LetGo _ | Drained _ => true | _ => false end)
    (trace ((Start exampleOptions (exampleEnv true (Ok tt));; Shutdown exampleOptions (exampleEnv true (Ok tt))) stopped).1) =
  [Drained Processors; LetGo (Single LogInjector); Drained Outs; LetGo (Single OutputPopper); LetGo (Single ReplayCleaner)].
Proof. by vm_compute. Qed.
(** The router's receiver is stopped after the shards that its fragments are
    for. *)
Example router_outlives_shards :
  List.filter (fun e => match e with Ended (InstanceOf Shards _) | Ended (Single FIPRReceiver) => true | _ => false end)
    (trace ((Start exampleOptions (exampleEnv true (Ok tt));; Shutdown exampleOptions (exampleEnv true (Ok tt))) stopped).1) =
  [Ended (InstanceOf Shards 0); Ended (Single FIPRReceiver)].
Proof. by vm_compute. Qed.
End ReceiverLaws.
