(* ===== verification/Collect.v ===== *)
(** What the daemons' gatherers read at every tick: [CollectMetrics] of the
    components ([metrics.go] of the stages, the queues and the input modules)
    and [runIntervalTasks] of [sender/metrics/entry.go] and
    [receiver/metrics/entry.go], with the name spaces that the components have
    from their contexts ([logctx]). What becomes of it is in [Metrics].

    The counters are those of the code, with the times that the models of the
    stages leave out. The readings of a tick have one time here. *)
From Stdlib Require Import SpecFloat.
From stdpp Require Import pretty.
From S2P Require Import Prelude Text Registry Context Consts NetAddr GoStrings Logger Shard Scaling Metrics Sender.

(* ------------------------------------------------------------------ *)
(** * Name spaces                                                       *)
(* ------------------------------------------------------------------ *)

Definition NSProc : gostring := str "Processor".
Definition NSAssm : gostring := str "Assembler".
Definition NSOut : gostring := str "Output".
Definition NSQueue : gostring := str "Queue".
Definition NSListen : gostring := str "Listener".
Definition NSWorker : gostring := str "Worker".
Definition NSmIngest : gostring := str "Ingest".
Definition NSmDefrag : gostring := str "Defrag".
Definition NSmFIPR : gostring := str "FIPR".
Definition NSoFile : gostring := str "File".
Definition NSoJrnl : gostring := str "Journal".
Definition NSoRaw : gostring := str "Raw".

(** [NewCancelWithValues], of the tags. *)
Definition NewCancelWithValues (tags addTags : list gostring) : list gostring := foldl AppendCtxTag tags addTags.

Section readings.
(** Of one tick. *)
Context (interval : Z) (now : gotime).

Definition reading (ns : list gostring) (type : gostring) (name description : string) (v : raw) (unit : string) : Metric :=
  mkMetric (str name) (str description) ns v (str unit) interval type now.
Definition droppedMetric (ns : list gostring) (v : Z) : Metric :=
  mkMetric MTDropped DescDropped ns (RawUint64 v) (str "count") interval Counter now.

(** The number of instances that a manager has. *)
Definition instanceCount (ns : list gostring) (n : nat) : Metric :=
  reading ns Gauge_ "instance_count" "Number of running instances at the time of metric collection" (RawInt (Z.of_nat n)) "count".

(* ------------------------------------------------------------------ *)
(** * The queues                                                        *)
(* ------------------------------------------------------------------ *)

Record QueueCounters := mkQueueCounters {
  qcCapacity : Z; qcDepth : Z; qcBytes : Z;
  PushAttempts : Z; PushSuccess : Z; PushCASRetries : Z; PushSeqBehindTail : Z; PushStaleRetries : Z;
  PopAttempts : Z; PopSuccess : Z; PopCASRetries : Z; PopEmptySeqBehind : Z; PopStaleRetries : Z
}.
Record QueueInstance := mkQueueInstance { qNamespace : list gostring; qCounters : QueueCounters }.
(** [ActiveWrite], and [ActiveRead] where it is another ring. *)
Record Queue := mkQueuePair { activeWrite : QueueInstance; otherRead : option QueueInstance }.

Definition newInstance (ns : list gostring) (capacity : Z) : QueueInstance :=
  mkQueueInstance (ns ++ [NSQueue]) (mkQueueCounters capacity 0 0 0 0 0 0 0 0 0 0 0 0).
Definition newQueue (ns : list gostring) (capacity : Z) : Queue := mkQueuePair (newInstance ns capacity) None.
(** [mutateSize] for a capacity that a ring can have, and the switch of the
    last consumer. *)
Definition mutateQueue (newCapacity : Z) (q : Queue) : Queue :=
  match otherRead q with
  | Some _ => q
  | None => mkQueuePair (newInstance (qNamespace (activeWrite q)) newCapacity) (Some (activeWrite q))
  end.
Definition switchRead (q : Queue) : Queue := mkQueuePair (activeWrite q) None.

(** Reading clears the counters, but not what is in the queue. *)
Definition clearQueue (c : QueueCounters) : QueueCounters :=
  mkQueueCounters (qcCapacity c) (qcDepth c) (qcBytes c) 0 0 0 0 0 0 0 0 0 0.
Definition clearInstance (i : QueueInstance) : QueueInstance := mkQueueInstance (qNamespace i) (clearQueue (qCounters i)).
Definition queueMetrics (q : Queue) : list Metric * Queue :=
  let queues := qCounters (activeWrite q) :: match otherRead q with Some r => [qCounters r] | None => [] end in
  let agg (f : QueueCounters -> Z) : raw := RawUint64 (foldl (fun s c => wrapU 64 (s + f c)) 0 queues) in
  let ns := qNamespace (activeWrite q) in
  ([reading ns Summary "capacity" "Current active queue max capacity (total allocated entries) at time of metric collection"
      (RawUint64 (qcCapacity (qCounters (activeWrite q)))) "capacity";
    reading ns Gauge_ "depth" "Current number of items in the queue" (agg qcDepth) "count";
    reading ns Gauge_ "total_bytes" "Byte sum of all items in the queue" (agg qcBytes) "bytes";
    reading ns Counter "push_attempts" "Total push attempts in the interval" (agg PushAttempts) "count";
    reading ns Counter "push_success" "Total push attempts that succeeded in the interval" (agg PushSuccess) "count";
    reading ns Counter "push_cas_retries" "Sum of retries to push in the interval" (agg PushCASRetries) "count";
    reading ns Counter "push_seq_behind_tail" "Push observed a sequence value behind the expected tail position, indicating the slot is not yet available for writing (writer ahead)" (agg PushSeqBehindTail) "count";
    reading ns Counter "push_stale_retries" "Push observed sequence ahead of local position (seq > pos), indicating another writer advanced the tail; retry due to stale local view of ring state." (agg PushStaleRetries) "count";
    reading ns Counter "pop_attempts" "Total pop attempts in the interval" (agg PopAttempts) "count";
    reading ns Counter "pop_success" "Total pop attempts that succeeded in the interval" (agg PopSuccess) "count";
    reading ns Counter "pop_cas_retries" "Sum of retries to pop in the interval" (agg PopCASRetries) "count";
    reading ns Counter "pop_empty_seq_behind" "Pop observed sequence behind expected read position (seq < readySeq), indicating the slot is not yet visible/ready for consumption (read-before-write or visibility lag)." (agg PopEmptySeqBehind) "count";
    reading ns Counter "pop_stale_retries" "Pop observed sequence ahead of expected head position (seq > readySeq), indicating another consumer advanced the head; retry due to stale local view of ring state." (agg PopStaleRetries) "count"],
   mkQueuePair (clearInstance (activeWrite q)) (clearInstance <$> otherRead q)).

(* ------------------------------------------------------------------ *)
(** * The receiver's stages                                             *)
(* ------------------------------------------------------------------ *)

Record ListenerCounters := mkListenerCounters { BusyNs : Z; ValidPackets : Z; InvalidPackets : Z; lsSumNs : Z; lsMaxNs : Z; lsDropped : Z }.
Definition listenerMetrics (ns : list gostring) (c : ListenerCounters) : list Metric * ListenerCounters :=
  let busyPct := fmul (fdiv (ofZ (BusyNs c)) (ofZ interval)) (ofZ 100) in
  ([reading ns Summary "busy_time_percent" "Total time spent doing anything in the interval" (RawFloat64 busyPct) "%";
    reading ns Counter "valid_packets_total" "Total packets that passed basic validation in the interval" (RawUint64 (ValidPackets c)) "count";
    reading ns Counter "invalid_packets_total" "Total packets that failed basic validation in the interval" (RawUint64 (InvalidPackets c)) "count";
    reading ns Counter "elapsed_time_sum_ns" "Total time spent validating packets in the interval" (RawUint64 (lsSumNs c)) "ns";
    reading ns Summary "elapsed_time_max_ns" "Maximum (seen) time spent validating packets in the interval" (RawUint64 (lsMaxNs c)) "ns";
    droppedMetric ns (lsDropped c)],
   mkListenerCounters 0 0 0 0 0 0).

Record ProcessorCounters := mkProcessorCounters { ValidPayloads : Z; InvalidPayloads : Z; prSumNs : Z; prMaxNs : Z; prDropped : Z }.
Definition processorMetrics (ns : list gostring) (c : ProcessorCounters) : list Metric * ProcessorCounters :=
  ([reading ns Counter "valid_payloads_total" "Total validated payloads in the interval" (RawUint64 (ValidPayloads c)) "count";
    reading ns Counter "invalid_payloads_total" "Total invalid payloads in the interval" (RawUint64 (InvalidPayloads c)) "count";
    reading ns Counter "elapsed_time_sum_ns" "Total time spent processing payloads in the interval" (RawUint64 (prSumNs c)) "ns";
    reading ns Summary "elapsed_time_max_ns" "Maximum (seen) time spent processing payloads in the interval" (RawUint64 (prMaxNs c)) "ns";
    droppedMetric ns (prDropped c)],
   mkProcessorCounters 0 0 0 0 0).

(** The gauges of the shard are not cleared. *)
Definition shardMetrics (ns : list gostring) (m : Shard.MetricStorage) : list Metric * Shard.MetricStorage :=
  ([reading ns Gauge_ "total_bytes" "Total bytes currently in the queue (includes internal structure overheads)" (RawUint64 (Bytes m)) "bytes";
    reading ns Gauge_ "total_buckets" "Total buckets currently in the queue (not counting ones waiting for processing)" (RawUint64 (TotalBuckets m)) "count";
    reading ns Gauge_ "waiting_buckets" "Total buckets waiting to be processed" (RawUint64 (WaitingBuckets m)) "count";
    reading ns Counter "timed_out_buckets" "Total buckets that did not receive all fragments of a message in the interval" (RawUint64 (TimedOutBuckets m)) "count";
    reading ns Counter "sum_time_between_fragments" "Sum of time to arrival between fragments in the interval" (RawUint64 (SumFragmentTimeSpacing m)) "ns";
    reading ns Counter "push_ctn" "Total buckets sent into the queue in the interval" (RawUint64 (PushCount m)) "count";
    reading ns Counter "pop_ctn" "Total buckets received from the queue in the interval" (RawUint64 (PopCount m)) "count"],
   Shard.mkMetrics (Bytes m) (TotalBuckets m) (WaitingBuckets m) 0 0 0 0).

Record AssemblerCounters := mkAssemblerCounters { ProcessedBuckets : Z; asSumNs : Z; asMaxNs : Z; asDropped : Z }.
Definition assemblerMetrics (ns : list gostring) (c : AssemblerCounters) : list Metric * AssemblerCounters :=
  ([reading ns Counter "processed_buckets" "Number of buckets successfully processed in the interval" (RawUint64 (ProcessedBuckets c)) "count";
    reading ns Counter "elapsed_time_sum_ns" "Total time spent processing buckets in the interval (excludes pop/push from queues)" (RawUint64 (asSumNs c)) "ns";
    reading ns Summary "elapsed_time_max_ns" "Maximum (seen) time spent processing buckets in the interval (excludes pop/push from queues)" (RawUint64 (asMaxNs c)) "ns";
    droppedMetric ns (asDropped c)],
   mkAssemblerCounters 0 0 0 0).
Definition assemblerManagerMetrics (ns : list gostring) (ids : nat) (packetDeadline : Z) : list Metric :=
  [instanceCount ns ids;
   reading ns Summary "packet_deadline" "Packet deadline (maximum time between fragments) at the time of metric collection" (RawInt packetDeadline) "ns"].

Record RouterCounters := mkRouterCounters { Connections : Z; AcceptedFragments : Z; RejectedFragments : Z }.
Definition routerMetrics (ns : list gostring) (c : RouterCounters) : list Metric * RouterCounters :=
  ([reading ns Gauge_ "total_connections" "Total connections from any remote shard" (RawUint64 (Connections c)) "count";
    reading ns Gauge_ "accepted_fragments" "Total number of accepted remote fragments in the interval" (RawUint64 (AcceptedFragments c)) "count";
    reading ns Counter "rejected_fragments" "Total number of rejected remote fragments in the interval" (RawUint64 (RejectedFragments c)) "count"],
   mkRouterCounters 0 0 0).

Record OutputCounters := mkOutputCounters {
  ReceivedMessages : Z; FileWrites : Z; JrnlWrites : Z; BeatsWrites : Z; RawWrites : Z; NotifyWrites : Z; ouDropped : Z
}.
Definition outputMetrics (ns : list gostring) (c : OutputCounters) : list Metric * OutputCounters :=
  let totalWrites := wrapU 64 (FileWrites c + JrnlWrites c + BeatsWrites c + RawWrites c + NotifyWrites c) in
  ([reading ns Counter "received_messages" "Total messages received from assemblers" (RawUint64 (ReceivedMessages c)) "count";
    reading ns Counter "written_messages" "Sum of messages successfully written to all outputs" (RawUint64 totalWrites) "count";
    reading ns Counter "success_file_writes" "Total writes to any file outputs" (RawUint64 (FileWrites c)) "count";
    reading ns Counter "success_journal_writes" "Total writes to journal output" (RawUint64 (JrnlWrites c)) "count";
    reading ns Counter "success_beats_writes" "Total writes to beats output" (RawUint64 (BeatsWrites c)) "count";
    reading ns Counter "success_raw_writes" "Total writes to raw output" (RawUint64 (RawWrites c)) "count";
    reading ns Counter "success_notify_writes" "Total writes to dbus notify output" (RawUint64 (NotifyWrites c)) "count";
    droppedMetric ns (ouDropped c)],
   mkOutputCounters 0 0 0 0 0 0 0).

(* ------------------------------------------------------------------ *)
(** * The sender's sources                                              *)
(* ------------------------------------------------------------------ *)

Record SourceCounters := mkSourceCounters { inputsRead : Z; Success : Z }.
Definition fileMetrics (ns : list gostring) (c : SourceCounters) : list Metric * SourceCounters :=
  ([reading ns Counter "lines_read" "Total lines read from file in the interval" (RawUint64 (inputsRead c)) "count";
    reading ns Counter "success_processed" "Total processed messages extracted from file in the interval" (RawUint64 (Success c)) "count"],
   mkSourceCounters 0 0).
Definition journalMetrics (ns : list gostring) (c : SourceCounters) : list Metric * SourceCounters :=
  ([reading ns Counter "lines_read" "Total lines read from journald in the interval" (RawUint64 (inputsRead c)) "count";
    reading ns Counter "success_processed" "Total processed messages extracted from journald in the interval" (RawUint64 (Success c)) "count"],
   mkSourceCounters 0 0).
Definition rawMetrics (ns : list gostring) (c : SourceCounters) : list Metric * SourceCounters :=
  ([reading ns Counter "complete_inputs" "Total read chunks from raw source in the interval" (RawUint64 (inputsRead c)) "count";
    reading ns Counter "success_processed" "Total processed messages extracted from raw source in the interval" (RawUint64 (Success c)) "count"],
   mkSourceCounters 0 0).
End readings.

(* ------------------------------------------------------------------ *)
(** * The gatherers                                                     *)
(* ------------------------------------------------------------------ *)

(** A component that reads itself, and a list of such. *)
Definition readEach {A} (f : A -> list Metric * A) (l : list A) : list (list Metric) * list A :=
  (map (fun a => (f a).1) l, map (fun a => (f a).2) l).

(** The sender: the tags of its context, the files in the order in which the
    loop meets them (a removed one is nil), the instances by their numbers. *)
Record SenderPipeline := mkSenderPipeline {
  sTags : list gostring;
  sFiles : list (gostring * option SourceCounters);
  sJournal : option SourceCounters;
  sRaw : option SourceCounters;
  packQueue : Queue;
  packers : list (nat * Packing.Worker);
  sendQueue : Queue;
  senders : list (nat * Sending.Worker)
}.
Definition idTag (n : nat) : gostring := itoa (Z.of_nat n).

Section sender.
Context (interval : Z) (now : gotime).

Definition readFile (tags : list gostring) (f : gostring * option SourceCounters)
  : list Metric * (gostring * option SourceCounters) :=
  match f with
  | (path, None) => ([], f)
  | (path, Some c) =>
      let '(ms, c) := fileMetrics interval now (tags ++ [NSmIngest; NSoFile; Base path]) c in (ms, (path, Some c))
  end.
Definition readIf {C} (f : C -> list Metric * C) (c : option C) : list (list Metric) * option C :=
  match c with None => ([], None) | Some c => let '(ms, c) := f c in ([ms], Some c) end.
Definition readPacker (tags : list gostring) (p : nat * Packing.Worker) : list Metric * (nat * Packing.Worker) :=
  let '(ms, w) := Packing.CollectMetrics interval (NewCancelWithValues (tags ++ [NSmPack]) [idTag p.1; NSAssm]) now p.2 in (ms, (p.1, w)).
Definition readSender (tags : list gostring) (p : nat * Sending.Worker) : list Metric * (nat * Sending.Worker) :=
  let '(ms, w) := Sending.CollectMetrics interval (NewCancelWithValues (tags ++ [NSmOutput]) [idTag p.1; NSOut]) now p.2 in (ms, (p.1, w)).

(** [runIntervalTasks] of the sender: what is added to the registry, and the
    components after it. *)
Definition senderTasks (p : SenderPipeline) : list (list Metric) * SenderPipeline :=
  let tags := sTags p in
  let '(m1, files) := readEach (readFile tags) (sFiles p) in
  let '(m2, journal) := readIf (journalMetrics interval now (tags ++ [NSmIngest; NSoJrnl])) (sJournal p) in
  let '(m3, rawInput) := readIf (rawMetrics interval now (tags ++ [NSmIngest; NSoRaw])) (sRaw p) in
  let '(m4, inQueue) := queueMetrics interval now (packQueue p) in
  let '(m5, packers) := readEach (readPacker tags) (packers p) in
  let '(m6, outQueue) := queueMetrics interval now (sendQueue p) in
  let '(m7, senders) := readEach (readSender tags) (senders p) in
  (m1 ++ m2 ++ m3 ++ [m4] ++ m5 ++ [m6] ++ m7,
   mkSenderPipeline tags files journal rawInput inQueue packers outQueue senders).
End sender.

(** The receiver. *)
Record ReceiverPipeline := mkReceiverPipeline {
  rTags : list gostring;
  listeners : list (nat * ListenerCounters);
  procQueue : Queue;
  processors : list (nat * ProcessorCounters);
  pairs : list (nat * (Shard.MetricStorage * AssemblerCounters));
  packetDeadline : Z;
  router : option RouterCounters;
  outQueue : Queue;
  output : OutputCounters
}.

Section receiver.
Context (interval : Z) (now : gotime).

Definition readListener (tags : list gostring) (l : nat * ListenerCounters) : list Metric * (nat * ListenerCounters) :=
  let '(ms, c) := listenerMetrics interval now (NewCancelWithValues (tags ++ [NSmIngest]) [NSListen; idTag l.1]) l.2 in (ms, (l.1, c)).
Definition readProcessor (tags : list gostring) (p : nat * ProcessorCounters) : list Metric * (nat * ProcessorCounters) :=
  let '(ms, c) := processorMetrics interval now (NewCancelWithValues (tags ++ [NSProc]) [NSWorker; idTag p.1]) p.2 in (ms, (p.1, c)).
(** A shard and its assembler, whose contexts are made from the same one. *)
Definition readPair (tags : list gostring) (p : nat * (Shard.MetricStorage * AssemblerCounters))
  : list Metric * (nat * (Shard.MetricStorage * AssemblerCounters)) :=
  let workerTags := NewCancelWithValues (tags ++ [NSmDefrag]) [idTag p.1] in
  let '(m1, shard) := shardMetrics interval now (workerTags ++ [NSQueue]) p.2.1 in
  let '(m2, assembler) := assemblerMetrics interval now (AppendCtxTag workerTags NSAssm) p.2.2 in
  (m1 ++ m2, (p.1, (shard, assembler))).

Definition receiverTasks (p : ReceiverPipeline) : list (list Metric) * ReceiverPipeline :=
  let tags := rTags p in
  let '(m1, listeners') := readEach (readListener tags) (listeners p) in
  let m2 := [instanceCount interval now (tags ++ [NSmIngest]) (length (listeners p))] in
  let '(m3, procQueue') := queueMetrics interval now (procQueue p) in
  let '(m4, processors') := readEach (readProcessor tags) (processors p) in
  let m5 := [instanceCount interval now (tags ++ [NSProc]) (length (processors p))] in
  let '(m6, pairs') := readEach (readPair tags) (pairs p) in
  let m7 := assemblerManagerMetrics interval now (tags ++ [NSmDefrag]) (length (pairs p)) (packetDeadline p) in
  let '(m8, router') := readIf (routerMetrics interval now (tags ++ [NSmFIPR])) (router p) in
  let '(m9, outQueue') := queueMetrics interval now (outQueue p) in
  let '(m10, output') := outputMetrics interval now (tags ++ [NSmOutput; NSWorker]) (output p) in
  (m1 ++ [m2; m3] ++ m4 ++ [m5; concat m6 ++ m7] ++ m8 ++ [m9; m10],
   mkReceiverPipeline tags listeners' procQueue' processors' pairs' (packetDeadline p) router' outQueue' output').
End receiver.

(* ------------------------------------------------------------------ *)
(** * Distinct keys                                                     *)
(* ------------------------------------------------------------------ *)

Lemma str_inj s t : str s = str t -> s = t.
Proof. intros H. unfold str in H. rewrite <- (String.string_of_list_byte_of_string s), H. apply String.string_of_list_byte_of_string. Qed.
#[local] Instance idTag_inj : Inj (=) (=) idTag.
Proof. intros m n H%str_inj%(inj pretty). lia. Qed.
Lemma digit_no_slash x : slash <> Ascii.byte_of_ascii (pretty_N_char x).
Proof. unfold pretty_N_char. repeat case_match; by vm_compute. Qed.
Lemma pretty_go_no_slash x : forall s, slash ∉ str s -> slash ∉ str (pretty_N_go x s).
Proof.
  induction (N.lt_wf_0 x) as [x _ IH]. intros s Hs. destruct (decide (0 < x)%N) as [Hx|Hx].
  - rewrite pretty_N_go_step by done. apply IH; [by apply N.div_lt|]. cbn. intros [?|?]%elem_of_cons; [by eapply digit_no_slash|done].
  - assert (x = 0%N) as -> by lia. by rewrite pretty_N_go_0.
Qed.
Lemma idTag_no_slash n : slash ∉ idTag n.
Proof.
  unfold idTag, itoa. destruct n as [|n]; [by apply (bool_decide_unpack _); vm_compute|].
  change (pretty (Z.of_nat (S n))) with (pretty_N_go (N.pos (Pos.of_succ_nat n)) ""). apply pretty_go_no_slash. by intros ?%elem_of_nil.
Qed.

(** The metrics of one reading: of one name space, with different names. *)
Definition sound (ns : list gostring) (ms : list Metric) : Prop :=
  Forall (fun m => metNamespace m = ns /\ metName m <> []) ms /\ NoDup (map metName ms).
(** A name space that its joined form stands for. *)
Definition proper (ns : list gostring) : Prop := ns <> [] /\ Forall (fun s => slash ∉ s) ns.
Lemma joinNS_inj ns ns' : proper ns -> proper ns' -> joinNS ns = joinNS ns' -> ns = ns'.
Proof. intros [H1 F1] [H2 F2] E. rewrite <- (split_join slash ns), <- (split_join slash ns') by done. unfold joinNS in E. by rewrite E. Qed.
Lemma sound_keys ns ms : sound ns ms -> NoDup (map metKey ms) /\ Forall (fun k => k.1 = joinNS ns) (map metKey ms).
Proof.
  intros [Hns Hn]. split.
  - apply (NoDup_fmap_1 snd). change (@fmap list _) with map. by rewrite map_map.
  - apply Forall_fmap. apply (Forall_impl _ _ _ Hns). by intros m [<- _].
Qed.
Lemma distinct_keys nss groups :
  Forall2 sound nss groups -> Forall proper nss -> NoDup nss -> NoDup (map metKey (concat groups)).
Proof.
  intros Hs Hp Hnd. induction Hs as [|ns ms nss groups Hns Hs IH]; [constructor|].
  apply Forall_cons in Hp as [Hp Hps]. apply NoDup_cons in Hnd as [Hnot Hnd]. cbn [concat]. rewrite map_app.
  apply sound_keys in Hns as [Hms Hk]. apply NoDup_app. split_and!; [done| |by apply IH].
  intros k Hkm Hkg. rewrite Forall_forall in Hk. pose proof (Hk k Hkm) as E. clear IH Hnd.
  induction Hs as [|ns' ms' nss groups Hns' Hs IH]; [by apply elem_of_nil in Hkg|]. cbn [concat] in Hkg. rewrite map_app in Hkg.
  apply Forall_cons in Hps as [Hp' Hps]. apply not_elem_of_cons in Hnot as [Hne Hnot].
  apply elem_of_app in Hkg as [Hkg|Hkg]; [|by apply IH].
  apply sound_keys in Hns' as [_ Hk']. rewrite Forall_forall in Hk'. apply Hne, joinNS_inj; [done..|]. by rewrite <- E, (Hk' k Hkg).
Qed.

(** What a tick adds to the registry can be told apart. *)
Definition toldApart (batches : list (list Metric)) : Prop :=
  exists nss groups, concat groups ≡ₚ concat batches /\ Forall2 sound nss groups /\ Forall proper nss /\ NoDup nss.
Lemma toldApart_elem batches m : toldApart batches -> m ∈ concat batches ->
  NoDup (map metKey (concat batches)) /\ proper (metNamespace m) /\ metName m <> [].
Proof.
  intros (nss & groups & E & Hs & Hp & Hn). rewrite <- E. intros Hm.
  split; [by eapply distinct_keys|]. clear Hn E.
  induction Hs as [|ns ms nss groups [Hms _] Hs IH]; [by apply elem_of_nil in Hm|].
  apply Forall_cons in Hp as [Hp Hps]. apply elem_of_app in Hm as [Hm|Hm]; [|by apply IH].
  rewrite Forall_forall in Hms. by destruct (Hms m Hm) as [-> ?].
Qed.

(** A metric whose key nothing else of the slice's writes has is found again. *)
Lemma lastWith_unique ms m : NoDup (map metKey ms) -> m ∈ ms -> lastWith (joinNS (metNamespace m)) (metName m) ms = Some m.
Proof.
  intros Hnd Hm. induction ms as [|u ms IH]; [by apply elem_of_nil in Hm|]. cbn in Hnd. apply NoDup_cons in Hnd as [Hn Hnd].
  assert (forall l, metKey u ∉ map metKey l -> lastWith (joinNS (metNamespace u)) (metName u) l = None) as Hno.
  { intros l Hl. destruct (lastWith _ _ l) as [v|] eqn:E; [|done]. destruct (lastWith_elem _ _ _ _ E) as [Hv Hk].
    destruct Hl. change map with (@fmap list _). apply list_elem_of_fmap. exists v. split; [by rewrite Hk|done]. }
  rewrite (lastWith_app _ _ [u] ms). apply elem_of_cons in Hm as [->|Hm].
  - rewrite Hno by done. unfold lastWith. cbn. by rewrite bool_decide_eq_true_2.
  - by rewrite IH.
Qed.

(** A queue's name space, after however many changes of its size. *)
Definition queueTag (stage : list gostring) (q : Queue) : Prop :=
  exists n, qNamespace (activeWrite q) = stage ++ replicate (S n) NSQueue.
(** Every change of the size appends another tag. *)
Lemma namespace_grows q capacity : otherRead q = None ->
  qNamespace (activeWrite (switchRead (mutateQueue capacity q))) = qNamespace (activeWrite q) ++ [NSQueue].
Proof. intros H. unfold mutateQueue. by rewrite H. Qed.
Lemma queueTag_kept stage q capacity : queueTag stage q -> queueTag stage (mutateQueue capacity q).
Proof.
  intros [n H]. unfold mutateQueue. destruct (otherRead q); [by exists n|]. exists (S n). cbn [activeWrite newInstance qNamespace].
  by rewrite H, <- app_assoc, (replicate_S_end (S n)).
Qed.
Lemma queueTag_switched stage q : queueTag stage q -> queueTag stage (switchRead q).
Proof. done. Qed.
Lemma queueTag_new stage capacity : queueTag stage (newQueue stage capacity).
Proof. by exists 0%nat. Qed.

(** Lists without repetition, told apart by a number, give one without. *)
Lemma NoDup_kinds {A} (kind : A -> nat) (ls : list (list A)) :
  (forall i l, ls !! i = Some l -> NoDup l /\ Forall (fun x => kind x = i) l) -> NoDup (concat ls).
Proof.
  induction ls as [|l ls IH] using rev_ind; intros H; [constructor|]. rewrite concat_app. cbn [concat]. rewrite app_nil_r.
  destruct (H (length ls) l) as [Hl Hk]; [by apply list_lookup_middle|].
  apply NoDup_app. split_and!; [apply IH| |done].
  - intros i l' Hi. apply H. by apply lookup_app_l_Some.
  - intros x Hx Hx'. rewrite Forall_forall in Hk. pose proof (Hk x Hx') as Hkx.
    apply list_elem_of_In, in_concat in Hx as (l' & [i Hi]%list_elem_of_In%list_elem_of_lookup & Hx%list_elem_of_In).
    destruct (H i l') as [_ Hk']; [by apply lookup_app_l_Some|]. rewrite Forall_forall in Hk'. pose proof (Hk' x Hx).
    apply lookup_lt_Some in Hi. lia.
Qed.
(** Name spaces of instances, from their numbers or names. *)
Lemma NoDup_tagged {A B} (key : A -> B) (ns : B -> list gostring) (l : list A) :
  (forall x y, ns x = ns y -> x = y) -> NoDup (map key l) -> NoDup (map (fun x => ns (key x)) l).
Proof. intros Hi H. rewrite <- (map_map key ns). by apply (NoDup_fmap_2 (Inj0 := Hi) ns). Qed.

Create HintDb readings.
Section keys.
Context (interval : Z) (now : gotime).

(* ------------------------------------------------------------------ *)
(** * A tick of the sender                                              *)
(* ------------------------------------------------------------------ *)

(** What a tick reads, with the name space of each reading after the tags of
    the daemon. *)
Definition senderNamespaces (p : SenderPipeline) : list (list (list gostring)) :=
  [map (fun f => [NSmIngest; NSoFile; Base f.1]) (sFiles p);
   match sJournal p with Some _ => [[NSmIngest; NSoJrnl]] | None => [] end;
   match sRaw p with Some _ => [[NSmIngest; NSoRaw]] | None => [] end;
   [drop (length (sTags p)) (qNamespace (activeWrite (packQueue p)))];
   map (fun f => [NSmPack; idTag f.1; NSAssm]) (packers p);
   [drop (length (sTags p)) (qNamespace (activeWrite (sendQueue p)))];
   map (fun f => [NSmOutput; idTag f.1; NSOut]) (senders p)].
Definition senderKind (s : list gostring) : nat :=
  if bool_decide (s !! 0%nat = Some NSmIngest) then
    (if bool_decide (s !! 2%nat = None) then (if bool_decide (s !! 1%nat = Some NSoJrnl) then 1 else 2) else 0)%nat
  else if bool_decide (s !! 0%nat = Some NSmPack) then
    (if bool_decide (s !! 2%nat = Some NSAssm) then 4 else 3)%nat
  else (if bool_decide (s !! 2%nat = Some NSOut) then 6 else 5)%nat.

(** What must hold of the tags and the numbers. *)
Record senderNamed (p : SenderPipeline) : Prop := {
  sn_tags : Forall (fun s => slash ∉ s) (sTags p);
  sn_files : NoDup (map (fun f => Base f.1) (sFiles p));
  sn_bases : Forall (fun f => slash ∉ Base f.1) (sFiles p);
  sn_packers : NoDup (map fst (packers p));
  sn_senders : NoDup (map fst (senders p));
  sn_packQueue : queueTag (sTags p ++ [NSmPack]) (packQueue p);
  sn_sendQueue : queueTag (sTags p ++ [NSmOutput]) (sendQueue p)
}.

Lemma sender_namespaces p : senderNamed p -> NoDup (concat (senderNamespaces p)).
Proof.
  intros [_ Hf _ Hp Hs [n1 E1] [n2 E2]]. apply (NoDup_kinds senderKind). intros i l. unfold senderNamespaces.
  rewrite E1, E2, <- !app_assoc, !drop_app_length.
  destruct i as [|[|[|[|[|[|[|i]]]]]]]; [intros [= <-]..|done].
  - split; [|by apply Forall_fmap, Forall_true].
    by apply (NoDup_tagged (fun f : gostring * option SourceCounters => Base f.1) (fun b => [NSmIngest; NSoFile; b])); [intros ?? [= ?]|].
  - destruct (sJournal p); [|by repeat constructor]. split; [apply NoDup_singleton|by repeat constructor].
  - destruct (sRaw p); [|by repeat constructor]. split; [apply NoDup_singleton|by repeat constructor].
  - split; [apply NoDup_singleton|]. destruct n1; by repeat constructor.
  - split; [|by apply Forall_fmap, Forall_true].
    by apply (NoDup_tagged fst (fun i => [NSmPack; idTag i; NSAssm])); [intros ?? [= ?%(inj idTag)]|].
  - split; [apply NoDup_singleton|]. destruct n2; by repeat constructor.
  - split; [|by apply Forall_fmap, Forall_true].
    by apply (NoDup_tagged fst (fun i => [NSmOutput; idTag i; NSOut])); [intros ?? [= ?%(inj idTag)]|].
Qed.
(** The readings, each of the name space of its component. *)
Ltac reading := split; [by repeat (apply Forall_cons; split)|by apply (bool_decide_unpack _); lazy].
Lemma queueMetrics_sound q : sound (qNamespace (activeWrite q)) (queueMetrics interval now q).1.
Proof. reading. Qed.
Lemma fileMetrics_sound ns c : sound ns (fileMetrics interval now ns c).1.
Proof. reading. Qed.
Lemma journalMetrics_sound ns c : sound ns (journalMetrics interval now ns c).1.
Proof. reading. Qed.
Lemma rawMetrics_sound ns c : sound ns (rawMetrics interval now ns c).1.
Proof. reading. Qed.
Lemma packing_sound ns w : sound ns (Packing.CollectMetrics interval ns now w).1.
Proof. reading. Qed.
Lemma sending_sound ns w : sound ns (Sending.CollectMetrics interval ns now w).1.
Proof. reading. Qed.

Lemma Forall2_readings {A} (ns : A -> list gostring) (f : A -> list Metric) (l : list A) :
  (forall a, a ∈ l -> sound (ns a) (f a)) -> Forall2 sound (map ns l) (map f l).
Proof. intros H. apply Forall2_fmap, Forall_Forall2_diag, Forall_forall, H. Qed.

Lemma queueTag_drop tags stage q : queueTag (tags ++ stage) q ->
  tags ++ drop (length tags) (qNamespace (activeWrite q)) = qNamespace (activeWrite q).
Proof. intros [n ->]. by rewrite <- !app_assoc, drop_app_length. Qed.

Lemma sender_readings p : senderNamed p ->
  Forall2 sound (map (app (sTags p)) (concat (senderNamespaces p))) (senderTasks interval now p).1.
Proof.
  intros N. unfold senderTasks, senderNamespaces, readEach, readIf. cbn [concat]. rewrite app_nil_r, !map_app, !map_map. cbn [map].
  rewrite (queueTag_drop _ _ _ (sn_packQueue _ N)), (queueTag_drop _ _ _ (sn_sendQueue _ N)).
  assert (forall f, f ∈ sFiles p -> sound (sTags p ++ [NSmIngest; NSoFile; Base f.1]) (readFile interval now (sTags p) f).1) as Hfile.
  { intros [path [c|]] _; [apply fileMetrics_sound|split; constructor]. }
  assert (forall f, f ∈ packers p -> sound (sTags p ++ [NSmPack; idTag f.1; NSAssm]) (readPacker interval now (sTags p) f).1) as Hpack.
  { intros [i w] _. unfold readPacker, NewCancelWithValues, AppendCtxTag. cbn [foldl fst snd]. rewrite <- !app_assoc. apply packing_sound. }
  assert (forall f, f ∈ senders p -> sound (sTags p ++ [NSmOutput; idTag f.1; NSOut]) (readSender interval now (sTags p) f).1) as Hsend.
  { intros [i w] _. unfold readSender, NewCancelWithValues, AppendCtxTag. cbn [foldl fst snd]. rewrite <- !app_assoc. apply sending_sound. }
  apply Forall2_readings in Hfile, Hpack, Hsend.
  destruct (sJournal p), (sRaw p); cbn [fst map]; 
    repeat first [assumption | apply Forall2_nil_2; reflexivity | apply Forall2_cons; split | apply Forall2_app];
    first [apply journalMetrics_sound | apply rawMetrics_sound | apply queueMetrics_sound].
Qed.
Lemma queueTag_proper stage q : proper stage -> queueTag stage q -> proper (qNamespace (activeWrite q)).
Proof.
  intros [Hs Fs] [n ->]. split; [by destruct stage|]. apply Forall_app. split; [done|]. apply Forall_replicate. by apply (bool_decide_unpack _).
Qed.
Lemma tagged_proper tags : Forall (fun s => slash ∉ s) tags ->
  forall a ns, Forall (fun s => slash ∉ s) (a :: ns) -> proper (tags ++ a :: ns).
Proof. intros Ht a ns Hn. split; [by destruct tags|by apply Forall_app]. Qed.
Ltac plain := first [done | apply idTag_no_slash | by apply (bool_decide_unpack _); vm_compute].
Lemma sender_proper p : senderNamed p -> Forall proper (map (app (sTags p)) (concat (senderNamespaces p))).
Proof.
  intros N. pose proof (sn_packQueue _ N) as Hp. pose proof (sn_sendQueue _ N) as Hs.
  pose proof (tagged_proper _ (sn_tags _ N)) as Ht.
  unfold senderNamespaces. cbn [concat]. rewrite app_nil_r, !map_app, !map_map. cbn [map].
  rewrite (queueTag_drop _ _ _ Hp), (queueTag_drop _ _ _ Hs).
  apply queueTag_proper in Hp; [|by apply Ht; repeat constructor; plain]. apply queueTag_proper in Hs; [|by apply Ht; repeat constructor; plain].
  repeat (apply Forall_app; split); try (apply Forall_fmap, Forall_forall; intros f Hf; apply Ht; repeat constructor; try plain).
  - pose proof (sn_bases _ N) as Hb. rewrite Forall_forall in Hb. by apply Hb.
  - destruct (sJournal p); [|by apply Forall_nil]. repeat constructor; apply Ht; repeat constructor; plain.
  - destruct (sRaw p); [|by apply Forall_nil]. repeat constructor; apply Ht; repeat constructor; plain.
  - by apply Forall_singleton.
  - by apply Forall_singleton.
Qed.
Lemma sender_told_apart p : senderNamed p -> toldApart (senderTasks interval now p).1.
Proof.
  intros N. exists (map (app (sTags p)) (concat (senderNamespaces p))), (senderTasks interval now p).1. split_and!;
    [done|by apply sender_readings|by apply sender_proper|].
  apply NoDup_fmap_2; [by intros ?? ?%app_inv_head|by apply sender_namespaces].
Qed.

(* ------------------------------------------------------------------ *)
(** * A tick of the receiver                                            *)
(* ------------------------------------------------------------------ *)

Definition receiverNamespaces (p : ReceiverPipeline) : list (list (list gostring)) :=
  [map (fun l => [NSmIngest; NSListen; idTag l.1]) (listeners p);
   [[NSmIngest]];
   [drop (length (rTags p)) (qNamespace (activeWrite (procQueue p)))];
   map (fun l => [NSProc; NSWorker; idTag l.1]) (processors p);
   [[NSProc]];
   map (fun l => [NSmDefrag; idTag l.1; NSQueue]) (pairs p);
   map (fun l => [NSmDefrag; idTag l.1; NSAssm]) (pairs p);
   [[NSmDefrag]];
   match router p with Some _ => [[NSmFIPR]] | None => [] end;
   [drop (length (rTags p)) (qNamespace (activeWrite (outQueue p)))];
   [[NSmOutput; NSWorker]]].
Definition receiverKind (s : list gostring) : nat :=
  if bool_decide (s !! 0%nat = Some NSmIngest) then (if bool_decide (s !! 1%nat = None) then 1 else 0)%nat
  else if bool_decide (s !! 0%nat = Some NSProc) then
    (if bool_decide (s !! 1%nat = Some NSQueue) then 2 else if bool_decide (s !! 1%nat = None) then 4 else 3)%nat
  else if bool_decide (s !! 0%nat = Some NSmDefrag) then
    (if bool_decide (s !! 1%nat = None) then 7 else if bool_decide (s !! 2%nat = Some NSQueue) then 5 else 6)%nat
  else if bool_decide (s !! 0%nat = Some NSmFIPR) then 8%nat
  else (if bool_decide (s !! 1%nat = Some NSQueue) then 9 else 10)%nat.

Record receiverNamed (p : ReceiverPipeline) : Prop := {
  rn_tags : Forall (fun s => slash ∉ s) (rTags p);
  rn_listeners : NoDup (map fst (listeners p));
  rn_processors : NoDup (map fst (processors p));
  rn_pairs : NoDup (map fst (pairs p));
  rn_procQueue : queueTag (rTags p ++ [NSProc]) (procQueue p);
  rn_outQueue : queueTag (rTags p ++ [NSmOutput]) (outQueue p)
}.

Lemma receiver_namespaces p : receiverNamed p -> NoDup (concat (receiverNamespaces p)).
Proof.
  intros [_ Hl Hp Hd [n1 E1] [n2 E2]]. apply (NoDup_kinds receiverKind). intros i l. unfold receiverNamespaces.
  rewrite E1, E2, <- !app_assoc, !drop_app_length.
  destruct i as [|[|[|[|[|[|[|[|[|[|[|i]]]]]]]]]]]; [intros [= <-]..|done];
    try (split; [apply NoDup_singleton|by repeat constructor]);
    try (split; [|by apply Forall_fmap, Forall_true]).
  - apply (NoDup_tagged fst (fun i => [NSmIngest; NSListen; idTag i])); [intros ?? [= ?%(inj idTag)]|]; done.
  - apply (NoDup_tagged fst (fun i => [NSProc; NSWorker; idTag i])); [intros ?? [= ?%(inj idTag)]|]; done.
  - apply (NoDup_tagged fst (fun i => [NSmDefrag; idTag i; NSQueue])); [intros ?? [= ?%(inj idTag)]|]; done.
  - apply (NoDup_tagged fst (fun i => [NSmDefrag; idTag i; NSAssm])); [intros ?? [= ?%(inj idTag)]|]; done.
  - destruct (router p); [|by repeat constructor]. split; [apply NoDup_singleton|by repeat constructor].
Qed.

Lemma listenerMetrics_sound ns c : sound ns (listenerMetrics interval now ns c).1.
Proof. reading. Qed.
Lemma processorMetrics_sound ns c : sound ns (processorMetrics interval now ns c).1.
Proof. reading. Qed.
Lemma shardMetrics_sound ns c : sound ns (shardMetrics interval now ns c).1.
Proof. reading. Qed.
Lemma assemblerMetrics_sound ns c : sound ns (assemblerMetrics interval now ns c).1.
Proof. reading. Qed.
Lemma routerMetrics_sound ns c : sound ns (routerMetrics interval now ns c).1.
Proof. reading. Qed.
Lemma outputMetrics_sound ns c : sound ns (outputMetrics interval now ns c).1.
Proof. reading. Qed.
Lemma instanceCount_sound ns n : sound ns [instanceCount interval now ns n].
Proof. reading. Qed.
Lemma assemblerManagerMetrics_sound ns n d : sound ns (assemblerManagerMetrics interval now ns n d).
Proof. reading. Qed.
#[local] Hint Resolve queueMetrics_sound shardMetrics_sound assemblerMetrics_sound routerMetrics_sound outputMetrics_sound
  instanceCount_sound assemblerManagerMetrics_sound : readings.

(** The readings of the pairs, the shards' first. *)
Lemma concat_pairs {A B} (f g : A -> list B) (l : list A) :
  concat (map f l) ++ concat (map g l) ≡ₚ concat (map (fun a => f a ++ g a) l).
Proof. induction l as [|a l IH]; [done|]. cbn [map concat]. rewrite <- IH. solve_Permutation. Qed.

Definition receiverGroups (p : ReceiverPipeline) : list (list Metric) :=
  let tags := rTags p in
  map (fun l => (readListener interval now tags l).1) (listeners p) ++
  [[instanceCount interval now (tags ++ [NSmIngest]) (length (listeners p))]] ++
  [(queueMetrics interval now (procQueue p)).1] ++
  map (fun l => (readProcessor interval now tags l).1) (processors p) ++
  [[instanceCount interval now (tags ++ [NSProc]) (length (processors p))]] ++
  map (fun l => (shardMetrics interval now (tags ++ [NSmDefrag; idTag l.1; NSQueue]) l.2.1).1) (pairs p) ++
  map (fun l => (assemblerMetrics interval now (tags ++ [NSmDefrag; idTag l.1; NSAssm]) l.2.2).1) (pairs p) ++
  [assemblerManagerMetrics interval now (tags ++ [NSmDefrag]) (length (pairs p)) (packetDeadline p)] ++
  match router p with Some c => [(routerMetrics interval now (tags ++ [NSmFIPR]) c).1] | None => [] end ++
  [(queueMetrics interval now (outQueue p)).1] ++
  [(outputMetrics interval now (tags ++ [NSmOutput; NSWorker]) (output p)).1].
Lemma receiver_groups p : concat (receiverGroups p) ≡ₚ concat (receiverTasks interval now p).1.
Proof.
  unfold receiverGroups, receiverTasks, readEach, readIf.
  assert (forall l, (readPair interval now (rTags p) l).1 =
    (shardMetrics interval now (rTags p ++ [NSmDefrag; idTag l.1; NSQueue]) l.2.1).1 ++
    (assemblerMetrics interval now (rTags p ++ [NSmDefrag; idTag l.1; NSAssm]) l.2.2).1) as Hpair.
  { intros [i [a b]]. unfold readPair, NewCancelWithValues, AppendCtxTag. cbn [foldl fst snd]. by rewrite <- !app_assoc. }
  rewrite (map_ext _ _ Hpair).
  destruct (queueMetrics interval now (procQueue p)) as [mp qp], (queueMetrics interval now (outQueue p)) as [mo qo],
    (outputMetrics interval now _ (output p)) as [mw ow], (router p) as [c|];
    [destruct (routerMetrics interval now _ c) as [mr cr]|]; cbn [fst];
    repeat (rewrite !concat_app || cbn [concat app]); rewrite <- concat_pairs, ?app_nil_r, <- ?app_assoc; done.
Qed.
Lemma receiver_readings p : receiverNamed p -> Forall2 sound (map (app (rTags p)) (concat (receiverNamespaces p))) (receiverGroups p).
Proof.
  intros N. unfold receiverGroups, receiverNamespaces. cbn [concat]. rewrite app_nil_r, !map_app, !map_map. cbn [map].
  rewrite (queueTag_drop _ _ _ (rn_procQueue _ N)), (queueTag_drop _ _ _ (rn_outQueue _ N)).
  repeat apply Forall2_app; try (apply Forall2_readings; intros f _);
    try (apply Forall2_cons; split; [|by apply Forall2_nil]); try solve [auto with readings].
  - destruct f as [i c]. unfold readListener, NewCancelWithValues, AppendCtxTag. cbn [foldl fst snd]. rewrite <- !app_assoc. apply listenerMetrics_sound.
  - destruct f as [i c]. unfold readProcessor, NewCancelWithValues, AppendCtxTag. cbn [foldl fst snd]. rewrite <- !app_assoc. apply processorMetrics_sound.
  - destruct (router p); [|by apply Forall2_nil]. apply Forall2_cons. split; [apply routerMetrics_sound|by apply Forall2_nil].
Qed.
Lemma receiver_proper p : receiverNamed p -> Forall proper (map (app (rTags p)) (concat (receiverNamespaces p))).
Proof.
  intros N. pose proof (rn_procQueue _ N) as Hp. pose proof (rn_outQueue _ N) as Ho.
  pose proof (tagged_proper _ (rn_tags _ N)) as Ht.
  unfold receiverNamespaces. cbn [concat]. rewrite app_nil_r, !map_app, !map_map. cbn [map].
  rewrite (queueTag_drop _ _ _ Hp), (queueTag_drop _ _ _ Ho).
  apply queueTag_proper in Hp; [|by apply Ht; repeat constructor; plain]. apply queueTag_proper in Ho; [|by apply Ht; repeat constructor; plain].
  destruct (router p); cbn [map]; repeat (apply Forall_app; split);
    try lazymatch goal with |- Forall _ (map _ _) => apply Forall_fmap, Forall_forall; intros f Hf end; try (by apply Forall_nil); try lazymatch goal with |- Forall _ [_] => apply Forall_singleton end; try done;
    apply Ht; repeat constructor; plain.
Qed.
Lemma receiver_told_apart p : receiverNamed p -> toldApart (receiverTasks interval now p).1.
Proof.
  intros N. exists (map (app (rTags p)) (concat (receiverNamespaces p))), (receiverGroups p). split_and!;
    [apply receiver_groups|by apply receiver_readings|by apply receiver_proper|].
  apply NoDup_fmap_2; [by intros ?? ?%app_inv_head|by apply receiver_namespaces].
Qed.
End keys.

(* ------------------------------------------------------------------ *)
(** * What is found of the ticks                                        *)
(* ------------------------------------------------------------------ *)

Lemma writtenIn_none interval retention k ticks ts :
  ts ∉ map (fun t : gotime * list (list Metric) => Truncate t.1 interval) ticks ->
  writtenIn interval retention k ticks ts = [].
Proof.
  revert k. induction ticks as [|t ticks IH]; intros k; [done|]. cbn [map writtenIn].
  intros [H1 H2]%not_elem_of_cons. rewrite (proj2 (Z.eqb_neq _ _)) by congruence. by apply IH.
Qed.
Lemma writtenIn_once interval retention k ticks i now batches :
  NoDup (map (fun t => Truncate t.1 interval) ticks) -> ticks !! i = Some (now, batches) ->
  writtenIn interval retention k ticks (Truncate now interval) =
    if pruned retention (k + i) (drop i ticks) (Truncate now interval) then [] else concat batches.
Proof.
  revert k i. induction ticks as [|[now' b] ticks IH]; intros k i Hnd Ht; [done|].
  cbn [map fst snd] in *. apply NoDup_cons in Hnd as [Hn Hnd]. destruct i as [|i].
  - injection Ht as -> ->. cbn [writtenIn drop fst snd]. rewrite Z.eqb_refl, Nat.add_0_r, writtenIn_none, app_nil_r by done.
    by destruct (pruned _ _ _ _).
  - cbn [writtenIn drop fst snd]. rewrite <- Nat.add_succ_comm, <- IH by done.
    rewrite (proj2 (Z.eqb_neq _ _)); [done|]. intros E. apply Hn. rewrite E.
    apply list_elem_of_fmap. exists (now, batches). split; [done|]. by eapply list_elem_of_lookup_2.
Qed.
Lemma inPeriod_self ts : inPeriod ts ts ts = true.
Proof. unfold inPeriod. by rewrite Z.ltb_irrefl, !andb_false_r. Qed.

(** What was read at a tick of its own slice is found again, one metric for
    every name and name space, until a retention check removes the slice. *)
Lemma tick_found `{MO : MapOrder} interval retention ticks i now batches m :
  NoDup (map (fun t => Truncate t.1 interval) ticks) -> ticks !! i = Some (now, batches) ->
  toldApart batches -> m ∈ concat batches ->
  let ts := Truncate now interval in ts <> zeroTime ->
  let found := Search (metName m) (metNamespace m) ts ts (collected interval retention ticks) in
  forall m', m' ∈ found /\ metNamespace m' = metNamespace m <->
    m' = m /\ pruned retention i (drop i ticks) ts = false.
Proof.
  intros Hnd Ht Hk Hm ts Hz found m'. subst found. destruct (toldApart_elem _ _ Hk Hm) as (Hkeys & [Hne Hsl] & Hname).
  pose proof (writtenIn_once interval retention 0 ticks i now batches Hnd Ht) as Hw. fold ts in Hw. cbn [Nat.add] in Hw.
  rewrite Search_elem. split.
  - intros [(ts' & ns & n & Hl & Hp & _ & Hn) Hns].
    assert (ts' = ts) as ->.
    { unfold inPeriod, isZeroTime in Hp. rewrite (proj2 (Z.eqb_neq _ _) Hz) in Hp. cbn in Hp.
      apply andb_true_iff in Hp as [?%negb_true_iff%Z.ltb_ge ?%negb_true_iff%Z.ltb_ge]. lia. }
    destruct (lastWith_elem _ _ _ _ Hl) as [_ [= <- <-]]. rewrite Hw, Hns in Hl.
    destruct (pruned _ _ _ _); [done|].
    destruct Hn as [Hn|Hn]; [done|]. rewrite Hn, lastWith_unique in Hl by done. split; [congruence|done].
  - intros [-> Hp]. split; [|done]. exists ts, (joinNS (metNamespace m)), (metName m). rewrite Hw, Hp.
    split_and!; [by apply lastWith_unique|apply inPeriod_self| |by right]. unfold joinNS. by rewrite split_join.
Qed.

(** C25: what the sender's gatherer reads is found again until the retention
    removes it. If the tags have no slash, the instances of a stage have
    different numbers and the files different base names, then of the ticks of
    a run, each of which has a time slice of its own, a search for the name
    space, the name and the slice of anything that a tick read finds, in that
    name space, this reading and no other, unless a retention check (every
    30th tick of the run) since has found the slice older than the retention,
    and then nothing; so everything is found of a run within the
    retention. *)
Theorem sender_readings_found `{MO : MapOrder} interval retention (run : list (gotime * SenderPipeline)) i now p m :
  let ticks := map (fun t => (t.1, (senderTasks interval t.1 t.2).1)) run in
  NoDup (map (fun t => Truncate t.1 interval) run) -> run !! i = Some (now, p) -> senderNamed p ->
  m ∈ concat (senderTasks interval now p).1 -> Truncate now interval <> zeroTime ->
  let ts := Truncate now interval in
  let found := Search (metName m) (metNamespace m) ts ts (collected interval retention ticks) in
  (forall m', m' ∈ found /\ metNamespace m' = metNamespace m <->
     m' = m /\ pruned retention i (drop i ticks) ts = false) /\
  (Forall (fun t => timeSub t.1 ts <= retention) run -> m ∈ found).
Proof.
  intros ticks Hnd Hp N Hm Hz.
  pose proof (tick_found interval retention ticks i now (senderTasks interval now p).1 m
    ltac:(subst ticks; by rewrite map_map)
    ltac:(subst ticks; change map with (@fmap list _); by rewrite list_lookup_fmap, Hp)
    ltac:(by apply sender_told_apart) Hm Hz) as H.
  split; [exact H|]. intros Hr. refine (proj1 (proj2 (H m) _)). split; [done|].
  apply pruned_recent, Forall_drop. subst ticks. by apply Forall_map.
Qed.

(** What the receiver's gatherer reads is found again until the retention
    removes it: as for the sender, if the tags have no slash and the instances
    of a stage have different numbers. *)
Theorem receiver_readings_found `{MO : MapOrder} interval retention (run : list (gotime * ReceiverPipeline)) i now p m :
  let ticks := map (fun t => (t.1, (receiverTasks interval t.1 t.2).1)) run in
  NoDup (map (fun t => Truncate t.1 interval) run) -> run !! i = Some (now, p) -> receiverNamed p ->
  m ∈ concat (receiverTasks interval now p).1 -> Truncate now interval <> zeroTime ->
  let ts := Truncate now interval in
  let found := Search (metName m) (metNamespace m) ts ts (collected interval retention ticks) in
  (forall m', m' ∈ found /\ metNamespace m' = metNamespace m <->
     m' = m /\ pruned retention i (drop i ticks) ts = false) /\
  (Forall (fun t => timeSub t.1 ts <= retention) run -> m ∈ found).
Proof.
  intros ticks Hnd Hp N Hm Hz.
  pose proof (tick_found interval retention ticks i now (receiverTasks interval now p).1 m
    ltac:(subst ticks; by rewrite map_map)
    ltac:(subst ticks; change map with (@fmap list _); by rewrite list_lookup_fmap, Hp)
    ltac:(by apply receiver_told_apart) Hm Hz) as H.
  split; [exact H|]. intros Hr. refine (proj1 (proj2 (H m) _)). split; [done|].
  apply pruned_recent, Forall_drop. subst ticks. by apply Forall_map.
Qed.

(* ------------------------------------------------------------------ *)
(** * What a queue's counters tell                                      *)
(* ------------------------------------------------------------------ *)

(** A push and a pop of [mpmc] as the counters see them, the change of the
    size, the switch to the new ring and the reading of a tick. *)
Inductive QueueEvent :=
  | Pushed (size : Z)
  | PushedFull
  | Popped (size : Z)
  | PopEmpty
  | Resized (capacity : Z)
  | Switched
  | Collected.

Definition countPush (size : Z) (c : QueueCounters) : QueueCounters :=
  mkQueueCounters (qcCapacity c) (qcDepth c + 1) (qcBytes c + size) (PushAttempts c + 1) (PushSuccess c + 1) (PushCASRetries c)
    (PushSeqBehindTail c) (PushStaleRetries c) (PopAttempts c) (PopSuccess c) (PopCASRetries c) (PopEmptySeqBehind c) (PopStaleRetries c).
Definition countFull (c : QueueCounters) : QueueCounters :=
  mkQueueCounters (qcCapacity c) (qcDepth c) (qcBytes c) (PushAttempts c + 1) (PushSuccess c) (PushCASRetries c)
    (PushSeqBehindTail c + 1) (PushStaleRetries c) (PopAttempts c) (PopSuccess c) (PopCASRetries c) (PopEmptySeqBehind c) (PopStaleRetries c).
Definition countPop (size : Z) (c : QueueCounters) : QueueCounters :=
  mkQueueCounters (qcCapacity c) (qcDepth c - 1) (qcBytes c - size) (PushAttempts c) (PushSuccess c) (PushCASRetries c)
    (PushSeqBehindTail c) (PushStaleRetries c) (PopAttempts c + 1) (PopSuccess c + 1) (PopCASRetries c) (PopEmptySeqBehind c) (PopStaleRetries c).
Definition countEmpty (c : QueueCounters) : QueueCounters :=
  mkQueueCounters (qcCapacity c) (qcDepth c) (qcBytes c) (PushAttempts c) (PushSuccess c) (PushCASRetries c)
    (PushSeqBehindTail c) (PushStaleRetries c) (PopAttempts c) (PopSuccess c) (PopCASRetries c) (PopEmptySeqBehind c + 1) (PopStaleRetries c).
Definition onInstance (f : QueueCounters -> QueueCounters) (i : QueueInstance) : QueueInstance :=
  mkQueueInstance (qNamespace i) (f (qCounters i)).
(** Pushes go to [ActiveWrite], pops to [ActiveRead]. *)
Definition onWrite (f : QueueCounters -> QueueCounters) (q : Queue) : Queue :=
  mkQueuePair (onInstance f (activeWrite q)) (otherRead q).
Definition onRead (f : QueueCounters -> QueueCounters) (q : Queue) : Queue :=
  match otherRead q with
  | Some r => mkQueuePair (activeWrite q) (Some (onInstance f r))
  | None => onWrite f q
  end.

(** The queue and the readings so far. *)
Definition queueStep (interval now : Z) (s : Queue * list Metric) (e : QueueEvent) : Queue * list Metric :=
  let '(q, read) := s in
  match e with
  | Pushed size => (onWrite (countPush size) q, read)
  | PushedFull => (onWrite countFull q, read)
  | Popped size => (onRead (countPop size) q, read)
  | PopEmpty => (onRead countEmpty q, read)
  | Resized capacity => (mutateQueue capacity q, read)
  | Switched => (switchRead q, read)
  | Collected => let '(ms, q) := queueMetrics interval now q in (q, read ++ ms)
  end.

(** The sum of the values that were read under a name. *)
Definition reported (name : gostring) (ms : list Metric) : Z :=
  foldr (fun m s => if bool_decide (metName m = name) then default 0 (asUint64 (metRaw m)) + s else s) 0 ms.
Definition inRings (f : QueueCounters -> Z) (q : Queue) : Z :=
  f (qCounters (activeWrite q)) + match otherRead q with Some r => f (qCounters r) | None => 0 end.
(** How often something happened. *)
Definition occurred (kind : QueueEvent -> bool) (es : list QueueEvent) : Z := len (List.filter kind es).
Definition isPushed (e : QueueEvent) : bool := match e with Pushed _ => true | _ => false end.
Definition isPushedFull (e : QueueEvent) : bool := match e with PushedFull => true | _ => false end.
Definition isPopped (e : QueueEvent) : bool := match e with Popped _ => true | _ => false end.
Definition isPopEmpty (e : QueueEvent) : bool := match e with PopEmpty => true | _ => false end.
Definition isSwitched (e : QueueEvent) : bool := match e with Switched => true | _ => false end.

(** A counter that one kind of event raises, and the name it is read under. *)
Record tally := mkTally { tField : QueueCounters -> Z; tName : gostring; tEvent : QueueEvent -> bool }.
Definition tallies : list tally :=
  [mkTally PushSuccess (str "push_success") isPushed; mkTally PushSeqBehindTail (str "push_seq_behind_tail") isPushedFull;
   mkTally PopSuccess (str "pop_success") isPopped; mkTally PopEmptySeqBehind (str "pop_empty_seq_behind") isPopEmpty].

Lemma reported_app name ms ms' : reported name (ms ++ ms') = reported name ms + reported name ms'.
Proof. unfold reported. induction ms as [|m ms IH]; [done|]. cbn. rewrite IH. case_bool_decide; lia. Qed.
Lemma reported_other name interval now ns type n d v u ms :
  bool_decide (str n = name) = false -> reported name (reading interval now ns type n d v u :: ms) = reported name ms.
Proof. intros H. unfold reported. cbn. by rewrite H. Qed.
Lemma reported_this name interval now ns type n d v u ms :
  bool_decide (str n = name) = true -> reported name (reading interval now ns type n d (RawUint64 v) u :: ms) = v + reported name ms.
Proof. intros H. unfold reported. cbn. by rewrite H. Qed.
Definition nonneg (f : QueueCounters -> Z) (q : Queue) : Prop :=
  0 <= f (qCounters (activeWrite q)) /\ match otherRead q with Some r => 0 <= f (qCounters r) | None => True end.
Lemma agg_small f q : nonneg f q -> inRings f q < 2 ^ 64 ->
  foldl (fun s c => wrapU 64 (s + f c)) 0
    (qCounters (activeWrite q) :: match otherRead q with Some r => [qCounters r] | None => [] end) = inRings f q.
Proof.
  unfold nonneg, inRings. intros [H1 H2] H. destruct (otherRead q); cbn [foldl]; rewrite !wrapU_small; try lia.
  all: rewrite ?wrapU_small; lia.
Qed.

(** The sum of a tick's reading of a counter. *)
Lemma reported_queue t interval now q : t ∈ tallies -> nonneg (tField t) q -> inRings (tField t) q < 2 ^ 64 ->
  reported (tName t) (queueMetrics interval now q).1 = inRings (tField t) q /\
  inRings (tField t) (queueMetrics interval now q).2 = 0 /\ nonneg (tField t) (queueMetrics interval now q).2.
Proof.
  intros Ht Hb Hq. rewrite <- (agg_small _ _ Hb Hq). clear Hb Hq. unfold inRings, nonneg.
  repeat (apply elem_of_cons in Ht as [->|Ht]); [..|by apply elem_of_nil in Ht];
    (split; [unfold queueMetrics; cbn [fst tName tField];
             repeat first [rewrite reported_other by (vm_compute; reflexivity) | rewrite reported_this by (vm_compute; reflexivity)];
             cbn [reported foldr]; by rewrite Z.add_0_r
            |unfold queueMetrics; cbn; destruct (otherRead q); cbn; lia]).
Qed.

(** What an event does to a counter. *)
Lemma inRings_step t interval now q read e q' read' : t ∈ tallies ->
  queueStep interval now (q, read) e = (q', read') -> nonneg (tField t) q -> inRings (tField t) q < 2 ^ 64 ->
  nonneg (tField t) q' /\ reported (tName t) read <= reported (tName t) read' /\
  reported (tName t) read' + inRings (tField t) q' <= reported (tName t) read + inRings (tField t) q + Z.b2z (tEvent t e) /\
  (isSwitched e = false ->
   reported (tName t) read' + inRings (tField t) q' = reported (tName t) read + inRings (tField t) q + Z.b2z (tEvent t e)).
Proof.
  intros Ht Hstep Hb Hq. destruct e; cbn [queueStep] in Hstep.
  7: { pose proof (reported_queue t interval now q Ht Hb Hq) as (H1 & H2 & H3).
       destruct (queueMetrics interval now q) as [ms q2]. injection Hstep as <- <-. cbn [fst snd] in *. rewrite reported_app.
       assert (tEvent t Collected = false) as -> by (repeat (apply elem_of_cons in Ht as [->|Ht]; [done|]); by apply elem_of_nil in Ht).
       cbn. destruct Hb. unfold inRings in *. split_and!; [done|destruct (otherRead q); lia|lia|lia]. }
  all: injection Hstep as <- <-; clear Hq; unfold nonneg, inRings in *;
    repeat (apply elem_of_cons in Ht as [->|Ht]); try (by apply elem_of_nil in Ht);
    destruct q as [w [r|]]; cbn in *; lia.
Qed.

(** C26: a queue's counters tell no more than what happened, and everything
    when the switch to a new ring does not come between an event and the next
    tick: whatever pushes, pops, changes of the size and ticks there are, what
    the ticks read of successful and refused pushes and of successful and
    empty pops, with what has not been read yet, is at most the number of
    such events, and is that number if there was no switch. *)
Theorem queue_counts_told interval now ns capacity es t : t ∈ tallies -> len es < 2 ^ 64 ->
  let '(q, read) := foldl (queueStep interval now) (newQueue ns capacity, []) es in
  reported (tName t) read + inRings (tField t) q <= occurred (tEvent t) es /\
  (existsb isSwitched es = false -> reported (tName t) read + inRings (tField t) q = occurred (tEvent t) es).
Proof.
  intros Ht Hes.
  assert (forall l, len l < 2 ^ 64 -> let '(q, read) := foldl (queueStep interval now) (newQueue ns capacity, []) l in
    nonneg (tField t) q /\ 0 <= reported (tName t) read /\
    reported (tName t) read + inRings (tField t) q <= occurred (tEvent t) l /\
    (existsb isSwitched l = false -> reported (tName t) read + inRings (tField t) q = occurred (tEvent t) l)) as H.
  { clear es Hes. intros l. induction l as [|e l IH] using rev_ind; intros Hl.
    - repeat (apply elem_of_cons in Ht as [->|Ht]; [done|]); by apply elem_of_nil in Ht.
    - rewrite foldl_app. cbn [foldl]. unfold len in *. rewrite length_app in Hl. cbn in Hl.
      destruct (foldl _ _ l) as [q read] eqn:E. destruct IH as (Hb & Hr & H1 & H2); [lia|].
      destruct (queueStep interval now (q, read) e) as [q' read'] eqn:Es.
      assert (occurred (tEvent t) (l ++ [e]) = occurred (tEvent t) l + Z.b2z (tEvent t e)) as Ho.
      { unfold occurred, len. rewrite List.filter_app, length_app. cbn. destruct (tEvent t e); cbn; lia. }
      assert (occurred (tEvent t) l <= len l) by (unfold occurred, len; pose proof (List.filter_length_le (tEvent t) l); lia).
      destruct (inRings_step t interval now q read e q' read') as (Hb' & Hr' & H1' & H2'); [done..|unfold len in *; lia|].
      rewrite existsb_app. cbn. split_and!; [done|lia|lia|]. intros [Hl' He]%orb_false_iff. rewrite orb_false_r in He. rewrite H2', H2; [lia|done..]. }
  specialize (H es Hes). destruct (foldl _ _ es) as [q read]. tauto.
Qed.

(* ------------------------------------------------------------------ *)
(** * Examples                                                          *)
(* ------------------------------------------------------------------ *)

Definition exampleQueue (stage : gostring) (n : Z) : Queue :=
  mkQueuePair (mkQueueInstance [str "Sender"; stage; NSQueue] (mkQueueCounters 512 n (10 * n) n n 0 0 0 0 0 0 0 0)) None.
Definition exampleSender (files : list (gostring * option SourceCounters)) : SenderPipeline :=
  mkSenderPipeline [str "Sender"] files (Some (mkSourceCounters 4 4)) None (exampleQueue NSmPack 7)
    [(0%nat, Packing.mkWorker (Packing.mkMetrics 1 2 3 4 5 6) 0 [] 0); (1%nat, Packing.mkWorker (Packing.mkMetrics 0 0 0 0 0 0) 0 [] 0)]
    (exampleQueue NSmOutput 3) [(0%nat, Sending.mkWorker (Sending.mkMetrics 1 2 3 4) 0 [])].
Definition exampleRun : list (gotime * SenderPipeline) :=
  [(65 * 10 ^ 9, exampleSender [(str "/var/log/syslog", Some (mkSourceCounters 5 4))]);
   (125 * 10 ^ 9, exampleSender [(str "/var/log/syslog", Some (mkSourceCounters 9 8))])].
Definition exampleDepth (now : gotime) : Metric :=
  reading (60 * 10 ^ 9) now [str "Sender"; NSmPack; NSQueue] Gauge_ "depth" "Current number of items in the queue" (RawUint64 7) "count".

Lemma sender_readings_found_witness :
  exampleDepth (65 * 10 ^ 9) ∈
    Search (MO := listOrder) (str "depth") [str "Sender"; NSmPack; NSQueue] (60 * 10 ^ 9) (60 * 10 ^ 9)
      (collected (60 * 10 ^ 9) exampleRetention (map (fun t => (t.1, (senderTasks (60 * 10 ^ 9) t.1 t.2).1)) exampleRun)).
Proof.
  refine (proj1 (proj2 (proj1 (sender_readings_found (MO := listOrder) (60 * 10 ^ 9) exampleRetention exampleRun 0 (65 * 10 ^ 9)
    (exampleSender [(str "/var/log/syslog", Some (mkSourceCounters 5 4))]) (exampleDepth (65 * 10 ^ 9)) _ _ _ _ _) (exampleDepth (65 * 10 ^ 9))) (conj eq_refl eq_refl))).
  - apply (bool_decide_unpack _). vm_compute. exact I.
  - reflexivity.
  - constructor; try (apply (bool_decide_unpack _); vm_compute; exact I); exists 0%nat; reflexivity.
  - apply list_elem_of_In. vm_compute. tauto.
  - apply (bool_decide_unpack _). vm_compute. exact I.
Defined.

Definition exampleReceiver : ReceiverPipeline :=
  mkReceiverPipeline [str "Receiver"] [(0%nat, mkListenerCounters 10 3 1 9 4 0); (1%nat, mkListenerCounters 10 2 0 9 4 0)]
    (mkQueuePair (mkQueueInstance [str "Receiver"; NSProc; NSQueue] (mkQueueCounters 512 5 50 5 5 0 0 0 0 0 0 0 0)) None)
    [(0%nat, mkProcessorCounters 3 1 8 4 0)] [(0%nat, (Shard.mkMetrics 100 1 0 2 30 4 3, mkAssemblerCounters 3 8 4 0))]
    (200 * 10 ^ 6) (Some (mkRouterCounters 1 1 0))
    (mkQueuePair (mkQueueInstance [str "Receiver"; NSmOutput; NSQueue] (mkQueueCounters 512 1 10 1 1 0 0 0 0 0 0 0 0)) None)
    (mkOutputCounters 3 3 0 0 0 0 0).
Definition exampleTimeouts : Metric :=
  reading (60 * 10 ^ 9) (65 * 10 ^ 9) [str "Receiver"; NSmDefrag; str "0"; NSQueue] Counter "timed_out_buckets"
    "Total buckets that did not receive all fragments of a message in the interval" (RawUint64 2) "count".
Lemma receiver_readings_found_witness :
  exampleTimeouts ∈
    Search (MO := listOrder) (str "timed_out_buckets") [str "Receiver"; NSmDefrag; str "0"; NSQueue] (60 * 10 ^ 9) (60 * 10 ^ 9)
      (collected (60 * 10 ^ 9) exampleRetention (map (fun t => (t.1, (receiverTasks (60 * 10 ^ 9) t.1 t.2).1)) [(65 * 10 ^ 9, exampleReceiver)])).
Proof.
  refine (proj1 (proj2 (proj1 (receiver_readings_found (MO := listOrder) (60 * 10 ^ 9) exampleRetention [(65 * 10 ^ 9, exampleReceiver)] 0 (65 * 10 ^ 9)
    exampleReceiver exampleTimeouts _ _ _ _ _) exampleTimeouts) (conj eq_refl eq_refl))).
  - apply (bool_decide_unpack _). vm_compute. exact I.
  - reflexivity.
  - constructor; try (apply (bool_decide_unpack _); vm_compute; exact I); exists 0%nat; reflexivity.
  - apply list_elem_of_In. vm_compute. tauto.
  - apply (bool_decide_unpack _). vm_compute. exact I.
Defined.

(** Two log files of one name in different directories have one name space:
    of a tick, only what the last one read is kept. *)
Definition exampleTwoFiles : SenderPipeline :=
  exampleSender [(str "/var/log/a/app.log", Some (mkSourceCounters 5 4)); (str "/var/log/b/app.log", Some (mkSourceCounters 1 1))].
Example files_share_a_key :
  map metRaw (Search (MO := listOrder) (str "lines_read") [str "Sender"; NSmIngest; NSoFile] (60 * 10 ^ 9) (60 * 10 ^ 9)
    (collected (60 * 10 ^ 9) exampleRetention [(65 * 10 ^ 9, (senderTasks (60 * 10 ^ 9) (65 * 10 ^ 9) exampleTwoFiles).1)])) = [RawUint64 1] /\
  length (List.filter (fun m => bool_decide (metName m = str "lines_read") && bool_decide (metNamespace m <> [str "Sender"; NSmIngest; NSoJrnl]))
    (concat (senderTasks (60 * 10 ^ 9) (65 * 10 ^ 9) exampleTwoFiles).1)) = 2%nat.
Proof. vm_compute. split; reflexivity. Qed.

(** What is counted on the old ring after the last tick before the switch is
    in no reading. *)
Example counts_lost_at_switch :
  let '(q, read) := foldl (queueStep 1 0) (newQueue [NSProc] 2, []) [Pushed 10; Resized 4; Popped 10; Switched; Collected] in
  reported (str "push_success") read = 0 /\ reported (str "pop_success") read = 0 /\ inRings PushSuccess q = 0.
Proof. vm_compute. repeat split. Qed.

Lemma queue_counts_told_witness :
  let '(q, read) := foldl (queueStep 1 0) (newQueue [NSProc] 2, []) [Pushed 10; Pushed 5; Collected; Popped 10; Collected] in
  reported (str "push_success") read + inRings PushSuccess q = 2.
Proof.
  pose proof (queue_counts_told 1 0 [NSProc] 2 [Pushed 10; Pushed 5; Collected; Popped 10; Collected]
    (mkTally PushSuccess (str "push_success") isPushed) ltac:(left) ltac:(reflexivity)) as H.
  vm_compute in H. exact (proj2 H eq_refl).
Defined.
